(* ===== verification/_CoqProject ===== *)
-Q . S2P
Prelude.v
Block.v
CacheLayout.v
SwapBackend.v
BlockTable.v
MemoryAllocator.v
AllocatorSpec.v
AllocatorProps.v
KVCacheManager.v
CacheAccounting.v
AllocatorMoves.v
CacheInvariant.v
CacheLemmas.v
CacheLifecycle.v
CacheGrowth.v
CacheWrite.v
CacheSwap.v
CacheRecords.v
CacheRelease.v
CachePrefix.v
CacheProps.v
CacheViews.v
CacheSharing.v
CacheDemo.v
Scheduler.v
SchedulerPlan.v
SchedulerInvariant.v
SchedulerAdmission.v
SchedulerPreemption.v
SchedulerLoops.v
SchedulerSteps.v
SchedulerFit.v
SchedulerProps.v
SchedulerDemo.v
PagedAttention.v
AttentionLoops.v
AttentionCache.v
AttentionGroups.v
AttentionProps.v
AttentionFused.v
AttentionOptimized.v
AttentionExact.v
AttentionEquiv.v
AttentionDemo.v
TraceReplay.v
SchedulerKeys.v
CacheClient.v
CacheFrames.v
PagedReplay.v
PagedInvariant.v
PagedSteps.v
PagedDecode.v
PagedRun.v
PagedProps.v
PagedCalm.v
PagedLive.v
ContiguousReplay.v
ContiguousRuns.v
ContiguousProps.v
TraceProps.v
Throws.v
Npy.v
GoldenExport.v
FloatBlocks.v
GoldenFill.v
GoldenCheck.v
GoldenProps.v
GoldenExported.v
ReplayMain.v
ReplayMainProps.v
ReplayMainRuns.v
Bindings.v
Stats.v
Roofline.v
Benchmarks.v
BenchCycles.v
BenchProps.v
RooflineFill.v
RooflineStreams.v
RooflineProps.v
