(* ===== verification/Prelude.v ===== *)
(** * QwenVL-Paged: a paged key/value cache, verified

    The repository is a C++ memory subsystem for serving a vision-language model: a
    pool of fixed-size frames, block tables that map a sequence's logical blocks to
    frames, copy on write and prefix sharing, eviction to a swap store, a continuous
    batcher that admits, preempts and resumes requests, attention kernels that read
    the cache through its tables, and a trace replay that measures it all against a
    contiguous baseline. This library models those parts from the source and proves
    what makes them correct.

    ** Reading the model

    Every definition follows one function or one block of a function of the source and
    keeps its name. Unsigned integers are [Z] with the wrap-around written out ([u32],
    [u64], and the operators of [word_scope]); a vector is a list; an [unordered_map]
    is a [gmap]. A computation that can reach undefined behaviour (an unchecked index,
    a copy outside the slab, a null pointer) returns [option], and [None] means just
    that, or, in the few loops with fuel, that the fuel ran out; [runs m Q] says that
    [m] is defined and its result satisfies [Q], so every specification of the form
    [runs] is a proof that the undefined cases are not reached and the fuel suffices.
    Objects that point to one another are nested: the scheduler's state holds the
    manager's, which holds the allocator's, which holds the swap backend's.

    ** The parts

    - [Prelude]: machine integers, loops as folds ([foldM], [for_each], [loop]), sums
      over lists and maps, and the tactics and lemmas the rest shares.
    - [Block] ([Block.h], [Block.cpp]), [CacheLayout] ([CacheLayout.h/.cpp]): shapes,
      sizes, and the offset of an element in a frame.
    - [SwapBackend] ([SwapBackend.h/.cpp]): the abstract class as the type class
      [SwapBackend], its contract as the class [SwapBackendLaws], the host-memory store
      as the instance. Everything above is proved against the laws.
    - [BlockTable] ([BlockTable.h/.cpp]): the sorted vector of entries.
    - [MemoryAllocator] ([MemoryAllocator.h/.cpp]); [AllocatorSpec] is the abstract pool
      (reference counts, frame contents, swapped blocks), [AllocatorProps] its
      refinement and the pool's invariant [alloc_inv].
    - [KVCacheManager] ([KVCacheManager.h/.cpp]): sequences, growth, copy on write, swap,
      prefixes, views. [CacheAccounting] and [AllocatorMoves] count references and move
      blocks; [CacheInvariant] states [mgr_wf], [CacheLemmas] has the ways an operation
      changes a component of the state; [CacheLifecycle], [CacheGrowth], [CacheWrite],
      [CacheSwap], [CacheRecords], [CacheRelease] and [CachePrefix] specify the
      operations one group each; [CacheProps], [CacheViews] and [CacheSharing] hold the
      theorems, [CacheDemo] the concrete pools their witnesses run on.
    - [Scheduler] ([Scheduler.h/.cpp]): queues, admission, chunked prefill, decode,
      preemption, resumption, cancellation. [SchedulerPlan], [SchedulerInvariant],
      [SchedulerAdmission], [SchedulerPreemption], [SchedulerLoops] and
      [SchedulerSteps] carry the invariant [sched_wf] through each operation,
      [SchedulerFit] shows that a batch that fits is admitted;
      [SchedulerProps] and [SchedulerDemo] hold theorems and witnesses.
    - [PagedAttention] ([PagedAttention.h]): the reference, blocked, fused and online
      decode kernels over an arithmetic given by the classes [FloatOps] and [Element];
      binary32 is the instance. [AttentionLoops], [AttentionCache], [AttentionProps] and
      [AttentionDemo] relate the reference and the blocked kernel
      to attention on vectors. The fused and the online kernel serve all query heads of
      a group in one walk: [AttentionGroups] has the flat vectors they keep,
      [AttentionFused] their loops as pure steps, [AttentionOptimized] the kernels over
      a view, [AttentionExact] the class of exact arithmetics and the argument for the
      running maximum, [AttentionEquiv] the equivalences; [AttentionDemo] also has the
      extended reals as the arithmetic that satisfies the class.
    - [TraceReplay], [PagedReplay], [ContiguousReplay]
      ([tools/trace_replay/TraceReplay.h/.cpp]): loading a trace, driving it through
      the scheduler, the manager and the host swap store, the contiguous baseline, and
      the rows of the report. [TraceProps] verifies the loader, [ContiguousRuns] and
      [ContiguousProps] the baseline.
    - The paged replay composes every part above it. [SchedulerKeys] follows the ids
      and keys the scheduler's sequences carry, [CacheClient] states what the calls the
      replay makes keep of a cache it shares with the scheduler, [PagedInvariant] is the
      invariant [replay_wf] of the loop (the replay's own tables agree with the
      scheduler's queues and the manager's sequences), [PagedSteps] and [PagedDecode]
      carry it through the prefill and the decode side of a step, [PagedRun] through
      a step and the run, and [PagedProps] draws the conclusion.
    - Its progress is a second layer over that invariant. [CacheFrames] counts the
      frames a request's sequences hold between them when they share the spine of a
      prompt ([laid]), and what a write, a fork and a growth add to it. [PagedCalm] has
      the invariant [calm] of a run that never meets an empty pool, carried through
      prefill and decode, and the measure [todo]; [PagedLive] carries it through
      admission and the step, and concludes.
    - [GoldenExport] ([tools/golden_export/main.cpp]): the fixtures other backends are
      validated against. [Throws] is the monad of its exceptions, [Npy] the bytes of
      its files. [FloatBlocks] reads a block as an array of floats, [GoldenFill] follows
      the writes through copy on write, [GoldenProps] says what a filled sequence
      stores, [GoldenCheck] verifies the exporter's own check, [GoldenExported] holds
      the theorems and runs the scenarios.
    - [ReplayMain] ([tools/trace_replay/main.cpp]): the command line of the replay, from
      the arguments through [strtoul] and the rules for pool sizes to the report it
      prints. The contents of the trace file and the writing of the CSV file are
      parameters. [ReplayMainProps] verifies the parser, [ReplayMainRuns] the program.
    - [Bindings] ([python/bindings.cpp]): the checks and loops of the functions Python
      calls, over buffers with their sizes and memory, with the theorems about the
      adoption of a buffer and the decode oracle.
    - [Stats] ([bench/Stats.h], [bench/Env.h]) and [Benchmarks]
      ([bench/benchmark_main.cpp]): the allocator benchmark, from its options to its
      rows. The clock is a parameter, the sequence of its readings. [BenchCycles] verifies
      the bodies it times, [BenchProps] the program.
    - [Roofline] ([bench/roofline_main.cpp]): the roofline benchmark as it is built without
      AVX-512, the streams, the caches it fills, the kernels it times on them, its rows
      and its command line. The number of OpenMP threads and the order of their
      iterations is a parameter, which [interleaves] constrains. [RooflineFill] follows
      the vectors [fill_sequence] writes through a cache whose frames one sequence owns,
      [RooflineStreams] verifies the triad, [RooflineProps] the fill and the program.

    ** What is shown

    - Refinement: any sequence of allocator operations is one of the abstract pool; any
      operation of the manager is one of a cache in which every sequence owns private
      blocks and nothing is paged, shared or swapped; the block table is a finite map.
    - Invariants: reference counts are exactly the entries and prefixes that refer to a
      frame, in every reachable state; the scheduler's queues are disjoint, its
      lifetime accounting exact, its active requests resident.
    - Safety: a frame handed out for writing has one owner; a plan stays within its
      budget and names only active requests in the right phase; scheduling loses and
      invents no request and changes nothing a sequence stores.
    - Function: the address a view returns holds the bytes the sequence stores; the
      decode step computes the attention of those vectors; the blocked kernel equals
      the reference bit for bit; the fused kernel equals it through reciprocals, bit for
      bit; the online kernel equals it in exact arithmetic; placement does not matter.
      A fixture's output is the attention over the pattern that was written.
    - Round trips: offsets, swapping out and in, preemption and resumption, store and
      load. Bounds and errors: what each refusal requires and that it changes nothing.
    - Progress: a batch of requests that fits the pool and the budget is admitted whole by
      one call, and nothing is preempted for it.
    - The whole run: replaying any trace of distinct, non-empty requests is defined from
      end to end, stops within the step limit, and when every request completed no
      block of the pool and no slot of the swap store is left in use.
    - Progress of the run: on a pool at least as large as [suggested_pool_blocks] proposes
      the replay completes every request, forks and copies on write included, without
      preempting one.
    - The contiguous baseline: first fit finds the lowest run, reservations are disjoint,
      a run completes within one step per request and token, and returns every block; it
      serves exactly the requests whose prompt and budget fit the longest context and the
      pool, and counts the others, prompts that fit included.
    - The programs around the library: the options of the replay's command line are read
      back as they were spelled and fit the types of the configuration, and the program
      prints a report for every trace that loads; the decode oracle of the Python module
      computes attention over the caller's arrays or refuses and leaves them alone; a
      contiguous buffer becomes a fresh pool inside it; the allocator benchmark never
      gives up, and every iteration of what it times leaves the pool free;
      the roofline benchmark fills every cache it needs, each of its kernels succeeds,
      and its rows state exactly the traffic of what they name; its parallel triad is the
      sequential one in every order of the threads.
    - Where the code departs from what it says, a theorem shows it on a concrete state
      ([cancel_preempted_undercounts], [planned_request_preempted],
      [reserve_tokens_wraps], [publish_second_key_stale], [prefix_hit_without_sharing],
      [reversed_buffer_overruns]), or the exact behaviour does ([parse_args_spelled]
      narrows a number to 32 bits, [contiguous_run_exact] counts budgets with prompts).
      The cases that break an invariant are excluded from it: the cache is not published
      under a second key ([cache_op_ok]), the scheduler does not cancel a preempted
      request ([sched_op_ok]).

    ** Bounds and fuel

    Hypotheses such as [sched_room], [reserve_ok] or [replay_ok] say that counters stay
    within their machine types and that the backend has slot ids left; they are
    explicit because the code does not check them. [replay_ok] bounds a trace to 4096
    requests (the index of the percentile is computed in doubles, and checked for each
    of these counts by evaluation) and its sizes to what keeps the 32-bit counters of
    the replay from wrapping. Fuel appears in four loops:
    [reclaim_loop] (one unit per active request, each iteration removes one),
    [admit_loop] (one per pending request), the contiguous admission and decode loops
    (one per request and per reservation), and the replay loops (the step limit of the
    configuration, which the code also has). The specifications show that it suffices.

    ** Not modelled

    - Parameters: the aligned allocation of the library, the client's copy hook and
      eviction selector, the exponential of the C library, the JSON parser. Each is an
      argument of the definitions that use it.
    - The AVX-512 branches of the attention kernels and of the roofline benchmark call
      vendor intrinsics; the model is of the portable branches. The conversion of a float
      out of the range of an integer type, which C++ leaves undefined, is a parameter.
    - Deallocation of the pool (the destructor) and thread safety: the classes are used
      from one thread.
    - The formatting of numbers in the rows of the benchmarks, the tables they print, the
      pinning to processors and the reading of the machine's state, and the Python and
      Triton tools.
    - Of the Python module, the conversions and the object lifetimes of pybind11.
    - Of the golden exporter, the directory and the streams the files are written to. *)
From stdpp Require Export prelude gmap fin_maps strings list.
From Stdlib Require Export ZArith Lia.
From Stdlib Require Import Strings.Byte.
From Stdlib Require Export Sorting.Sorted.

#[global] Open Scope Z_scope.

(** ** Machine integers *)

Definition W32 : Z := 4294967296.
Definition W64 : Z := 18446744073709551616.

(** Conversion to [std::uint32_t] and to [std::uint64_t] / [std::size_t]. *)
Definition u32 (z : Z) : Z := z mod W32.
Definition u64 (z : Z) : Z := z mod W64.

(** The values of the two unsigned types. *)
Definition is_u32 (z : Z) : Prop := 0 <= z < W32.
Definition is_u64 (z : Z) : Prop := 0 <= z < W64.

Declare Scope word_scope.
Delimit Scope word_scope with word.
(** 32-bit arithmetic, with the wrap-around of unsigned operations. *)
Notation "x ⊞ y" := (u32 (x + y)) (at level 50, left associativity) : word_scope.
Notation "x ⊟ y" := (u32 (x - y)) (at level 50, left associativity) : word_scope.
Notation "x ⊠ y" := (u32 (x * y)) (at level 40, left associativity) : word_scope.
(** 64-bit arithmetic. *)
Notation "x ⊕ y" := (u64 (x + y)) (at level 50, left associativity) : word_scope.
Notation "x ⊗ y" := (u64 (x * y)) (at level 40, left associativity) : word_scope.
#[global] Open Scope word_scope.

(** ** Partial computations

    [None] is undefined behaviour of the C++ program (an unchecked index out of
    range, a copy through a null pointer) or a loop cut short. [runs m Q] says
    that [m] is defined and its result satisfies [Q]. *)
Definition runs {A} (m : option A) (Q : A → Prop) : Prop :=
  match m with Some x => Q x | None => False end.

Section Loops.
Context {A S : Type} (f : S → A → option S).
(** A range-based [for] whose body threads the state [S]. *)
Fixpoint foldM (s : S) (l : list A) : option S :=
  match l with
  | [] => Some s
  | x :: l' => s' ← f s x; foldM s' l'
  end.
End Loops.

Section LoopsInPlace.
Context {S A : Type} (f : S → A → option (bool * S * A)).
(** A loop over references to the elements of a vector. The body threads the
    state, rewrites the element, and leaves the loop with [false]. *)
Fixpoint for_each (s : S) (l : list A) : option (bool * S * list A) :=
  match l with
  | [] => Some (true, s, [])
  | x :: l' =>
    '(go, s1, y) ← f s x;
    if go : bool then '(r, s2, k) ← for_each s1 l'; Some (r, s2, y :: k)
    else Some (false, s1, y :: l')
  end.
End LoopsInPlace.

Section LoopsWithReturn.
Context {S A : Type} (f : S → A → option (bool * S)).
(** A loop whose body threads the state and leaves the function with [false]. *)
Fixpoint loop (s : S) (l : list A) : option (bool * S) :=
  match l with
  | [] => Some (true, s)
  | x :: l' => '(go, s') ← f s x; if go : bool then loop s' l' else Some (false, s')
  end.
End LoopsWithReturn.

(** Elements of a vector by index: undefined out of range. *)
Definition vec_get {A} (l : list A) (i : Z) : option A :=
  if 0 <=? i then l !! Z.to_nat i else None.
Definition vec_set {A} (l : list A) (i : Z) (x : A) : option (list A) :=
  if (0 <=? i) && (i <? Z.of_nat (length l)) then Some (<[Z.to_nat i := x]> l) else None.

(** ** Counting *)

(** Number of occurrences of [x] in [l]. *)
Fixpoint zcount (x : Z) (l : list Z) : Z :=
  match l with
  | [] => 0
  | y :: l' => (if decide (x = y) then 1 else 0) + zcount x l'
  end.

Fixpoint zsum {A} (f : A → Z) (l : list A) : Z :=
  match l with [] => 0 | x :: l' => f x + zsum f l' end.

Section MapSum.
Context {K V : Type} `{Countable K}.
Definition map_zsum (f : K → V → Z) (m : gmap K V) : Z :=
  map_fold (λ k x acc, f k x + acc) 0 m.
End MapSum.

(** [vector::back] with [vector::pop_back]: the rest and the last element. *)
Fixpoint pop_back {A} (l : list A) : option (list A * A) :=
  match l with
  | [] => None
  | x :: l' =>
    match pop_back l' with
    | None => Some ([], x)
    | Some (r, y) => Some (x :: r, y)
    end
  end.

(** The [n] elements from position [off], and overwriting them. *)
Definition slice {A} (off n : nat) (l : list A) : list A := take n (drop off l).
Definition splice {A} (off : nat) (k l : list A) : list A :=
  take off l ++ k ++ drop (off + length k) l.

(** [unordered_map::emplace]: no effect when the key is present. *)
Definition map_emplace {K V} `{Countable K} (k : K) (v : V) (m : gmap K V) : gmap K V :=
  match m !! k with Some _ => m | None => <[k := v]> m end.

(** The bytes of memory. *)
Abbreviation byte := Byte.byte.

(** ** Lemmas: machine integers *)

Lemma u32_small z : is_u32 z → u32 z = z.
Proof. unfold is_u32, u32. intros. by apply Z.mod_small. Qed.

Lemma u64_small z : is_u64 z → u64 z = z.
Proof. unfold is_u64, u64. intros. by apply Z.mod_small. Qed.

Lemma u32_range z : is_u32 (u32 z).
Proof. unfold is_u32, u32. by apply Z.mod_pos_bound. Qed.

Lemma u64_range z : is_u64 (u64 z).
Proof. unfold is_u64, u64. by apply Z.mod_pos_bound. Qed.

Lemma u64_mul_l x y : u64 (u64 x * y) = u64 (x * y).
Proof. unfold u64. by rewrite Z.mul_mod_idemp_l. Qed.

Lemma u64_mul_r x y : u64 (x * u64 y) = u64 (x * y).
Proof. unfold u64. by rewrite Z.mul_mod_idemp_r. Qed.

Lemma u64_add_l x y : u64 (u64 x + y) = u64 (x + y).
Proof. unfold u64. by rewrite Z.add_mod_idemp_l. Qed.

Lemma u64_add_r x y : u64 (x + u64 y) = u64 (x + y).
Proof. unfold u64. by rewrite Z.add_mod_idemp_r. Qed.

Lemma u32_add_l x y : u32 (u32 x + y) = u32 (x + y).
Proof. unfold u32. by rewrite Z.add_mod_idemp_l. Qed.

Lemma u32_add_r x y : u32 (x + u32 y) = u32 (x + y).
Proof. unfold u32. by rewrite Z.add_mod_idemp_r. Qed.

Lemma is_u32_u64 z : is_u32 z → is_u64 z.
Proof. unfold is_u32, is_u64, W32, W64. lia. Qed.

Create HintDb words.
Create Rewrite HintDb words.
#[export] Hint Resolve u32_range u64_range is_u32_u64 : words.
#[export] Hint Rewrite u64_mul_l u64_mul_r u64_add_l u64_add_r : words.

(** Arithmetic with the word predicates unfolded. *)
Ltac words := unfold is_u32, is_u64, W32, W64 in *; lia.

(** Pushes the conversions of a nest of 64-bit operations to the outside. *)
Ltac norm_words := repeat (rewrite_strat (bottomup (hints words))).

(** Removes the conversions whose argument is in range. *)
Ltac unwrap_words :=
  repeat first
    [ rewrite u32_small in * by words
    | rewrite u64_small in * by words ].

(** ** Lemmas: partial computations *)

Section Runs.
Context {A B : Type}.
Implicit Types m : option A.

Lemma runs_bind m (f : A → option B) (Q : B → Prop) :
  runs m (λ x, runs (f x) Q) → runs (m ≫= f) Q.
Proof. by destruct m. Qed.

Lemma runs_mono m (P Q : A → Prop) :
  runs m P → (∀ x, P x → Q x) → runs m Q.
Proof. destruct m; naive_solver. Qed.

Lemma runs_inv m (Q : A → Prop) : runs m Q → ∃ x, m = Some x ∧ Q x.
Proof. destruct m; simpl; [eauto | done]. Qed.

Lemma runs_intro m (Q : A → Prop) x : m = Some x → Q x → runs m Q.
Proof. by intros ->. Qed.
End Runs.

(** Opens the first computation of a bind with a specification of it. *)
Ltac run_step H := apply runs_bind; eapply runs_mono; [eapply H|].

(** A loop over two lists, one after the other. *)
Lemma foldM_app {S X} (f : S → X → option S) s l k :
  foldM f s (l ++ k) = (s' ← foldM f s l; foldM f s' k).
Proof.
  revert s. induction l as [|x l IH]; intros s; [done|]. cbn [app foldM].
  destruct (f s x); [apply IH|done].
Qed.

(** Loop rule: an invariant indexed by the elements already visited. *)
Lemma runs_foldM {A S} (f : S → A → option S) (I : list A → S → Prop) l s :
  I [] s →
  (∀ don x rest s', l = don ++ x :: rest → I don s' →
     runs (f s' x) (I (don ++ [x]))) →
  runs (foldM f s l) (I l).
Proof.
  intros H0 Hstep.
  enough (∀ rest don s', l = don ++ rest → I don s' → runs (foldM f s' rest) (I l)) as Hgen.
  { by apply (Hgen l []). }
  induction rest as [|x rest IH]; intros don s' -> HI; simpl.
  - by rewrite app_nil_r.
  - apply runs_bind. eapply runs_mono; [by eapply Hstep|].
    intros s'' HI'. apply (IH (don ++ [x])); [by rewrite <-app_assoc | done].
Qed.

(** Loop rules with an invariant indexed by the elements still to visit. *)
(** Loop rule for a body that never leaves the function. *)
Lemma runs_loop {A S} (f : S → A → option (bool * S)) (I : list A → S → Prop) l s :
  I [] s →
  (∀ don x rest s', l = don ++ x :: rest → I don s' →
     runs (f s' x) (λ '(go, s''), go = true ∧ I (don ++ [x]) s'')) →
  runs (loop f s l) (λ '(go, s'), go = true ∧ I l s').
Proof.
  intros H0 Hstep.
  enough (∀ rest don s', l = don ++ rest → I don s' →
    runs (loop f s' rest) (λ '(go, s'), go = true ∧ I l s')) as Hgen by by apply (Hgen l []).
  induction rest as [|x rest IH]; intros don s' Hl HI; simpl.
  - split; [done|]. by rewrite Hl, app_nil_r.
  - apply runs_bind. eapply runs_mono; [by eapply Hstep|]. intros [go s''] [-> HI'].
    apply (IH (don ++ [x])); [by rewrite <-app_assoc|done].
Qed.

Lemma runs_foldM_rest {A S} (f : S → A → option S) (I : list A → S → Prop) l s :
  I l s →
  (∀ x rest s', I (x :: rest) s' → runs (f s' x) (I rest)) →
  runs (foldM f s l) (I []).
Proof.
  intros HI Hstep. revert s HI. induction l as [|x l IH]; intros s HI; [done|].
  simpl. apply runs_bind. eapply runs_mono; [by apply Hstep|]. intros s'. apply IH.
Qed.

Lemma foldl_rest {A S} (f : S → A → S) (I : list A → S → Prop) l s :
  I l s →
  (∀ x rest s', I (x :: rest) s' → I rest (f s' x)) →
  I [] (foldl f s l).
Proof. intros HI Hstep. revert s HI. induction l as [|x l IH]; simpl; eauto. Qed.

(** The same for a loop that never leaves early: [ys] are the elements rewritten. *)
Lemma runs_for_each {S A} (f : S → A → option (bool * S * A))
    (I : list A → S → list A → Prop) l s :
  I l s [] →
  (∀ x rest s' ys, I (x :: rest) s' ys →
     runs (f s' x) (λ '(go, s'', y), go = true ∧ I rest s'' (ys ++ [y]))) →
  runs (for_each f s l) (λ '(go, s', ys), go = true ∧ I [] s' ys).
Proof.
  intros HI Hstep.
  enough (∀ l ys s, I l s ys →
    runs (for_each f s l) (λ '(go, s', zs), go = true ∧ I [] s' (ys ++ zs))) as Hgen.
  { by apply (Hgen l [] s). }
  clear l s HI. induction l as [|x l IH]; intros ys s HI; simpl; [by rewrite app_nil_r|].
  run_step (Hstep _ _ _ _ HI). intros [[go s1] y] [-> HI']. simpl.
  run_step (IH _ _ HI'). intros [[go s2] k] [-> HI'']. simpl.
  by rewrite <-app_assoc in HI''.
Qed.


(** ** Lemmas: counting *)

Lemma zcount_app x l k : zcount x (l ++ k) = zcount x l + zcount x k.
Proof. induction l as [|y l IH]; simpl; [done|]. rewrite IH. lia. Qed.

Lemma zcount_nonneg x l : 0 <= zcount x l.
Proof. induction l as [|y l IH]; simpl; [lia|]. case_decide; lia. Qed.

Lemma zcount_pos x l : 0 < zcount x l ↔ x ∈ l.
Proof.
  induction l as [|y l IH]; simpl; [split; [lia | by intros ?%not_elem_of_nil]|].
  rewrite elem_of_cons, <-IH. pose proof (zcount_nonneg x l).
  case_decide; subst; intuition (try lia; try congruence).
Qed.

Lemma zcount_zero x l : zcount x l = 0 ↔ x ∉ l.
Proof. rewrite <-zcount_pos. pose proof (zcount_nonneg x l). lia. Qed.

Lemma zcount_perm x l k : l ≡ₚ k → zcount x l = zcount x k.
Proof. induction 1; simpl; lia. Qed.

Lemma zcount_nodup x l : NoDup l → zcount x l <= 1.
Proof.
  induction 1 as [|y l Hy Hl IH]; simpl; [lia|].
  case_decide; subst; [apply zcount_zero in Hy; lia | lia].
Qed.

Lemma zcount_nil x : zcount x [] = 0.
Proof. done. Qed.

Lemma zcount_cons x y l : zcount x (y :: l) = (if decide (x = y) then 1 else 0) + zcount x l.
Proof. done. Qed.

Lemma zcount_single x y : zcount x [y] = if decide (x = y) then 1 else 0.
Proof. rewrite zcount_cons, zcount_nil. lia. Qed.

Lemma zcount_length x l : zcount x l <= Z.of_nat (length l).
Proof.
  induction l as [|y l IH]; [done|]. rewrite zcount_cons. cbn [length]. case_decide; lia.
Qed.

Arguments zcount : simpl never.

Lemma zsum_app {A} (f : A → Z) l k : zsum f (l ++ k) = zsum f l + zsum f k.
Proof. induction l as [|y l IH]; simpl; [done|]. rewrite IH. lia. Qed.

#[export] Instance zsum_Permutation {A} (f : A → Z) : Proper (Permutation ==> (=)) (zsum f).
Proof. intros l k. induction 1; simpl; lia. Qed.

Lemma zsum_nonneg {A} (f : A → Z) l : (∀ x, x ∈ l → 0 <= f x) → 0 <= zsum f l.
Proof.
  induction l as [|y l IH]; simpl; [done|]. intros Hf.
  assert (0 <= f y) by (apply Hf; left). assert (0 <= zsum f l); [|lia].
  apply IH. intros. apply Hf. by right.
Qed.

Lemma zsum_ext {A} (f g : A → Z) l : (∀ x, x ∈ l → f x = g x) → zsum f l = zsum g l.
Proof.
  induction l as [|y l IH]; simpl; [done|]. intros Hfg.
  rewrite (Hfg y) by left. rewrite IH; [done|]. intros. apply Hfg. by right.
Qed.

Lemma zsum_elem {A} (f : A → Z) l x :
  (∀ x, x ∈ l → 0 <= f x) → x ∈ l → f x <= zsum f l.
Proof.
  intros Hf Hx. apply list_elem_of_split in Hx as (l1 & l2 & ->).
  rewrite zsum_app. simpl.
  assert (0 <= zsum f l1) by (apply zsum_nonneg; intros; apply Hf; set_solver).
  assert (0 <= zsum f l2) by (apply zsum_nonneg; intros; apply Hf; set_solver).
  lia.
Qed.

Lemma zsum_filter {A} (P : A → Prop) `{∀ x, Decision (P x)} l :
  zsum (λ x, if decide (P x) then 1 else 0) l = Z.of_nat (length (filter P l)).
Proof.
  induction l as [|x l IH]; [done|]. cbn [zsum]. rewrite IH, filter_cons.
  case_decide; simpl; lia.
Qed.

Lemma filter_all {A} (P : A → Prop) `{∀ x, Decision (P x)} (l : list A) :
  (∀ x, x ∈ l → P x) → filter P l = l.
Proof.
  induction l as [|x l IH]; [done|]. intros Hall. rewrite filter_cons, decide_True.
  - f_equal. apply IH. intros. apply Hall. by right.
  - apply Hall. left.
Qed.

(** A sum over a vector as a sum over its indices. *)
Lemma zsum_lookup {A} (f : A → Z) l :
  zsum f l =
  zsum (λ i, match l !! Z.to_nat i with Some x => f x | None => 0 end)
       (seqZ 0 (Z.of_nat (length l))).
Proof.
  induction l as [|x l IH] using rev_ind; [done|].
  rewrite zsum_app, length_app. simpl. rewrite Nat2Z.inj_add, seqZ_app by lia.
  rewrite zsum_app. unfold seqZ at 2. simpl.
  rewrite list_lookup_middle by lia.
  rewrite IH. f_equal. apply zsum_ext. intros i Hi%elem_of_seqZ.
  by rewrite lookup_app_l by lia.
Qed.

Section MapSumLemmas.
Context {K V : Type} `{Countable K}.
Implicit Types (f g : K → V → Z) (m : gmap K V).

Lemma map_zsum_empty f : map_zsum f ∅ = 0.
Proof. apply map_fold_empty. Qed.

Lemma map_zsum_insert f m k x :
  m !! k = None → map_zsum f (<[k:=x]> m) = f k x + map_zsum f m.
Proof.
  intros. unfold map_zsum. rewrite map_fold_insert_L; [done|lia|done].
Qed.

Lemma map_zsum_delete f m k x :
  m !! k = Some x → map_zsum f m = f k x + map_zsum f (delete k m).
Proof.
  intros Hk. rewrite <-(insert_delete_id m k x) at 1 by done.
  apply map_zsum_insert, lookup_delete_eq.
Qed.

Lemma map_zsum_update f m k x y :
  m !! k = Some x → map_zsum f (<[k:=y]> m) = map_zsum f m - f k x + f k y.
Proof.
  intros Hk. rewrite (map_zsum_delete f m k x) by done.
  rewrite <-insert_delete_eq, map_zsum_insert by apply lookup_delete_eq. lia.
Qed.

Lemma map_zsum_ext f g m :
  (∀ k x, m !! k = Some x → f k x = g k x) → map_zsum f m = map_zsum g m.
Proof.
  induction m as [|k x m Hk IH] using map_ind; intros Hfg; [done|].
  rewrite !map_zsum_insert by done. rewrite (Hfg k x) by apply lookup_insert_eq.
  rewrite IH; [done|]. intros k' x' Hk'. apply Hfg.
  rewrite lookup_insert_ne; [done|]. by intros ->; simplify_eq.
Qed.

Lemma map_zsum_nonneg f m :
  (∀ k x, m !! k = Some x → 0 <= f k x) → 0 <= map_zsum f m.
Proof.
  induction m as [|k x m Hk IH] using map_ind; intros Hf; [by rewrite map_zsum_empty|].
  rewrite map_zsum_insert by done.
  assert (0 <= f k x) by (apply Hf, lookup_insert_eq).
  assert (0 <= map_zsum f m); [|lia]. apply IH. intros k' x' Hk'. apply (Hf k').
  rewrite lookup_insert_ne; [done|]. by intros ->; simplify_eq.
Qed.

Lemma map_zsum_elem f m k x :
  (∀ k x, m !! k = Some x → 0 <= f k x) → m !! k = Some x → f k x <= map_zsum f m.
Proof.
  intros Hf Hk. rewrite (map_zsum_delete f m k x) by done.
  assert (0 <= map_zsum f (delete k m)); [|lia].
  apply map_zsum_nonneg. intros k' x' [_ ?]%lookup_delete_Some. eauto.
Qed.

Lemma map_zsum_two f m k k' x y :
  (∀ k x, m !! k = Some x → 0 <= f k x) → m !! k = Some x → m !! k' = Some y → k ≠ k' →
  f k x + f k' y <= map_zsum f m.
Proof.
  intros Hf Hk Hk' Hne. rewrite (map_zsum_delete f m k x) by done.
  assert (f k' y <= map_zsum f (delete k m)); [|lia]. apply map_zsum_elem.
  - intros j z [_ ?]%lookup_delete_Some. eauto.
  - by rewrite lookup_delete_ne.
Qed.

Lemma map_zsum_pos f m :
  (∀ k x, m !! k = Some x → 0 <= f k x) → 0 < map_zsum f m →
  ∃ k x, m !! k = Some x ∧ 0 < f k x.
Proof.
  induction m as [|k x m Hk IH] using map_ind; [rewrite map_zsum_empty; lia|].
  intros Hf. rewrite map_zsum_insert by done. intros Hpos.
  destruct (decide (0 < f k x)) as [?|Hz].
  - exists k, x. by rewrite lookup_insert_eq.
  - assert (∀ j y, m !! j = Some y → j ≠ k) as Hne by (intros j y Hj ->; simplify_eq).
    destruct IH as (j & y & Hj & Hy); [|lia|].
    + intros j y Hj. apply Hf. rewrite lookup_insert_ne; [done|]. symmetry. eauto.
    + exists j, y. split; [|done]. rewrite lookup_insert_ne; [done|]. symmetry. eauto.
Qed.
End MapSumLemmas.

Lemma map_zsum_fmap {K V W} `{Countable K} (f : K → W → Z) (g : V → W) (q : gmap K V) :
  map_zsum f (g <$> q) = map_zsum (λ k x, f k (g x)) q.
Proof.
  induction q as [|k x q Hk IH] using map_ind; [by rewrite fmap_empty, !map_zsum_empty|].
  rewrite fmap_insert, !map_zsum_insert by (done || by rewrite lookup_fmap, Hk). lia.
Qed.

Lemma map_zsum_le {K V} `{Countable K} (f g : K → V → Z) (q : gmap K V) :
  (∀ k x, q !! k = Some x → f k x <= g k x) → map_zsum f q <= map_zsum g q.
Proof.
  induction q as [|k x q Hk IH] using map_ind; [done|]. intros Hle.
  rewrite !map_zsum_insert by done. apply Z.add_le_mono; [apply Hle, lookup_insert_eq|].
  apply IH. intros k' x' Hk'. apply Hle. rewrite lookup_insert_ne; [done|]. by intros ->; simplify_eq.
Qed.

Lemma map_emplace_new {K V} `{Countable K} (k : K) (v : V) (m : gmap K V) :
  m !! k = None → map_emplace k v m = <[k := v]> m.
Proof. unfold map_emplace. by intros ->. Qed.

(** ** Lemmas: vectors and memory *)

Lemma vec_get_nat {A} (l : list A) (i : nat) : vec_get l (Z.of_nat i) = l !! i.
Proof. unfold vec_get. rewrite (proj2 (Z.leb_le 0 _)) by lia. by rewrite Nat2Z.id. Qed.

Lemma vec_set_nat {A} (l : list A) (i : nat) x :
  (i < length l)%nat → vec_set l (Z.of_nat i) x = Some (<[i := x]> l).
Proof.
  intros Hi. unfold vec_set. rewrite (proj2 (Z.leb_le 0 _)) by lia.
  rewrite (proj2 (Z.ltb_lt _ _)) by lia. by rewrite Nat2Z.id.
Qed.

Lemma pop_back_snoc {A} (l : list A) x : pop_back (l ++ [x]) = Some (l, x).
Proof. induction l as [|y l IH]; [done|]. simpl. by rewrite IH. Qed.

Lemma pop_back_Some {A} (l r : list A) x : pop_back l = Some (r, x) → l = r ++ [x].
Proof.
  destruct l as [|y l _] using rev_ind; [done|]. rewrite pop_back_snoc. by intros [= <- <-].
Qed.

Lemma pop_back_None {A} (l : list A) : pop_back l = None ↔ l = [].
Proof.
  destruct l as [|y l _] using rev_ind; [done|]. rewrite pop_back_snoc.
  split; [done|]. intros Hc%(f_equal length). rewrite length_app in Hc. simpl in Hc. lia.
Qed.

Lemma length_splice {A} off (k l : list A) :
  (off + length k ≤ length l)%nat → length (splice off k l) = length l.
Proof. intros. unfold splice. rewrite !length_app, length_take, length_drop. lia. Qed.

Lemma length_slice {A} off n (l : list A) :
  (off + n ≤ length l)%nat → length (slice off n l) = n.
Proof. intros. unfold slice. rewrite length_take, length_drop. lia. Qed.

Lemma slice_splice_same {A} off (k l : list A) :
  (off + length k ≤ length l)%nat → slice off (length k) (splice off k l) = k.
Proof.
  intros. unfold slice, splice. rewrite drop_app_length' by (rewrite length_take; lia).
  by rewrite take_app_length.
Qed.

Lemma slice_splice_other {A} off n off' (k l : list A) :
  (off' + length k ≤ length l)%nat → (off + n ≤ off' ∨ off' + length k ≤ off)%nat →
  slice off n (splice off' k l) = slice off n l.
Proof.
  intros Hl Hd. unfold slice. apply list_eq. intros i.
  destruct (decide (i < n)%nat) as [Hi|]; [|by rewrite !lookup_take_ge by lia].
  rewrite !lookup_take_lt, !lookup_drop by done. unfold splice.
  destruct Hd as [Hd|Hd].
  - rewrite lookup_app_l by (rewrite length_take; lia). by rewrite lookup_take_lt by lia.
  - rewrite lookup_app_r by (rewrite length_take; lia).
    rewrite lookup_app_r by (rewrite length_take; lia). rewrite lookup_drop.
    f_equal. rewrite length_take. lia.
Qed.
