(* ===== verification/Block.v ===== *)
(** Core data of the block pool ([include/qwenvl_paged/Block.h],
    [src/Block.cpp]): block shapes, logical page descriptors and the frames of
    the pool. A pointer is an [option Z]: [None] is [nullptr], [Some a] the
    byte address [a]. *)
From S2P Require Import Prelude.

(** ** Definitions *)

Definition kDefaultBlockAlignmentBytes : Z := 256.

Inductive CacheKind := TextKV | VisionKV | RopeState | Auxiliary.

Inductive BlockState := Free | Active | Shared | Swapped.

Record BlockShape := mkBlockShape {
  tokens_per_block : Z;
  num_layers : Z;
  num_kv_heads : Z;
  head_dim : Z;
  bytes_per_element : Z;
  layers_per_frame : Z
}.

(** [BlockShape{}]: every member zero. *)
Definition BlockShape_default : BlockShape := mkBlockShape 0 0 0 0 0 0.

Definition frame_layers (s : BlockShape) : Z :=
  if layers_per_frame s =? 0 then num_layers s else layers_per_frame s.

Definition per_layer_frames (s : BlockShape) : bool :=
  (frame_layers s =? 1) && (1 <? num_layers s).

Definition byte_size (s : BlockShape) : Z :=
  tokens_per_block s ⊗ frame_layers s ⊗ num_kv_heads s ⊗ head_dim s
    ⊗ bytes_per_element s ⊗ 2.

Record HostMemoryOptions := mkHostMemoryOptions {
  mem_alignment_bytes : Z;
  prefer_pinned_memory : bool
}.

Record LogicalBlock := mkLogicalBlock {
  lb_sequence_id : Z;
  lb_index : Z;
  lb_cache_kind : CacheKind;
  lb_start_token : Z;
  lb_token_count : Z
}.

(** [LogicalBlock::empty]. *)
Definition LogicalBlock_empty (b : LogicalBlock) : bool := lb_token_count b =? 0.

Record PhysicalBlock := mkPhysicalBlock {
  id_ : Z;
  shape_ : BlockShape;
  storage_ : option Z;
  size_bytes_ : Z
}.

(** The ranges the members have by their C++ types. *)
Record shape_typed (s : BlockShape) : Prop := {
  shape_tokens : is_u32 (tokens_per_block s);
  shape_layers : is_u32 (num_layers s);
  shape_heads : is_u32 (num_kv_heads s);
  shape_dim : is_u32 (head_dim s);
  shape_bytes : is_u32 (bytes_per_element s);
  shape_per_frame : is_u32 (layers_per_frame s)
}.

#[export] Instance CacheKind_eq_dec : EqDecision CacheKind.
Proof. solve_decision. Defined.
#[export] Instance BlockState_eq_dec : EqDecision BlockState.
Proof. solve_decision. Defined.
#[export] Instance BlockShape_eq_dec : EqDecision BlockShape.
Proof. solve_decision. Defined.
#[export] Instance LogicalBlock_eq_dec : EqDecision LogicalBlock.
Proof. solve_decision. Defined.
#[export] Instance PhysicalBlock_eq_dec : EqDecision PhysicalBlock.
Proof. solve_decision. Defined.

(** ** Lemmas *)

Lemma frame_layers_typed s : shape_typed s → is_u32 (frame_layers s).
Proof. intros []. unfold frame_layers. by destruct (_ =? _). Qed.

#[export] Hint Resolve shape_tokens shape_layers shape_heads shape_dim shape_bytes
  shape_per_frame frame_layers_typed : words.

Lemma byte_size_mod s :
  byte_size s = u64 (tokens_per_block s * frame_layers s * num_kv_heads s * head_dim s
                     * bytes_per_element s * 2).
Proof. unfold byte_size. by norm_words. Qed.

(** A per-layer frame stores one layer of a model that has several, so a
    sequence needs one table per layer and never none. *)
Lemma per_layer_frames_spec s :
  per_layer_frames s = true ↔ frame_layers s = 1 ∧ 1 < num_layers s.
Proof. unfold per_layer_frames. rewrite andb_true_iff. lia. Qed.
