(* ===== verification/CacheLayout.v ===== *)
(** Element addressing inside one frame ([include/qwenvl_paged/CacheLayout.h],
    [src/CacheLayout.cpp]): the order [[layer][K|V][token][kv_head][head_dim]]. *)
From S2P Require Import Prelude.
From S2P Require Import Block.

(** ** Definitions *)

Inductive KVStream := Key | Value.

Definition kKVStreamCount : Z := 2.

Record KVBlockLayout := mkKVBlockLayout { shape : BlockShape }.

Definition head_stride (l : KVBlockLayout) : Z := head_dim (shape l).

Definition token_stride (l : KVBlockLayout) : Z :=
  num_kv_heads (shape l) ⊗ head_stride l.

Definition stream_stride (l : KVBlockLayout) : Z :=
  tokens_per_block (shape l) ⊗ token_stride l.

Definition layer_stride (l : KVBlockLayout) : Z := kKVStreamCount ⊗ stream_stride l.

Definition element_count (l : KVBlockLayout) : Z :=
  frame_layers (shape l) ⊗ layer_stride l.

Definition stream_index (stream : KVStream) : Z :=
  match stream with Key => 0 | Value => 1 end.

Definition element_offset (l : KVBlockLayout) (layer : Z) (stream : KVStream)
    (token_in_block kv_head : Z) : option Z :=
  let stored_layers := frame_layers (shape l) in
  if (stored_layers <=? layer) || (tokens_per_block (shape l) <=? token_in_block)
     || (num_kv_heads (shape l) <=? kv_head)
  then None
  else Some (layer ⊗ layer_stride l ⊕ stream_index stream ⊗ stream_stride l
             ⊕ token_in_block ⊗ token_stride l ⊕ kv_head ⊗ head_stride l).

(** Number of elements of a frame, without wrap-around. *)
Definition exact_elements (s : BlockShape) : Z :=
  frame_layers s * (2 * (tokens_per_block s * (num_kv_heads s * head_dim s))).

(** What an element of the frame holds: layer, stream, token, head, dimension. *)
Definition coordinates (s : BlockShape) (e : Z) : Z * KVStream * Z * Z * Z :=
  let d := e mod head_dim s in
  let e1 := e / head_dim s in
  let h := e1 mod num_kv_heads s in
  let e2 := e1 / num_kv_heads s in
  let t := e2 mod tokens_per_block s in
  let e3 := e2 / tokens_per_block s in
  (e3 / 2, (if e3 mod 2 =? 0 then Key else Value), t, h, d).

#[export] Instance KVStream_eq_dec : EqDecision KVStream.
Proof. solve_decision. Defined.

(** ** Lemmas *)

(** One digit of a mixed-radix number. *)
Lemma radix_digit a b m n :
  0 <= a < m → 0 <= b < n →
  0 <= a * n + b < m * n ∧ (a * n + b) / n = a ∧ (a * n + b) mod n = b.
Proof.
  intros Ha Hb. split; [nia|]. split.
  - rewrite Z.div_add_l, Z.div_small by lia. lia.
  - by rewrite Z.add_comm, Z.mod_add, Z.mod_small by lia.
Qed.

Lemma stream_index_range stream : 0 <= stream_index stream < 2.
Proof. destruct stream; simpl; lia. Qed.

Lemma div_digit a m n : 0 <= a < m * n → 0 < n → 0 <= a / n < m.
Proof.
  intros Ha Hn. split; [apply Z.div_pos; lia|]. apply Z.div_lt_upper_bound; lia.
Qed.

(** The three guards of [element_offset]. *)
Definition in_block (s : BlockShape) (layer token head : Z) : Prop :=
  0 <= layer < frame_layers s ∧ 0 <= token < tokens_per_block s ∧
  0 <= head < num_kv_heads s.

(** Position of a vector in the frame, without wrap-around. *)
Definition exact_offset (s : BlockShape) (layer : Z) (stream : KVStream) (token head : Z) : Z :=
  (((layer * 2 + stream_index stream) * tokens_per_block s + token) * num_kv_heads s + head)
  * head_dim s.

Lemma element_count_mod l : element_count l = u64 (exact_elements (shape l)).
Proof.
  unfold element_count, layer_stride, stream_stride, token_stride, head_stride,
    kKVStreamCount, exact_elements. by norm_words.
Qed.

(** A frame with elements has no zero dimension. *)
Lemma exact_elements_pos s :
  shape_typed s → exact_elements s ≠ 0 →
  0 < exact_elements s ∧ 0 < frame_layers s ∧ 0 < tokens_per_block s ∧
  0 < num_kv_heads s ∧ 0 < head_dim s.
Proof.
  intros Ht Hx. pose proof (frame_layers_typed _ Ht) as [H0 _].
  destruct Ht as [[H1 _] [H2 _] [H3 _] [H4 _] _ _].
  assert (0 < frame_layers s ∧ 0 < tokens_per_block s ∧ 0 < num_kv_heads s ∧ 0 < head_dim s)
    as (?&?&?&?) by (unfold exact_elements in Hx; split_and!; nia).
  split_and!; [|done..]. unfold exact_elements. repeat apply Z.mul_pos_pos; lia.
Qed.

Lemma element_count_pos l :
  shape_typed (shape l) → 0 < element_count l → exact_elements (shape l) ≠ 0.
Proof. intros Ht. rewrite element_count_mod. by intros Hc Hx; rewrite Hx in Hc. Qed.

Lemma exact_offset_bound s layer stream token head d :
  in_block s layer token head → 0 <= d < head_dim s →
  0 <= exact_offset s layer stream token head ∧
  exact_offset s layer stream token head + d < exact_elements s.
Proof.
  intros (Hl & Ht & Hh) Hd. unfold exact_offset, exact_elements.
  pose proof (stream_index_range stream).
  destruct (radix_digit layer (stream_index stream) (frame_layers s) 2) as [B1 _]; [lia..|].
  destruct (radix_digit _ token _ (tokens_per_block s) B1 Ht) as [B2 _].
  destruct (radix_digit _ head _ (num_kv_heads s) B2 Hh) as [B3 _].
  destruct (radix_digit _ d _ (head_dim s) B3 Hd) as [B4 _]. nia.
Qed.

(** The position of an element decodes to its coordinates. *)
Lemma exact_offset_decodes s layer stream token head d :
  in_block s layer token head → 0 <= d < head_dim s →
  coordinates s (exact_offset s layer stream token head + d) = (layer, stream, token, head, d).
Proof.
  intros (Hl' & Ht' & Hh') Hd. unfold coordinates, exact_offset.
  pose proof (stream_index_range stream).
  destruct (radix_digit layer (stream_index stream) _ 2 Hl') as (B1 & D1 & M1); [lia|].
  destruct (radix_digit _ token _ _ B1 Ht') as (B2 & D2 & M2).
  destruct (radix_digit _ head _ _ B2 Hh') as (B3 & D3 & M3).
  destruct (radix_digit _ d _ _ B3 Hd) as (B4 & D4 & M4).
  rewrite D4, M4, D3, M3, D2, M2, D1, M1. by destruct stream.
Qed.

Section Exact.
Context (l : KVBlockLayout).
Local Abbreviation s := (shape l).
Context (Ht : shape_typed s) (Hx : exact_elements s < W64).

(** In range, [element_offset] is the exact position. *)
Lemma element_offset_exact layer stream token head :
  0 < head_dim s → in_block s layer token head →
  element_offset l layer stream token head = Some (exact_offset s layer stream token head).
Proof.
  intros Hd Hin. destruct (exact_offset_bound s layer stream token head 0 Hin) as [B1 B2]; [lia|].
  destruct Hin as (Hl & Htk & Hh). unfold element_offset.
  rewrite (proj2 (Z.leb_gt _ layer)), (proj2 (Z.leb_gt _ token)), (proj2 (Z.leb_gt _ head))
    by lia. simpl. f_equal.
  unfold layer_stride, stream_stride, token_stride, head_stride, kKVStreamCount.
  norm_words. unfold exact_offset in *. rewrite u64_small; [nia|]. words.
Qed.

Lemma element_offset_Some layer stream token head off :
  0 <= layer → 0 <= token → 0 <= head → 0 < head_dim s →
  element_offset l layer stream token head = Some off →
  in_block s layer token head ∧ off = exact_offset s layer stream token head.
Proof.
  intros Hl Htk Hh Hd Ho. assert (in_block s layer token head) as Hin.
  { unfold element_offset in Ho. case_match eqn:Hc; [done|].
    apply orb_false_iff in Hc as [[Hc1 Hc2]%orb_false_iff Hc3].
    apply Z.leb_gt in Hc1, Hc2, Hc3. split_and!; lia. }
  rewrite element_offset_exact in Ho by done. by simplify_eq.
Qed.
End Exact.

(** The bytes of a vector lie inside the block. *)
Lemma vector_in_bytes l layer stream token head off :
  shape_typed (shape l) →
  exact_elements (shape l) * bytes_per_element (shape l) < W64 →
  0 < bytes_per_element (shape l) →
  0 <= layer → 0 <= token → 0 <= head → 0 < head_dim (shape l) →
  element_offset l layer stream token head = Some off →
  0 <= off * bytes_per_element (shape l) ∧
  (off + head_dim (shape l)) * bytes_per_element (shape l) <= byte_size (shape l).
Proof.
  intros Ht Hx Hb Hl Htk Hh Hd Ho.
  assert (exact_elements (shape l) < W64) as Hx1.
  { destruct (decide (exact_elements (shape l) = 0)) as [->|Hnz]; [done|].
    destruct (exact_elements_pos _ Ht Hnz) as [? _]. nia. }
  apply element_offset_Some in Ho as [Hin ->]; [|done..].
  destruct (exact_offset_bound (shape l) layer stream token head (head_dim (shape l) - 1) Hin)
    as [B1 B2]; [lia|].
  rewrite byte_size_mod. set (s := shape l) in *.
  replace (tokens_per_block s * frame_layers s * num_kv_heads s * head_dim s
    * bytes_per_element s * 2) with (exact_elements s * bytes_per_element s)
    by (unfold exact_elements; ring).
  rewrite u64_small by (split; [nia|done]). nia.
Qed.

(** ** Properties *)

(** Every vector [element_offset] returns lies inside the frame: the
    [head_dim] elements it addresses end at or before [element_count]. *)
Theorem element_offset_in_frame l layer stream token head off :
  shape_typed (shape l) → exact_elements (shape l) < W64 →
  0 <= layer → 0 <= token → 0 <= head → 0 < head_dim (shape l) →
  element_offset l layer stream token head = Some off →
  0 <= off ∧ off + head_dim (shape l) <= element_count l.
Proof.
  intros Ht Hx Hl Htk Hh Hd [Hin ->]%element_offset_Some; [|done..].
  destruct (exact_offset_bound (shape l) layer stream token head (head_dim (shape l) - 1) Hin)
    as [B1 B2]; [lia|].
  rewrite element_count_mod, u64_small by words. lia.
Qed.

(** Offsets decode back: an element of the vector at [off] has the coordinates
    [off] was computed from. Hence vectors of different coordinates are disjoint. *)
Theorem element_offset_roundtrip l layer stream token head off d :
  shape_typed (shape l) → exact_elements (shape l) < W64 →
  0 <= layer → 0 <= token → 0 <= head → 0 <= d < head_dim (shape l) →
  element_offset l layer stream token head = Some off →
  coordinates (shape l) (off + d) = (layer, stream, token, head, d).
Proof.
  intros Ht Hx Hl Htk Hh Hd [Hin ->]%element_offset_Some; [|lia || done..].
  by apply exact_offset_decodes.
Qed.

(** The layout has no holes: every element index below [element_count] is in
    the vector [element_offset] computes for its coordinates. *)
Theorem element_offset_complete l e :
  shape_typed (shape l) → exact_elements (shape l) < W64 →
  0 <= e < element_count l →
  let '(layer, stream, token, head, d) := coordinates (shape l) e in
  element_offset l layer stream token head = Some (e - d) ∧ 0 <= d < head_dim (shape l).
Proof.
  intros Ht Hx He. unfold coordinates.
  destruct (exact_elements_pos (shape l) Ht) as (_ & HL & HT & HK & HD);
    [apply element_count_pos; [done|lia]|].
  rewrite element_count_mod, u64_small in He
    by (split; [|done]; unfold exact_elements; repeat apply Z.mul_nonneg_nonneg; lia).
  set (s := shape l) in *. set (D := head_dim s) in *. set (K := num_kv_heads s) in *.
  set (T := tokens_per_block s) in *.
  pose proof (Z.div_mod e D ltac:(lia)) as E0. pose proof (Z.mod_pos_bound e D HD).
  set (e1 := e / D) in *. pose proof (Z.div_mod e1 K ltac:(lia)) as E1.
  pose proof (Z.mod_pos_bound e1 K HK).
  set (e2 := e1 / K) in *. pose proof (Z.div_mod e2 T ltac:(lia)) as E2.
  pose proof (Z.mod_pos_bound e2 T HT).
  set (e3 := e2 / T) in *. pose proof (Z.div_mod e3 2 ltac:(lia)) as E3.
  pose proof (Z.mod_pos_bound e3 2 ltac:(lia)).
  assert (0 <= e3 < frame_layers s * 2) as H3.
  { apply div_digit; [|done]. apply div_digit; [|done]. apply div_digit; [|done].
    unfold exact_elements in He. subst D K T. lia. }
  split; [|done].
  rewrite element_offset_exact; [|done..|].
  - f_equal. unfold exact_offset. fold s. fold D K T.
    assert (stream_index (if e3 mod 2 =? 0 then Key else Value) = e3 mod 2) as ->
      by (destruct (Z.eqb_spec (e3 mod 2) 0); simpl; lia).
    replace (e3 / 2 * 2 + e3 mod 2) with e3 by lia.
    replace (e3 * T + e2 mod T) with e2 by lia.
    replace (e2 * K + e1 mod K) with e1 by lia. lia.
  - unfold in_block. fold s. fold K T. destruct (div_digit e3 (frame_layers s) 2 H3); lia.
Qed.

(** A bad index never forms an offset: outside the block shape the result is
    [nullopt], inside it is not. *)
Theorem element_offset_guard l layer stream token head :
  0 <= layer → 0 <= token → 0 <= head →
  is_Some (element_offset l layer stream token head) ↔ in_block (shape l) layer token head.
Proof.
  intros Hl Htk Hh. unfold element_offset, in_block.
  case_match eqn:Hc; split; try done; try lia.
Qed.

(** The bytes of every addressed vector lie inside [BlockShape::byte_size]. *)
Theorem element_offset_in_bytes l layer stream token head off :
  shape_typed (shape l) →
  exact_elements (shape l) * bytes_per_element (shape l) < W64 →
  0 < bytes_per_element (shape l) →
  0 <= layer → 0 <= token → 0 <= head → 0 < head_dim (shape l) →
  element_offset l layer stream token head = Some off →
  0 <= off * bytes_per_element (shape l) ∧
  (off + head_dim (shape l)) * bytes_per_element (shape l) <= byte_size (shape l).
Proof. apply vector_in_bytes. Qed.

(** *** Witnesses, on a shape with four tokens, two layers and two heads *)

Definition demo_shape : BlockShape := mkBlockShape 4 2 2 8 4 0.
Definition demo_layout : KVBlockLayout := mkKVBlockLayout demo_shape.

Lemma demo_shape_typed : shape_typed demo_shape.
Proof. split; vm_compute; by split. Qed.

Lemma element_offset_in_frame_witness :
  0 <= 232 ∧ 232 + head_dim (shape demo_layout) <= element_count demo_layout.
Proof.
  apply (element_offset_in_frame demo_layout 1 Value 2 1 232);
    [apply demo_shape_typed | done..].
Defined.

Lemma element_offset_roundtrip_witness :
  coordinates (shape demo_layout) (232 + 5) = (1, Value, 2, 1, 5).
Proof.
  apply (element_offset_roundtrip demo_layout 1 Value 2 1 232 5);
    [apply demo_shape_typed | done..].
Defined.

Lemma element_offset_complete_witness :
  element_offset demo_layout 1 Value 2 1 = Some (237 - 5) ∧ 0 <= 5 < head_dim demo_shape.
Proof.
  apply (element_offset_complete demo_layout 237); [apply demo_shape_typed | done..].
Defined.

Lemma element_offset_guard_witness :
  is_Some (element_offset demo_layout 1 Key 3 1) ↔ in_block demo_shape 1 3 1.
Proof. apply (element_offset_guard demo_layout 1 Key 3 1); done. Defined.

Lemma element_offset_in_bytes_witness :
  0 <= 232 * 4 ∧ (232 + 8) * 4 <= byte_size demo_shape.
Proof.
  apply (element_offset_in_bytes demo_layout 1 Value 2 1 232);
    [apply demo_shape_typed | done..].
Defined.
