(* ===== verification/SwapBackend.v ===== *)
(** The eviction store ([include/qwenvl_paged/SwapBackend.h],
    [src/SwapBackend.cpp]): the abstract class [SwapBackend] as a type class with
    its laws, and [HostSwapBackend], the host-memory implementation, as an
    instance. Clients are verified against the laws. *)
From S2P Require Import Prelude.

(** ** Definitions *)

(** A block as the interface sees it: [size_bytes()] and the bytes behind
    [data()], [None] when reading through [data()] is undefined. *)
Record BlockBytes := mkBlockBytes {
  bb_size : Z;
  bb_data : option (list byte)
}.

(** The virtual functions of [SwapBackend]. The outer [option] is undefined
    behaviour. [backend_load] returns its result and the block it wrote. *)
Class SwapBackend (B : Type) := {
  backend_store : BlockBytes → B → option (option Z * B);
  backend_load : Z → BlockBytes → B → option (bool * BlockBytes);
  backend_discard : Z → B → B;
  backend_resident_slots : B → Z
}.

(** A block whose bytes are readable and fill it. *)
Definition readable (blk : BlockBytes) (bytes : list byte) : Prop :=
  bb_data blk = Some bytes ∧ Z.of_nat (length bytes) = bb_size blk.

(** What an implementation promises. [backend_budget] is the number of stores
    left before the slot ids of the implementation run out. *)
Class SwapBackendLaws (B : Type) `{SwapBackend B} := {
  backend_ok : B → Prop;
  backend_contents : B → gmap Z (list byte);
  backend_budget : B → Z;
  backend_store_spec b blk bytes :
    backend_ok b → readable blk bytes →
    runs (backend_store blk b) (λ '(r, b'),
      match r with
      | None => b' = b
      | Some slot =>
        backend_contents b !! slot = None ∧
        backend_contents b' = <[slot := bytes]> (backend_contents b) ∧
        (0 < backend_budget b →
         backend_ok b' ∧ backend_budget b' = backend_budget b - 1)
      end);
  backend_load_spec b slot blk old :
    backend_ok b → readable blk old →
    runs (backend_load slot blk b) (λ '(r, blk'),
      match backend_contents b !! slot with
      | None => r = false ∧ blk' = blk
      | Some bytes =>
        if bb_size blk <? Z.of_nat (length bytes) then r = false ∧ blk' = blk
        else r = true ∧ readable blk' (bytes ++ drop (length bytes) old) ∧
             bb_size blk' = bb_size blk
      end);
  backend_discard_spec b slot :
    backend_ok b →
    backend_ok (backend_discard slot b) ∧
    backend_contents (backend_discard slot b) = delete slot (backend_contents b) ∧
    backend_budget (backend_discard slot b) = backend_budget b;
  backend_resident_spec b :
    backend_ok b → backend_resident_slots b = Z.of_nat (size (backend_contents b))
}.

Record HostSwapBackend := mkHostSwapBackend {
  max_slots_ : Z;
  next_slot_ : Z;
  slots_ : gmap Z (list byte)
}.

(** The constructor. *)
Definition HostSwapBackend_new (max_slots : Z) : HostSwapBackend :=
  mkHostSwapBackend max_slots 1 ∅.

Definition host_resident_slots (b : HostSwapBackend) : Z := Z.of_nat (size (slots_ b)).

Definition host_capacity_slots (b : HostSwapBackend) : Z := max_slots_ b.

Definition host_store (blk : BlockBytes) (b : HostSwapBackend)
    : option (option Z * HostSwapBackend) :=
  if max_slots_ b <=? Z.of_nat (size (slots_ b)) then Some (None, b)
  else
    bytes ← (if bb_size blk =? 0 then Some [] else bb_data blk);
    let slot := next_slot_ b in
    Some (Some slot,
          mkHostSwapBackend (max_slots_ b) (next_slot_ b ⊕ 1)
                            (map_emplace slot bytes (slots_ b))).

Definition host_load (slot : Z) (blk : BlockBytes) (b : HostSwapBackend)
    : option (bool * BlockBytes) :=
  match slots_ b !! slot with
  | None => Some (false, blk)
  | Some bytes =>
    if bb_size blk <? Z.of_nat (length bytes) then Some (false, blk)
    else match bytes with
         | [] => Some (true, blk)
         | _ => old ← bb_data blk;
                Some (true, mkBlockBytes (bb_size blk)
                              (Some (bytes ++ drop (length bytes) old)))
         end
  end.

Definition host_discard (slot : Z) (b : HostSwapBackend) : HostSwapBackend :=
  mkHostSwapBackend (max_slots_ b) (next_slot_ b) (delete slot (slots_ b)).

#[export] Instance HostSwapBackend_SwapBackend : SwapBackend HostSwapBackend := {
  backend_store := host_store;
  backend_load := host_load;
  backend_discard := host_discard;
  backend_resident_slots := host_resident_slots
}.

(** Slot ids are handed out in increasing order and capacity is respected. *)
Record host_ok (b : HostSwapBackend) : Prop := {
  host_next : 1 <= next_slot_ b < W64;
  host_fresh slot bytes : slots_ b !! slot = Some bytes → 1 <= slot < next_slot_ b;
  host_max : 0 <= max_slots_ b;
  host_cap : Z.of_nat (size (slots_ b)) <= max_slots_ b
}.

(** Stores before [next_slot_] wraps around. *)
Definition host_budget (b : HostSwapBackend) : Z := W64 - 1 - next_slot_ b.

(** ** Lemmas *)

Lemma host_new_ok max_slots : 0 <= max_slots → host_ok (HostSwapBackend_new max_slots).
Proof.
  split; simpl; [words|..]; [|done|by rewrite map_size_empty].
  intros slot bytes. by rewrite lookup_empty.
Qed.

Lemma host_next_free b : host_ok b → slots_ b !! next_slot_ b = None.
Proof.
  intros Hok. destruct (slots_ b !! next_slot_ b) eqn:Hs; [|done].
  apply (host_fresh _ Hok) in Hs. lia.
Qed.

Lemma host_store_spec b blk bytes :
  host_ok b → readable blk bytes →
  runs (host_store blk b) (λ '(r, b'),
    match r with
    | None => b' = b
    | Some slot =>
      slots_ b !! slot = None ∧ slots_ b' = <[slot := bytes]> (slots_ b) ∧
      (0 < host_budget b → host_ok b' ∧ host_budget b' = host_budget b - 1)
    end).
Proof.
  intros Hok [Hdata Hlen]. unfold host_store. case_match eqn:Hfull; [done|].
  apply Z.leb_gt in Hfull.
  assert ((if bb_size blk =? 0 then Some [] else bb_data blk) = Some bytes) as ->.
  { case_match eqn:Hz; [|done]. apply Z.eqb_eq in Hz. destruct bytes; [done|]. cbn [length] in *. lia. }
  simpl. unfold map_emplace. rewrite host_next_free by done. split_and!; [done..|].
  unfold host_budget; simpl. intros Hb. destruct Hok as [Hn Hf Hm Hc].
  rewrite u64_small by words. split; [|lia]. split; simpl; [words| |done|].
  - intros slot bs [[<- <-]|[_ Hs]]%lookup_insert_Some; [lia|]. apply Hf in Hs. lia.
  - rewrite map_size_insert_None by (by apply host_next_free). lia.
Qed.

Lemma host_load_spec b slot blk old :
  host_ok b → readable blk old →
  runs (host_load slot blk b) (λ '(r, blk'),
    match slots_ b !! slot with
    | None => r = false ∧ blk' = blk
    | Some bytes =>
      if bb_size blk <? Z.of_nat (length bytes) then r = false ∧ blk' = blk
      else r = true ∧ readable blk' (bytes ++ drop (length bytes) old) ∧
           bb_size blk' = bb_size blk
    end).
Proof.
  intros Hok [Hdata Hlen]. unfold host_load.
  destruct (slots_ b !! slot) as [bytes|]; [|done].
  destruct (bb_size blk <? Z.of_nat (length bytes)) eqn:Hsz; [done|].
  apply Z.ltb_ge in Hsz. destruct bytes as [|x bytes]; [done|].
  rewrite Hdata. cbn [mbind option_bind runs]. split_and!; [done| |done]. split; [done|].
  cbn [bb_size]. rewrite length_app, length_drop. lia.
Qed.

Lemma host_discard_spec b slot :
  host_ok b →
  host_ok (host_discard slot b) ∧
  slots_ (host_discard slot b) = delete slot (slots_ b) ∧
  host_budget (host_discard slot b) = host_budget b.
Proof.
  intros [Hn Hf Hm Hc]. split; [|done]. split; simpl; [done| |done|].
  - intros s bs [_ Hs]%lookup_delete_Some. by apply Hf in Hs.
  - pose proof (map_subseteq_size _ _ (delete_subseteq (slots_ b) slot)). lia.
Qed.

#[export] Instance HostSwapBackend_laws : SwapBackendLaws HostSwapBackend := {
  backend_ok := host_ok;
  backend_contents := slots_;
  backend_budget := host_budget;
  backend_store_spec := host_store_spec;
  backend_load_spec := host_load_spec;
  backend_discard_spec := host_discard_spec;
  backend_resident_spec b _ := eq_refl
}.

(** ** Properties *)

(** A stored block comes back byte for byte: [store] followed by [load] into a
    frame at least as large rewrites the frame's prefix with the stored bytes. *)
Theorem host_store_load_roundtrip b blk bytes slot b' frame old :
  host_ok b → readable blk bytes → readable frame old → bb_size blk <= bb_size frame →
  0 < host_budget b →
  host_store blk b = Some (Some slot, b') →
  runs (host_load slot frame b') (λ '(r, frame'),
    r = true ∧ bb_data frame' = Some (bytes ++ drop (length bytes) old)).
Proof.
  intros Hok Hr Hf Hsz Hb Hst. pose proof (host_store_spec b blk bytes Hok Hr) as Hs.
  rewrite Hst in Hs. destruct Hs as (Hfree & Hsl & Hok'). destruct (Hok' Hb) as [Hok'' _].
  eapply runs_mono; [by apply host_load_spec|]. intros [r frame'].
  rewrite Hsl, lookup_insert_eq. destruct Hr as [_ Hlen].
  rewrite (proj2 (Z.ltb_ge _ _)) by lia. by intros (-> & [? _] & _).
Qed.

(** [store] refuses exactly when the swap space is full, and never exceeds it. *)
Theorem host_store_capacity b blk bytes :
  host_ok b → readable blk bytes → 0 < host_budget b →
  runs (host_store blk b) (λ '(r, b'),
    (r = None ↔ host_resident_slots b = host_capacity_slots b) ∧
    host_resident_slots b' <= host_capacity_slots b').
Proof.
  intros Hok Hr Hb. unfold host_resident_slots, host_capacity_slots.
  destruct (runs_inv _ _ (host_store_spec b blk bytes Hok Hr)) as ([r b'] & Hrun & Hpost).
  rewrite Hrun. simpl. unfold host_store in Hrun. pose proof (host_cap _ Hok).
  destruct (Z.leb_spec (max_slots_ b) (Z.of_nat (size (slots_ b)))) as [Hfull|Hfull].
  - simplify_eq. split; [|done]. split; [lia|done].
  - apply bind_Some in Hrun as (bs & _ & ?); simplify_eq.
    destruct Hpost as (_ & _ & [[] _]); [done|]. split; [split; [done|lia]|done].
Qed.

(** *** Witnesses *)

Definition demo_block (bytes : list byte) : BlockBytes :=
  mkBlockBytes (Z.of_nat (length bytes)) (Some bytes).

Lemma demo_readable bytes : readable (demo_block bytes) bytes.
Proof. done. Qed.

Lemma host_store_load_roundtrip_witness :
  runs (host_load 1 (demo_block [Byte.x09; Byte.x09; Byte.x09])
          (mkHostSwapBackend 2 2 {[1 := [Byte.x01; Byte.x02]]}))
    (λ '(r, frame'),
      r = true ∧ bb_data frame' = Some ([Byte.x01; Byte.x02] ++ [Byte.x09])).
Proof.
  apply (host_store_load_roundtrip (HostSwapBackend_new 2)
    (demo_block [Byte.x01; Byte.x02]) [Byte.x01; Byte.x02] 1 _
    (demo_block [Byte.x09; Byte.x09; Byte.x09]) [Byte.x09; Byte.x09; Byte.x09]).
  - by apply host_new_ok.
  - apply demo_readable.
  - apply demo_readable.
  - simpl. lia.
  - unfold host_budget, W64; simpl. lia.
  - vm_compute. reflexivity.
Defined.

Lemma host_store_capacity_witness :
  runs (host_store (demo_block [Byte.x01]) (HostSwapBackend_new 0)) (λ '(r, b'),
    (r = None ↔ host_resident_slots (HostSwapBackend_new 0) = 0) ∧
    host_resident_slots b' <= host_capacity_slots b').
Proof.
  apply (host_store_capacity (HostSwapBackend_new 0) (demo_block [Byte.x01]) [Byte.x01]).
  - by apply host_new_ok.
  - apply demo_readable.
  - unfold host_budget, W64; simpl. lia.
Defined.
