(* ===== verification/BlockTable.v ===== *)
(** The page table of one sequence ([include/qwenvl_paged/BlockTable.h],
    [src/BlockTable.cpp]): a vector of entries kept sorted by logical index and
    searched with [std::lower_bound]. It refines a finite map from logical
    indices to entries. *)
From S2P Require Import Prelude.
From S2P Require Import Block.

(** ** Definitions *)

Record BlockTableEntry := mkBlockTableEntry {
  logical : LogicalBlock;
  physical_id : Z;
  writable : bool;
  swap_slot : option Z
}.

Record BlockTable := mkBlockTable {
  sequence_id_ : Z;
  cache_kind_ : CacheKind;
  entries_ : list BlockTableEntry
}.

(** The logical index of an entry, the key of the table. *)
Definition index_of (e : BlockTableEntry) : Z := lb_index (logical e).

(** The constructor [BlockTable(sequence_id, cache_kind)]. *)
Definition BlockTable_new (sequence_id : Z) (cache_kind : CacheKind) : BlockTable :=
  mkBlockTable sequence_id cache_kind [].

Definition table_size (t : BlockTable) : Z := Z.of_nat (length (entries_ t)).

Definition table_empty (t : BlockTable) : bool :=
  match entries_ t with [] => true | _ => false end.

(** [std::lower_bound] with the comparison [entry.logical.index < value]: the
    position of the first entry that is not below [index]. *)
Fixpoint lower_bound_index (entries : list BlockTableEntry) (index : Z) : nat :=
  match entries with
  | [] => 0%nat
  | e :: entries' =>
    if index_of e <? index then S (lower_bound_index entries' index) else 0%nat
  end.

Definition with_entries (t : BlockTable) (es : list BlockTableEntry) : BlockTable :=
  mkBlockTable (sequence_id_ t) (cache_kind_ t) es.

Definition BlockTable_map (t : BlockTable) (lb : LogicalBlock) (pid : Z) (w : bool)
    : BlockTable :=
  let it := lower_bound_index (entries_ t) (lb_index lb) in
  let e := mkBlockTableEntry lb pid w None in
  match entries_ t !! it with
  | Some found =>
    if index_of found =? lb_index lb
    then with_entries t (<[it := e]> (entries_ t))
    else with_entries t (take it (entries_ t) ++ e :: drop it (entries_ t))
  | None => with_entries t (take it (entries_ t) ++ e :: drop it (entries_ t))
  end.

(** The position [mutable_entry] points at, if the index is mapped. *)
Definition find_entry (t : BlockTable) (index : Z) : option nat :=
  let it := lower_bound_index (entries_ t) index in
  match entries_ t !! it with
  | Some found => if index_of found =? index then Some it else None
  | None => None
  end.

Definition unmap (t : BlockTable) (index : Z) : option Z * BlockTable :=
  let it := lower_bound_index (entries_ t) index in
  match entries_ t !! it with
  | Some found =>
    if index_of found =? index
    then (Some (physical_id found), with_entries t (delete it (entries_ t)))
    else (None, t)
  | None => (None, t)
  end.

Definition lookup_block (t : BlockTable) (index : Z) : option Z :=
  let it := lower_bound_index (entries_ t) index in
  match entries_ t !! it with
  | Some found =>
    if index_of found =? index
    then match swap_slot found with
         | Some _ => None
         | None => Some (physical_id found)
         end
    else None
  | None => None
  end.

Definition entry (t : BlockTable) (index : Z) : option BlockTableEntry :=
  it ← find_entry t index; entries_ t !! it.

(** A write through the pointer [mutable_entry] returned. *)
Definition update_entry (t : BlockTable) (it : nat) (f : BlockTableEntry → BlockTableEntry)
    : BlockTable :=
  with_entries t (alter f it (entries_ t)).

Definition entry_set_writable (w : bool) (e : BlockTableEntry) : BlockTableEntry :=
  mkBlockTableEntry (logical e) (physical_id e) w (swap_slot e).

Definition set_writable (t : BlockTable) (index : Z) (w : bool) : BlockTable :=
  match find_entry t index with
  | Some it => update_entry t it (entry_set_writable w)
  | None => t
  end.

(** The body of the loop of [fork]: the flag cleared, the owner replaced. *)
Definition fork_entry (child_sequence_id : Z) (e : BlockTableEntry) : BlockTableEntry :=
  mkBlockTableEntry
    (mkLogicalBlock child_sequence_id (lb_index (logical e)) (lb_cache_kind (logical e))
       (lb_start_token (logical e)) (lb_token_count (logical e)))
    (physical_id e) false (swap_slot e).

(** [BlockTable::fork]. *)
Definition fork_table (t : BlockTable) (child_sequence_id : Z) : BlockTable :=
  mkBlockTable child_sequence_id (cache_kind_ t)
    (fork_entry child_sequence_id <$> entries_ t).

(** Strictly increasing logical indices. *)
Definition entries_sorted (es : list BlockTableEntry) : Prop :=
  StronglySorted (λ e1 e2, index_of e1 < index_of e2) es.
Definition table_sorted (t : BlockTable) : Prop := entries_sorted (entries_ t).

(** The finite map a table stands for. *)
Definition entries_map (es : list BlockTableEntry) : gmap Z BlockTableEntry :=
  list_to_map ((λ e, (index_of e, e)) <$> es).
Definition table_map (t : BlockTable) : gmap Z BlockTableEntry := entries_map (entries_ t).

#[export] Instance BlockTableEntry_eq_dec : EqDecision BlockTableEntry.
Proof. solve_decision. Defined.

(** ** Lemmas *)

Lemma entries_map_cons e es :
  entries_map (e :: es) = <[index_of e := e]> (entries_map es).
Proof. done. Qed.

Lemma entries_map_above es index :
  Forall (λ e, index < index_of e) es → entries_map es !! index = None.
Proof.
  induction 1 as [|e es He Hes IH]; [done|].
  rewrite entries_map_cons, lookup_insert_ne by lia. done.
Qed.

Lemma sorted_cons e es :
  entries_sorted (e :: es) ↔
  entries_sorted es ∧ Forall (λ e', index_of e < index_of e') es.
Proof.
  unfold entries_sorted. split; [by intros [??]%StronglySorted_inv|].
  intros []. by constructor.
Qed.

Lemma sorted_fresh e es :
  entries_sorted (e :: es) → entries_map es !! index_of e = None.
Proof. intros [_ H]%sorted_cons. by apply entries_map_above. Qed.

Lemma entries_map_lookup es index e :
  entries_map es !! index = Some e → e ∈ es ∧ index_of e = index.
Proof.
  induction es as [|e' es IH]; [done|]. rewrite entries_map_cons.
  intros [[<- <-]|[_ Hl]]%lookup_insert_Some; [by split; [left|]|].
  destruct (IH Hl). by split; [right|].
Qed.

Lemma entries_map_elem es e :
  entries_sorted es → e ∈ es → entries_map es !! index_of e = Some e.
Proof.
  induction es as [|e' es IH]; [by intros _ ?%not_elem_of_nil|].
  intros Hs He. rewrite entries_map_cons. pose proof (sorted_fresh _ _ Hs) as Hf.
  apply sorted_cons in Hs as [Hs Ha]. apply elem_of_cons in He as [->|He].
  - by rewrite lookup_insert_eq.
  - rewrite lookup_insert_ne; [by apply IH|].
    rewrite Forall_forall in Ha. specialize (Ha _ He). lia.
Qed.

(** [lower_bound_index] as a search: everything before is below the key, the
    element found is not. *)
Lemma lower_bound_before es index i e :
  (i < lower_bound_index es index)%nat → es !! i = Some e → index_of e < index.
Proof.
  revert i. induction es as [|e' es IH]; [done|]. intros i. simpl.
  destruct (Z.ltb_spec (index_of e') index); [|lia].
  destruct i as [|i]; simpl; [by intros _ [= <-]|]. intros. eapply IH; [|done]. lia.
Qed.

Lemma lower_bound_at es index e :
  es !! lower_bound_index es index = Some e → index <= index_of e.
Proof.
  induction es as [|e' es IH]; [done|]. simpl.
  destruct (Z.ltb_spec (index_of e') index); simpl; [done|]. by intros [= <-].
Qed.

(** The entry the search stops at is the one the map holds. *)
Lemma lower_bound_lookup es index :
  entries_sorted es →
  entries_map es !! index =
  e ← es !! lower_bound_index es index; if index_of e =? index then Some e else None.
Proof.
  induction es as [|e' es IH]; [done|]. intros Hs. pose proof (sorted_fresh _ _ Hs) as Hf.
  pose proof Hs as [Hs' Ha]%sorted_cons. rewrite entries_map_cons. simpl.
  destruct (Z.ltb_spec (index_of e') index) as [Hlt|Hge].
  - rewrite lookup_insert_ne by lia. simpl. by apply IH.
  - simpl. destruct (Z.eqb_spec (index_of e') index) as [<-|Hne];
      [by rewrite lookup_insert_eq|].
    rewrite lookup_insert_ne by lia. apply entries_map_above.
    eapply Forall_impl; [exact Ha|]. simpl. lia.
Qed.

Lemma entry_refines t index : table_sorted t → entry t index = table_map t !! index.
Proof.
  intros Hs. unfold table_map. rewrite lower_bound_lookup by done.
  unfold entry, find_entry.
  destruct (entries_ t !! _) as [e|] eqn:He; [|done]. simpl.
  destruct (index_of e =? index); [|done]. simpl. done.
Qed.

(** The search result splits the vector. *)
Lemma lower_bound_insert es index e :
  index_of e = index → entries_sorted es →
  let it := lower_bound_index es index in
  let es' := match es !! it with
             | Some found => if index_of found =? index then <[it := e]> es
                             else take it es ++ e :: drop it es
             | None => take it es ++ e :: drop it es
             end in
  entries_sorted es' ∧ entries_map es' = <[index := e]> (entries_map es).
Proof.
  intros He. induction es as [|e' es IH].
  { intros _. simpl. split; [repeat constructor|]. by rewrite entries_map_cons, He. }
  intros Hs. pose proof Hs as [Hs' Ha]%sorted_cons. specialize (IH Hs').
  simpl in *. destruct (Z.ltb_spec (index_of e') index) as [Hlt|Hge].
  - simpl. destruct IH as [IHs IHm].
    set (es' := match es !! lower_bound_index es index with
                | Some found => if index_of found =? index
                                then <[lower_bound_index es index := e]> es
                                else take (lower_bound_index es index) es
                                     ++ e :: drop (lower_bound_index es index) es
                | None => take (lower_bound_index es index) es
                          ++ e :: drop (lower_bound_index es index) es
                end) in *.
    replace (match es !! lower_bound_index es index with _ => _ end) with (e' :: es')
      by (unfold es'; repeat case_match; done).
    split.
    + apply sorted_cons. split; [done|]. apply Forall_forall. intros e'' Hin.
      apply (entries_map_elem _ _ IHs) in Hin. rewrite IHm in Hin.
      apply lookup_insert_Some in Hin as [[Hk _]|[_ Hin]]; [lia|].
      apply entries_map_lookup in Hin as [Hin _]. rewrite Forall_forall in Ha. auto.
    + rewrite !entries_map_cons, IHm, insert_insert_ne by lia. done.
  - simpl. destruct (Z.eqb_spec (index_of e') index) as [Heq|Hne].
    + split; [apply sorted_cons; split; [done|]; by rewrite He, <-Heq|].
      by rewrite !entries_map_cons, He, Heq, insert_insert_eq.
    + split; [|by rewrite !entries_map_cons, He].
      apply sorted_cons. split; [done|]. rewrite He. constructor; [lia|].
      eapply Forall_impl; [exact Ha|]. simpl. lia.
Qed.

(** Removing the entry the search found. *)
Lemma lower_bound_delete es index e :
  entries_sorted es → es !! lower_bound_index es index = Some e → index_of e = index →
  entries_sorted (delete (lower_bound_index es index) es) ∧
  entries_map (delete (lower_bound_index es index) es) = delete index (entries_map es).
Proof.
  induction es as [|e' es IH]; [done|]. intros Hs. pose proof (sorted_fresh _ _ Hs) as Hf.
  pose proof Hs as [Hs' Ha]%sorted_cons.
  simpl. destruct (Z.ltb_spec (index_of e') index) as [Hlt|Hge]; simpl.
  - intros Hl He. destruct (IH Hs' Hl He) as [IHs IHm]. split.
    + apply sorted_cons. split; [done|]. apply Forall_delete. done.
    + rewrite !entries_map_cons, IHm, delete_insert_ne by lia. done.
  - intros [= <-] He. split; [done|].
    by rewrite entries_map_cons, He, delete_insert_id by (by rewrite <-He).
Qed.

(** Changing an entry without changing its key. *)
Lemma update_entries es it f :
  (∀ e, index_of (f e) = index_of e) → entries_sorted es →
  entries_sorted (alter f it es).
Proof.
  intros Hf. revert it. induction es as [|e es IH]; [done|].
  intros it [Hs Ha]%sorted_cons. destruct it as [|it]; simpl.
  - apply sorted_cons. by rewrite Hf.
  - apply sorted_cons. split; [by apply IH|]. by apply Forall_alter; [|intros ?? ?; rewrite Hf].
Qed.

Lemma fmap_sorted es f :
  (∀ e, index_of (f e) = index_of e) → entries_sorted es → entries_sorted (f <$> es).
Proof.
  intros Hf. induction es as [|e es IH]; [done|]. intros [Hs Ha]%sorted_cons.
  simpl. apply sorted_cons. split; [by apply IH|]. rewrite Hf.
  apply Forall_fmap. eapply Forall_impl; [exact Ha|]. simpl. intros. by rewrite Hf.
Qed.

Lemma entries_map_fmap es f :
  (∀ e, index_of (f e) = index_of e) → entries_map (f <$> es) = f <$> entries_map es.
Proof.
  intros Hf. induction es as [|e es IH]; [symmetry; apply fmap_empty|].
  rewrite fmap_cons, !entries_map_cons, IH, fmap_insert, Hf. done.
Qed.

Lemma lower_bound_fmap es f index :
  (∀ e, index_of (f e) = index_of e) →
  lower_bound_index (f <$> es) index = lower_bound_index es index.
Proof.
  intros Hf. induction es as [|e es IH]; [done|].
  rewrite fmap_cons. cbn [lower_bound_index]. by rewrite Hf, IH.
Qed.

Create HintDb tables.
#[export] Hint Resolve fmap_sorted update_entries : tables.

Lemma map_sorted t lb pid w : table_sorted t → table_sorted (BlockTable_map t lb pid w).
Proof.
  intros Hs. unfold BlockTable_map, table_sorted.
  destruct (lower_bound_insert (entries_ t) (lb_index lb) (mkBlockTableEntry lb pid w None))
    as [H _]; [done..|]. by repeat case_match.
Qed.

Lemma map_table_map t lb pid w :
  table_sorted t →
  table_map (BlockTable_map t lb pid w) =
  <[lb_index lb := mkBlockTableEntry lb pid w None]> (table_map t).
Proof.
  intros Hs. unfold BlockTable_map, table_map.
  destruct (lower_bound_insert (entries_ t) (lb_index lb) (mkBlockTableEntry lb pid w None))
    as [_ H]; [done..|]. by repeat case_match.
Qed.

(** Where [find_entry] points. *)
Lemma find_entry_Some t index it :
  find_entry t index = Some it →
  ∃ e, entries_ t !! it = Some e ∧ index_of e = index.
Proof.
  unfold find_entry. case_match eqn:He; [|done]. case_match eqn:Hi; [|done].
  intros [= <-]. apply Z.eqb_eq in Hi. eauto.
Qed.

Lemma find_entry_elem t i e :
  table_sorted t → entries_ t !! i = Some e → find_entry t (index_of e) = Some i.
Proof.
  unfold table_sorted, find_entry. revert i. induction (entries_ t) as [|e' es IH]; [done|].
  intros i Hs. pose proof Hs as [Hs' Ha]%sorted_cons. destruct i as [|i]; simpl.
  - intros [= ->]. rewrite Z.ltb_irrefl. simpl. by rewrite Z.eqb_refl.
  - intros Hi. rewrite Forall_forall in Ha.
    assert (index_of e' < index_of e) by (apply Ha; eapply list_elem_of_lookup_2; done).
    rewrite (proj2 (Z.ltb_lt _ _)) by done. specialize (IH _ Hs' Hi). simpl.
    repeat case_match; by simplify_eq.
Qed.

Lemma update_table_map t it e f :
  table_sorted t → (∀ e, index_of (f e) = index_of e) → entries_ t !! it = Some e →
  table_map (update_entry t it f) = <[index_of e := f e]> (table_map t).
Proof.
  unfold table_sorted, table_map, update_entry. simpl. intros Hs Hf. revert it.
  induction (entries_ t) as [|e' es IH]; [done|]. intros it He.
  pose proof Hs as [Hs' Ha]%sorted_cons. destruct it as [|it]; simplify_eq/=.
  - by rewrite !entries_map_cons, Hf, insert_insert_eq.
  - rewrite !entries_map_cons, IH by done. rewrite Forall_forall in Ha.
    assert (index_of e' < index_of e) by (apply Ha; eapply list_elem_of_lookup_2; done).
    by rewrite insert_insert_ne by lia.
Qed.

(** The operations of a client that keeps a table, for the reachable tables. *)
Inductive table_op :=
  | OpMap (lb : LogicalBlock) (pid : Z) (w : bool)
  | OpUnmap (index : Z)
  | OpSetWritable (index : Z) (w : bool)
  | OpFork (child_sequence_id : Z).

Definition table_step (t : BlockTable) (op : table_op) : BlockTable :=
  match op with
  | OpMap lb pid w => BlockTable_map t lb pid w
  | OpUnmap index => snd (unmap t index)
  | OpSetWritable index w => set_writable t index w
  | OpFork child => fork_table t child
  end.

(** The same operations on the finite map. *)
Definition map_step (m : gmap Z BlockTableEntry) (op : table_op) : gmap Z BlockTableEntry :=
  match op with
  | OpMap lb pid w => <[lb_index lb := mkBlockTableEntry lb pid w None]> m
  | OpUnmap index => delete index m
  | OpSetWritable index w => alter (entry_set_writable w) index m
  | OpFork child => fork_entry child <$> m
  end.

Lemma unmap_spec t index :
  table_sorted t →
  table_sorted (snd (unmap t index)) ∧
  table_map (snd (unmap t index)) = delete index (table_map t) ∧
  fst (unmap t index) = physical_id <$> table_map t !! index.
Proof.
  intros Hs. pose proof (lower_bound_lookup (entries_ t) index Hs) as Hl.
  unfold unmap, table_map. revert Hl.
  destruct (entries_ t !! lower_bound_index (entries_ t) index) as [e|] eqn:He; simpl;
    [destruct (Z.eqb_spec (index_of e) index) as [Heq|]|]; intros Hl; simpl.
  - destruct (lower_bound_delete _ _ _ Hs He Heq) as [Hs' Hm].
    split_and!; [done..|]. by rewrite Hl.
  - by rewrite Hl, delete_id by done.
  - by rewrite Hl, delete_id by done.
Qed.

Lemma set_writable_spec t index w :
  table_sorted t →
  table_sorted (set_writable t index w) ∧
  table_map (set_writable t index w) = alter (entry_set_writable w) index (table_map t).
Proof.
  intros Hs. pose proof (entry_refines t index Hs) as He. unfold set_writable, entry in *.
  destruct (find_entry t index) as [it|] eqn:Hf; simpl in *.
  - destruct (find_entry_Some _ _ _ Hf) as (e & Hit & Hi). rewrite Hit in He.
    split; [by apply update_entries|].
    rewrite (update_table_map _ _ e) by done. subst index.
    apply map_eq. intros j. destruct (decide (index_of e = j)) as [<-|].
    + by rewrite lookup_insert_eq, lookup_alter_eq, <-He.
    + by rewrite lookup_insert_ne, lookup_alter_ne.
  - split; [done|]. symmetry. apply alter_id. intros e Hl. by rewrite <-He in Hl.
Qed.

Lemma fork_spec t child :
  table_sorted t →
  table_sorted (fork_table t child) ∧
  table_map (fork_table t child) = fork_entry child <$> table_map t.
Proof. intros Hs. split; [by apply fmap_sorted|by apply entries_map_fmap]. Qed.

Lemma table_step_spec t op :
  table_sorted t →
  table_sorted (table_step t op) ∧ table_map (table_step t op) = map_step (table_map t) op.
Proof.
  intros Hs. destruct op as [lb pid w|index|index w|child]; simpl.
  - split; [by apply map_sorted|by apply map_table_map].
  - destruct (unmap_spec t index Hs) as (? & ? & _). done.
  - by apply set_writable_spec.
  - by apply fork_spec.
Qed.

Lemma table_steps_spec ops t :
  table_sorted t →
  table_sorted (foldl table_step t ops) ∧
  table_map (foldl table_step t ops) = foldl map_step (table_map t) ops.
Proof.
  revert t. induction ops as [|op ops IH]; [done|]. intros t Hs. simpl.
  destruct (table_step_spec t op Hs) as [Hs' <-]. by apply IH.
Qed.

Lemma new_sorted sid kind : table_sorted (BlockTable_new sid kind).
Proof. constructor. Qed.

Lemma lookup_block_spec t index :
  table_sorted t →
  lookup_block t index =
    (e ← table_map t !! index;
     match swap_slot e with Some _ => None | None => Some (physical_id e) end).
Proof.
  intros Hs. rewrite <-entry_refines by done. unfold lookup_block, entry, find_entry.
  destruct (entries_ t !! _) as [e|] eqn:He; [|done].
  destruct (index_of e =? index); [|done]. simpl. by rewrite He.
Qed.

(** ** Properties *)

(** C24. Every operation that changes the table ([map], [unmap], [set_writable], the copy
    of a fork) is the operation on the finite map it stands for, and keeps the entries
    in strictly increasing logical order. What the queries and [unmap] return is
    [table_queries_refine]. *)
Theorem table_step_refines t op :
  table_sorted t →
  table_sorted (table_step t op) ∧ table_map (table_step t op) = map_step (table_map t) op.
Proof. apply table_step_spec. Qed.

(** Whatever sequence of operations built a table, its entries are in logical
    order and its queries answer as the finite map built by the same operations:
    [entry] is its lookup, [lookup] additionally faults on a swapped-out block,
    and [unmap] returns the frame that was mapped. *)
Theorem table_queries_refine sid kind ops index :
  let t := foldl table_step (BlockTable_new sid kind) ops in
  let m := foldl map_step ∅ ops in
  table_sorted t ∧ entry t index = m !! index ∧
  lookup_block t index =
    (e ← m !! index; match swap_slot e with Some _ => None | None => Some (physical_id e) end) ∧
  fst (unmap t index) = physical_id <$> m !! index.
Proof.
  intros t m. destruct (table_steps_spec ops _ (new_sorted sid kind)) as [Hs Hm].
  fold t in Hs, Hm. change (table_map (BlockTable_new sid kind))
    with (∅ : gmap Z BlockTableEntry) in Hm. fold m in Hm. rewrite <-Hm.
  split_and!; [done|by apply entry_refines|by apply lookup_block_spec|by apply unmap_spec].
Qed.

(** A fork shares every frame of its parent, under its own sequence id, and no
    entry of it is writable, so the first write of the child copies. *)
Theorem fork_table_shares t child :
  physical_id <$> entries_ (fork_table t child) = physical_id <$> entries_ t ∧
  index_of <$> entries_ (fork_table t child) = index_of <$> entries_ t ∧
  Forall (λ e, writable e = false ∧ lb_sequence_id (logical e) = child)
    (entries_ (fork_table t child)) ∧
  (∀ index, lookup_block (fork_table t child) index = lookup_block t index).
Proof.
  unfold fork_table. simpl. rewrite <-!list_fmap_compose. split_and!; [done..| |].
  - apply Forall_fmap, Forall_true. done.
  - intros index. unfold lookup_block. simpl.
    rewrite lower_bound_fmap, list_lookup_fmap by done. by destruct (entries_ t !! _).
Qed.

(** *** Witness *)

Definition demo_lb (sid index : Z) : LogicalBlock := mkLogicalBlock sid index TextKV (4 * index) 4.
Definition demo_table : BlockTable :=
  foldl table_step (BlockTable_new 7 TextKV)
    [OpMap (demo_lb 7 2) 5 true; OpMap (demo_lb 7 0) 3 true].

Lemma table_step_refines_witness :
  table_sorted (table_step demo_table (OpMap (demo_lb 7 1) 9 true)) ∧
  table_map (table_step demo_table (OpMap (demo_lb 7 1) 9 true)) =
  map_step (table_map demo_table) (OpMap (demo_lb 7 1) 9 true).
Proof.
  apply (table_step_refines demo_table (OpMap (demo_lb 7 1) 9 true)).
  repeat constructor.
Defined.
