(* ===== verification/MemoryAllocator.v ===== *)
(** The physical block pool ([include/qwenvl_paged/MemoryAllocator.h],
    [src/MemoryAllocator.cpp]): frames bound to one slab, the free list,
    reference counts, block copies and swapping through an abstract backend.

    A pointer is an address; the slab is the list of bytes from [pool_base_] on.
    An operation that can reach undefined behaviour (an unchecked index, a copy
    outside the slab or between overlapping frames) returns [None] there. *)
From S2P Require Import Prelude.
From S2P Require Import Block.
From S2P Require Import SwapBackend.

(** ** Configuration and statistics *)

Record AllocatorConfig := mkAllocatorConfig {
  block_shape : BlockShape;
  memory_options : HostMemoryOptions;
  max_blocks : Z
}.

Record AllocatorStats := mkAllocatorStats {
  total_blocks : Z;
  free_blocks : Z;
  active_blocks : Z;
  shared_blocks : Z;
  swapped_blocks : Z;
  bytes_reserved : Z
}.

Record PhysicalBlockInfo := mkPhysicalBlockInfo {
  info_id : Z;
  info_state : BlockState;
  ref_count : Z;
  generation : Z
}.

#[export] Instance PhysicalBlockInfo_eq_dec : EqDecision PhysicalBlockInfo.
Proof. solve_decision. Defined.

Definition round_up (value alignment : Z) : Z :=
  if alignment =? 0 then value
  else u64 (value ⊕ alignment - 1) / alignment ⊗ alignment.

Definition effective_alignment (config : AllocatorConfig) : Z :=
  if mem_alignment_bytes (memory_options config) =? 0 then kDefaultBlockAlignmentBytes
  else mem_alignment_bytes (memory_options config).

Definition block_stride_for (config : AllocatorConfig) : Z :=
  let alignment := effective_alignment config in
  let stride := round_up (byte_size (block_shape config)) alignment in
  if stride =? 0 then alignment else stride.

Definition pool_bytes_for (config : AllocatorConfig) : Z :=
  block_stride_for config ⊗ max_blocks config.

(** ** State *)

Record MemoryAllocator (B : Type) := mkMemoryAllocator {
  config_ : AllocatorConfig;
  block_stride_bytes_ : Z;
  pool_bytes_ : Z;
  owned_pool_ : bool;
  pool_base_ : option Z;
  slab_ : list byte;
  blocks_ : list PhysicalBlock;
  infos_ : list PhysicalBlockInfo;
  free_list_ : list Z;
  swap_backend_ : option B;
  copy_hook_ : option (Z → Z → list byte → list byte)
}.
Arguments mkMemoryAllocator {B}.
Arguments config_ {B}.
Arguments block_stride_bytes_ {B}.
Arguments pool_bytes_ {B}.
Arguments owned_pool_ {B}.
Arguments pool_base_ {B}.
Arguments slab_ {B}.
Arguments blocks_ {B}.
Arguments infos_ {B}.
Arguments free_list_ {B}.
Arguments swap_backend_ {B}.
Arguments copy_hook_ {B}.

Section Updates.
Context {B : Type}.
Implicit Types a : MemoryAllocator B.

Definition with_slab a (m : list byte) : MemoryAllocator B :=
  mkMemoryAllocator (config_ a) (block_stride_bytes_ a) (pool_bytes_ a) (owned_pool_ a)
    (pool_base_ a) m (blocks_ a) (infos_ a) (free_list_ a) (swap_backend_ a) (copy_hook_ a).

Definition with_frames a (infos : list PhysicalBlockInfo) (free : list Z)
    : MemoryAllocator B :=
  mkMemoryAllocator (config_ a) (block_stride_bytes_ a) (pool_bytes_ a) (owned_pool_ a)
    (pool_base_ a) (slab_ a) (blocks_ a) infos free (swap_backend_ a) (copy_hook_ a).

Definition with_backend a (b : option B) : MemoryAllocator B :=
  mkMemoryAllocator (config_ a) (block_stride_bytes_ a) (pool_bytes_ a) (owned_pool_ a)
    (pool_base_ a) (slab_ a) (blocks_ a) (infos_ a) (free_list_ a) b (copy_hook_ a).

Definition with_hook a (h : option (Z → Z → list byte → list byte)) : MemoryAllocator B :=
  mkMemoryAllocator (config_ a) (block_stride_bytes_ a) (pool_bytes_ a) (owned_pool_ a)
    (pool_base_ a) (slab_ a) (blocks_ a) (infos_ a) (free_list_ a) (swap_backend_ a) h.
End Updates.

(** ** Operations *)

Section Operations.
Context {B : Type} `{SwapBackend B}.
Implicit Types a : MemoryAllocator B.

(** The frame the loop of [bind_frames] emplaces for [id]. *)
Definition frame_for (config : AllocatorConfig) (stride : Z) (base : option Z) (id : Z)
    : PhysicalBlock :=
  mkPhysicalBlock id (block_shape config)
    (match base with None => None | Some p => Some (p + id ⊗ stride) end) stride.

Definition bind_frames a (base : option Z) (bytes : list byte) : MemoryAllocator B :=
  let ids := seqZ 0 (max_blocks (config_ a)) in
  mkMemoryAllocator (config_ a) (block_stride_bytes_ a) (pool_bytes_ a) (owned_pool_ a)
    base bytes
    (blocks_ a ++ (frame_for (config_ a) (block_stride_bytes_ a) base <$> ids))
    (infos_ a ++ ((λ id, mkPhysicalBlockInfo id Free 0 0) <$> ids))
    (free_list_ a ++ ids)
    (swap_backend_ a) (copy_hook_ a).

(** The members before [bind_frames]. *)
Definition unbound (config : AllocatorConfig) (owned : bool) : MemoryAllocator B :=
  let stride := block_stride_for config in
  mkMemoryAllocator config stride (stride ⊗ max_blocks config) owned None [] [] [] []
    None None.

(** [MemoryAllocator(config)]. [aligned_alloc] is the library's: a fresh
    block of memory at some address, or a null pointer. *)
Definition MemoryAllocator_new (aligned_alloc : Z → Z → option (Z * list byte))
    (config : AllocatorConfig) : MemoryAllocator B :=
  let bytes := block_stride_for config ⊗ max_blocks config in
  match (if 0 <? bytes then aligned_alloc (effective_alignment config) bytes else None) with
  | Some (p, m) => bind_frames (unbound config true) (Some p) m
  | None => bind_frames (unbound config false) None []
  end.

(** [MemoryAllocator(config, adopted_pool)]. *)
Definition MemoryAllocator_adopt (config : AllocatorConfig) (pool : option (Z * list byte))
    : MemoryAllocator B :=
  match pool with
  | Some (p, m) => bind_frames (unbound config false) (Some p) m
  | None => bind_frames (unbound config false) None []
  end.

Definition block a (id : Z) : option PhysicalBlock := blocks_ a !! Z.to_nat id.

Definition info a (id : Z) : option PhysicalBlockInfo := infos_ a !! Z.to_nat id.

(** [infos_[id]] assigned. *)
Definition set_info a (id : Z) (i : PhysicalBlockInfo) (free : list Z) : MemoryAllocator B :=
  with_frames a (<[Z.to_nat id := i]> (infos_ a)) free.

Definition allocate a : option (option Z * MemoryAllocator B) :=
  match pop_back (free_list_ a) with
  | None => Some (None, a)
  | Some (free, id) =>
    i ← info a id;
    Some (Some id,
          set_info a id (mkPhysicalBlockInfo (info_id i) Active 1 (generation i)) free)
  end.

Definition release a (id : Z) : MemoryAllocator B :=
  match info a id with
  | None => a
  | Some i =>
    if ref_count i =? 0 then a
    else
      let r := ref_count i ⊟ 1 in
      if r =? 0 then
        set_info a id (mkPhysicalBlockInfo (info_id i) Free r (generation i ⊕ 1))
          (free_list_ a ++ [id])
      else
        set_info a id
          (mkPhysicalBlockInfo (info_id i) (if r =? 1 then Active else info_state i) r
             (generation i)) (free_list_ a)
  end.

Definition retain a (id : Z) : MemoryAllocator B :=
  match info a id with
  | None => a
  | Some i =>
    if ref_count i =? 0 then a
    else set_info a id
           (mkPhysicalBlockInfo (info_id i) Shared (ref_count i ⊞ 1) (generation i))
           (free_list_ a)
  end.

(** Reading [n] bytes at an address, and writing there: undefined outside the slab. *)
Definition read_mem a (ptr : option Z) (n : Z) : option (list byte) :=
  p ← ptr; base ← pool_base_ a;
  let off := p - base in
  if (0 <=? off) && (0 <=? n) && (off + n <=? Z.of_nat (length (slab_ a)))
  then Some (slice (Z.to_nat off) (Z.to_nat n) (slab_ a)) else None.

Definition write_mem a (ptr : option Z) (bytes : list byte) : option (MemoryAllocator B) :=
  p ← ptr; base ← pool_base_ a;
  let off := p - base in
  if (0 <=? off) && (off + Z.of_nat (length bytes) <=? Z.of_nat (length (slab_ a)))
  then Some (with_slab a (splice (Z.to_nat off) bytes (slab_ a))) else None.

(** [std::memcpy]: undefined when the two ranges overlap. *)
Definition memcpy a (dst src : option Z) (n : Z) : option (MemoryAllocator B) :=
  d ← dst; s ← src;
  if (d + n <=? s) || (s + n <=? d) then
    bytes ← read_mem a src n; write_mem a dst bytes
  else None.

Definition copy_block a (source destination : Z) : option (MemoryAllocator B) :=
  match copy_hook_ a with
  | Some hook => Some (with_slab a (hook source destination (slab_ a)))
  | None =>
    match block a source, block a destination with
    | Some src, Some dst =>
      let bytes := if size_bytes_ src <? size_bytes_ dst then size_bytes_ src
                   else size_bytes_ dst in
      memcpy a (storage_ dst) (storage_ src) bytes
    | _, _ => Some a
    end
  end.

Definition set_copy_hook a (hook : option (Z → Z → list byte → list byte)) :=
  with_hook a hook.

Definition set_swap_backend a (backend : option B) := with_backend a backend.

(** A frame as a backend reads it. *)
Definition block_view a (frame : PhysicalBlock) : BlockBytes :=
  mkBlockBytes (size_bytes_ frame) (read_mem a (storage_ frame) (size_bytes_ frame)).

(** The writes a backend made to a frame. *)
Definition write_view a (frame : PhysicalBlock) (view : BlockBytes)
    : option (MemoryAllocator B) :=
  match bb_data view with
  | Some bytes => write_mem a (storage_ frame) bytes
  | None => Some a
  end.

Definition swap_out a (id : Z) : option (option Z * MemoryAllocator B) :=
  match swap_backend_ a, info a id with
  | Some backend, Some i =>
    if negb (ref_count i =? 1) then Some (None, a)
    else
      match block a id with
      | None => Some (None, a)
      | Some frame =>
        '(slot, backend') ← backend_store (block_view a frame) backend;
        let a' := with_backend a (Some backend') in
        match slot with
        | None => Some (None, a')
        | Some s =>
          Some (Some s,
                set_info a' id (mkPhysicalBlockInfo (info_id i) Free 0 (generation i ⊕ 1))
                  (free_list_ a' ++ [id]))
        end
      end
  | _, _ => Some (None, a)
  end.

Definition swap_in a (slot : Z) : option (option Z * MemoryAllocator B) :=
  match swap_backend_ a with
  | None => Some (None, a)
  | Some backend =>
    '(id, a1) ← allocate a;
    match id with
    | None => Some (None, a1)
    | Some id =>
      match block a1 id with
      | None => Some (None, release a1 id)
      | Some frame =>
        '(ok, view) ← backend_load slot (block_view a1 frame) backend;
        a2 ← write_view a1 frame view;
        if negb ok then Some (None, release a2 id)
        else Some (Some id, with_backend a2 (Some (backend_discard slot backend)))
      end
    end
  end.

Definition discard_swapped a (slot : Z) : MemoryAllocator B :=
  match swap_backend_ a with
  | None => a
  | Some backend => with_backend a (Some (backend_discard slot backend))
  end.

(** The body of the loop of [stats]. *)
Definition stats_add (s : AllocatorStats) (i : PhysicalBlockInfo) : AllocatorStats :=
  match info_state i with
  | Free => mkAllocatorStats (total_blocks s) (free_blocks s ⊞ 1) (active_blocks s)
              (shared_blocks s) (swapped_blocks s) (bytes_reserved s)
  | Active => mkAllocatorStats (total_blocks s) (free_blocks s) (active_blocks s ⊞ 1)
                (shared_blocks s) (swapped_blocks s) (bytes_reserved s)
  | Shared => mkAllocatorStats (total_blocks s) (free_blocks s) (active_blocks s)
                (shared_blocks s ⊞ 1) (swapped_blocks s) (bytes_reserved s)
  | Swapped => s
  end.

Definition stats a : AllocatorStats :=
  let s := foldl stats_add
             (mkAllocatorStats (u32 (Z.of_nat (length (infos_ a)))) 0 0 0 0 0) (infos_ a) in
  mkAllocatorStats (total_blocks s) (free_blocks s) (active_blocks s) (shared_blocks s)
    (match swap_backend_ a with
     | Some backend => u32 (backend_resident_slots backend)
     | None => swapped_blocks s
     end)
    (pool_bytes_ a).

Definition can_allocate a (block_count : Z) : bool :=
  block_count <=? Z.of_nat (length (free_list_ a)).

Definition pool_base a : option Z := pool_base_ a.
Definition block_stride_bytes a : Z := block_stride_bytes_ a.
Definition pool_bytes a : Z := pool_bytes_ a.
Definition alignment_bytes a : Z := mem_alignment_bytes (memory_options (config_ a)).
Definition pinned_memory_requested a : bool := prefer_pinned_memory (memory_options (config_ a)).
Definition owns_pool a : bool := owned_pool_ a.
End Operations.

(** ** The eviction policy *)

(** An allocator with the member [eviction_selector_], which is a client's
    function of the allocator and which no other operation reads. *)
Record PolicyAllocator (B : Type) := mkPolicyAllocator {
  policy_pool : MemoryAllocator B;
  eviction_selector_ : option (MemoryAllocator B → option Z)
}.
Arguments mkPolicyAllocator {B}.
Arguments policy_pool {B}.
Arguments eviction_selector_ {B}.

Definition set_eviction_selector {B} (a : PolicyAllocator B)
    (selector : option (MemoryAllocator B → option Z)) : PolicyAllocator B :=
  mkPolicyAllocator (policy_pool a) selector.

Definition select_eviction_candidate {B} (a : PolicyAllocator B) : option Z :=
  match eviction_selector_ a with None => None | Some f => f (policy_pool a) end.
