(* ===== verification/AllocatorSpec.v ===== *)
(** The contract of the block pool: its well-formedness invariant, what each
    operation of [MemoryAllocator.v] does to reference counts, frame contents,
    the free list and the swapped blocks, and the properties of the pool. *)
From S2P Require Import Prelude.
From S2P Require Import Block.
From S2P Require Import SwapBackend.
From S2P Require Import MemoryAllocator.

(** ** Observations and invariant *)

Section Spec.
Context {B : Type} `{SwapBackendLaws B}.
Implicit Types a : MemoryAllocator B.

(** The block state that goes with a reference count. *)
Definition state_of (r : Z) : BlockState :=
  if r =? 0 then Free else if r =? 1 then Active else Shared.

(** The reference count of a frame, zero for an invalid id. *)
Definition refs a (id : Z) : Z :=
  if 0 <=? id then match info a id with Some i => ref_count i | None => 0 end else 0.

Definition valid a (id : Z) : Prop := 0 <= id < max_blocks (config_ a).

Definition nfree a : Z := Z.of_nat (length (free_list_ a)).

(** The bytes of a frame. *)
Definition frame a (id : Z) : list byte :=
  slice (Z.to_nat (id * block_stride_bytes_ a)) (Z.to_nat (block_stride_bytes_ a)) (slab_ a).

(** The blocks the swap backend holds, and the slot ids it has left. *)
Definition swapped a : gmap Z (list byte) :=
  match swap_backend_ a with Some b => backend_contents b | None => ∅ end.
Definition budget a : Z :=
  match swap_backend_ a with Some b => backend_budget b | None => 0 end.

Definition has_backend a : bool :=
  match swap_backend_ a with Some _ => true | None => false end.

(** What no operation changes. *)
Definition pool_of a :=
  (config_ a, block_stride_bytes_ a, pool_bytes_ a, owned_pool_ a, pool_base_ a,
   blocks_ a, copy_hook_ a, has_backend a).
Definition same_pool a a' : Prop := pool_of a' = pool_of a.

Record info_wf (i : nat) (inf : PhysicalBlockInfo) : Prop := {
  info_id_wf : info_id inf = Z.of_nat i;
  info_ref_wf : is_u32 (ref_count inf);
  info_gen_wf : is_u64 (generation inf);
  info_state_wf : info_state inf = state_of (ref_count inf)
}.

Record alloc_wf a : Prop := {
  wf_max : is_u32 (max_blocks (config_ a));
  wf_len : Z.of_nat (length (infos_ a)) = max_blocks (config_ a);
  wf_info i inf : infos_ a !! i = Some inf → info_wf i inf;
  wf_free_nodup : NoDup (free_list_ a);
  wf_free id : id ∈ free_list_ a ↔ valid a id ∧ refs a id = 0;
  wf_stride : 0 < block_stride_bytes_ a;
  wf_blocks : blocks_ a =
    frame_for (config_ a) (block_stride_bytes_ a) (pool_base_ a)
      <$> seqZ 0 (max_blocks (config_ a));
  wf_base : 0 < max_blocks (config_ a) → is_Some (pool_base_ a);
  wf_slab : Z.of_nat (length (slab_ a)) = max_blocks (config_ a) * block_stride_bytes_ a;
  wf_bytes : max_blocks (config_ a) * block_stride_bytes_ a < W64;
  wf_hook : copy_hook_ a = None;
  wf_backend b : swap_backend_ a = Some b → backend_ok b
}.

(** ** Lemmas: lookups *)

Lemma valid_nat a id : valid a id → Z.of_nat (Z.to_nat id) = id.
Proof. unfold valid. lia. Qed.

Lemma info_valid a id : alloc_wf a → valid a id → ∃ i, info a id = Some i.
Proof.
  intros Hwf Hv. unfold info. apply lookup_lt_is_Some_2.
  pose proof (wf_len _ Hwf). unfold valid in Hv. lia.
Qed.

Lemma info_Some_valid a id i : alloc_wf a → 0 <= id → info a id = Some i → valid a id.
Proof.
  intros Hwf Hid Hi%lookup_lt_Some. pose proof (wf_len _ Hwf). unfold valid. lia.
Qed.

Lemma refs_info a id i : 0 <= id → info a id = Some i → refs a id = ref_count i.
Proof. intros Hid Hi. unfold refs. rewrite Hi. by rewrite (proj2 (Z.leb_le _ _)). Qed.

Lemma refs_range a id : alloc_wf a → is_u32 (refs a id).
Proof.
  intros Hwf. unfold refs. case_match; [|words]. case_match eqn:Hi; [|words].
  by apply (wf_info _ Hwf) in Hi as [].
Qed.

Lemma refs_pos_valid a id : alloc_wf a → refs a id ≠ 0 → valid a id.
Proof.
  unfold refs. intros Hwf. case_match eqn:Hid; [|done]. apply Z.leb_le in Hid.
  case_match eqn:Hi; [|done]. intros _. by eapply info_Some_valid.
Qed.

Lemma block_valid a id :
  alloc_wf a → valid a id →
  block a id = Some (frame_for (config_ a) (block_stride_bytes_ a) (pool_base_ a) id).
Proof.
  intros Hwf Hv. unfold block. rewrite (wf_blocks _ Hwf), list_lookup_fmap.
  unfold valid in Hv. rewrite lookup_seqZ_lt by lia. simpl. do 2 f_equal. lia.
Qed.

Lemma block_invalid a id : alloc_wf a → 0 <= id → ¬ valid a id → block a id = None.
Proof.
  intros Hwf Hid Hv. unfold block. rewrite (wf_blocks _ Hwf). apply lookup_ge_None_2.
  rewrite length_fmap, length_seqZ. unfold valid in Hv. lia.
Qed.

(** ** Lemmas: updating one frame's metadata *)

Lemma refs_set_info a id i free j :
  alloc_wf a → valid a id →
  refs (set_info a id i free) j = if decide (j = id) then ref_count i else refs a j.
Proof.
  intros Hwf Hv. unfold refs, info, set_info. simpl. unfold valid in *.
  pose proof (wf_len _ Hwf). case_match eqn:Hj.
  - apply Z.leb_le in Hj. case_decide as Hd; [subst j|].
    + by rewrite list_lookup_insert_eq by lia.
    + by rewrite list_lookup_insert_ne by lia.
  - apply Z.leb_gt in Hj. by rewrite decide_False by lia.
Qed.

(** The invariant is local: new metadata for one frame and a free list that
    agrees with it. *)
Lemma set_info_wf a id i free :
  alloc_wf a → valid a id → info_wf (Z.to_nat id) i →
  NoDup free →
  (∀ j, j ∈ free ↔ valid a j ∧ (if decide (j = id) then ref_count i else refs a j) = 0) →
  alloc_wf (set_info a id i free).
Proof.
  intros Hwf Hv Hi Hnd Hfree. pose proof Hwf as [].
  split; simpl; rewrite ?length_insert; try done.
  - intros k inf [(<- & <- & _)|[_ ?]]%list_lookup_insert_Some; eauto.
  - intros j. rewrite Hfree, refs_set_info by done. done.
Qed.

(** ** Specifications of the operations *)

Lemma allocate_spec a :
  alloc_wf a →
  runs (allocate a) (λ '(r, a'),
    alloc_wf a' ∧ same_pool a a' ∧ slab_ a' = slab_ a ∧ swap_backend_ a' = swap_backend_ a ∧
    match r with
    | None => a' = a ∧ nfree a = 0
    | Some id =>
      valid a id ∧ refs a id = 0 ∧ (∀ j, refs a' j = refs a j + zcount j [id]) ∧
      nfree a' = nfree a - 1
    end).
Proof.
  intros Hwf. unfold allocate. destruct (pop_back (free_list_ a)) as [[free id]|] eqn:Hpop.
  - apply pop_back_Some in Hpop.
    assert (valid a id ∧ refs a id = 0) as [Hv Hr] by 
      (apply (wf_free _ Hwf); rewrite Hpop; apply elem_of_app; right; by left).
    destruct (info_valid a id Hwf Hv) as [i Hi]. rewrite Hi. simpl.
    pose proof (wf_free_nodup _ Hwf) as Hnd. rewrite Hpop in Hnd.
    apply NoDup_app in Hnd as (Hnd & Hdis & _).
    assert (alloc_wf (set_info a id (mkPhysicalBlockInfo (info_id i) Active 1 (generation i)) free)).
    { apply set_info_wf; [done..| |done|].
      - destruct (wf_info _ Hwf _ _ Hi). by split.
      - intros j. pose proof (wf_free _ Hwf j) as Hj. rewrite Hpop in Hj.
        case_decide as Hd; simpl.
        + subst j. split; [|lia]. intros Hin. destruct (Hdis _ Hin). by left.
        + rewrite <-Hj, elem_of_app, list_elem_of_singleton. tauto. }
    split_and!; try done.
    + intros j. rewrite refs_set_info by done. rewrite zcount_single.
      case_decide; subst; simpl; lia.
    + unfold nfree. simpl. rewrite Hpop, length_app. simpl. lia.
  - apply pop_back_None in Hpop. split_and!; try done. unfold nfree. by rewrite Hpop.
Qed.

Lemma free_snoc_wf a id :
  alloc_wf a → refs a id ≠ 0 →
  NoDup (free_list_ a ++ [id]) ∧
  (∀ j, j ∈ free_list_ a ++ [id] ↔
        valid a j ∧ (if decide (j = id) then 0 else refs a j) = 0).
Proof.
  intros Hwf Hr. pose proof (refs_pos_valid _ _ Hwf Hr) as Hv.
  pose proof (wf_free _ Hwf) as Hf. split.
  - apply NoDup_app. split_and!; [by apply wf_free_nodup| |apply NoDup_singleton].
    intros j Hj ->%list_elem_of_singleton. apply Hf in Hj as [_ Hj]. done.
  - intros j. rewrite elem_of_app, list_elem_of_singleton, Hf.
    case_decide; [subst; tauto|tauto].
Qed.

Lemma release_spec a id :
  alloc_wf a → 0 < refs a id →
  let a' := release a id in
  alloc_wf a' ∧ same_pool a a' ∧ slab_ a' = slab_ a ∧ swap_backend_ a' = swap_backend_ a ∧
  (∀ j, refs a' j = refs a j - zcount j [id]) ∧
  nfree a' = nfree a + (if refs a id =? 1 then 1 else 0).
Proof.
  intros Hwf Hpos a'. pose proof (refs_pos_valid a id Hwf ltac:(lia)) as Hv.
  destruct (info_valid a id Hwf Hv) as [i Hi].
  pose proof (refs_range a id Hwf) as Hrange.
  destruct (wf_info _ Hwf _ _ Hi) as [Hid Hr Hg Hs].
  assert (refs a id = ref_count i) as Hri by (apply refs_info; [apply Hv|done]).
  subst a'. unfold release. rewrite Hi, (proj2 (Z.eqb_neq _ _)) by lia.
  rewrite u32_small by words. destruct (Z.eqb_spec (ref_count i - 1) 0) as [Hz|Hz].
  - destruct (free_snoc_wf a id Hwf) as [Hnd Hfree]; [lia|].
    assert (alloc_wf (set_info a id (mkPhysicalBlockInfo (info_id i) Free (ref_count i - 1)
      (generation i ⊕ 1)) (free_list_ a ++ [id]))).
    { apply set_info_wf; try done.
      - split; simpl; [done|words|apply u64_range|]. by rewrite Hz.
      - simpl. by rewrite Hz. }
    split_and!; try done.
    + intros j. rewrite refs_set_info, zcount_single by done. case_decide; subst; simpl; lia.
    + unfold nfree. simpl. rewrite length_app. simpl.
      rewrite (proj2 (Z.eqb_eq _ _)) by lia. lia.
  - set (i' := mkPhysicalBlockInfo _ _ _ _).
    assert (alloc_wf (set_info a id i' (free_list_ a))).
    { apply set_info_wf; try done.
      - split; simpl; [done|words|done|]. rewrite Hs. unfold state_of.
        repeat case_match; try done; lia.
      - by apply wf_free_nodup.
      - intros j. rewrite (wf_free _ Hwf). case_decide; [subst j|done].
        subst i'. simpl. lia. }
    split_and!; try done.
    + intros j. rewrite refs_set_info, zcount_single by done.
      subst i'. case_decide; subst; simpl; lia.
    + unfold nfree. simpl. rewrite (proj2 (Z.eqb_neq _ _)) by lia. lia.
Qed.

Lemma retain_spec a id :
  alloc_wf a → 0 < refs a id → refs a id + 1 < W32 →
  let a' := retain a id in
  alloc_wf a' ∧ same_pool a a' ∧ slab_ a' = slab_ a ∧ swap_backend_ a' = swap_backend_ a ∧
  (∀ j, refs a' j = refs a j + zcount j [id]) ∧ nfree a' = nfree a.
Proof.
  intros Hwf Hpos Hmax a'. pose proof (refs_pos_valid a id Hwf ltac:(lia)) as Hv.
  destruct (info_valid a id Hwf Hv) as [i Hi].
  destruct (wf_info _ Hwf _ _ Hi) as [Hid Hr Hg Hs].
  assert (refs a id = ref_count i) as Hri by (apply refs_info; [apply Hv|done]).
  subst a'. unfold retain. rewrite Hi, (proj2 (Z.eqb_neq _ _)) by lia.
  rewrite u32_small by words. set (i' := mkPhysicalBlockInfo _ _ _ _).
  assert (alloc_wf (set_info a id i' (free_list_ a))).
  { apply set_info_wf; try done.
    - split; simpl; [done|words|done|]. unfold state_of. repeat case_match; try done; lia.
    - by apply wf_free_nodup.
    - intros j. rewrite (wf_free _ Hwf). case_decide; [subst j|done]. subst i'. simpl. lia. }
  split_and!; try done. intros j. rewrite refs_set_info, zcount_single by done.
  subst i'. case_decide; subst; simpl; lia.
Qed.

(** ** Lemmas: frame contents *)

(** The slab with one frame overwritten. *)
Definition set_frame a (id : Z) (bytes : list byte) : MemoryAllocator B :=
  with_slab a (splice (Z.to_nat (id * block_stride_bytes_ a)) bytes (slab_ a)).

(** The byte range of a frame lies in the slab and frames do not overlap. *)
Lemma frame_range a id :
  alloc_wf a → valid a id →
  0 <= id * block_stride_bytes_ a ∧
  id * block_stride_bytes_ a + block_stride_bytes_ a <= Z.of_nat (length (slab_ a)).
Proof.
  intros Hwf Hv. pose proof (wf_stride _ Hwf). rewrite (wf_slab _ Hwf).
  unfold valid in Hv. nia.
Qed.

Lemma frames_disjoint a i j :
  alloc_wf a → valid a i → valid a j → i ≠ j →
  i * block_stride_bytes_ a + block_stride_bytes_ a <= j * block_stride_bytes_ a ∨
  j * block_stride_bytes_ a + block_stride_bytes_ a <= i * block_stride_bytes_ a.
Proof.
  intros Hwf Hi Hj Hne. pose proof (wf_stride _ Hwf).
  destruct (Z.lt_trichotomy i j) as [?|[?|?]]; [left|done|right]; nia.
Qed.

Lemma length_frame a id :
  alloc_wf a → valid a id → Z.of_nat (length (frame a id)) = block_stride_bytes_ a.
Proof.
  intros Hwf Hv. destruct (frame_range a id Hwf Hv). pose proof (wf_stride _ Hwf).
  unfold frame. rewrite length_slice by lia. lia.
Qed.

Lemma frame_address a id :
  alloc_wf a → valid a id →
  ∃ base, pool_base_ a = Some base ∧
    storage_ (frame_for (config_ a) (block_stride_bytes_ a) (pool_base_ a) id) =
    Some (base + id * block_stride_bytes_ a).
Proof.
  intros Hwf Hv. destruct (wf_base _ Hwf) as [base Hb]; [unfold valid in Hv; lia|].
  exists base. split; [done|]. rewrite Hb. simpl.
  destruct (frame_range a id Hwf Hv). pose proof (wf_bytes _ Hwf).
  pose proof (wf_slab _ Hwf). pose proof (wf_stride _ Hwf). by rewrite u64_small by words.
Qed.

Lemma read_frame a id fr :
  alloc_wf a → valid a id → block a id = Some fr →
  read_mem a (storage_ fr) (block_stride_bytes_ a) = Some (frame a id).
Proof.
  intros Hwf Hv Hb. rewrite block_valid in Hb by done. injection Hb as <-.
  destruct (frame_address a id Hwf Hv) as (base & Hbase & ->).
  destruct (frame_range a id Hwf Hv). pose proof (wf_stride _ Hwf).
  unfold read_mem. rewrite Hbase. cbn [mbind option_bind].
  replace (base + id * block_stride_bytes_ a - base) with (id * block_stride_bytes_ a) by lia.
  rewrite !(proj2 (Z.leb_le _ _)) by lia. done.
Qed.

Lemma write_frame a id fr bytes :
  alloc_wf a → valid a id → block a id = Some fr →
  Z.of_nat (length bytes) = block_stride_bytes_ a →
  write_mem a (storage_ fr) bytes = Some (set_frame a id bytes).
Proof.
  intros Hwf Hv Hb Hlen. rewrite block_valid in Hb by done. injection Hb as <-.
  destruct (frame_address a id Hwf Hv) as (base & Hbase & ->).
  destruct (frame_range a id Hwf Hv).
  unfold write_mem. rewrite Hbase. cbn [mbind option_bind].
  replace (base + id * block_stride_bytes_ a - base) with (id * block_stride_bytes_ a) by lia.
  rewrite !(proj2 (Z.leb_le _ _)) by lia. done.
Qed.

Lemma set_frame_wf a id bytes :
  alloc_wf a → valid a id → Z.of_nat (length bytes) = block_stride_bytes_ a →
  alloc_wf (set_frame a id bytes) ∧
  (∀ j, valid a j →
     frame (set_frame a id bytes) j = if decide (j = id) then bytes else frame a j).
Proof.
  intros Hwf Hv Hlen. destruct (frame_range a id Hwf Hv). pose proof (wf_stride _ Hwf).
  split.
  - pose proof Hwf as []. split; simpl; try done. by rewrite length_splice by lia.
  - intros j Hj. unfold frame, set_frame. simpl. case_decide as Hd.
    + subst j. replace (Z.to_nat (block_stride_bytes_ a)) with (length bytes) by lia.
      apply slice_splice_same. lia.
    + apply slice_splice_other; [lia|].
      destruct (frame_range a j Hwf Hj).
      destruct (frames_disjoint a j id Hwf Hj Hv Hd); lia.
Qed.

Lemma copy_block_spec a source destination :
  alloc_wf a → valid a source → valid a destination → source ≠ destination →
  copy_block a source destination = Some (set_frame a destination (frame a source)).
Proof.
  intros Hwf Hs Hd Hne. unfold copy_block. rewrite (wf_hook _ Hwf).
  destruct (block a source) as [src|] eqn:Hsrc; [|by rewrite block_valid in Hsrc].
  destruct (block a destination) as [dst|] eqn:Hdst; [|by rewrite block_valid in Hdst].
  assert (size_bytes_ src = block_stride_bytes_ a ∧ size_bytes_ dst = block_stride_bytes_ a)
    as [-> ->] by (rewrite !block_valid in Hsrc, Hdst by done; by simplify_eq).
  rewrite Z.ltb_irrefl. unfold memcpy.
  destruct (frame_address a source Hwf Hs) as (base & Hbase & Has).
  destruct (frame_address a destination Hwf Hd) as (base' & Hbase' & Had).
  rewrite (read_frame _ _ _ Hwf Hs Hsrc). cbn [mbind option_bind].
  rewrite (write_frame _ _ _ _ Hwf Hd Hdst) by (by apply length_frame).
  rewrite block_valid in Hsrc, Hdst by done. injection Hsrc as <-. injection Hdst as <-.
  rewrite Had, Has. cbn [mbind option_bind].
  rewrite (proj2 (orb_true_iff _ _)); [done|]. rewrite !Z.leb_le.
  destruct (frames_disjoint a source destination Hwf Hs Hd Hne); simplify_eq; lia.
Qed.

Lemma with_backend_wf a b :
  alloc_wf a → backend_ok b → alloc_wf (with_backend a (Some b)).
Proof. intros [] Hb. split; simpl; try done. by intros ? [= <-]. Qed.

Lemma with_backend_pool a b b' :
  swap_backend_ a = Some b → same_pool a (with_backend a (Some b')).
Proof. intros Hb. unfold same_pool, pool_of, has_backend. simpl. by rewrite Hb. Qed.

Lemma view_readable a id fr :
  alloc_wf a → valid a id → block a id = Some fr →
  readable (block_view a fr) (frame a id) ∧ bb_size (block_view a fr) = block_stride_bytes_ a.
Proof.
  intros Hwf Hv Hb. pose proof (read_frame _ _ _ Hwf Hv Hb) as Hr.
  rewrite block_valid in Hb by done. injection Hb as <-. simpl. split; [|done].
  split; simpl; [done|]. by apply length_frame.
Qed.

(** [swap_out]: with a budget of slot ids, either nothing happens, or the
    only reference is traded for a fresh slot holding the frame's bytes. *)
Lemma swap_out_spec a id :
  alloc_wf a → 0 <= id → 0 < budget a →
  runs (swap_out a id) (λ '(r, a'),
    alloc_wf a' ∧ same_pool a a' ∧ slab_ a' = slab_ a ∧
    match r with
    | None => a' = a
    | Some slot =>
      refs a id = 1 ∧ (∀ j, refs a' j = refs a j - zcount j [id]) ∧
      nfree a' = nfree a + 1 ∧ swapped a !! slot = None ∧
      swapped a' = <[slot := frame a id]> (swapped a) ∧ budget a' = budget a - 1
    end).
Proof.
  intros Hwf Hid Hbud. unfold swap_out, budget in *.
  destruct (swap_backend_ a) as [b|] eqn:Hb; [|lia].
  destruct (info a id) as [i|] eqn:Hi; [|done].
  destruct (Z.eqb_spec (ref_count i) 1) as [Hone|]; [|done].
  pose proof (info_Some_valid _ _ _ Hwf Hid Hi) as Hv.
  pose proof (refs_info _ _ _ Hid Hi) as Hri. cbn [negb].
  destruct (block a id) as [fr|] eqn:Hfr; [|by rewrite block_valid in Hfr].
  destruct (view_readable a id fr Hwf Hv Hfr) as [Hread _].
  run_step (backend_store_spec b _ _ (wf_backend _ Hwf _ Hb) Hread).
  intros [[slot|] b'] Hst; cbn [runs].
  2:{ subst b'. assert (with_backend a (Some b) = a) as -> by (destruct a; by simplify_eq/=).
      done. }
  destruct Hst as (Hnone & Hcont & Hok). destruct (Hok Hbud) as [Hok' Hbud'].
  destruct (wf_info _ Hwf _ _ Hi) as [Hiid _ _ _].
  pose proof (with_backend_wf a b' Hwf Hok') as Hwf'.
  destruct (free_snoc_wf (with_backend a (Some b')) id Hwf') as [Hnd Hfree].
  { change (refs a id ≠ 0). lia. }
  assert (valid (with_backend a (Some b')) id) as Hv' by done.
  assert (alloc_wf (set_info (with_backend a (Some b')) id
    (mkPhysicalBlockInfo (info_id i) Free 0 (generation i ⊕ 1))
    (free_list_ (with_backend a (Some b')) ++ [id]))) as Hwf''.
  { apply set_info_wf; try done. split; simpl; [done|words|apply u64_range|done]. }
  split_and!; try done.
  - unfold same_pool, pool_of, has_backend. simpl. by rewrite Hb.
  - lia.
  - intros j. rewrite refs_set_info, zcount_single by done. change (refs (with_backend a _) j)
      with (refs a j). case_decide; subst; simpl; lia.
  - unfold nfree. simpl. rewrite length_app. simpl. lia.
  - unfold swapped. by rewrite Hb.
  - unfold swapped. simpl. by rewrite Hb.
Qed.

(** [swap_in] of a slot that is resident and holds one frame. *)
Lemma swap_in_spec a slot bytes :
  alloc_wf a → swapped a !! slot = Some bytes →
  Z.of_nat (length bytes) = block_stride_bytes_ a →
  runs (swap_in a slot) (λ '(r, a'),
    alloc_wf a' ∧ same_pool a a' ∧
    match r with
    | None => a' = a ∧ nfree a = 0
    | Some id =>
      valid a id ∧ refs a id = 0 ∧ (∀ j, refs a' j = refs a j + zcount j [id]) ∧
      nfree a' = nfree a - 1 ∧ swapped a' = delete slot (swapped a) ∧
      budget a' = budget a ∧
      (∀ j, valid a j → frame a' j = if decide (j = id) then bytes else frame a j)
    end).
Proof.
  intros Hwf Hsl Hlen. unfold swap_in, swapped, budget in *.
  destruct (swap_backend_ a) as [b|] eqn:Hb; [|done].
  run_step (allocate_spec a Hwf). intros [[id|] a1] (Hwf1 & Hsame & Hslab & Hback & Hr);
    cbn [runs]; [|destruct Hr; by subst].
  destruct Hr as (Hv & Hr0 & Hrefs & Hfree).
  pose proof Hsame as Hpool. unfold same_pool, pool_of in Hpool.
  injection Hpool as Hcfg Hstr _ _ _ _ _ _.
  assert (valid a1 id) as Hv1 by (unfold valid in *; by rewrite Hcfg).
  destruct (block a1 id) as [fr|] eqn:Hfr; [|by rewrite block_valid in Hfr].
  destruct (view_readable a1 id fr Hwf1 Hv1 Hfr) as [Hread Hsize].
  pose proof (wf_backend _ Hwf _ Hb) as Hok.
  run_step (backend_load_spec b slot _ _ Hok Hread). intros [ok view].
  rewrite Hsl, Hsize, Hstr, (proj2 (Z.ltb_ge _ _)) by lia. intros (-> & [Hdata Hlen'] & Hsz).
  assert (drop (length bytes) (frame a1 id) = []) as Hdrop.
  { apply drop_ge. pose proof (length_frame a1 id Hwf1 Hv1). lia. }
  rewrite Hdrop, app_nil_r in Hdata.
  unfold write_view. rewrite Hdata.
  rewrite (write_frame a1 id fr bytes Hwf1 Hv1 Hfr) by lia. cbn [mbind option_bind negb runs].
  destruct (set_frame_wf a1 id bytes Hwf1 Hv1) as [Hwf2 Hframes]; [lia|].
  destruct (backend_discard_spec b slot Hok) as (Hok' & Hdel & Hbud).
  split_and!; try done.
  - by apply with_backend_wf.
  - unfold same_pool in *. rewrite <-Hsame. unfold pool_of, has_backend. simpl.
    by rewrite Hback, Hb.
  - intros j Hj. change (frame (with_backend _ _) j) with (frame (set_frame a1 id bytes) j).
    rewrite Hframes by (unfold valid in *; by rewrite Hcfg).
    case_decide; [done|]. unfold frame. by rewrite Hslab, Hstr.
Qed.

(** [swap_in] of a slot that is not resident leaves the pool as it was, up to
    the generation of the frame it tried. *)
Lemma swap_in_absent a slot :
  alloc_wf a → swapped a !! slot = None →
  runs (swap_in a slot) (λ '(r, a'),
    r = None ∧ alloc_wf a' ∧ same_pool a a' ∧ (∀ j, refs a' j = refs a j) ∧
    nfree a' = nfree a ∧ swap_backend_ a' = swap_backend_ a ∧
    (∀ j, valid a j → frame a' j = frame a j)).
Proof.
  intros Hwf Hsl. unfold swap_in, swapped in *.
  destruct (swap_backend_ a) as [b|] eqn:Hb; [|done].
  run_step (allocate_spec a Hwf). intros [[id|] a1] (Hwf1 & Hsame & Hslab & Hback & Hr);
    cbn [runs]; [|destruct Hr; by subst].
  destruct Hr as (Hv & Hr0 & Hrefs & Hfree).
  pose proof Hsame as Hpool. unfold same_pool, pool_of in Hpool.
  injection Hpool as Hcfg Hstr _ _ _ _ _ _.
  assert (valid a1 id) as Hv1 by (unfold valid in *; by rewrite Hcfg).
  destruct (block a1 id) as [fr|] eqn:Hfr; [|by rewrite block_valid in Hfr].
  destruct (view_readable a1 id fr Hwf1 Hv1 Hfr) as [Hread Hsize].
  run_step (backend_load_spec b slot _ _ (wf_backend _ Hwf _ Hb) Hread). intros [ok view].
  rewrite Hsl. intros [-> ->]. unfold write_view. rewrite (proj1 Hread).
  rewrite (write_frame a1 id fr _ Hwf1 Hv1 Hfr) by (by apply length_frame).
  cbn [mbind option_bind negb runs].
  destruct (set_frame_wf a1 id (frame a1 id) Hwf1 Hv1) as [Hwf2 Hframes];
    [by apply length_frame|].
  assert (refs (set_frame a1 id (frame a1 id)) id = 1) as Hone.
  { change (refs a1 id = 1). rewrite Hrefs, zcount_single, decide_True by done. lia. }
  destruct (release_spec _ id Hwf2) as (Hwf3 & Hsame3 & Hslab3 & Hback3 & Hrefs3 & Hfree3);
    [by rewrite Hone|].
  split_and!; try done.
  - unfold same_pool in *. by rewrite Hsame3, <-Hsame.
  - intros j. rewrite Hrefs3. change (refs (set_frame a1 id (frame a1 id)) j) with (refs a1 j).
    rewrite Hrefs. lia.
  - rewrite Hfree3, Hone. change (nfree (set_frame a1 id (frame a1 id))) with (nfree a1).
    simpl. lia.
  - rewrite Hback3. simpl. by rewrite Hback.
  - intros j Hj. unfold frame at 1. rewrite Hslab3.
    assert (block_stride_bytes_ (release (set_frame a1 id (frame a1 id)) id)
            = block_stride_bytes_ a1) as ->.
    { unfold same_pool, pool_of in Hsame3. by injection Hsame3. }
    fold (frame (set_frame a1 id (frame a1 id)) j).
    change (slice _ _ _) with (frame (set_frame a1 id (frame a1 id)) j).
    rewrite Hframes by (unfold valid in *; by rewrite Hcfg).
    case_decide; subst; unfold frame; by rewrite Hslab, Hstr.
Qed.

Lemma nfree_zero a : alloc_wf a → nfree a = 0 ↔ (∀ id, valid a id → refs a id ≠ 0).
Proof.
  intros Hwf. unfold nfree. split.
  - intros Hz id Hv Hr. assert (id ∈ free_list_ a) as Hin by (by apply (wf_free _ Hwf)).
    destruct (free_list_ a); [by apply not_elem_of_nil in Hin|done].
  - intros Hr. destruct (free_list_ a) as [|id l] eqn:Hf; [done|].
    destruct (proj1 (wf_free _ Hwf id)) as [Hv Hz]; [rewrite Hf; by left|].
    by destruct (Hr id Hv).
Qed.

Lemma discard_swapped_spec a slot :
  alloc_wf a →
  let a' := discard_swapped a slot in
  alloc_wf a' ∧ same_pool a a' ∧ slab_ a' = slab_ a ∧ (∀ j, refs a' j = refs a j) ∧
  nfree a' = nfree a ∧ swapped a' = delete slot (swapped a) ∧ budget a' = budget a.
Proof.
  intros Hwf a'. subst a'. unfold discard_swapped, swapped, budget.
  destruct (swap_backend_ a) as [b|] eqn:Hb.
  - destruct (backend_discard_spec b slot (wf_backend _ Hwf _ Hb)) as (Hok' & Hdel & Hbud).
    split_and!; try done; [by apply with_backend_wf|by eapply with_backend_pool].
  - rewrite Hb, delete_empty. done.
Qed.

(** ** Lemmas: statistics *)

Definition count_state (st : BlockState) (l : list PhysicalBlockInfo) : Z :=
  zsum (λ i, if decide (info_state i = st) then 1 else 0) l.

Lemma count_state_range st l : 0 <= count_state st l <= Z.of_nat (length l).
Proof.
  unfold count_state. induction l as [|i l IH]; simpl; [lia|]. case_decide; lia.
Qed.

Lemma stats_fold l s :
  0 <= free_blocks s → free_blocks s + Z.of_nat (length l) < W32 →
  0 <= active_blocks s → active_blocks s + Z.of_nat (length l) < W32 →
  0 <= shared_blocks s → shared_blocks s + Z.of_nat (length l) < W32 →
  foldl stats_add s l =
  mkAllocatorStats (total_blocks s) (free_blocks s + count_state Free l)
    (active_blocks s + count_state Active l) (shared_blocks s + count_state Shared l)
    (swapped_blocks s) (bytes_reserved s).
Proof.
  revert s. induction l as [|i l IH]; intros s F1 F2 A1 A2 S1 S2.
  { destruct s; simpl. by rewrite !Z.add_0_r. }
  cbn [foldl length] in *. rewrite IH; clear IH;
    unfold stats_add, count_state in *; destruct (info_state i) eqn:Hi; simpl in *;
    rewrite ?Hi; repeat case_decide; simplify_eq; rewrite ?u32_small by words;
    try lia; f_equal; lia.
Qed.
End Spec.
