(* ===== verification/AllocatorProps.v ===== *)
(** Properties of the block pool: construction and alignment, the reference
    counting contract, conservation of frames, isolation of frame contents and
    the swap round trip. *)
From S2P Require Import Prelude.
From S2P Require Import Block.
From S2P Require Import SwapBackend.
From S2P Require Import MemoryAllocator.
From S2P Require Import AllocatorSpec.

(** ** Construction *)

(** The configurations whose sizes do not wrap around. *)
Record config_ok (c : AllocatorConfig) : Prop := {
  config_shape : shape_typed (block_shape c);
  config_align : 0 < effective_alignment c;
  config_blocks : is_u32 (max_blocks c);
  config_round : byte_size (block_shape c) + effective_alignment c < W64;
  config_pool : max_blocks c * block_stride_for c < W64
}.

Lemma round_up_spec value alignment :
  0 < alignment → 0 <= value → value + alignment < W64 →
  round_up value alignment mod alignment = 0 ∧
  value <= round_up value alignment < value + alignment.
Proof.
  intros Ha Hv Hsum. unfold round_up. rewrite (proj2 (Z.eqb_neq _ _)) by lia.
  rewrite (u64_small (value + alignment)), (u64_small (value + alignment - 1)) by words.
  pose proof (Z.div_mod (value + alignment - 1) alignment).
  pose proof (Z.mod_pos_bound (value + alignment - 1) alignment Ha).
  set (q := (value + alignment - 1) / alignment) in *.
  rewrite (u64_small (q * alignment)) by (unfold is_u64; nia).
  split; [by apply Z_mod_mult|nia].
Qed.

Lemma byte_size_range s : is_u64 (byte_size s).
Proof. rewrite byte_size_mod. apply u64_range. Qed.

Lemma block_stride_spec c :
  0 < effective_alignment c →
  byte_size (block_shape c) + effective_alignment c < W64 →
  0 < block_stride_for c ∧ block_stride_for c mod effective_alignment c = 0 ∧
  byte_size (block_shape c) <= block_stride_for c < byte_size (block_shape c) + effective_alignment c + 1.
Proof.
  intros Ha Hs. pose proof (byte_size_range (block_shape c)).
  destruct (round_up_spec (byte_size (block_shape c)) (effective_alignment c)) as [Hm Hb];
    [words..|].
  unfold block_stride_for. case_match eqn:Hz.
  - apply Z.eqb_eq in Hz. rewrite Z.mod_same by lia. unfold is_u64 in *. lia.
  - apply Z.eqb_neq in Hz. unfold is_u64 in *. lia.
Qed.

Section Construction.
Context {B : Type} `{SwapBackendLaws B}.

Lemma seqZ_lookup_Some i n k : seqZ 0 n !! i = Some k → k = Z.of_nat i ∧ Z.of_nat i < n.
Proof. intros [-> ?]%lookup_seqZ. lia. Qed.

Lemma bind_frames_wf c owned p (m : list byte) :
  config_ok c → Z.of_nat (length m) = max_blocks c * block_stride_for c →
  let a := bind_frames (B:=B) (unbound c owned) (Some p) m in
  alloc_wf a ∧ (∀ id, refs a id = 0) ∧ nfree a = max_blocks c.
Proof.
  intros [Ht Hal Hmax Hround Hpool] Hm a.
  destruct (block_stride_spec c Hal Hround) as (Hs0 & _ & _).
  assert (∀ id, refs a id = 0) as Hrefs.
  { intros id. unfold refs, info. simpl. case_match; [|done].
    rewrite list_lookup_fmap. by destruct (seqZ 0 (max_blocks c) !! _). }
  assert (nfree a = max_blocks c).
  { unfold nfree. simpl. rewrite length_seqZ. words. }
  split_and!; [|done..]. split; simpl; try done.
  - rewrite length_fmap, length_seqZ. words.
  - intros i inf. rewrite list_lookup_fmap.
    intros (k & [-> ?]%seqZ_lookup_Some & ->)%fmap_Some. split; simpl; [done|words|words|done].
  - apply NoDup_seqZ.
  - intros id. rewrite Hrefs, elem_of_seqZ. unfold valid. simpl. lia.
Qed.

(** Zero frames need no memory. *)
Lemma bind_frames_empty_wf c owned :
  config_ok c → max_blocks c = 0 →
  let a := bind_frames (B:=B) (unbound c owned) None [] in
  alloc_wf a ∧ (∀ id, refs a id = 0) ∧ nfree a = 0.
Proof.
  intros [Ht Hal Hmax Hround Hpool] Hz a.
  destruct (block_stride_spec c Hal Hround) as (Hs0 & _ & _).
  assert (∀ id, refs a id = 0) as Hrefs.
  { intros id. unfold refs, info. simpl. rewrite Hz. by case_match. }
  split_and!; [|done|unfold nfree; simpl; by rewrite Hz].
  split; simpl; rewrite ?Hz; simpl; try done; try lia.
  - constructor.
  - intros id. rewrite Hrefs. unfold valid. simpl. rewrite Hz.
    split; [by intros ?%not_elem_of_nil|lia].
Qed.

(** What the constructor makes of a slab of the right size. *)
Lemma new_pool c aligned_alloc p m :
  config_ok c → aligned_alloc (effective_alignment c) (pool_bytes_for c) = Some (p, m) →
  Z.of_nat (length m) = pool_bytes_for c →
  let a := MemoryAllocator_new (B:=B) aligned_alloc c in
  alloc_wf a ∧ (∀ id, refs a id = 0) ∧ nfree a = max_blocks c ∧
  block_stride_bytes a = block_stride_for c ∧ config_ a = c ∧ swap_backend_ a = None ∧
  (0 < max_blocks c → pool_base_ a = Some p).
Proof.
  intros Hc Hpm Hlen a. pose proof Hc as [Ht Hal Hmax Hround Hpool].
  destruct (block_stride_spec c Hal Hround) as (Hs0 & Hsm & Hsb & _).
  assert (pool_bytes_for c = max_blocks c * block_stride_for c) as Hbytes.
  { unfold pool_bytes_for. rewrite u64_small; [lia|].
    unfold is_u64, is_u32 in *. nia. }
  subst a. unfold MemoryAllocator_new. fold (pool_bytes_for c).
  destruct (Z.ltb_spec 0 (pool_bytes_for c)) as [Hpos|Hnpos].
  - rewrite Hpm. rewrite Hbytes in Hlen.
    destruct (bind_frames_wf c true p m Hc Hlen) as (? & ? & ?). split_and!; done.
  - assert (max_blocks c = 0) as Hz by (unfold is_u32 in *; nia).
    destruct (bind_frames_empty_wf c false Hc Hz) as (? & ? & ?).
    split_and!; [done..|lia|done|done|done|lia].
Qed.

(** A pool whose slab was obtained starts well formed: every frame is free,
    its address is a multiple of the effective alignment, and the frames tile
    the slab, each at least [byte_size()] long. *)
Theorem new_allocator_wf c aligned_alloc :
  config_ok c →
  (∀ n p m, aligned_alloc (effective_alignment c) n = Some (p, m) →
     Z.of_nat (length m) = n ∧ p mod effective_alignment c = 0) →
  is_Some (aligned_alloc (effective_alignment c) (pool_bytes_for c)) →
  let a := MemoryAllocator_new (B:=B) aligned_alloc c in
  alloc_wf a ∧ nfree a = max_blocks c ∧
  byte_size (block_shape c) <= block_stride_bytes a ∧
  (∀ id fr, valid a id → block a id = Some fr →
     refs a id = 0 ∧ size_bytes_ fr = block_stride_bytes a ∧
     ∃ base, pool_base a = Some base ∧
       storage_ fr = Some (base + id * block_stride_bytes a) ∧
       (base + id * block_stride_bytes a) mod effective_alignment c = 0).
Proof.
  intros Hc Halloc [[p m] Hpm] a. pose proof Hc as [Ht Hal Hmax Hround Hpool].
  destruct (block_stride_spec c Hal Hround) as (Hs0 & Hsm & Hsb & _).
  destruct (new_pool c aligned_alloc p m Hc Hpm (proj1 (Halloc _ _ _ Hpm)))
    as (Hwf & Hrefs & Hfree & Hstr & Hcfg & _ & Hbase). fold a in Hwf, Hrefs, Hfree, Hstr, Hcfg, Hbase.
  apply Halloc in Hpm as [_ Hp].
  split_and!; [done..|by rewrite Hstr|]. intros id fr Hv Hfr.
  rewrite block_valid in Hfr by done. injection Hfr as <-.
  destruct (frame_address a id Hwf Hv) as (base & Hb & Hst). split_and!; [done..|].
  exists base. split_and!; [done..|].
  rewrite Hbase in Hb by (unfold valid in Hv; rewrite Hcfg in Hv; lia).
  injection Hb as <-. rewrite Hstr. rewrite Z.add_mod, Hp, Z.mul_mod, Hsm by lia.
  rewrite Z.mul_0_r. by rewrite !Z.mod_0_l by lia.
Qed.
End Construction.

(** ** The contract of the pool *)

(** What a client observes: reference counts, frame contents, swapped blocks. *)
Record pool_obs := mkPoolObs {
  obs_refs : Z → Z;
  obs_frame : Z → list byte;
  obs_swapped : gmap Z (list byte)
}.

Inductive alloc_op :=
  | OpAllocate
  | OpRelease (id : Z)
  | OpRetain (id : Z)
  | OpCopy (source destination : Z)
  | OpSwapOut (id : Z)
  | OpSwapIn (slot : Z)
  | OpDiscard (slot : Z).

(** Reference counts, frames of valid ids, and swapped blocks agree. *)
Definition refs_from (o o' : pool_obs) (delta : Z → Z) : Prop :=
  ∀ j, obs_refs o' j = obs_refs o j + delta j.
Definition frames_from (v : Z → Prop) (o o' : pool_obs) (except : Z → Prop) : Prop :=
  ∀ j, v j → ¬ except j → obs_frame o' j = obs_frame o j.
Definition obs_same (v : Z → Prop) (o o' : pool_obs) : Prop :=
  refs_from o o' (λ _, 0) ∧ frames_from v o o' (λ _, False) ∧ obs_swapped o' = obs_swapped o.

(** The abstract pool: [pool_spec v o op r o'] when operation [op] may take the
    observation [o] to [o'] with result [r]; [v] are the ids of the pool. *)
Inductive pool_spec (v : Z → Prop) (o : pool_obs) : alloc_op → option Z → pool_obs → Prop :=
  | spec_allocate id o' :
    v id → obs_refs o id = 0 → refs_from o o' (λ j, zcount j [id]) →
    frames_from v o o' (λ _, False) → obs_swapped o' = obs_swapped o →
    pool_spec v o OpAllocate (Some id) o'
  | spec_exhausted o' :
    (∀ j, v j → obs_refs o j ≠ 0) → obs_same v o o' → pool_spec v o OpAllocate None o'
  | spec_release id o' :
    0 < obs_refs o id → refs_from o o' (λ j, - zcount j [id]) →
    frames_from v o o' (λ _, False) → obs_swapped o' = obs_swapped o →
    pool_spec v o (OpRelease id) None o'
  | spec_release_free id o' :
    obs_refs o id = 0 → obs_same v o o' → pool_spec v o (OpRelease id) None o'
  | spec_retain id o' :
    0 < obs_refs o id → refs_from o o' (λ j, zcount j [id]) →
    frames_from v o o' (λ _, False) → obs_swapped o' = obs_swapped o →
    pool_spec v o (OpRetain id) None o'
  | spec_retain_free id o' :
    obs_refs o id = 0 → obs_same v o o' → pool_spec v o (OpRetain id) None o'
  | spec_copy s d o' :
    v s → v d → refs_from o o' (λ _, 0) → frames_from v o o' (λ j, j = d) →
    obs_frame o' d = obs_frame o s → obs_swapped o' = obs_swapped o →
    pool_spec v o (OpCopy s d) None o'
  | spec_copy_invalid s d o' :
    (¬ v s ∨ ¬ v d) → obs_same v o o' → pool_spec v o (OpCopy s d) None o'
  | spec_swap_out id slot o' :
    obs_refs o id = 1 → refs_from o o' (λ j, - zcount j [id]) →
    frames_from v o o' (λ _, False) → obs_swapped o !! slot = None →
    obs_swapped o' = <[slot := obs_frame o id]> (obs_swapped o) →
    pool_spec v o (OpSwapOut id) (Some slot) o'
  | spec_swap_out_refused id o' :
    obs_same v o o' → pool_spec v o (OpSwapOut id) None o'
  | spec_swap_in slot bytes id o' :
    obs_swapped o !! slot = Some bytes → v id → obs_refs o id = 0 →
    refs_from o o' (λ j, zcount j [id]) → frames_from v o o' (λ j, j = id) →
    obs_frame o' id = bytes → obs_swapped o' = delete slot (obs_swapped o) →
    pool_spec v o (OpSwapIn slot) (Some id) o'
  | spec_swap_in_refused slot o' :
    (obs_swapped o !! slot = None ∨ ∀ j, v j → obs_refs o j ≠ 0) → obs_same v o o' →
    pool_spec v o (OpSwapIn slot) None o'
  | spec_discard slot o' :
    refs_from o o' (λ _, 0) → frames_from v o o' (λ _, False) →
    obs_swapped o' = delete slot (obs_swapped o) → pool_spec v o (OpDiscard slot) None o'.

Section Contract.
Context {B : Type} `{SwapBackendLaws B}.
Implicit Types a : MemoryAllocator B.

Definition observe a : pool_obs := mkPoolObs (refs a) (frame a) (swapped a).

Definition alloc_run a (op : alloc_op) : option (option Z * MemoryAllocator B) :=
  match op with
  | OpAllocate => allocate a
  | OpRelease id => Some (None, release a id)
  | OpRetain id => Some (None, retain a id)
  | OpCopy s d => a' ← copy_block a s d; Some (None, a')
  | OpSwapOut id => swap_out a id
  | OpSwapIn slot => swap_in a slot
  | OpDiscard slot => Some (None, discard_swapped a slot)
  end.

(** The invariant with the size of what was swapped out. *)
Definition alloc_inv a : Prop :=
  alloc_wf a ∧
  ∀ slot bytes, swapped a !! slot = Some bytes →
    Z.of_nat (length bytes) = block_stride_bytes_ a.

(** When an operation is defined: ids are not negative, a block is not copied
    onto itself, counters and slot ids have not run out. *)
Definition op_ok a (op : alloc_op) : Prop :=
  match op with
  | OpAllocate | OpSwapIn _ | OpDiscard _ => True
  | OpRelease id => 0 <= id
  | OpRetain id => 0 <= id ∧ refs a id + 1 < W32
  | OpCopy s d => 0 <= s ∧ 0 <= d ∧ s ≠ d
  | OpSwapOut id => 0 <= id ∧ 0 < budget a
  end.

Lemma same_pool_stride a a' : same_pool a a' → block_stride_bytes_ a' = block_stride_bytes_ a.
Proof. unfold same_pool, pool_of. by injection 1. Qed.

Lemma same_pool_config a a' : same_pool a a' → config_ a' = config_ a.
Proof. unfold same_pool, pool_of. by injection 1. Qed.

Lemma frame_slab a a' j : same_pool a a' → slab_ a' = slab_ a → frame a' j = frame a j.
Proof. intros Hp Hs. unfold frame. by rewrite (same_pool_stride _ _ Hp), Hs. Qed.

Lemma swapped_backend a a' : swap_backend_ a' = swap_backend_ a → swapped a' = swapped a.
Proof. unfold swapped. by intros ->. Qed.

Lemma release_free a id : 0 <= id → refs a id = 0 → release a id = a.
Proof.
  intros Hid Hr. unfold release. destruct (info a id) as [i|] eqn:Hi; [|done].
  rewrite (refs_info _ _ _ Hid Hi) in Hr. by rewrite Hr.
Qed.

Lemma retain_free a id : 0 <= id → refs a id = 0 → retain a id = a.
Proof.
  intros Hid Hr. unfold retain. destruct (info a id) as [i|] eqn:Hi; [|done].
  rewrite (refs_info _ _ _ Hid Hi) in Hr. by rewrite Hr.
Qed.

Lemma obs_same_refl v o : obs_same v o o.
Proof. split_and!; [|done..]. intros j. lia. Qed.
#[local] Hint Resolve obs_same_refl : core.

(** The result of an operation that takes a step of the abstract pool. *)
Definition steps a (op : alloc_op) (res : option Z * MemoryAllocator B) : Prop :=
  alloc_inv (snd res) ∧ same_pool a (snd res) ∧
  pool_spec (valid a) (observe a) op (fst res) (observe (snd res)).

Lemma alloc_inv_same a a' :
  alloc_inv a → alloc_wf a' → same_pool a a' → swap_backend_ a' = swap_backend_ a →
  alloc_inv a'.
Proof.
  intros [_ Hsz] Hwf' Hp Hb. split; [done|].
  by rewrite (swapped_backend _ _ Hb), (same_pool_stride _ _ Hp).
Qed.

Lemma frames_from_slab a a' :
  same_pool a a' → slab_ a' = slab_ a →
  frames_from (valid a) (observe a) (observe a') (λ _, False).
Proof. intros Hp Hs j _ _. by apply frame_slab. Qed.
#[local] Hint Resolve frames_from_slab alloc_inv_same swapped_backend : core.

Lemma allocate_steps a : alloc_inv a → runs (allocate a) (steps a OpAllocate).
Proof.
  intros Hi. pose proof Hi as [Hwf _]. eapply runs_mono; [by apply allocate_spec|].
  intros [[id|] a'] (Hwf' & Hp & Hs & Hb & Hr); (split_and!; simpl; [by eauto|done|]).
  - destruct Hr as (Hv & Hr & Hrefs & _). constructor; simpl; eauto.
  - destruct Hr as [-> Hz]. apply spec_exhausted; [by apply nfree_zero|done].
Qed.

Lemma release_steps a id :
  alloc_inv a → 0 <= id → steps a (OpRelease id) (None, release a id).
Proof.
  intros Hi Hid. pose proof Hi as [Hwf _]. pose proof (refs_range a id Hwf) as Hrange.
  destruct (decide (refs a id = 0)) as [Hz|Hz].
  - rewrite release_free by done. split_and!; [done..|by apply spec_release_free].
  - destruct (release_spec a id Hwf) as (Hwf' & Hp & Hs & Hb & Hrefs & _); [words|].
    split_and!; [by eauto|done|]. apply spec_release; simpl; [words| |by eauto..].
    intros j. simpl. rewrite Hrefs. lia.
Qed.

Lemma retain_steps a id :
  alloc_inv a → 0 <= id → refs a id + 1 < W32 → steps a (OpRetain id) (None, retain a id).
Proof.
  intros Hi Hid Hmax. pose proof Hi as [Hwf _]. pose proof (refs_range a id Hwf) as Hrange.
  destruct (decide (refs a id = 0)) as [Hz|Hz].
  - rewrite retain_free by done. split_and!; [done..|by apply spec_retain_free].
  - destruct (retain_spec a id Hwf) as (Hwf' & Hp & Hs & Hb & Hrefs & _); [words|done|].
    split_and!; [by eauto|done|]. apply spec_retain; simpl; [words|by eauto..].
Qed.

Lemma copy_block_invalid a s d :
  alloc_wf a → 0 <= s → 0 <= d → ¬ (valid a s ∧ valid a d) → copy_block a s d = Some a.
Proof.
  intros Hwf Hs Hd Hinv. unfold copy_block. rewrite (wf_hook _ Hwf).
  destruct (decide (valid a s)); [|by rewrite (block_invalid a s)].
  rewrite (block_invalid a d) by (try done; tauto). by case_match.
Qed.

Lemma copy_steps a s d :
  alloc_inv a → 0 <= s → 0 <= d → s ≠ d →
  runs (a' ← copy_block a s d; Some (None, a')) (steps a (OpCopy s d)).
Proof.
  intros Hi Hs Hd Hne. pose proof Hi as [Hwf Hsz].
  destruct (decide (valid a s ∧ valid a d)) as [[Hvs Hvd]|Hinv].
  - rewrite copy_block_spec by done. simpl.
    destruct (set_frame_wf a d (frame a s) Hwf Hvd) as [Hwf' Hfr]; [by apply length_frame|].
    split_and!; [by split|done|]. apply spec_copy; simpl; try done.
    + intros j. simpl. change (refs (set_frame a d (frame a s)) j) with (refs a j). lia.
    + intros j Hj Hjd. simpl. by rewrite Hfr, decide_False.
    + by rewrite Hfr, decide_True.
  - rewrite copy_block_invalid by done. split_and!; [done..|].
    apply spec_copy_invalid; [|done]. destruct (decide (valid a s)); [right|left]; tauto.
Qed.

Lemma swap_out_steps a id :
  alloc_inv a → 0 <= id → 0 < budget a → runs (swap_out a id) (steps a (OpSwapOut id)).
Proof.
  intros Hi Hid Hbud. pose proof Hi as [Hwf Hsz]. eapply runs_mono; [by apply swap_out_spec|].
  intros [[slot|] a'] (Hwf' & Hp & Hs & Hr).
  - destruct Hr as (Hone & Hrefs & _ & Hnone & Hsw & _). split_and!; [split; [done|]|done|].
    + intros sl bytes. simpl. rewrite Hsw, (same_pool_stride _ _ Hp).
      intros [[_ <-]|[_ ?]]%lookup_insert_Some; [|by eapply Hsz].
      apply length_frame; [done|]. apply refs_pos_valid; [done|lia].
    + eapply spec_swap_out; simpl; [done| |by eauto|done|done].
      intros j. simpl. rewrite Hrefs. lia.
  - subst a'. split_and!; [done..|by apply spec_swap_out_refused].
Qed.

Lemma swap_in_steps a slot : alloc_inv a → runs (swap_in a slot) (steps a (OpSwapIn slot)).
Proof.
  intros Hi. pose proof Hi as [Hwf Hsz]. destruct (swapped a !! slot) as [bytes|] eqn:Hsl.
  - eapply runs_mono; [by eapply swap_in_spec; eauto|]. intros [[id|] a'] (Hwf' & Hp & Hr).
    + destruct Hr as (Hv & Hz & Hrefs & _ & Hsw & _ & Hfr).
      split_and!; [split; [done|]|done|].
      * intros sl bs. simpl. rewrite Hsw, (same_pool_stride _ _ Hp).
        intros [_ ?]%lookup_delete_Some. by eapply Hsz.
      * eapply spec_swap_in; simpl; try done.
        -- intros j Hj Hne. simpl. by rewrite Hfr, decide_False.
        -- by rewrite Hfr, decide_True.
    + destruct Hr as [-> Hz]. split_and!; [done..|].
      apply spec_swap_in_refused; [right; by apply nfree_zero|done].
  - eapply runs_mono; [by apply swap_in_absent|].
    intros [r a'] (-> & Hwf' & Hp & Hrefs & _ & Hb & Hfr). split_and!; [by eauto|done|].
    apply spec_swap_in_refused; [by left|]. split_and!; simpl; [| |by eauto].
    + intros j. simpl. rewrite Hrefs. lia.
    + intros j Hj _. by apply Hfr.
Qed.

Lemma discard_steps a slot :
  alloc_inv a → steps a (OpDiscard slot) (None, discard_swapped a slot).
Proof.
  intros [Hwf Hsz].
  destruct (discard_swapped_spec a slot Hwf) as (Hwf' & Hp & Hs & Hrefs & _ & Hsw & _).
  split_and!; [split; [done|]|done|].
  - intros sl bs. simpl. rewrite Hsw, (same_pool_stride _ _ Hp).
    intros [_ ?]%lookup_delete_Some. by eapply Hsz.
  - apply spec_discard; simpl; [|by eauto|done]. intros j. simpl. rewrite Hrefs. lia.
Qed.

Lemma alloc_run_steps a op :
  alloc_inv a → op_ok a op → runs (alloc_run a op) (steps a op).
Proof.
  intros Hi Hop. destruct op; simpl in *.
  - by apply allocate_steps.
  - by apply release_steps.
  - destruct Hop. by apply retain_steps.
  - destruct Hop as (? & ? & ?). by apply copy_steps.
  - destruct Hop. by apply swap_out_steps.
  - by apply swap_in_steps.
  - by apply discard_steps.
Qed.

(** C4. Every operation of the allocator is defined and takes a step of the
    abstract pool, keeping the invariant: the reference counts, the frame
    contents and the swapped blocks change exactly as [pool_spec] says. *)
Theorem alloc_run_refines a op :
  alloc_inv a → op_ok a op →
  runs (alloc_run a op) (λ '(r, a'),
    alloc_inv a' ∧ same_pool a a' ∧ pool_spec (valid a) (observe a) op r (observe a')).
Proof.
  intros Hi Hop. eapply runs_mono; [by apply alloc_run_steps|]. by intros [r a'].
Qed.
End Contract.

(** ** Statistics *)

Section Statistics.
Context {B : Type} `{SwapBackendLaws B}.
Implicit Types a : MemoryAllocator B.

Lemma count_state_refs st r a :
  alloc_wf a → (∀ k, is_u32 k → state_of k = st ↔ k = r) →
  count_state st (infos_ a) =
  Z.of_nat (length (filter (λ id, refs a id = r) (seqZ 0 (max_blocks (config_ a))))).
Proof.
  intros Hwf Hst. unfold count_state. rewrite zsum_lookup, <-zsum_filter, (wf_len _ Hwf).
  apply zsum_ext. intros id [Hid Hlt]%elem_of_seqZ.
  destruct (info_valid a id Hwf) as [i Hi]; [unfold valid; lia|].
  rewrite (refs_info _ _ _ Hid Hi). unfold info in Hi. rewrite Hi.
  destruct (wf_info _ Hwf _ _ Hi) as [_ Hr _ ->]. specialize (Hst _ Hr).
  repeat case_decide; tauto.
Qed.

(** The free list holds the frames without a reference. *)
Lemma nfree_count a :
  alloc_wf a →
  nfree a = Z.of_nat (length (filter (λ id, refs a id = 0) (seqZ 0 (max_blocks (config_ a))))).
Proof.
  intros Hwf. unfold nfree. f_equal. apply Permutation_length, NoDup_Permutation.
  - by apply wf_free_nodup.
  - apply NoDup_filter, NoDup_seqZ.
  - intros id. rewrite (wf_free _ Hwf), list_elem_of_filter, elem_of_seqZ. unfold valid. lia.
Qed.

Lemma state_of_Free k : is_u32 k → state_of k = Free ↔ k = 0.
Proof. unfold state_of. intros _. repeat case_match; intuition (try congruence; lia). Qed.

Lemma count_state_total a :
  alloc_wf a →
  count_state Free (infos_ a) + count_state Active (infos_ a) + count_state Shared (infos_ a)
  = max_blocks (config_ a).
Proof.
  intros Hwf. rewrite <-(wf_len _ Hwf). pose proof (wf_info _ Hwf) as Hi. revert Hi.
  unfold count_state. induction (infos_ a) as [|i l IH] using rev_ind; [done|]. intros Hi.
  rewrite !zsum_app, length_app. simpl.
  assert (info_state i = state_of (ref_count i)) as ->.
  { eapply info_state_wf, (Hi (length l)). by rewrite lookup_app_r, Nat.sub_diag. }
  assert (∀ k inf, l !! k = Some inf → info_wf k inf) as Hi'.
  { intros k inf Hk. apply Hi. rewrite lookup_app_l; [done|]. by apply lookup_lt_Some in Hk. }
  specialize (IH Hi'). unfold state_of.
  repeat case_match; repeat case_decide; try congruence; lia.
Qed.

Lemma stats_spec a :
  alloc_wf a →
  free_blocks (stats a) = nfree a ∧
  active_blocks (stats a) = count_state Active (infos_ a) ∧
  shared_blocks (stats a) = count_state Shared (infos_ a) ∧
  total_blocks (stats a) = max_blocks (config_ a).
Proof.
  intros Hwf. unfold stats. pose proof (wf_len _ Hwf). pose proof (wf_max _ Hwf).
  rewrite stats_fold by (simpl; words). simpl. rewrite !Z.add_0_l.
  rewrite (nfree_count a Hwf), (count_state_refs Free 0 a Hwf state_of_Free).
  split_and!; [done..|]. rewrite u32_small by words. done.
Qed.

(** Every frame is counted in exactly one state, so the counters of [stats]
    add up to the pool; [free_blocks] counts the frames without a reference,
    [can_allocate] compares with it, and the free list cannot be empty while
    it is positive. *)
Theorem stats_conserve a :
  alloc_wf a →
  let s := stats a in
  free_blocks s + active_blocks s + shared_blocks s = total_blocks s ∧
  total_blocks s = max_blocks (config_ a) ∧
  free_blocks s =
    Z.of_nat (length (filter (λ id, refs a id = 0) (seqZ 0 (max_blocks (config_ a))))) ∧
  (∀ n, can_allocate a n = (n <=? free_blocks s)) ∧
  runs (allocate a) (λ '(r, _), is_Some r ↔ 0 < free_blocks s).
Proof.
  intros Hwf s. destruct (stats_spec a Hwf) as (Hf & Ha & Hs & Ht). subst s.
  rewrite Hf, Ha, Hs, Ht. pose proof (count_state_total a Hwf) as Htot.
  rewrite (count_state_refs Free 0 a Hwf state_of_Free), <-nfree_count in Htot by done.
  split_and!; [done|done|by apply nfree_count|done|].
  eapply runs_mono; [by apply allocate_spec|].
  intros [[id|] a'] (Hwf' & _ & _ & _ & Hr).
  - destruct Hr as (_ & _ & _ & Hn). split; [|by eauto].
    intros _. unfold nfree in *. lia.
  - destruct Hr as [_ ->]. split; [by intros []|lia].
Qed.

(** Recycling is observable: the last release of a frame advances its
    generation and makes it the next frame [allocate] hands out. *)
Theorem release_recycles a id i :
  alloc_wf a → 0 <= id → info a id = Some i → ref_count i = 1 →
  generation i + 1 < W64 →
  (generation <$> info (release a id) id) = Some (generation i + 1) ∧
  runs (allocate (release a id)) (λ '(r, _), r = Some id).
Proof.
  intros Hwf Hid Hi Hr Hg. unfold release. rewrite Hi, Hr. cbn [Z.eqb].
  assert (valid a id) as Hv by (by eapply info_Some_valid).
  assert (Z.to_nat id < length (infos_ a))%nat as Hlt by (by eapply lookup_lt_Some).
  destruct (wf_info _ Hwf _ _ Hi) as [_ _ Hgen _].
  change (u32 (1 - 1)) with 0. cbn [Z.eqb]. unfold allocate, info, set_info. simpl.
  rewrite pop_back_snoc, !list_lookup_insert_eq by done. simpl.
  rewrite u64_small by words. done.
Qed.
End Statistics.

(** ** Alignment reporting *)

(** [alignment_bytes] reports the configured value, not the alignment the frames
    have: with the value 0 the pool falls back to 256 bytes. *)
Theorem alignment_bytes_unset {B} `{SwapBackend B} (c : AllocatorConfig) pool :
  mem_alignment_bytes (memory_options c) = 0 →
  let a := MemoryAllocator_adopt (B:=B) c pool in
  alignment_bytes a = 0 ∧ effective_alignment c = kDefaultBlockAlignmentBytes ∧
  block_stride_bytes a = block_stride_for c.
Proof.
  intros Hz a. subst a. unfold MemoryAllocator_adopt, alignment_bytes, effective_alignment.
  rewrite Hz. by destruct pool as [[??]|].
Qed.

(** ** Witnesses *)

Definition demo_config : AllocatorConfig :=
  mkAllocatorConfig (mkBlockShape 2 1 1 1 1 0) (mkHostMemoryOptions 4 false) 4.

Definition demo_aligned_alloc (alignment n : Z) : option (Z * list byte) :=
  if n <? 0 then None else Some (alignment * 16, replicate (Z.to_nat n) Byte.x00).

Definition demo_pool : MemoryAllocator HostSwapBackend :=
  set_swap_backend (MemoryAllocator_new demo_aligned_alloc demo_config)
    (Some (HostSwapBackend_new 4)).

Lemma demo_config_ok : config_ok demo_config.
Proof. split; [split|..]; vm_compute; intuition discriminate. Qed.

Lemma demo_pool_eq :
  demo_pool = with_backend (bind_frames (unbound demo_config true) (Some 64)
    (replicate 16 Byte.x00)) (Some (HostSwapBackend_new 4)).
Proof. vm_compute. reflexivity. Qed.

Lemma demo_pool_wf :
  alloc_wf demo_pool ∧ (∀ id, refs demo_pool id = 0) ∧ nfree demo_pool = 4.
Proof.
  assert (Z.of_nat (length (replicate 16 Byte.x00)) =
          max_blocks demo_config * block_stride_for demo_config) as Hlen by (vm_compute; done).
  destruct (bind_frames_wf (B:=HostSwapBackend) demo_config true 64 _ demo_config_ok Hlen)
    as (Hwf & Hr & Hn).
  rewrite demo_pool_eq. split_and!; [|exact Hr|exact Hn].
  by apply with_backend_wf, host_new_ok.
Qed.

Lemma demo_pool_inv : alloc_inv demo_pool.
Proof.
  split; [apply demo_pool_wf|]. intros slot bytes.
  rewrite demo_pool_eq. unfold swapped. cbn -[lookup]. by rewrite lookup_empty.
Qed.

Lemma new_allocator_wf_witness :
  nfree (MemoryAllocator_new (B:=HostSwapBackend) demo_aligned_alloc demo_config) = 4.
Proof.
  apply (new_allocator_wf (B:=HostSwapBackend) demo_config demo_aligned_alloc).
  - apply demo_config_ok.
  - intros n p m Hm. unfold demo_aligned_alloc in Hm. case_match; simplify_eq.
    split; [rewrite length_replicate; lia|reflexivity].
  - by eexists.
Defined.

Lemma alloc_run_refines_witness :
  runs (alloc_run demo_pool OpAllocate) (λ '(r, a'),
    alloc_inv a' ∧ same_pool demo_pool a' ∧
    pool_spec (valid demo_pool) (observe demo_pool) OpAllocate r (observe a')).
Proof. apply alloc_run_refines; [apply demo_pool_inv|done]. Defined.

Lemma stats_conserve_witness :
  free_blocks (stats demo_pool) + active_blocks (stats demo_pool)
    + shared_blocks (stats demo_pool) = total_blocks (stats demo_pool).
Proof. exact (proj1 (stats_conserve demo_pool (proj1 demo_pool_wf))). Defined.

(** The pool after one allocation. *)
Definition demo_pool_one : MemoryAllocator HostSwapBackend :=
  match allocate demo_pool with Some (_, a) => a | None => demo_pool end.

Lemma demo_pool_one_wf : alloc_wf demo_pool_one.
Proof.
  pose proof (allocate_spec demo_pool (proj1 demo_pool_wf)) as Hs. unfold demo_pool_one.
  destruct (allocate demo_pool) as [[r a]|]; [by destruct Hs|done].
Qed.

Lemma release_recycles_witness :
  (generation <$> info (release demo_pool_one 3) 3) = Some 1 ∧
  runs (allocate (release demo_pool_one 3)) (λ '(r, _), r = Some 3).
Proof.
  apply (release_recycles demo_pool_one 3 (mkPhysicalBlockInfo 3 Active 1 0));
    [apply demo_pool_one_wf|done|reflexivity|done|done].
Defined.

Lemma alignment_bytes_unset_witness :
  alignment_bytes (MemoryAllocator_adopt (B:=HostSwapBackend)
    (mkAllocatorConfig (mkBlockShape 2 1 1 1 1 0) (mkHostMemoryOptions 0 false) 4) None) = 0.
Proof. apply alignment_bytes_unset. reflexivity. Defined.
