(* ===== verification/KVCacheManager.v ===== *)
(** The sequence cache above the pool ([include/qwenvl_paged/KVCacheManager.h],
    [src/KVCacheManager.cpp]): block tables per sequence, forking, copy on
    write, swapping, shared prompt prefixes and the view a backend reads.

    The manager holds a reference to its allocator; its model owns it, so every
    operation threads the allocator's state. [None] is undefined behaviour. *)
From S2P Require Import Prelude.
From S2P Require Import Block.
From S2P Require Import CacheLayout.
From S2P Require Import SwapBackend.
From S2P Require Import BlockTable.
From S2P Require Import MemoryAllocator.

(** ** Data *)

Record MultimodalSpan := mkMultimodalSpan {
  mm_start_token : Z;
  mm_token_count : Z;
  mm_feature_index : Z
}.

Inductive PositionEncodingKind := Text1D | Image2D | Video3D.

Record Position3D := mkPosition3D { temporal : Z; height : Z; width : Z }.

Record PositionalEncodingSpan := mkPositionalEncodingSpan {
  pe_start_token : Z;
  pe_token_count : Z;
  pe_kind : PositionEncodingKind;
  pe_origin : Position3D;
  pe_stride : Position3D
}.

Record PositionalEncodingMetadata := mkPositionalEncodingMetadata {
  pe_spans : list PositionalEncodingSpan
}.

Record SequenceMetadata := mkSequenceMetadata {
  sm_sequence_id : Z;
  sm_request_id : Z;
  sm_multimodal_spans : list MultimodalSpan;
  sm_positional_encoding : PositionalEncodingMetadata
}.

Record SequenceState := mkSequenceState {
  metadata : SequenceMetadata;
  tables : list BlockTable;
  prefix_key : string;
  prefix_hash : Z
}.

(** [text_table]: [tables.front()], undefined on an empty vector. *)
Definition text_table (st : SequenceState) : option BlockTable := head (tables st).

Record PrefixRecord := mkPrefixRecord {
  content_hash : Z;
  record_token_count : Z;
  users : Z;
  physical_ids : list Z
}.

Record KVCacheManager (B : Type) := mkKVCacheManager {
  allocator_ : MemoryAllocator B;
  sequences_ : gmap Z SequenceState;
  sequences_by_request_ : gmap Z (list Z);
  prefix_index_ : gmap string (list PrefixRecord)
}.
Arguments mkKVCacheManager {B}.
Arguments allocator_ {B}.
Arguments sequences_ {B}.
Arguments sequences_by_request_ {B}.
Arguments prefix_index_ {B}.

Definition with_tables (st : SequenceState) (ts : list BlockTable) : SequenceState :=
  mkSequenceState (metadata st) ts (prefix_key st) (prefix_hash st).

Definition with_prefix (st : SequenceState) (key : string) (hash : Z) : SequenceState :=
  mkSequenceState (metadata st) (tables st) key hash.

Definition with_users (r : PrefixRecord) (n : Z) : PrefixRecord :=
  mkPrefixRecord (content_hash r) (record_token_count r) n (physical_ids r).

(** Writes through the pointers of an entry. *)
Definition entry_set_frame (pid : Z) (w : bool) (e : BlockTableEntry) : BlockTableEntry :=
  mkBlockTableEntry (logical e) pid w (swap_slot e).
Definition entry_set_slot (slot : option Z) (e : BlockTableEntry) : BlockTableEntry :=
  mkBlockTableEntry (logical e) (physical_id e) (writable e) slot.
Definition entry_restore (pid : Z) (e : BlockTableEntry) : BlockTableEntry :=
  mkBlockTableEntry (logical e) pid (writable e) None.

Definition resident (e : BlockTableEntry) : bool :=
  match swap_slot e with Some _ => false | None => true end.

Section Manager.
Context {B : Type} `{SwapBackend B}.
Implicit Types a : MemoryAllocator B.
Implicit Types m : KVCacheManager B.

Definition with_state m a (seqs : gmap Z SequenceState) : KVCacheManager B :=
  mkKVCacheManager a seqs (sequences_by_request_ m) (prefix_index_ m).

(** The constructor. *)
Definition KVCacheManager_new a : KVCacheManager B := mkKVCacheManager a ∅ ∅ ∅.

Definition pool_shape a : BlockShape :=
  match block a 0 with None => BlockShape_default | Some b => shape_ b end.

Definition table_count a : Z :=
  let shape := pool_shape a in if per_layer_frames shape then num_layers shape else 1.

Definition tokens_per_block_of a : Z :=
  match block a 0 with None => 0 | Some b => tokens_per_block (shape_ b) end.

(** ** The request index *)

Definition index_sequence (request_id sequence_id : Z) (idx : gmap Z (list Z))
    : gmap Z (list Z) :=
  <[request_id := default [] (idx !! request_id) ++ [sequence_id]]> idx.

Definition unindex_sequence (request_id sequence_id : Z) (idx : gmap Z (list Z))
    : gmap Z (list Z) :=
  match idx !! request_id with
  | None => idx
  | Some ids =>
    match filter (λ id, id ≠ sequence_id) ids with
    | [] => delete request_id idx
    | ids' => <[request_id := ids']> idx
    end
  end.

Definition sequences_for m (request_id : Z) : list Z :=
  default [] (sequences_by_request_ m !! request_id).

(** ** Content hashing (64-bit FNV-1a) *)

Definition fnv_offset : Z := 14695981039346656037.
Definition fnv_prime : Z := 1099511628211.

(** [hash ^= value; hash *= prime]. *)
Definition fnv_mix (hash value : Z) : Z := Z.lxor hash value ⊗ fnv_prime.

Definition byte_value (b : byte) : Z := Z.of_N (Byte.to_N b).

Definition hash_entry a (hash : Z) (e : BlockTableEntry) : option Z :=
  if negb (resident e) then Some hash
  else
    match block a (physical_id e) with
    | None => Some hash
    | Some b =>
      bytes ← (if size_bytes_ b =? 0 then Some []
               else read_mem a (storage_ b) (size_bytes_ b));
      Some (foldl (λ h x, fnv_mix h (byte_value x)) hash bytes)
    end.

Definition content_hash_of_table a (t : BlockTable) : option Z :=
  foldM (hash_entry a) fnv_offset (entries_ t).

Definition content_hash_of a (ts : list BlockTable) : option Z :=
  foldM (λ hash t, th ← content_hash_of_table a t; Some (fnv_mix hash th)) fnv_offset ts.

(** ** Prefix users *)

(** The first record with a hash, and its position. *)
Definition find_record (hash : Z) (records : list PrefixRecord)
    : option (nat * PrefixRecord) :=
  list_find (λ r, content_hash r = hash) records.

Definition drop_prefix_user m (st : SequenceState) : KVCacheManager B * SequenceState :=
  if decide (prefix_key st = ""%string) then (m, st)
  else
    let key := prefix_key st in
    let st' := with_prefix st ""%string 0 in
    match prefix_index_ m !! key with
    | None => (m, st')
    | Some records =>
      match find_record (prefix_hash st) records with
      | None => (m, st')
      | Some (i, rec) =>
        let n := if 0 <? users rec then users rec ⊟ 1 else users rec in
        if 0 <? n then
          (mkKVCacheManager (allocator_ m) (sequences_ m) (sequences_by_request_ m)
             (<[key := <[i := with_users rec n]> records]> (prefix_index_ m)), st')
        else
          let a' := foldl release (allocator_ m) (physical_ids rec) in
          let records' := delete i records in
          (mkKVCacheManager a' (sequences_ m) (sequences_by_request_ m)
             (match records' with
              | [] => delete key (prefix_index_ m)
              | _ => <[key := records']> (prefix_index_ m)
              end), st')
      end
    end.

(** ** Sequence lifecycle *)

Definition create_sequence m (md : SequenceMetadata) : bool * KVCacheManager B :=
  let sequence_id := sm_sequence_id md in
  match sequences_ m !! sequence_id with
  | Some _ => (false, m)
  | None =>
    let ts := replicate (Z.to_nat (table_count (allocator_ m)))
                (BlockTable_new sequence_id TextKV) in
    (true,
     mkKVCacheManager (allocator_ m)
       (map_emplace sequence_id (mkSequenceState md ts ""%string 0) (sequences_ m))
       (index_sequence (sm_request_id md) sequence_id (sequences_by_request_ m))
       (prefix_index_ m))
  end.

(** Every entry of every table resident. *)
Definition all_resident (ts : list BlockTable) : bool :=
  forallb (λ t, forallb resident (entries_ t)) ts.

(** The loop of [fork_sequence]: the table forked, each frame retained. *)
Definition fork_step (child_id : Z) (s : MemoryAllocator B * list BlockTable)
    (t : BlockTable) : MemoryAllocator B * list BlockTable :=
  let forked := fork_table t child_id in
  (foldl retain (fst s) (physical_id <$> entries_ forked), snd s ++ [forked]).

Definition fork_sequence m (parent_id : Z) (child_md : SequenceMetadata)
    : bool * KVCacheManager B :=
  match sequences_ m !! parent_id with
  | None => (false, m)
  | Some parent =>
    let child_id := sm_sequence_id child_md in
    match sequences_ m !! child_id with
    | Some _ => (false, m)
    | None =>
      if negb (all_resident (tables parent)) then (false, m)
      else
        let '(a', ts) := foldl (fork_step child_id) (allocator_ m, []) (tables parent) in
        (true,
         mkKVCacheManager a'
           (map_emplace child_id (mkSequenceState child_md ts ""%string 0) (sequences_ m))
           (index_sequence (sm_request_id child_md) child_id (sequences_by_request_ m))
           (prefix_index_ m))
    end
  end.

(** ** Reserving capacity *)

(** The logical block the loops fill in for position [index] of a table. *)
Definition logical_at (sequence_id : Z) (t : BlockTable) (index start count : Z)
    : LogicalBlock :=
  mkLogicalBlock sequence_id index (cache_kind_ t) start count.

(** One iteration of the inner loop; [false] is the early [return false]. *)
Definition reserve_block (sequence_id tpb base : Z)
    (s : bool * MemoryAllocator B * BlockTable) (offset : Z)
    : option (bool * MemoryAllocator B * BlockTable) :=
  let '(go, a, t) := s in
  if negb go then Some s
  else
    '(physical, a') ← allocate a;
    match physical with
    | None => Some (false, a', t)
    | Some id =>
      let index := base ⊞ offset in
      Some (true, a',
            BlockTable_map t (logical_at sequence_id t index (index ⊠ tpb) tpb) id true)
    end.

Definition reserve_table (sequence_id tpb blocks_needed : Z) a (t : BlockTable)
    : option (bool * MemoryAllocator B * BlockTable) :=
  foldM (reserve_block sequence_id tpb (u32 (table_size t))) (true, a, t)
    (seqZ 0 blocks_needed).

(** [(token_count + tokens_per_block - 1) / tokens_per_block] in 32 bits. *)
Definition ceil_blocks (token_count tpb : Z) : Z := u32 (token_count ⊞ tpb - 1) / tpb.

Definition reserve_tokens m (sequence_id token_count : Z)
    : option (bool * KVCacheManager B) :=
  match sequences_ m !! sequence_id with
  | None => Some (false, m)
  | Some st =>
    let tpb := tokens_per_block_of (allocator_ m) in
    if tpb =? 0 then Some (false, m)
    else
      let blocks_needed := ceil_blocks token_count tpb in
      let frames_needed := blocks_needed ⊠ u32 (Z.of_nat (length (tables st))) in
      if negb (can_allocate (allocator_ m) frames_needed) then Some (false, m)
      else
        '(ok, a', ts) ←
          for_each (reserve_table sequence_id tpb blocks_needed) (allocator_ m) (tables st);
        Some (ok, with_state m a' (<[sequence_id := with_tables st ts]> (sequences_ m)))
  end.

(** ** Writing *)

(** The end of [ensure_token_writable]: the frame of an entry made exclusive.
    The result is the id to write to and the entry as it is left. *)
Definition make_exclusive a (e : BlockTableEntry)
    : option (option (Z * BlockTableEntry) * MemoryAllocator B) :=
  match info a (physical_id e) with
  | None => Some (None, a)
  | Some i =>
    if ref_count i <=? 1 then
      Some (Some (physical_id e, entry_set_frame (physical_id e) true e), a)
    else
      '(copy, a1) ← allocate a;
      match copy with
      | None => Some (None, a1)
      | Some id =>
        a2 ← copy_block a1 (physical_id e) id;
        Some (Some (id, entry_set_frame id true e), release a2 (physical_id e))
      end
  end.

Definition ensure_token_writable m (sequence_id token_position : Z)
    (cache_kind : CacheKind) (layer : Z) : option (option Z * KVCacheManager B) :=
  match sequences_ m !! sequence_id with
  | None => Some (None, m)
  | Some st =>
    match tables st !! Z.to_nat layer with
    | None => Some (None, m)
    | Some t =>
      match entries_ t with
      | [] => Some (None, m)
      | e0 :: _ =>
        let tpb := lb_token_count (logical e0) in
        if tpb =? 0 then Some (None, m)
        else
          match find_entry t (token_position / tpb) with
          | None => Some (None, m)
          | Some it =>
            e ← entries_ t !! it;
            if negb (resident e) then Some (None, m)
            else
              '(r, a') ← make_exclusive (allocator_ m) e;
              match r with
              | None => Some (None, with_state m a' (sequences_ m))
              | Some (id, e') =>
                let t' := update_entry t it (λ _, e') in
                Some (Some id,
                      with_state m a'
                        (<[sequence_id :=
                             with_tables st (<[Z.to_nat layer := t']> (tables st))]>
                           (sequences_ m)))
              end
          end
      end
    end
  end.

(** ** Swapping *)

(** One iteration of the loop over the indices found resident. *)
Definition swap_out_block (s : Z * MemoryAllocator B * BlockTable) (index : Z)
    : option (Z * MemoryAllocator B * BlockTable) :=
  let '(n, a, t) := s in
  match find_entry t index with
  | None => Some s
  | Some it =>
    e ← entries_ t !! it;
    '(slot, a') ← swap_out a (physical_id e);
    match slot with
    | None => Some (n, a', t)
    | Some _ => Some (n ⊞ 1, a', update_entry t it (entry_set_slot slot))
    end
  end.

Definition swap_out_table (s : Z * MemoryAllocator B) (t : BlockTable)
    : option (bool * (Z * MemoryAllocator B) * BlockTable) :=
  let indices := index_of <$> filter (λ e, resident e) (entries_ t) in
  '(n, a, t') ← foldM swap_out_block (fst s, snd s, t) indices;
  Some (true, (n, a), t').

Definition swap_out_sequence m (sequence_id : Z) : option (Z * KVCacheManager B) :=
  match sequences_ m !! sequence_id with
  | None => Some (0, m)
  | Some st =>
    '(_, (n, a'), ts) ← for_each swap_out_table (0, allocator_ m) (tables st);
    Some (n, with_state m a' (<[sequence_id := with_tables st ts]> (sequences_ m)))
  end.

(** Entries with a slot, counted in 32 bits. *)
Definition swapped_count (ts : list BlockTable) : Z :=
  u32 (zsum (λ t, zsum (λ e, if resident e then 0 else 1) (entries_ t)) ts).

(** One iteration of the loop over the entries, by position. *)
Definition swap_in_block (s : bool * MemoryAllocator B * BlockTable) (i : nat)
    : option (bool * MemoryAllocator B * BlockTable) :=
  let '(go, a, t) := s in
  if negb go then Some s
  else
    e ← entries_ t !! i;
    if resident e then Some s
    else
      match find_entry t (index_of e) with
      | None => Some (false, a, t)
      | Some it =>
        found ← entries_ t !! it;
        slot ← swap_slot found;
        '(restored, a') ← swap_in a slot;
        match restored with
        | None => Some (false, a', t)
        | Some id => Some (true, a', update_entry t it (entry_restore id))
        end
      end.

Definition swap_in_table a (t : BlockTable)
    : option (bool * MemoryAllocator B * BlockTable) :=
  foldM swap_in_block (true, a, t) (seq 0 (length (entries_ t))).

Definition swap_in_sequence m (sequence_id : Z) : option (bool * KVCacheManager B) :=
  match sequences_ m !! sequence_id with
  | None => Some (false, m)
  | Some st =>
    let needed := swapped_count (tables st) in
    if needed =? 0 then Some (true, m)
    else if negb (can_allocate (allocator_ m) needed) then Some (false, m)
    else
      '(ok, a', ts) ← for_each swap_in_table (allocator_ m) (tables st);
      Some (ok, with_state m a' (<[sequence_id := with_tables st ts]> (sequences_ m)))
  end.

(** ** Releasing *)

Definition release_entry a (e : BlockTableEntry) : MemoryAllocator B :=
  match swap_slot e with
  | Some slot => discard_swapped a slot
  | None => release a (physical_id e)
  end.

Definition release_tables a (ts : list BlockTable) : MemoryAllocator B :=
  foldl (λ a t, foldl release_entry a (entries_ t)) a ts.

Definition release_sequence m (sequence_id : Z) : KVCacheManager B :=
  match sequences_ m !! sequence_id with
  | None => m
  | Some st =>
    let '(m1, st1) := drop_prefix_user m st in
    mkKVCacheManager (release_tables (allocator_ m1) (tables st1))
      (delete sequence_id (sequences_ m1))
      (unindex_sequence (sm_request_id (metadata st1)) sequence_id
         (sequences_by_request_ m1))
      (prefix_index_ m1)
  end.

(** ** Whole requests *)

Definition swap_out_request m (request_id : Z) : option (Z * KVCacheManager B) :=
  foldM (λ s sid, '(k, m') ← swap_out_sequence (snd s) sid; Some (fst s ⊞ k, m'))
    (0, m) (sequences_for m request_id).

(** Entries of a request's sequences with a slot, counted in 32 bits. *)
Definition request_swapped_count m (ids : list Z) : Z :=
  u32 (zsum (λ sid, match sequences_ m !! sid with
                    | Some st => zsum (λ t, zsum (λ e, if resident e then 0 else 1)
                                              (entries_ t)) (tables st)
                    | None => 0
                    end) ids).

Definition swap_in_request m (request_id : Z) : option (bool * KVCacheManager B) :=
  let ids := sequences_for m request_id in
  let needed := request_swapped_count m ids in
  if (0 <? needed) && negb (can_allocate (allocator_ m) needed) then Some (false, m)
  else
    foldM (λ s sid, if fst s : bool then swap_in_sequence (snd s) sid else Some s)
      (true, m) ids.

Definition release_request m (request_id : Z) : KVCacheManager B :=
  foldl release_sequence m (sequences_for m request_id).

(** ** Shared prefixes *)

Definition prefix_token_count m (key : string) : Z :=
  if decide (key = ""%string) then 0
  else
    match prefix_index_ m !! key with
    | Some [r] => record_token_count r
    | _ => 0
    end.

Definition publish_prefix m (sequence_id : Z) (key : string)
    : option (bool * KVCacheManager B) :=
  if decide (key = ""%string) then Some (false, m)
  else
    match sequences_ m !! sequence_id with
    | None => Some (false, m)
    | Some st =>
      t0 ← text_table st;
      if table_empty t0 then Some (false, m)
      else if decide (prefix_key st = key) then Some (true, m)
      else
        let tpb := tokens_per_block_of (allocator_ m) in
        if tpb =? 0 then Some (false, m)
        else
          hash ← content_hash_of (allocator_ m) (tables st);
          if negb (all_resident (tables st)) then Some (false, m)
          else
            let ids := t ← tables st; physical_id <$> entries_ t in
            let record := mkPrefixRecord hash (u32 (table_size t0) ⊠ tpb) 1 ids in
            let records := default [] (prefix_index_ m !! key) in
            let seqs := <[sequence_id := with_prefix st key hash]> (sequences_ m) in
            match find_record hash records with
            | Some (i, existing) =>
              Some (true,
                mkKVCacheManager (allocator_ m) seqs (sequences_by_request_ m)
                  (<[key := <[i := with_users existing (users existing ⊞ 1)]> records]>
                     (prefix_index_ m)))
            | None =>
              Some (true,
                mkKVCacheManager (foldl retain (allocator_ m) ids) seqs
                  (sequences_by_request_ m)
                  (<[key := records ++ [record]]> (prefix_index_ m)))
            end
    end.

(** One iteration of the inner loop of [attach_prefix]; the state carries
    [id_index]. *)
Definition attach_block (sequence_id tpb : Z) (ids : list Z)
    (s : nat * MemoryAllocator B * BlockTable) (i : Z)
    : option (nat * MemoryAllocator B * BlockTable) :=
  let '(id_index, a, t) := s in
  id ← ids !! id_index;
  Some (S id_index, retain a id,
        BlockTable_map t (logical_at sequence_id t (u32 i) (u32 (i ⊗ tpb)) tpb) id false).

Definition attach_table (sequence_id tpb : Z) (ids : list Z) (ids_per_table : Z)
    (s : nat * MemoryAllocator B) (t : BlockTable)
    : option (bool * (nat * MemoryAllocator B) * BlockTable) :=
  '(k, a, t') ← foldM (attach_block sequence_id tpb ids) (fst s, snd s, t)
                  (seqZ 0 ids_per_table);
  Some (true, (k, a), t').

Definition attach_prefix m (sequence_id : Z) (key : string)
    : option (Z * KVCacheManager B) :=
  if decide (key = ""%string) then Some (0, m)
  else
    match sequences_ m !! sequence_id with
    | None => Some (0, m)
    | Some st =>
      t0 ← text_table st;
      if negb (table_empty t0) then Some (0, m)
      else
        match prefix_index_ m !! key with
        | Some [record] =>
          let tpb := tokens_per_block_of (allocator_ m) in
          let n_tables := Z.of_nat (length (tables st)) in
          let n_ids := Z.of_nat (length (physical_ids record)) in
          if (tpb =? 0) || (n_ids =? 0) || (n_tables =? 0) then Some (0, m)
          else if negb (n_ids mod n_tables =? 0) then Some (0, m)
          else
            '(_, (_, a'), ts) ←
              for_each (attach_table sequence_id tpb (physical_ids record) (n_ids / n_tables))
                (0%nat, allocator_ m) (tables st);
            Some (record_token_count record,
              mkKVCacheManager a'
                (<[sequence_id :=
                     with_prefix (with_tables st ts) key (content_hash record)]>
                   (sequences_ m))
                (sequences_by_request_ m)
                (<[key := [with_users record (users record ⊞ 1)]]> (prefix_index_ m)))
        | _ => Some (0, m)
        end
    end.

Definition contains m (sequence_id : Z) : bool :=
  match sequences_ m !! sequence_id with Some _ => true | None => false end.
End Manager.

(** ** Cache views *)

(** The pointers of a view are to the manager's state at the time it was made;
    the model holds that state. *)
Record CacheView (B : Type) := mkCacheView {
  view_sequence_id : Z;
  view_cache_kind : CacheKind;
  view_block_table : option BlockTable;
  view_layer_tables : option (list BlockTable);
  view_allocator : option (MemoryAllocator B);
  view_layout : KVBlockLayout
}.
Arguments mkCacheView {B}.
Arguments view_sequence_id {B}.
Arguments view_cache_kind {B}.
Arguments view_block_table {B}.
Arguments view_layer_tables {B}.
Arguments view_allocator {B}.
Arguments view_layout {B}.

Section Views.
Context {B : Type}.
Implicit Types v : CacheView B.

Definition view_valid v : bool :=
  match view_block_table v, view_allocator v with
  | Some _, Some _ => 0 <? element_count (view_layout v)
  | _, _ => false
  end.

(** [block_bytes(index, layer)]: the address of a frame, or a null pointer. *)
Definition block_bytes v (index layer : Z) : option Z :=
  if negb (view_valid v) then None
  else
    table ← (match view_layer_tables v with
             | Some ts =>
               if layer <? Z.of_nat (length ts) then ts !! Z.to_nat layer
               else if layer =? 0 then view_block_table v else None
             | None => if layer =? 0 then view_block_table v else None
             end);
    pid ← lookup_block table index;
    a ← view_allocator v;
    b ← block a pid;
    storage_ b.

(** [slot<T>]: the address of one vector of [head_dim] elements. *)
Definition slot (sizeof_T : Z) v (stream : KVStream) (layer token kv_head : Z) : option Z :=
  let s := shape (view_layout v) in
  if negb (view_valid v) || negb (sizeof_T =? bytes_per_element s) then None
  else
    let tpb := tokens_per_block s in
    let per_layer := per_layer_frames s in
    if per_layer &&
       match view_layer_tables v with
       | None => true
       | Some ts => Z.of_nat (length ts) <=? layer
       end
    then None
    else
      let offset_layer := if per_layer then 0 else layer in
      offset ← element_offset (view_layout v) offset_layer stream (token mod tpb) kv_head;
      bytes ← block_bytes v (token / tpb) (if per_layer then layer else 0);
      Some (bytes + offset * sizeof_T).

(** [cache_view]: undefined when the sequence has no table. *)
Definition cache_view (m : KVCacheManager B) (sequence_id : Z) (kind : CacheKind)
    : option (option (CacheView B)) :=
  match sequences_ m !! sequence_id with
  | None => Some None
  | Some st =>
    t0 ← text_table st;
    Some (Some (mkCacheView sequence_id kind (Some t0) (Some (tables st))
                  (Some (allocator_ m)) (mkKVBlockLayout (pool_shape (allocator_ m)))))
  end.
End Views.
