(* ===== verification/CacheAccounting.v ===== *)
(** Accounting for the cache manager: which frames and swap slots the entries of
    a table hold, how an operation moves references and slots between the pool
    and a list of entries ([moves]), and the frame rule that lets a loop over
    one table ignore every other holder. *)
From S2P Require Import Prelude.
From S2P Require Import Block.
From S2P Require Import SwapBackend.
From S2P Require Import BlockTable.
From S2P Require Import MemoryAllocator.
From S2P Require Import AllocatorSpec.
From S2P Require Import AllocatorProps.
From S2P Require Import KVCacheManager.

(** ** What entries hold *)

Definition entry_frames (e : BlockTableEntry) : list Z :=
  match swap_slot e with Some _ => [] | None => [physical_id e] end.
Definition entry_slots (e : BlockTableEntry) : list Z :=
  match swap_slot e with Some s => [s] | None => [] end.

Definition frames_of (es : list BlockTableEntry) : list Z := es ≫= entry_frames.
Definition slots_of (es : list BlockTableEntry) : list Z := es ≫= entry_slots.

Definition all_entries (ts : list BlockTable) : list BlockTableEntry := ts ≫= entries_.

Lemma frames_of_app es fs : frames_of (es ++ fs) = frames_of es ++ frames_of fs.
Proof. apply bind_app. Qed.

Lemma slots_of_app es fs : slots_of (es ++ fs) = slots_of es ++ slots_of fs.
Proof. apply bind_app. Qed.

Lemma frames_of_cons e es : frames_of (e :: es) = entry_frames e ++ frames_of es.
Proof. done. Qed.

Lemma slots_of_cons e es : slots_of (e :: es) = entry_slots e ++ slots_of es.
Proof. done. Qed.

Lemma frames_of_nil : frames_of [] = [].
Proof. done. Qed.

Lemma slots_of_nil : slots_of [] = [].
Proof. done. Qed.

Lemma all_entries_app ts us : all_entries (ts ++ us) = all_entries ts ++ all_entries us.
Proof. apply bind_app. Qed.

Lemma all_entries_cons t ts : all_entries (t :: ts) = entries_ t ++ all_entries ts.
Proof. done. Qed.

Lemma entry_frames_elem e es id : e ∈ es → id ∈ entry_frames e → id ∈ frames_of es.
Proof. intros. apply list_elem_of_bind. eauto. Qed.

Create Rewrite HintDb holds.
#[export] Hint Rewrite frames_of_app slots_of_app frames_of_cons slots_of_cons
  frames_of_nil slots_of_nil all_entries_app all_entries_cons zcount_app zcount_nil zcount_cons : holds.

(** ** Moving references *)

Section Moves.
Context {B : Type} `{SwapBackendLaws B}.
Implicit Types a : MemoryAllocator B.

(** 1 when a slot is resident in the backend. *)
Definition held a (s : Z) : Z := match swapped a !! s with Some _ => 1 | None => 0 end.

(** [moves a a' fs fs' ss ss']: the pool goes from [a] to [a'] while its client
    trades the references [fs] and the slots [ss] for [fs'] and [ss']. Frames
    someone else holds and slots of others keep their bytes. *)
Record moves a a' (fs fs' ss ss' : list Z) : Prop := {
  moves_inv : alloc_inv a';
  moves_pool : same_pool a a';
  moves_refs id : refs a' id = refs a id + zcount id fs' - zcount id fs;
  moves_held s : held a' s = held a s + zcount s ss' - zcount s ss;
  moves_frame id : zcount id fs < refs a id → frame a' id = frame a id;
  moves_bytes s b : swapped a !! s = Some b → zcount s ss = 0 → swapped a' !! s = Some b
}.

Lemma moves_refl a fs ss : alloc_inv a → moves a a fs fs ss ss.
Proof. intros. split; try done; intros; lia. Qed.

Lemma held_Some a s b : swapped a !! s = Some b → held a s = 1.
Proof. unfold held. by intros ->. Qed.

Lemma held_range a s : 0 <= held a s <= 1.
Proof. unfold held. case_match; lia. Qed.

Lemma held_pos a s : 0 < held a s → ∃ b, swapped a !! s = Some b.
Proof. unfold held. case_match; [eauto|lia]. Qed.

Lemma moves_trans a a' a'' fs fs' fs'' ss ss' ss'' :
  moves a a' fs fs' ss ss' → moves a' a'' fs' fs'' ss' ss'' → moves a a'' fs fs'' ss ss''.
Proof.
  intros [_ Hp Hr Hh Hf Hb] [Hi Hp' Hr' Hh' Hf' Hb']. split.
  - done.
  - unfold same_pool in *. congruence.
  - intros id. rewrite Hr', Hr. lia.
  - intros s. rewrite Hh', Hh. lia.
  - intros id Hid. rewrite Hf' by (rewrite Hr; lia). by apply Hf.
  - intros s b Hs Hz. pose proof (Hb _ _ Hs Hz) as Hs'. apply Hb'; [done|].
    specialize (Hh s). rewrite (held_Some _ _ _ Hs), (held_Some _ _ _ Hs') in Hh. lia.
Qed.

(** Only the multiplicities matter. *)
Lemma moves_count a a' fs fs' ss ss' gs gs' us us' :
  moves a a' fs fs' ss ss' →
  (∀ id, zcount id gs' - zcount id gs = zcount id fs' - zcount id fs) →
  (∀ id, zcount id fs <= zcount id gs) →
  (∀ s, zcount s us' - zcount s us = zcount s ss' - zcount s ss) →
  (∀ s, zcount s ss <= zcount s us) →
  moves a a' gs gs' us us'.
Proof.
  intros [Hi Hp Hr Hh Hf Hb] H1 H2 H3 H4. split; [done|done|..].
  - intros id. rewrite Hr. specialize (H1 id). lia.
  - intros s. rewrite Hh. specialize (H3 s). lia.
  - intros id Hid. apply Hf. specialize (H2 id). lia.
  - intros s b Hs Hz. apply Hb; [done|]. specialize (H4 s).
    pose proof (zcount_nonneg s ss). lia.
Qed.

(** The holdings of a client are covered by the pool. *)
Definition backed a (es : list BlockTableEntry) : Prop :=
  (∀ id, zcount id (frames_of es) <= refs a id) ∧
  (∀ s, zcount s (slots_of es) <= held a s).

(** The bytes of a block, wherever they are. *)
Definition entry_bytes a (e : BlockTableEntry) : option (list byte) :=
  match swap_slot e with
  | Some s => swapped a !! s
  | None => Some (frame a (physical_id e))
  end.

Definition entries_move a es a' es' : Prop :=
  moves a a' (frames_of es) (frames_of es') (slots_of es) (slots_of es').

Lemma entries_move_frame a a' pre es es' post :
  entries_move a es a' es' → entries_move a (pre ++ es ++ post) a' (pre ++ es' ++ post).
Proof.
  intros Hm. eapply moves_count; [exact Hm|..]; intros i; autorewrite with holds;
    pose proof (zcount_nonneg i (frames_of pre));
    pose proof (zcount_nonneg i (frames_of post)); pose proof (zcount_nonneg i (slots_of pre));
    pose proof (zcount_nonneg i (slots_of post)); lia.
Qed.

Lemma moves_backed a es a' es' : entries_move a es a' es' → backed a es → backed a' es'.
Proof.
  intros [_ _ Hr Hh _ _] [Hf Hs]. split; intros i.
  - rewrite Hr. specialize (Hf i). lia.
  - rewrite Hh. specialize (Hs i). lia.
Qed.

Lemma backed_app a es fs : backed a (es ++ fs) → backed a es ∧ backed a fs.
Proof.
  intros [Hf Hs]. split; split; intros i; specialize (Hf i); specialize (Hs i);
    autorewrite with holds in *;
    pose proof (zcount_nonneg i (frames_of es)); pose proof (zcount_nonneg i (frames_of fs));
    pose proof (zcount_nonneg i (slots_of es)); pose proof (zcount_nonneg i (slots_of fs)); lia.
Qed.

(** Blocks of another holder keep their bytes. *)
Lemma moves_other_bytes a a' es es' e :
  entries_move a es a' es' → backed a (es ++ [e]) → entry_bytes a' e = entry_bytes a e.
Proof.
  intros [_ _ _ _ Hf Hb] [Hbf Hbs]. unfold entry_bytes.
  destruct (swap_slot e) as [s|] eqn:He.
  - specialize (Hbs s). autorewrite with holds in Hbs. unfold entry_slots in Hbs.
    rewrite He, zcount_single, decide_True in Hbs by done.
    pose proof (zcount_nonneg s (slots_of es)). pose proof (held_range a s).
    destruct (held_pos a s) as [b Hs]; [lia|]. rewrite Hs. apply Hb; [done|lia].
  - specialize (Hbf (physical_id e)). autorewrite with holds in Hbf.
    unfold entry_frames in Hbf. rewrite He, zcount_single, decide_True in Hbf by done.
    f_equal. apply Hf. lia.
Qed.

Lemma moves_others_bytes a a' es es' fs :
  entries_move a es a' es' → backed a (es ++ fs) →
  entry_bytes a' <$> fs = entry_bytes a <$> fs.
Proof.
  intros Hm Hb. apply list_fmap_ext. intros i e He.
  eapply moves_other_bytes; [exact Hm|].
  apply list_elem_of_lookup_2, list_elem_of_split in He as (l1 & l2 & ->).
  split; intros k; [destruct Hb as [Hb _]|destruct Hb as [_ Hb]]; specialize (Hb k);
    autorewrite with holds in *;
    pose proof (zcount_nonneg k (frames_of l1)); pose proof (zcount_nonneg k (frames_of l2));
    pose proof (zcount_nonneg k (slots_of l1)); pose proof (zcount_nonneg k (slots_of l2));
    cbn in *; lia.
Qed.

(** [preserves]: references move, every block keeps its bytes. *)
Definition preserves a es a' es' : Prop :=
  entries_move a es a' es' ∧ entry_bytes a' <$> es' = entry_bytes a <$> es.

Lemma preserves_refl a es : alloc_inv a → preserves a es a es.
Proof. intros. split; [by apply moves_refl|done]. Qed.

Lemma preserves_trans a es a' es' a'' es'' :
  preserves a es a' es' → preserves a' es' a'' es'' → preserves a es a'' es''.
Proof. intros [Hm Hb] [Hm' Hb']. split; [by eapply moves_trans|congruence]. Qed.

(** The frame rule. *)
Lemma preserves_frame a es a' es' pre post :
  backed a (pre ++ es ++ post) → preserves a es a' es' →
  preserves a (pre ++ es ++ post) a' (pre ++ es' ++ post).
Proof.
  intros Hb [Hm Heq]. split; [by apply entries_move_frame|].
  rewrite !fmap_app, Heq. f_equal; [|f_equal].
  - eapply moves_others_bytes; [exact Hm|].
    destruct Hb as [Hf Hs]. split; intros k; [specialize (Hf k)|specialize (Hs k)];
      autorewrite with holds in *;
      pose proof (zcount_nonneg k (frames_of post));
      pose proof (zcount_nonneg k (slots_of post)); lia.
  - eapply moves_others_bytes; [exact Hm|]. by apply backed_app in Hb as [_ Hb].
Qed.
End Moves.
