(* ===== verification/AllocatorMoves.v ===== *)
(** The operations of the pool as moves of references: the steps from which the
    loops of the cache manager are built. *)
From S2P Require Import Prelude.
From S2P Require Import Block.
From S2P Require Import SwapBackend.
From S2P Require Import BlockTable.
From S2P Require Import MemoryAllocator.
From S2P Require Import AllocatorSpec.
From S2P Require Import AllocatorProps.
From S2P Require Import KVCacheManager.
From S2P Require Import CacheAccounting.

Section Steps.
Context {B : Type} `{SwapBackendLaws B}.
Implicit Types a : MemoryAllocator B.

(** A change of reference counts only. *)
Lemma moves_slab a a' fs fs' :
  alloc_inv a → alloc_wf a' → same_pool a a' → slab_ a' = slab_ a →
  swap_backend_ a' = swap_backend_ a →
  (∀ id, refs a' id = refs a id + zcount id fs' - zcount id fs) →
  moves a a' fs fs' [] [].
Proof.
  intros Hi Hwf Hp Hs Hb Hr. split; try done.
  - by eapply alloc_inv_same.
  - intros s. unfold held. rewrite (swapped_backend _ _ Hb). lia.
  - intros id _. by apply frame_slab.
  - intros s b Hsw _. by rewrite (swapped_backend _ _ Hb).
Qed.

Lemma allocate_moves a :
  alloc_inv a →
  runs (allocate a) (λ '(r, a'),
    slab_ a' = slab_ a ∧ swap_backend_ a' = swap_backend_ a ∧
    match r with
    | None => a' = a ∧ nfree a = 0
    | Some id =>
      valid a id ∧ refs a id = 0 ∧ moves a a' [] [id] [] [] ∧ nfree a' = nfree a - 1
    end).
Proof.
  intros Hi. eapply runs_mono; [apply allocate_spec, Hi|].
  intros [[id|] a'] (Hwf & Hp & Hs & Hb & Hr); [|by destruct Hr].
  destruct Hr as (? & ? & Hr & ?). split_and!; try done.
  apply moves_slab; try done. intros j. rewrite Hr. autorewrite with holds. lia.
Qed.

Lemma release_moves a id :
  alloc_inv a → 0 < refs a id →
  moves a (release a id) [id] [] [] [] ∧ slab_ (release a id) = slab_ a ∧
  swap_backend_ (release a id) = swap_backend_ a.
Proof.
  intros Hi Hr. destruct (release_spec a id (proj1 Hi) Hr) as (Hwf & Hp & Hs & Hb & Hrefs & _).
  split_and!; try done. apply moves_slab; try done. intros j. rewrite Hrefs.
  autorewrite with holds. lia.
Qed.

Lemma retain_moves a id :
  alloc_inv a → 0 < refs a id → refs a id + 1 < W32 →
  moves a (retain a id) [] [id] [] [] ∧ slab_ (retain a id) = slab_ a ∧
  swap_backend_ (retain a id) = swap_backend_ a ∧ nfree (retain a id) = nfree a.
Proof.
  intros Hi Hr Hm.
  destruct (retain_spec a id (proj1 Hi) Hr Hm) as (Hwf & Hp & Hs & Hb & Hrefs & Hn).
  split_and!; try done. apply moves_slab; try done. intros j. rewrite Hrefs.
  autorewrite with holds. lia.
Qed.

(** Writing a frame of which this client has the only reference. *)
Lemma write_moves a id bytes :
  alloc_inv a → refs a id = 1 → Z.of_nat (length bytes) = block_stride_bytes_ a →
  moves a (set_frame a id bytes) [id] [id] [] [].
Proof.
  intros [Hwf Hsz] Hr Hlen.
  assert (valid a id) as Hv by (apply refs_pos_valid; [done|lia]).
  destruct (set_frame_wf a id bytes Hwf Hv Hlen) as [Hwf' Hfr]. split; try done.
  - change (refs (set_frame a id bytes)) with (refs a). lia.
  - intros s. change (held (set_frame a id bytes) s) with (held a s). lia.
  - intros j. autorewrite with holds. case_decide as Hd; [subst; lia|]. intros Hj.
    rewrite Hfr, decide_False; [done..|]. apply refs_pos_valid; [done|lia].
Qed.

Lemma swap_out_moves a id :
  alloc_inv a → 0 <= id → 0 < budget a →
  runs (swap_out a id) (λ '(r, a'),
    match r with
    | None => a' = a
    | Some slot =>
      moves a a' [id] [] [] [slot] ∧ refs a id = 1 ∧ swapped a' !! slot = Some (frame a id) ∧
      budget a' = budget a - 1 ∧ nfree a' = nfree a + 1
    end).
Proof.
  intros Hi Hid Hbud. eapply runs_mono; [by apply swap_out_spec; [apply Hi|..]|].
  intros [[slot|] a'] (Hwf & Hp & Hs & Hr); [|done].
  destruct Hr as (Hone & Hrefs & Hn & Hnone & Hsw & Hb).
  assert (valid a id) as Hv by (apply refs_pos_valid; [apply Hi|lia]).
  split_and!; [|done|by rewrite Hsw, lookup_insert_eq|done|done]. split; try done.
  - split; [done|]. intros s b. rewrite Hsw, (same_pool_stride _ _ Hp).
    intros [[_ <-]|[_ ?]]%lookup_insert_Some; [|by eapply Hi].
    apply length_frame; [apply Hi|done].
  - intros j. rewrite Hrefs. autorewrite with holds. lia.
  - intros s. unfold held. rewrite Hsw. autorewrite with holds. case_decide as Hd.
    + subst. rewrite lookup_insert_eq, Hnone. lia.
    + rewrite lookup_insert_ne by done. lia.
  - intros j _. by apply frame_slab.
  - intros s b Hsb _. rewrite Hsw, lookup_insert_ne; [done|]. by intros ->; simplify_eq.
Qed.

Lemma swap_in_moves a slot bytes :
  alloc_inv a → swapped a !! slot = Some bytes →
  runs (swap_in a slot) (λ '(r, a'),
    match r with
    | None => a' = a ∧ nfree a = 0
    | Some id =>
      moves a a' [] [id] [slot] [] ∧ frame a' id = bytes ∧ nfree a' = nfree a - 1
    end).
Proof.
  intros Hi Hsl. eapply runs_mono; [eapply swap_in_spec; [apply Hi|done|by eapply Hi]|].
  intros [[id|] a'] (Hwf & Hp & Hr); [|done].
  destruct Hr as (Hv & Hz & Hrefs & Hn & Hsw & Hb & Hfr).
  split_and!; [|by rewrite Hfr, decide_True|done]. split; try done.
  - split; [done|]. intros s b. rewrite Hsw, (same_pool_stride _ _ Hp).
    intros [_ ?]%lookup_delete_Some. by eapply Hi.
  - intros j. rewrite Hrefs. autorewrite with holds. lia.
  - intros s. unfold held. rewrite Hsw. autorewrite with holds. case_decide as Hd.
    + subst. rewrite lookup_delete_eq, Hsl. lia.
    + rewrite lookup_delete_ne by done. lia.
  - intros j. autorewrite with holds. intros Hj.
    rewrite Hfr, decide_False; [done|by intros ->; lia|].
    apply refs_pos_valid; [apply Hi|lia].
  - intros s b Hsb. autorewrite with holds. intros Hs. rewrite Hsw, lookup_delete_ne; [done|].
    intros ->. rewrite decide_True in Hs by done. lia.
Qed.

Lemma discard_moves a slot :
  alloc_inv a → 0 < held a slot →
  moves a (discard_swapped a slot) [] [] [slot] [].
Proof.
  intros Hi Hh. destruct (discard_swapped_spec a slot (proj1 Hi))
    as (Hwf & Hp & Hs & Hrefs & _ & Hsw & _). split; try done.
  - split; [done|]. intros s b. rewrite Hsw, (same_pool_stride _ _ Hp).
    intros [_ ?]%lookup_delete_Some. by eapply Hi.
  - intros j. rewrite Hrefs. lia.
  - intros s. unfold held in *. rewrite Hsw. autorewrite with holds. case_decide as Hd.
    + subst. rewrite lookup_delete_eq. case_match; lia.
    + rewrite lookup_delete_ne by done. lia.
  - intros j _. by apply frame_slab.
  - intros s b Hsb. autorewrite with holds. intros Hz. rewrite Hsw, lookup_delete_ne; [done|].
    intros ->. rewrite decide_True in Hz by done. lia.
Qed.

(** ** Loops over references *)

(** Counters that stay below [2^32] when the ids in [l] are retained. *)
Definition room a (l : list Z) : Prop := ∀ id, refs a id + zcount id l < W32.

Lemma retain_all_moves a l :
  alloc_inv a → (∀ id, id ∈ l → 0 < refs a id) → room a l →
  moves a (foldl retain a l) [] l [] [] ∧ slab_ (foldl retain a l) = slab_ a ∧
  swap_backend_ (foldl retain a l) = swap_backend_ a ∧ nfree (foldl retain a l) = nfree a.
Proof.
  revert a. induction l as [|id l IH]; intros a Hi Hpos Hroom; simpl;
    [split_and!; [by apply moves_refl|done..]|].
  destruct (retain_moves a id) as (Hm & Hs & Hb & Hn); [done|apply Hpos; left|..].
  { specialize (Hroom id). autorewrite with holds in Hroom.
    rewrite decide_True in Hroom by done. pose proof (zcount_nonneg id l). lia. }
  destruct (IH (retain a id)) as (Hm' & Hs' & Hb' & Hn').
  - apply Hm.
  - intros j Hj. rewrite (moves_refs _ _ _ _ _ _ Hm). pose proof (zcount_nonneg j [id]).
    specialize (Hpos j ltac:(by right)). autorewrite with holds in *. lia.
  - intros j. rewrite (moves_refs _ _ _ _ _ _ Hm). specialize (Hroom j).
    autorewrite with holds in *. lia.
  - split_and!; [|congruence..].
    eapply moves_trans; [exact Hm|]. eapply moves_count; [exact Hm'|..];
      intros j; autorewrite with holds; try case_decide; lia.
Qed.

Lemma release_all_moves a l :
  alloc_inv a → (∀ id, zcount id l <= refs a id) →
  moves a (foldl release a l) l [] [] [].
Proof.
  revert a. induction l as [|id l IH]; intros a Hi Hc; simpl; [by apply moves_refl|].
  destruct (release_moves a id) as (Hm & _ & _); [done|..].
  { specialize (Hc id). rewrite zcount_cons, decide_True in Hc by done.
    pose proof (zcount_nonneg id l). lia. }
  eapply moves_trans; [|apply IH].
  - eapply moves_count; [exact Hm|..]; intros j; autorewrite with holds;
      pose proof (zcount_nonneg j l); try case_decide; lia.
  - apply Hm.
  - intros j. rewrite (moves_refs _ _ _ _ _ _ Hm). specialize (Hc j).
    autorewrite with holds in *. lia.
Qed.

Lemma release_entries_moves a es :
  alloc_inv a → backed a es → entries_move a es (foldl release_entry a es) [].
Proof.
  revert a. induction es as [|e es IH]; intros a Hi Hb; simpl; [by apply moves_refl|].
  assert (entries_move a [e] (release_entry a e) []) as Hm.
  { destruct Hb as [Hf Hs]. unfold entries_move, release_entry.
    autorewrite with holds. rewrite !app_nil_r.
    destruct (swap_slot e) as [s|] eqn:He.
    - specialize (Hs s). autorewrite with holds in Hs. unfold entry_frames, entry_slots in *.
      rewrite He in *. apply discard_moves; [done|].
      rewrite zcount_single, decide_True in Hs by done.
      pose proof (zcount_nonneg s (slots_of es)). lia.
    - specialize (Hf (physical_id e)). autorewrite with holds in Hf.
      unfold entry_frames, entry_slots in *. rewrite He in *. apply release_moves; [done|].
      rewrite zcount_single, decide_True in Hf by done.
      pose proof (zcount_nonneg (physical_id e) (frames_of es)). lia. }
  assert (entries_move a (e :: es) (release_entry a e) es) as Hm'.
  { by apply (entries_move_frame _ _ [] [e] [] es) in Hm. }
  eapply moves_trans; [exact Hm'|]. apply IH; [apply Hm|]. by eapply moves_backed.
Qed.

Lemma release_tables_entries a ts :
  release_tables a ts = foldl release_entry a (all_entries ts).
Proof.
  unfold release_tables. revert a. induction ts as [|t ts IH]; intros a; [done|].
  cbn [foldl]. rewrite IH, all_entries_cons, foldl_app. done.
Qed.
End Steps.
