(* ===== verification/CacheInvariant.v ===== *)
(** The invariant of the cache manager: dense block tables, every reference and
    every swap slot of the pool accounted for by a table entry or a published
    prefix, a consistent request index, and exact prefix user counts. *)
From S2P Require Import Prelude.
From S2P Require Import Block.
From S2P Require Import SwapBackend.
From S2P Require Import BlockTable.
From S2P Require Import MemoryAllocator.
From S2P Require Import AllocatorSpec.
From S2P Require Import AllocatorProps.
From S2P Require Import KVCacheManager.
From S2P Require Import CacheAccounting.
From S2P Require Import AllocatorMoves.

(** ** Dense tables *)

(** The descriptor of block [i] of a sequence. *)
Definition block_at (sid tpb : Z) (i : nat) : LogicalBlock :=
  mkLogicalBlock sid (Z.of_nat i) TextKV (u32 (Z.of_nat i * tpb)) tpb.

(** [n] entries, the [i]-th one describing block [i]. *)
Record table_wf (sid tpb : Z) (n : nat) (t : BlockTable) : Prop := {
  table_kind : cache_kind_ t = TextKV;
  table_len : length (entries_ t) = n;
  table_max : Z.of_nat n < W32;
  table_dense i e : entries_ t !! i = Some e → logical e = block_at sid tpb i
}.

Lemma table_wf_index sid tpb n t i e :
  table_wf sid tpb n t → entries_ t !! i = Some e → index_of e = Z.of_nat i.
Proof. intros Ht He. unfold index_of. by rewrite (table_dense _ _ _ _ Ht i e He). Qed.

Lemma table_wf_sorted sid tpb n t : table_wf sid tpb n t → table_sorted t.
Proof.
  intros Ht. pose proof (table_wf_index sid tpb n t) as Hix.
  specialize (λ i e, Hix i e Ht). unfold table_sorted, entries_sorted. clear Ht.
  assert (∃ k, ∀ i e, entries_ t !! i = Some e → index_of e = Z.of_nat (k + i)) as [k Hk]
    by by exists 0%nat.
  clear Hix. revert k Hk. induction (entries_ t) as [|e es IH]; intros k Hk; constructor.
  - apply (IH (S k)). intros i e' He. rewrite (Hk (S i) e' He). lia.
  - apply Forall_forall. intros e' [i He]%list_elem_of_lookup_1.
    rewrite (Hk 0%nat e eq_refl), (Hk (S i) e' He). lia.
Qed.

Lemma table_wf_find sid tpb n t index :
  table_wf sid tpb n t →
  find_entry t index =
    if (0 <=? index) && (index <? Z.of_nat n) then Some (Z.to_nat index) else None.
Proof.
  intros Ht. destruct (find_entry t index) as [it|] eqn:Hf.
  - destruct (find_entry_Some _ _ _ Hf) as (e & He & Hi).
    rewrite (table_wf_index _ _ _ _ _ _ Ht He) in Hi.
    pose proof (lookup_lt_Some _ _ _ He) as Hlt. rewrite (table_len _ _ _ _ Ht) in Hlt.
    rewrite (proj2 (Z.leb_le _ _)), (proj2 (Z.ltb_lt _ _)) by lia. simpl. f_equal. lia.
  - destruct (Z.leb_spec 0 index); [|done]. destruct (Z.ltb_spec index (Z.of_nat n)); [|done].
    destruct (lookup_lt_is_Some_2 (entries_ t) (Z.to_nat index)) as [e He].
    { rewrite (table_len _ _ _ _ Ht). lia. }
    pose proof (find_entry_elem _ _ _ (table_wf_sorted _ _ _ _ Ht) He) as Hf'.
    rewrite (table_wf_index _ _ _ _ _ _ Ht He), Z2Nat.id, Hf in Hf' by lia. done.
Qed.

(** Mapping the next block appends its entry. *)
Lemma table_wf_snoc sid tpb n t lb pid w :
  table_wf sid tpb n t → Z.of_nat n + 1 < W32 → lb = block_at sid tpb n →
  entries_ (BlockTable_map t lb pid w) = entries_ t ++ [mkBlockTableEntry lb pid w None] ∧
  table_wf sid tpb (S n) (BlockTable_map t lb pid w).
Proof.
  intros Ht Hmax ->. assert (entries_ (BlockTable_map t (block_at sid tpb n) pid w)
    = entries_ t ++ [mkBlockTableEntry (block_at sid tpb n) pid w None]) as Heq.
  { unfold BlockTable_map.
    assert (lower_bound_index (entries_ t) (Z.of_nat n) = length (entries_ t)) as Hlb.
    { pose proof (table_wf_index sid tpb n t) as Hix. specialize (λ i e, Hix i e Ht).
      pose proof (table_len _ _ _ _ Ht) as Hlen. clear Ht. rewrite <-Hlen.
      assert (∀ e, e ∈ entries_ t → index_of e < Z.of_nat (length (entries_ t))) as Hall.
      { intros e [i He]%list_elem_of_lookup_1. rewrite (Hix _ _ He).
        apply lookup_lt_Some in He. lia. }
      revert Hall. generalize (Z.of_nat (length (entries_ t))). clear.
      induction (entries_ t) as [|e es IH]; intros z Hall; [done|]. simpl.
      rewrite (proj2 (Z.ltb_lt _ _)) by (apply Hall; left). f_equal. apply IH.
      intros. apply Hall. by right. }
    simpl. rewrite Hlb, lookup_ge_None_2 by done. simpl.
    by rewrite take_ge, drop_ge by done. }
  split; [done|]. split.
  - transitivity (cache_kind_ t); [|by apply Ht]. unfold BlockTable_map. by repeat case_match.
  - rewrite Heq, length_app, (table_len _ _ _ _ Ht). simpl. lia.
  - lia.
  - intros i e. rewrite Heq. intros [He|[Hi He]]%lookup_app_Some; [by eapply table_dense|].
    rewrite (table_len _ _ _ _ Ht) in *. apply list_lookup_singleton_Some in He as [Hz <-].
    simpl. do 2 f_equal. lia.
Qed.

Lemma table_wf_update sid tpb n t i f :
  table_wf sid tpb n t → (∀ e, entries_ t !! i = Some e → logical (f e) = logical e) →
  table_wf sid tpb n (update_entry t i f).
Proof.
  intros Ht Hf. split; simpl; [apply Ht|by rewrite length_alter; apply Ht|apply Ht|].
  intros j e. destruct (decide (i = j)) as [<-|Hne].
  - rewrite list_lookup_alter_eq. intros (e' & He & ->)%fmap_Some.
    rewrite Hf by done. by eapply table_dense.
  - rewrite list_lookup_alter_ne by done. by eapply table_dense.
Qed.

Lemma table_wf_new sid tpb kind : kind = TextKV → table_wf sid tpb 0 (BlockTable_new sid kind).
Proof. intros ->. by split. Qed.

Lemma table_wf_fork sid tpb n t child :
  table_wf sid tpb n t → table_wf child tpb n (fork_table t child).
Proof.
  intros [Hk Hl Hm Hd]. split; simpl; [done|by rewrite length_fmap|done|].
  intros i e. rewrite list_lookup_fmap. intros (e' & He & ->)%fmap_Some. simpl.
  by rewrite (Hd _ _ He).
Qed.

Section Content.
Context {B : Type} `{SwapBackendLaws B}.
Implicit Types a : MemoryAllocator B.

Definition table_bytes a (t : BlockTable) : list (option (list byte)) :=
  entry_bytes a <$> entries_ t.

(** Rewriting one entry of a table. *)
Lemma update_preserves a a' t i e f :
  backed a (entries_ t) → entries_ t !! i = Some e → preserves a [e] a' [f e] →
  preserves a (entries_ t) a' (entries_ (update_entry t i f)).
Proof.
  intros Hb He Hp. simpl.
  assert (alter f i (entries_ t) = take i (entries_ t) ++ [f e] ++ drop (S i) (entries_ t))
    as ->.
  { simpl. rewrite <-insert_take_drop by (by eapply lookup_lt_Some).
    apply list_eq. intros j. destruct (decide (j = i)) as [->|].
    - rewrite list_lookup_alter_eq, He, list_lookup_insert_eq; [done|].
      by eapply lookup_lt_Some.
    - by rewrite list_lookup_alter_ne, list_lookup_insert_ne. }
  pose proof (take_drop_middle _ _ _ He) as Hs. rewrite <-Hs in Hb.
  rewrite <-Hs at 1. by apply (preserves_frame _ [e]).
Qed.
End Content.

(** ** Sequences and prefixes *)

Definition seq_blocks (st : SequenceState) : nat :=
  match tables st with t :: _ => length (entries_ t) | [] => 0%nat end.

Record seq_wf (tpb count sid : Z) (st : SequenceState) : Prop := {
  seq_id : sm_sequence_id (metadata st) = sid;
  seq_tables : Z.of_nat (length (tables st)) = count;
  seq_dense : Forall (table_wf sid tpb (seq_blocks st)) (tables st);
  seq_prefix : prefix_key st ≠ ""%string → (0 < seq_blocks st)%nat
}.

Record index_wf (seqs : gmap Z SequenceState) (idx : gmap Z (list Z)) : Prop := {
  index_nonempty rid : idx !! rid ≠ Some [];
  index_nodup rid ids : idx !! rid = Some ids → NoDup ids;
  index_member rid sid :
    sid ∈ default [] (idx !! rid) ↔
    ∃ st, seqs !! sid = Some st ∧ sm_request_id (metadata st) = rid
}.

(** Sequences that use the record of a key with a hash. *)
Definition prefix_users (key : string) (hash : Z) (seqs : gmap Z SequenceState) : Z :=
  map_zsum (λ _ st, if decide (prefix_key st = key ∧ prefix_hash st = hash) then 1 else 0) seqs.

(** A record pins [n] frames of each of [count] tables. *)
Definition record_wf (tpb count : Z) (r : PrefixRecord) : Prop :=
  ∃ n : nat, (0 < n)%nat ∧ Z.of_nat n < W32 ∧
    Z.of_nat (length (physical_ids r)) = count * Z.of_nat n ∧
    record_token_count r = u32 (Z.of_nat n * tpb).

Record prefix_wf (tpb count : Z) (seqs : gmap Z SequenceState)
    (pidx : gmap string (list PrefixRecord)) : Prop := {
  prefix_nonempty key : pidx !! key ≠ Some [];
  prefix_named : pidx !! ""%string = None;
  prefix_hashes key recs : pidx !! key = Some recs → NoDup (content_hash <$> recs);
  prefix_records key recs r : pidx !! key = Some recs → r ∈ recs →
    record_wf tpb count r ∧ users r = prefix_users key (content_hash r) seqs ∧
    0 < users r < W32;
  prefix_member sid st : seqs !! sid = Some st → prefix_key st ≠ ""%string →
    ∃ recs r, pidx !! prefix_key st = Some recs ∧ r ∈ recs ∧ content_hash r = prefix_hash st
}.

Definition seq_refs (id : Z) (seqs : gmap Z SequenceState) : Z :=
  map_zsum (λ _ st, zcount id (frames_of (all_entries (tables st)))) seqs.
Definition slot_refs (s : Z) (seqs : gmap Z SequenceState) : Z :=
  map_zsum (λ _ st, zcount s (slots_of (all_entries (tables st)))) seqs.
Definition record_refs (id : Z) (recs : list PrefixRecord) : Z :=
  zsum (λ r, zcount id (physical_ids r)) recs.
Definition pin_refs (id : Z) (pidx : gmap string (list PrefixRecord)) : Z :=
  map_zsum (λ _ recs, record_refs id recs) pidx.

(** ** The invariant *)

Section Invariant.
Context {B : Type} `{SwapBackendLaws B}.
Implicit Types a : MemoryAllocator B.
Implicit Types m : KVCacheManager B.

Definition tpb_of m : Z := tokens_per_block_of (allocator_ m).
Definition count_of m : Z := table_count (allocator_ m).

(** Every reference of the pool is a resident entry or a pin of a prefix, and
    every resident slot belongs to exactly one entry. *)
Definition accounted a (seqs : gmap Z SequenceState)
    (pidx : gmap string (list PrefixRecord)) : Prop :=
  (∀ id, refs a id = seq_refs id seqs + pin_refs id pidx) ∧
  (∀ s, held a s = slot_refs s seqs).

Record mgr_wf m : Prop := {
  mgr_alloc : alloc_inv (allocator_ m);
  mgr_shape : shape_typed (block_shape (config_ (allocator_ m)));
  mgr_seq sid st : sequences_ m !! sid = Some st → seq_wf (tpb_of m) (count_of m) sid st;
  mgr_accounted : accounted (allocator_ m) (sequences_ m) (prefix_index_ m);
  mgr_index : index_wf (sequences_ m) (sequences_by_request_ m);
  mgr_prefix : prefix_wf (tpb_of m) (count_of m) (sequences_ m) (prefix_index_ m)
}.

(** What the cache stores: for each sequence, its tables' blocks; for each
    prefix, the blocks it pins. *)
Definition seq_bytes a (st : SequenceState) : list (list (option (list byte))) :=
  table_bytes a <$> tables st.
Definition contents m : gmap Z (list (list (option (list byte)))) :=
  seq_bytes (allocator_ m) <$> sequences_ m.
Definition record_bytes a (r : PrefixRecord) : list (list byte) := frame a <$> physical_ids r.
Definition prefixes m : gmap string (list (list (list byte))) :=
  (λ recs : list PrefixRecord, record_bytes (allocator_ m) <$> recs) <$> prefix_index_ m.
End Invariant.
