(* ===== verification/CacheLemmas.v ===== *)
(** Maintaining the invariant of the cache manager: one lemma per way an
    operation changes a component of the state, and one rule for every loop that
    rewrites the tables of a sequence while the pool changes. *)
From S2P Require Import Prelude.
From S2P Require Import Block.
From S2P Require Import SwapBackend.
From S2P Require Import BlockTable.
From S2P Require Import MemoryAllocator.
From S2P Require Import AllocatorSpec.
From S2P Require Import AllocatorProps.
From S2P Require Import KVCacheManager.
From S2P Require Import CacheAccounting.
From S2P Require Import AllocatorMoves.
From S2P Require Import CacheInvariant.

(** ** The request index *)

Lemma index_wf_update seqs idx sid st st' :
  index_wf seqs idx → seqs !! sid = Some st →
  sm_request_id (metadata st') = sm_request_id (metadata st) →
  index_wf (<[sid := st']> seqs) idx.
Proof.
  intros [He Hn Hm] Hst Hmd. split; [done|done|]. intros rid sid'. rewrite Hm.
  split; intros (s & Hs & Hr).
  - destruct (decide (sid' = sid)) as [->|]; simplify_eq.
    + exists st'. by rewrite lookup_insert_eq.
    + exists s. by rewrite lookup_insert_ne.
  - apply lookup_insert_Some in Hs as [[<- <-]|[_ Hs]]; [|by exists s].
    exists st. split; [done|congruence].
Qed.

Lemma index_wf_insert seqs idx sid st rid :
  index_wf seqs idx → seqs !! sid = None → sm_request_id (metadata st) = rid →
  index_wf (<[sid := st]> seqs) (index_sequence rid sid idx).
Proof.
  intros [He Hn Hm] Hst Hmd. unfold index_sequence.
  assert (sid ∉ default [] (idx !! rid)) as Hfresh.
  { intros (s & Hs & _)%Hm. congruence. }
  split.
  - intros r. destruct (decide (r = rid)) as [->|].
    + rewrite lookup_insert_eq. intros [= Hc%app_nil]. by destruct Hc.
    + by rewrite lookup_insert_ne.
  - intros r ids [[<- <-]|[_ Hr]]%lookup_insert_Some; [|by eapply Hn].
    apply NoDup_app. split_and!.
    + destruct (idx !! rid) eqn:Hi; [by eapply Hn|constructor].
    + intros x Hx ->%list_elem_of_singleton. done.
    + apply NoDup_singleton.
  - intros r s. destruct (decide (r = rid)) as [->|Hr].
    + rewrite lookup_insert_eq. simpl. rewrite elem_of_app, list_elem_of_singleton, Hm.
      destruct (decide (s = sid)) as [->|].
      * rewrite lookup_insert_eq. firstorder congruence.
      * rewrite lookup_insert_ne by done. firstorder congruence.
    + rewrite lookup_insert_ne by done. rewrite Hm.
      destruct (decide (s = sid)) as [->|].
      * rewrite lookup_insert_eq, Hst. firstorder congruence.
      * by rewrite lookup_insert_ne.
Qed.

Lemma index_wf_delete seqs idx sid st :
  index_wf seqs idx → seqs !! sid = Some st →
  index_wf (delete sid seqs) (unindex_sequence (sm_request_id (metadata st)) sid idx).
Proof.
  intros [He Hn Hm] Hst. set (rid := sm_request_id (metadata st)).
  assert (sid ∈ default [] (idx !! rid)) as Hin by (apply Hm; eauto).
  unfold unindex_sequence. destruct (idx !! rid) as [ids|] eqn:Hids;
    [|by apply not_elem_of_nil in Hin].
  assert (∀ k, default [] (match filter (λ id, id ≠ sid) ids with
                           | [] => delete rid idx
                           | ids' => <[rid := ids']> idx
                           end !! k)
          = filter (λ id, id ≠ sid) (default [] (idx !! k))) as Hk.
  { intros k. destruct (decide (k = rid)) as [->|].
    - rewrite Hids. simpl. destruct (filter _ ids).
      + by rewrite lookup_delete_eq.
      + by rewrite lookup_insert_eq.
    - transitivity (default [] (idx !! k)).
      + destruct (filter _ ids); [by rewrite lookup_delete_ne|by rewrite lookup_insert_ne].
      + symmetry. apply filter_all. intros x Hx ->.
        apply Hm in Hx as (s & Hs & Hr). simplify_eq. }
  split.
  - intros r. destruct (filter (λ id, id ≠ sid) ids) as [|x l].
    + intros [_ Hc]%lookup_delete_Some. by eapply He.
    + intros [[_ ?]|[_ Hc]]%lookup_insert_Some; [done|by eapply He].
  - intros r l Hl. pose proof (Hk r) as Hk'. rewrite Hl in Hk'. simpl in Hk'. rewrite Hk'.
    apply NoDup_filter. destruct (idx !! r) eqn:Hr; [by eapply Hn|constructor].
  - intros r s. rewrite Hk, list_elem_of_filter, Hm. setoid_rewrite lookup_delete_Some.
    firstorder congruence.
Qed.

(** ** Prefixes *)

Lemma prefix_users_update key hash seqs sid st st' :
  seqs !! sid = Some st →
  prefix_users key hash (<[sid := st']> seqs) =
  prefix_users key hash seqs
    - (if decide (prefix_key st = key ∧ prefix_hash st = hash) then 1 else 0)
    + (if decide (prefix_key st' = key ∧ prefix_hash st' = hash) then 1 else 0).
Proof. intros Hs. unfold prefix_users. by rewrite (map_zsum_update _ _ _ st). Qed.

Lemma prefix_users_insert key hash seqs sid st :
  seqs !! sid = None →
  prefix_users key hash (<[sid := st]> seqs) =
  (if decide (prefix_key st = key ∧ prefix_hash st = hash) then 1 else 0)
    + prefix_users key hash seqs.
Proof. intros Hs. unfold prefix_users. by rewrite map_zsum_insert. Qed.

Lemma prefix_users_delete key hash seqs sid st :
  seqs !! sid = Some st →
  prefix_users key hash (delete sid seqs) =
  prefix_users key hash seqs
    - (if decide (prefix_key st = key ∧ prefix_hash st = hash) then 1 else 0).
Proof. intros Hs. unfold prefix_users. rewrite (map_zsum_delete _ seqs sid st) by done. lia. Qed.

(** A sequence whose prefix does not change. *)
Lemma prefix_wf_update tpb count seqs pidx sid st st' :
  prefix_wf tpb count seqs pidx → seqs !! sid = Some st →
  prefix_key st' = prefix_key st → prefix_hash st' = prefix_hash st →
  prefix_wf tpb count (<[sid := st']> seqs) pidx.
Proof.
  intros [He Hn Hh Hr Hm] Hs Hk Hx. split; [done..| |].
  - intros key recs r Hrec Hin. rewrite (prefix_users_update _ _ _ _ st) by done.
    rewrite Hk, Hx. destruct (Hr _ _ _ Hrec Hin) as (? & Hu & ?).
    split_and!; [done|rewrite Hu; case_decide; lia|lia..].
  - intros sid' s [[<- <-]|[_ Hs']]%lookup_insert_Some; [|by eapply Hm].
    rewrite Hk, Hx. by eapply Hm.
Qed.

(** A new sequence has no prefix. *)
Lemma prefix_wf_insert tpb count seqs pidx sid st :
  prefix_wf tpb count seqs pidx → seqs !! sid = None → prefix_key st = ""%string →
  prefix_wf tpb count (<[sid := st]> seqs) pidx.
Proof.
  intros [He Hn Hh Hr Hm] Hs Hk. split; [done..| |].
  - intros key recs r Hrec Hin. rewrite prefix_users_insert by done.
    rewrite decide_False by (rewrite Hk; intros [<- _]; congruence). by eapply Hr.
  - intros sid' s [[<- <-]|[_ Hs']]%lookup_insert_Some; [done|by eapply Hm].
Qed.

(** ** Accounting *)

Section Accounting.
Context {B : Type} `{SwapBackendLaws B}.
Implicit Types a : MemoryAllocator B.
Implicit Types m : KVCacheManager B.

Lemma seq_refs_nonneg id seqs : 0 <= seq_refs id seqs.
Proof. apply map_zsum_nonneg. intros. apply zcount_nonneg. Qed.

Lemma record_refs_nonneg id recs : 0 <= record_refs id recs.
Proof. apply zsum_nonneg. intros. apply zcount_nonneg. Qed.

Lemma pin_refs_nonneg id pidx : 0 <= pin_refs id pidx.
Proof. apply map_zsum_nonneg. intros. apply record_refs_nonneg. Qed.

Lemma record_pins id pidx key recs r :
  pidx !! key = Some recs → r ∈ recs → zcount id (physical_ids r) <= pin_refs id pidx.
Proof.
  intros Hk Hr. transitivity (record_refs id recs).
  - apply (zsum_elem (λ r, zcount id (physical_ids r))); [intros; apply zcount_nonneg|done].
  - apply (map_zsum_elem (λ _ recs, record_refs id recs) pidx key recs); [|done].
    intros. apply record_refs_nonneg.
Qed.

Lemma accounted_backed a seqs pidx sid st :
  accounted a seqs pidx → seqs !! sid = Some st → backed a (all_entries (tables st)).
Proof.
  intros [Hr Hh] Hs. split; intros i; [rewrite Hr; pose proof (pin_refs_nonneg i pidx);
    unfold seq_refs|rewrite Hh; unfold slot_refs].
  - pose proof (map_zsum_elem (λ _ st, zcount i (frames_of (all_entries (tables st)))) seqs sid st
      (λ _ _ _, zcount_nonneg _ _) Hs). simpl in *. lia.
  - apply (map_zsum_elem (λ _ st, zcount i (slots_of (all_entries (tables st)))) seqs sid st); [|done].
    intros. apply zcount_nonneg.
Qed.

Lemma accounted_backed_two a seqs pidx sid st sid' st' :
  accounted a seqs pidx → seqs !! sid = Some st → seqs !! sid' = Some st' → sid ≠ sid' →
  backed a (all_entries (tables st) ++ all_entries (tables st')).
Proof.
  intros [Hr Hh] Hs Hs' Hne. split; intros i; autorewrite with holds;
    [rewrite Hr; pose proof (pin_refs_nonneg i pidx); unfold seq_refs
    |rewrite Hh; unfold slot_refs].
  - pose proof (map_zsum_two (λ _ st, zcount i (frames_of (all_entries (tables st)))) seqs
      sid sid' st st' (λ _ _ _, zcount_nonneg _ _) Hs Hs' Hne). simpl in *. lia.
  - apply (map_zsum_two (λ _ st, zcount i (slots_of (all_entries (tables st)))) seqs
      sid sid' st st'); [intros; apply zcount_nonneg|done..].
Qed.

(** A pinned frame has a reference besides those of any one sequence. *)
Lemma accounted_pinned a seqs pidx sid st key recs r id :
  accounted a seqs pidx → seqs !! sid = Some st → pidx !! key = Some recs → r ∈ recs →
  id ∈ physical_ids r → zcount id (frames_of (all_entries (tables st))) < refs a id.
Proof.
  intros [Hr _] Hs Hk Hin Hid. rewrite Hr. unfold seq_refs.
  pose proof (map_zsum_elem (λ _ st, zcount id (frames_of (all_entries (tables st)))) seqs sid st
    (λ _ _ _, zcount_nonneg _ _) Hs).
  pose proof (record_pins id _ _ _ _ Hk Hin). apply zcount_pos in Hid. simpl in *. lia.
Qed.

Lemma accounted_update a a' seqs pidx sid st st' :
  accounted a seqs pidx → seqs !! sid = Some st →
  entries_move a (all_entries (tables st)) a' (all_entries (tables st')) →
  accounted a' (<[sid := st']> seqs) pidx.
Proof.
  intros [Hr Hh] Hs [_ _ Hmr Hmh _ _]. split; intros i.
  - rewrite Hmr, Hr. unfold seq_refs. rewrite (map_zsum_update _ _ _ st) by done. lia.
  - rewrite Hmh, Hh. unfold slot_refs. rewrite (map_zsum_update _ _ _ st) by done. lia.
Qed.

Lemma accounted_insert a a' seqs pidx sid st :
  accounted a seqs pidx → seqs !! sid = None →
  entries_move a [] a' (all_entries (tables st)) →
  accounted a' (<[sid := st]> seqs) pidx.
Proof.
  intros [Hr Hh] Hs [_ _ Hmr Hmh _ _]. split; intros i.
  - rewrite Hmr, Hr. unfold seq_refs. rewrite map_zsum_insert by done.
    autorewrite with holds. lia.
  - rewrite Hmh, Hh. unfold slot_refs. rewrite map_zsum_insert by done.
    autorewrite with holds. lia.
Qed.

Lemma accounted_delete a a' seqs pidx sid st :
  accounted a seqs pidx → seqs !! sid = Some st →
  entries_move a (all_entries (tables st)) a' [] →
  accounted a' (delete sid seqs) pidx.
Proof.
  intros [Hr Hh] Hs [_ _ Hmr Hmh _ _]. split; intros i.
  - rewrite Hmr, Hr. unfold seq_refs. rewrite (map_zsum_delete _ seqs sid st) by done.
    autorewrite with holds. lia.
  - rewrite Hmh, Hh. unfold slot_refs. rewrite (map_zsum_delete _ seqs sid st) by done.
    autorewrite with holds. lia.
Qed.

(** ** Content of the other holders *)

Lemma moves_tables_bytes a a' es es' ts :
  entries_move a es a' es' → backed a (es ++ all_entries ts) →
  table_bytes a' <$> ts = table_bytes a <$> ts.
Proof.
  intros Hm Hb. pose proof (moves_others_bytes a a' es es' _ Hm Hb) as Hall. clear Hb.
  induction ts as [|t ts IH]; [done|]. rewrite all_entries_cons, !fmap_app in Hall.
  apply app_inj_1 in Hall as [Ht Hts]; [|by rewrite !length_fmap].
  rewrite !fmap_cons. unfold table_bytes at 1 3. by rewrite Ht, IH.
Qed.

Lemma moves_record_bytes a a' es es' r :
  entries_move a es a' es' →
  (∀ id, id ∈ physical_ids r → zcount id (frames_of es) < refs a id) →
  record_bytes a' r = record_bytes a r.
Proof.
  intros Hm Hr. apply list_fmap_ext. intros i id Hid%list_elem_of_lookup_2.
  by apply (moves_frame _ _ _ _ _ _ Hm), Hr.
Qed.

Lemma prefixes_eq a a' (pidx : gmap string (list PrefixRecord)) :
  (∀ key recs r, pidx !! key = Some recs → r ∈ recs → record_bytes a' r = record_bytes a r) →
  (λ recs : list PrefixRecord, record_bytes a' <$> recs) <$> pidx =
  (λ recs : list PrefixRecord, record_bytes a <$> recs) <$> pidx.
Proof.
  intros Hr. apply map_fmap_ext. intros key recs Hk. apply list_fmap_ext.
  intros i r Hi%list_elem_of_lookup_2. eauto.
Qed.

Lemma same_pool_count a a' : same_pool a a' → table_count a' = table_count a.
Proof.
  unfold same_pool, pool_of. injection 1 as _ _ _ _ _ Hb _ _.
  unfold table_count, pool_shape, block. by rewrite Hb.
Qed.

Lemma same_pool_tpb a a' : same_pool a a' → tokens_per_block_of a' = tokens_per_block_of a.
Proof.
  unfold same_pool, pool_of. injection 1 as _ _ _ _ _ Hb _ _.
  unfold tokens_per_block_of, block. by rewrite Hb.
Qed.

(** ** Rewriting the tables of one sequence *)

Lemma mgr_update m sid st a' st' :
  mgr_wf m → sequences_ m !! sid = Some st → metadata st' = metadata st →
  prefix_key st' = prefix_key st → prefix_hash st' = prefix_hash st →
  entries_move (allocator_ m) (all_entries (tables st)) a' (all_entries (tables st')) →
  seq_wf (tpb_of m) (count_of m) sid st' →
  let m' := with_state m a' (<[sid := st']> (sequences_ m)) in
  mgr_wf m' ∧ contents m' = <[sid := seq_bytes a' st']> (contents m) ∧
  prefixes m' = prefixes m.
Proof.
  intros Hwf Hs Hmd Hpk Hph Hm Hsw m'. pose proof Hwf as [Hi Hsh Hseq Hacc Hidx Hpre].
  pose proof (moves_pool _ _ _ _ _ _ Hm) as Hp.
  assert (tpb_of m' = tpb_of m) as Htpb by apply (same_pool_tpb _ _ Hp).
  assert (count_of m' = count_of m) as Hcnt by apply (same_pool_count _ _ Hp).
  split_and!; [split|..].
  - apply Hm.
  - simpl. by rewrite (same_pool_config _ _ Hp).
  - rewrite Htpb, Hcnt. simpl. intros sid' s [[<- <-]|[_ ?]]%lookup_insert_Some; auto.
  - by eapply accounted_update.
  - eapply index_wf_update; [done..|]. by rewrite Hmd.
  - rewrite Htpb, Hcnt. by eapply prefix_wf_update.
  - unfold contents. simpl. rewrite fmap_insert. apply map_eq. intros k.
    destruct (decide (k = sid)) as [->|]; [by rewrite !lookup_insert_eq|].
    rewrite !lookup_insert_ne, !lookup_fmap by done.
    destruct (sequences_ m !! k) as [s|] eqn:Hk; [|done]. simpl. f_equal.
    eapply moves_tables_bytes; [exact Hm|]. by eapply accounted_backed_two.
  - apply prefixes_eq. intros key recs r Hk Hr. eapply moves_record_bytes; [exact Hm|].
    intros id Hid. by eapply accounted_pinned.
Qed.

(** The same when every block keeps its bytes. *)
Lemma mgr_preserves m sid st a' st' :
  mgr_wf m → sequences_ m !! sid = Some st → metadata st' = metadata st →
  prefix_key st' = prefix_key st → prefix_hash st' = prefix_hash st →
  entries_move (allocator_ m) (all_entries (tables st)) a' (all_entries (tables st')) →
  seq_wf (tpb_of m) (count_of m) sid st' →
  seq_bytes a' st' = seq_bytes (allocator_ m) st →
  let m' := with_state m a' (<[sid := st']> (sequences_ m)) in
  mgr_wf m' ∧ contents m' = contents m ∧ prefixes m' = prefixes m.
Proof.
  intros Hwf Hs ? ? ? ? ? Heq m'. destruct (mgr_update m sid st a' st') as (? & Hc & ?);
    [done..|]. split_and!; [done| |done]. fold m' in Hc. rewrite Hc, Heq. apply insert_id.
  unfold contents. by rewrite lookup_fmap, Hs.
Qed.
End Accounting.

(** ** Loops over the tables of a sequence *)

Lemma frames_of_perm es fs : es ≡ₚ fs → frames_of es ≡ₚ frames_of fs.
Proof. intros Hp. unfold frames_of. by rewrite Hp. Qed.

Lemma slots_of_perm es fs : es ≡ₚ fs → slots_of es ≡ₚ slots_of fs.
Proof. intros Hp. unfold slots_of. by rewrite Hp. Qed.

Section Loops.
Context {B : Type} `{SwapBackendLaws B}.
Implicit Types a : MemoryAllocator B.

Lemma backed_perm a es fs : es ≡ₚ fs → backed a es → backed a fs.
Proof.
  intros Hp [Hf Hs]. split; intros i.
  - by rewrite <-(zcount_perm i _ _ (frames_of_perm _ _ Hp)).
  - by rewrite <-(zcount_perm i _ _ (slots_of_perm _ _ Hp)).
Qed.

(** Rewriting one table of several. *)
Lemma tables_step a a' pre t t' post :
  backed a (all_entries (pre ++ t :: post)) → entries_move a (entries_ t) a' (entries_ t') →
  entries_move a (all_entries (pre ++ t :: post)) a' (all_entries (pre ++ t' :: post)) ∧
  table_bytes a' <$> pre = table_bytes a <$> pre ∧
  table_bytes a' <$> post = table_bytes a <$> post.
Proof.
  rewrite !all_entries_app, !all_entries_cons. intros Hb Hm. split_and!.
  - by apply entries_move_frame.
  - eapply moves_tables_bytes; [exact Hm|]. rewrite app_assoc in Hb.
    apply backed_app in Hb as [Hb _]. eapply backed_perm; [|exact Hb]. apply Permutation_app_comm.
  - eapply moves_tables_bytes; [exact Hm|]. by apply backed_app in Hb as [_ Hb].
Qed.

(** [pool] is the allocator in the state of the loop, [J] what the loop
    maintains about the tables still to visit, [R] what the body does to one
    table and its bytes. *)
Context {S : Type} (pool : S → MemoryAllocator B).
Context (f : S → BlockTable → option (bool * S * BlockTable)).
Context (P : BlockTable → Prop) (J : list BlockTable → S → Prop).
Context (R : BlockTable → list (option (list byte)) → BlockTable →
             list (option (list byte)) → Prop).
(** A quantity of the state that changes with the tables rewritten. *)
Context (stock : S → Z) (share : BlockTable → Z).
Context (Hstep : ∀ t rest s,
  alloc_inv (pool s) → backed (pool s) (entries_ t) → P t → J (t :: rest) s →
  runs (f s t) (λ '(go, s', t'), go = true ∧ J rest s' ∧
    entries_move (pool s) (entries_ t) (pool s') (entries_ t') ∧
    stock s' - share t' = stock s - share t ∧
    R t (table_bytes (pool s) t) t' (table_bytes (pool s') t'))).

Definition tables_related a ts a' ts' : Prop :=
  Forall2 (λ t t', R t (table_bytes a t) t' (table_bytes a' t')) ts ts'.

Lemma runs_for_each_tables l s :
  alloc_inv (pool s) → backed (pool s) (all_entries l) → Forall P l → J l s →
  runs (for_each f s l) (λ '(go, s', l'), go = true ∧ J [] s' ∧
    entries_move (pool s) (all_entries l) (pool s') (all_entries l') ∧
    stock s' - zsum share l' = stock s - zsum share l ∧
    tables_related (pool s) l (pool s') l').
Proof.
  intros Hi Hb HP HJ.
  eapply runs_mono; [apply (runs_for_each f (λ rest s' ys, ∃ don, l = don ++ rest ∧ J rest s' ∧
    entries_move (pool s) (all_entries l) (pool s') (all_entries (ys ++ rest)) ∧
    stock s' - zsum share ys = stock s - zsum share don ∧
    tables_related (pool s) don (pool s') ys ∧
    table_bytes (pool s') <$> rest = table_bytes (pool s) <$> rest))|].
  - exists []. split_and!; [done..|by apply moves_refl|done|constructor|done].
  - intros t rest s' ys (don & -> & HJ' & Hm & Hst & HR & Hrest).
    pose proof (moves_backed _ _ _ _ Hm Hb) as Hb'. rewrite fmap_cons, fmap_cons in Hrest.
    injection Hrest as Ht Hrest.
    assert (P t) as HPt by (rewrite Forall_app, Forall_cons in HP; tauto).
    assert (backed (pool s') (entries_ t)) as Hbt.
    { rewrite all_entries_app, all_entries_cons in Hb'.
      apply backed_app in Hb' as [_ Hb']. by apply backed_app in Hb' as [Hb' _]. }
    eapply runs_mono; [apply (Hstep t rest s' (moves_inv _ _ _ _ _ _ Hm) Hbt HPt HJ')|].
    intros [[go s''] t'] (-> & HJ'' & Hm' & Hst' & HR'). split; [done|].
    destruct (tables_step _ _ _ _ _ _ Hb' Hm') as (Hm'' & Hys & Hrest').
    exists (don ++ [t]). rewrite <-!app_assoc. split_and!; [done|done| | | |congruence].
    + by eapply moves_trans.
    + rewrite !zsum_app. simpl. lia.
    + apply Forall2_app; [|rewrite Ht in HR'; by repeat constructor].
      clear -HR Hys. revert Hys. unfold tables_related in *.
      induction HR as [|x y l k Hxy HR IH]; intros Hys; constructor;
        rewrite !fmap_cons in Hys; injection Hys as Hy Hys; [by rewrite Hy|by apply IH].
  - intros [[go s'] ys] (-> & don & -> & HJ' & Hm & Hst & HR & _).
    rewrite !app_nil_r in *. done.
Qed.
End Loops.
