(* ===== verification/CacheLifecycle.v ===== *)
(** Creating, forking and releasing sequences: what each operation does to the
    invariant and to the contents of the cache. *)
From S2P Require Import Prelude.
From S2P Require Import Block.
From S2P Require Import SwapBackend.
From S2P Require Import BlockTable.
From S2P Require Import MemoryAllocator.
From S2P Require Import AllocatorSpec.
From S2P Require Import AllocatorProps.
From S2P Require Import KVCacheManager.
From S2P Require Import CacheAccounting.
From S2P Require Import AllocatorMoves.
From S2P Require Import CacheInvariant.
From S2P Require Import CacheLemmas.

Section Lifecycle.
Context {B : Type} `{SwapBackendLaws B}.
Implicit Types a : MemoryAllocator B.
Implicit Types m : KVCacheManager B.

(** ** Adding a sequence *)

Lemma mgr_insert m sid st a' :
  mgr_wf m → sequences_ m !! sid = None → prefix_key st = ""%string →
  entries_move (allocator_ m) [] a' (all_entries (tables st)) →
  seq_wf (tpb_of m) (count_of m) sid st →
  let m' := mkKVCacheManager a' (<[sid := st]> (sequences_ m))
              (index_sequence (sm_request_id (metadata st)) sid (sequences_by_request_ m))
              (prefix_index_ m) in
  mgr_wf m' ∧ contents m' = <[sid := seq_bytes a' st]> (contents m) ∧
  prefixes m' = prefixes m.
Proof.
  intros Hwf Hs Hpk Hm Hsw m'.
  pose proof Hwf as [Hi Hsh Hseq Hacc Hidx Hpre].
  pose proof (moves_pool _ _ _ _ _ _ Hm) as Hp.
  assert (tpb_of m' = tpb_of m) as Htpb by apply (same_pool_tpb _ _ Hp).
  assert (count_of m' = count_of m) as Hcnt by apply (same_pool_count _ _ Hp).
  split_and!; [split|..].
  - apply Hm.
  - simpl. by rewrite (same_pool_config _ _ Hp).
  - rewrite Htpb, Hcnt. simpl. intros sid' s [[<- <-]|[_ ?]]%lookup_insert_Some; auto.
  - by eapply accounted_insert.
  - by apply index_wf_insert.
  - rewrite Htpb, Hcnt. by apply prefix_wf_insert.
  - unfold contents. simpl. rewrite fmap_insert. f_equal. apply map_fmap_ext.
    intros k s Hk. eapply moves_tables_bytes; [exact Hm|]. by eapply accounted_backed.
  - apply prefixes_eq. intros key recs r Hk Hr. eapply moves_record_bytes; [exact Hm|].
    intros id Hid. rewrite (proj1 Hacc). pose proof (record_pins id _ _ _ _ Hk Hr).
    apply zcount_pos in Hid. pose proof (seq_refs_nonneg id (sequences_ m)).
    autorewrite with holds. lia.
Qed.

Lemma table_count_pos m : mgr_wf m → 1 <= count_of m < W32.
Proof.
  intros Hwf. unfold count_of, table_count, pool_shape.
  destruct (block (allocator_ m) 0) as [b|] eqn:Hb; [|vm_compute; intuition discriminate].
  assert (valid (allocator_ m) 0) as Hv.
  { destruct (decide (valid (allocator_ m) 0)); [done|].
    rewrite (block_invalid _ 0) in Hb; [done|apply Hwf|lia|done]. }
  rewrite block_valid in Hb by (try done; apply Hwf). injection Hb as <-. simpl.
  destruct (per_layer_frames _) eqn:Hp; [|words].
  apply per_layer_frames_spec in Hp as [_ Hn].
  destruct (shape_layers _ (mgr_shape _ Hwf)). words.
Qed.

Lemma all_entries_new sid n : all_entries (replicate n (BlockTable_new sid TextKV)) = [].
Proof. by induction n as [|n IH]. Qed.

Lemma create_spec m md :
  mgr_wf m →
  let '(ok, m') := create_sequence m md in
  ok = negb (contains m (sm_sequence_id md)) ∧ mgr_wf m' ∧ prefixes m' = prefixes m ∧
  (if ok then contents m' =
     <[sm_sequence_id md := replicate (Z.to_nat (count_of m)) []]> (contents m)
   else m' = m).
Proof.
  intros Hwf. pose proof (table_count_pos m Hwf) as Hc. unfold create_sequence, contains.
  destruct (sequences_ m !! sm_sequence_id md) as [st|] eqn:Hs; [done|].
  rewrite map_emplace_new by done. set (st := mkSequenceState _ _ _ _).
  destruct (mgr_insert m (sm_sequence_id md) st (allocator_ m)) as (Hwf' & Hcont & Hpref);
    [done..| | |].
  - simpl. rewrite all_entries_new. apply moves_refl, Hwf.
  - unfold st, count_of, tpb_of in *. split; simpl; [done|rewrite length_replicate; lia| |done].
    unfold seq_blocks. simpl.
    destruct (Z.to_nat (table_count (allocator_ m))) eqn:Hn; [lia|]. simpl.
    apply (Forall_replicate (table_wf _ _ 0) (S n)). by apply table_wf_new.
  - split_and!; [done..|]. etransitivity; [exact Hcont|]. f_equal. unfold seq_bytes. simpl.
    by rewrite fmap_replicate.
Qed.

(** ** Forking *)

Lemma all_resident_spec ts :
  all_resident ts = true ↔ ∀ e, e ∈ all_entries ts → swap_slot e = None.
Proof.
  unfold all_resident. rewrite forallb_forall. setoid_rewrite forallb_forall.
  setoid_rewrite <-list_elem_of_In. unfold resident. split.
  - intros Hall e (t & He & Hin)%list_elem_of_bind. specialize (Hall t Hin e He).
    by destruct (swap_slot e).
  - intros Hall t Hin e He. rewrite Hall; [done|]. apply list_elem_of_bind. eauto.
Qed.

Lemma resident_holds es :
  (∀ e, e ∈ es → swap_slot e = None) →
  frames_of es = physical_id <$> es ∧ slots_of es = [].
Proof.
  induction es as [|e es IH]; [done|]. intros Hall.
  destruct IH as [Hf Hs]; [intros; apply Hall; by right|].
  rewrite frames_of_cons, slots_of_cons, Hf, Hs. unfold entry_frames, entry_slots.
  rewrite Hall by left. done.
Qed.

Lemma fork_fold child a acc ts :
  foldl (fork_step child) (a, acc) ts =
  (foldl retain a (physical_id <$> all_entries ts), acc ++ ((λ t, fork_table t child) <$> ts)).
Proof.
  revert a acc. induction ts as [|t ts IH]; intros a acc; [by rewrite app_nil_r|].
  cbn [foldl]. unfold fork_step at 2. cbn [fst snd]. rewrite IH.
  rewrite all_entries_cons, fmap_app, foldl_app, <-app_assoc, fmap_cons.
  cbn [fork_table entries_]. by rewrite <-list_fmap_compose.
Qed.

Lemma all_entries_fork child ts :
  all_entries ((λ t, fork_table t child) <$> ts) = fork_entry child <$> all_entries ts.
Proof.
  induction ts as [|t ts IH]; [done|]. rewrite fmap_cons, !all_entries_cons, IH, fmap_app.
  done.
Qed.

Lemma seq_blocks_fork child ts st st' :
  tables st' = ((λ t, fork_table t child) <$> ts) → tables st = ts →
  seq_blocks st' = seq_blocks st.
Proof.
  intros H1 H2. unfold seq_blocks. rewrite H1, H2. destruct ts; [done|].
  rewrite fmap_cons. simpl. by rewrite length_fmap.
Qed.

(** The counters of the frames in [ts] can all go up. *)
Definition fork_room m (parent_id : Z) : Prop :=
  ∀ st, sequences_ m !! parent_id = Some st →
    room (allocator_ m) (physical_id <$> all_entries (tables st)).

Lemma fork_success m parent_id parent md :
  mgr_wf m → sequences_ m !! parent_id = Some parent →
  sequences_ m !! sm_sequence_id md = None → all_resident (tables parent) = true →
  fork_room m parent_id →
  let m' := snd (fork_sequence m parent_id md) in
  fst (fork_sequence m parent_id md) = true ∧ mgr_wf m' ∧ prefixes m' = prefixes m ∧
  nfree (allocator_ m') = nfree (allocator_ m) ∧
  contents m' = <[sm_sequence_id md := seq_bytes (allocator_ m) parent]> (contents m).
Proof.
  intros Hwf Hp Hc Hres Hroom. unfold fork_sequence. rewrite Hp, Hc, Hres. simpl.
  rewrite fork_fold, map_emplace_new by done. simpl. set (child := sm_sequence_id md).
  set (st := mkSequenceState md _ _ _).
  destruct (resident_holds _ (proj1 (all_resident_spec _) Hres)) as [Hfr Hsl].
  pose proof (accounted_backed _ _ _ _ _ (mgr_accounted _ Hwf) Hp) as [Hbf _].
  destruct (retain_all_moves (allocator_ m) (physical_id <$> all_entries (tables parent)))
    as (Hm & Hslab & Hback & Hnf).
  { apply Hwf. }
  { intros id Hid. specialize (Hbf id). rewrite Hfr in Hbf. apply zcount_pos in Hid. lia. }
  { by apply Hroom. }
  set (a' := foldl retain _ _) in *.
  pose proof (mgr_seq _ Hwf _ _ Hp) as [_ Hcnt Hdense _].
  assert (seq_blocks st = seq_blocks parent) as Hblk by by apply (seq_blocks_fork child (tables parent)).
  destruct (mgr_insert m child st a') as (Hwf' & Hcont & Hpref); [done..| | |].
  - unfold st. simpl. rewrite all_entries_fork. unfold entries_move.
    assert (∀ e, e ∈ fork_entry child <$> all_entries (tables parent) → swap_slot e = None)
      as Hres'.
    { intros e (e' & -> & He')%list_elem_of_fmap. simpl. revert He'. by apply all_resident_spec. }
    destruct (resident_holds _ Hres') as [-> ->]. rewrite <-list_fmap_compose. exact Hm.
  - split; [done|by unfold st; simpl; rewrite length_fmap| |done].
    rewrite Hblk. unfold st. simpl. apply Forall_fmap.
    eapply Forall_impl; [exact Hdense|]. intros t. apply table_wf_fork.
  - split_and!; [done..|]. etransitivity; [exact Hcont|]. f_equal. unfold seq_bytes, st. simpl.
    rewrite <-list_fmap_compose. apply list_fmap_ext. intros _ t _. unfold table_bytes. simpl.
    rewrite <-list_fmap_compose. apply list_fmap_ext. intros _ e _. unfold entry_bytes. simpl.
    rewrite (swapped_backend _ _ Hback). destruct (swap_slot e); [done|]. simpl. f_equal.
    apply frame_slab; [apply Hm|done].
Qed.

Lemma fork_failure m parent_id md :
  (contains m parent_id = false ∨ contains m (sm_sequence_id md) = true ∨
   ∃ st, sequences_ m !! parent_id = Some st ∧ all_resident (tables st) = false) →
  fork_sequence m parent_id md = (false, m).
Proof.
  unfold contains, fork_sequence. intros Hf.
  destruct (sequences_ m !! parent_id) as [st|]; [|done].
  destruct (sequences_ m !! sm_sequence_id md); [done|].
  destruct Hf as [?|[?|(? & [= <-] & ->)]]; done.
Qed.
End Lifecycle.
