(* ===== verification/CacheGrowth.v ===== *)
(** Reserving token capacity: the exact number of blocks, appended to every
    table, or nothing at all. *)
From S2P Require Import Prelude.
From S2P Require Import Block.
From S2P Require Import SwapBackend.
From S2P Require Import BlockTable.
From S2P Require Import MemoryAllocator.
From S2P Require Import AllocatorSpec.
From S2P Require Import AllocatorProps.
From S2P Require Import KVCacheManager.
From S2P Require Import CacheAccounting.
From S2P Require Import AllocatorMoves.
From S2P Require Import CacheInvariant.
From S2P Require Import CacheLemmas.
From S2P Require Import CacheLifecycle.

(** ** Arithmetic *)

(** The least number of blocks of [tpb] tokens that hold [n] tokens. *)
Definition blocks_needed (n tpb : Z) : Z := (n + tpb - 1) / tpb.

Lemma blocks_needed_spec n tpb :
  0 < tpb → 0 <= n → 0 <= blocks_needed n tpb ∧
  n <= blocks_needed n tpb * tpb < n + tpb.
Proof.
  intros Ht Hn. unfold blocks_needed.
  pose proof (Z.div_mod (n + tpb - 1) tpb). pose proof (Z.mod_pos_bound (n + tpb - 1) tpb Ht).
  assert (0 <= (n + tpb - 1) / tpb) by (apply Z.div_pos; lia). nia.
Qed.

Lemma ceil_blocks_exact n tpb :
  0 < tpb → 0 <= n → n + tpb < W32 → ceil_blocks n tpb = blocks_needed n tpb.
Proof.
  intros. unfold ceil_blocks. by rewrite (u32_small (n + tpb)), u32_small by words.
Qed.

Lemma seqZ_cons_inv (x : Z) rest k n :
  x :: rest = seqZ k n → x = k ∧ rest = seqZ (k + 1) (n - 1) ∧ 0 < n.
Proof.
  destruct (decide (0 < n)); [|by rewrite seqZ_nil by lia].
  rewrite seqZ_cons by lia. intros [= -> ->]. split_and!; [done| |lia]. f_equal; lia.
Qed.

Section Growth.
Context {B : Type} `{SwapBackendLaws B}.
Implicit Types a : MemoryAllocator B.
Implicit Types m : KVCacheManager B.

(** Appending an entry for a frame just allocated. *)
Lemma append_moves a a' t t' e id :
  moves a a' [] [id] [] [] → entries_ t' = entries_ t ++ [e] → entry_frames e = [id] →
  entry_slots e = [] → backed a (entries_ t) →
  entries_move a (entries_ t) a' (entries_ t') ∧
  table_bytes a' t' = table_bytes a t ++ [entry_bytes a' e].
Proof.
  intros Hm Ht Hf Hs Hb.
  assert (entries_move a [] a' [e]) as Hm'.
  { unfold entries_move. autorewrite with holds. by rewrite Hf, Hs. }
  split.
  - rewrite Ht. apply (entries_move_frame _ _ (entries_ t) [] [e] []) in Hm'.
    by rewrite !app_nil_r in Hm'.
  - unfold table_bytes. rewrite Ht, fmap_app. f_equal.
    eapply moves_others_bytes; [exact Hm'|done].
Qed.

(** What reserving [k] blocks does to one table: entries and blocks are added at its
    end. *)
Definition grown (sid tpb : Z) (n k : nat) (t : BlockTable) (b : list (option (list byte)))
    (t' : BlockTable) (b' : list (option (list byte))) : Prop :=
  table_wf sid tpb (n + k) t' ∧ entries_ t `prefix_of` entries_ t' ∧
  ∃ new, b' = b ++ new ∧ length new = k.

Lemma reserve_block_spec sid tpb base a t offset n :
  alloc_inv a → backed a (entries_ t) → 0 < nfree a → is_u32 tpb →
  table_wf sid tpb n t → base + offset = Z.of_nat n → Z.of_nat n + 1 < W32 →
  runs (reserve_block sid tpb base (true, a, t) offset) (λ '(go, a', t'),
    go = true ∧ nfree a' = nfree a - 1 ∧ entries_move a (entries_ t) a' (entries_ t') ∧
    grown sid tpb n 1 t (table_bytes a t) t' (table_bytes a' t')).
Proof.
  intros Hi Hb Hn Htpb Ht Hoff Hmax. unfold reserve_block. cbn [negb].
  run_step (allocate_moves a Hi). intros [[id|] a'] (_ & _ & Hr); [|lia].
  destruct Hr as (_ & _ & Hm & Hn'). cbn [runs].
  rewrite Hoff, (u32_small (Z.of_nat n)) by words. unfold logical_at.
  rewrite (table_kind _ _ _ _ Ht).
  destruct (table_wf_snoc sid tpb n t (block_at sid tpb n) id true Ht Hmax eq_refl)
    as [Hes Ht'].
  destruct (append_moves a a' t _ _ id Hm Hes eq_refl eq_refl Hb) as [Hm' Hb'].
  split_and!; [done..|]. split; [by rewrite Nat.add_1_r|].
  split; [eexists; exact Hes|]. eexists. by split; [exact Hb'|].
Qed.

Lemma reserve_table_spec sid tpb bn n a t :
  alloc_inv a → backed a (entries_ t) → is_u32 tpb → 0 <= bn → bn <= nfree a →
  Z.of_nat n + bn < W32 → table_wf sid tpb n t →
  runs (reserve_table sid tpb bn a t) (λ '(go, a', t'),
    go = true ∧ nfree a' = nfree a - bn ∧ entries_move a (entries_ t) a' (entries_ t') ∧
    grown sid tpb n (Z.to_nat bn) t (table_bytes a t) t' (table_bytes a' t')).
Proof.
  intros Hi Hb Htpb Hbn Hfree Hmax Ht. unfold reserve_table, table_size.
  rewrite (table_len _ _ _ _ Ht), (u32_small (Z.of_nat n)) by words.
  eapply runs_mono; [apply (runs_foldM_rest _ (λ rest '(go, a', t'), ∃ k : nat,
    rest = seqZ (Z.of_nat k) (bn - Z.of_nat k) ∧ Z.of_nat k <= bn ∧ go = true ∧
    nfree a' = nfree a - Z.of_nat k ∧ entries_move a (entries_ t) a' (entries_ t') ∧
    grown sid tpb n k t (table_bytes a t) t' (table_bytes a' t')))|].
  - exists 0%nat. split_and!; [by rewrite Z.sub_0_r|lia|done|lia|by apply moves_refl|].
    split; [by rewrite Nat.add_0_r|]. split; [done|]. exists []. by rewrite app_nil_r.
  - intros x rest [[go a'] t'] (k & Hrest & Hk & -> & Hn & Hm & Ht' & Hpre & new & Hnew & Hlen).
    destruct (seqZ_cons_inv _ _ _ _ Hrest) as (-> & -> & Hlt).
    eapply runs_mono; [apply (reserve_block_spec sid tpb (Z.of_nat n) a' t' (Z.of_nat k) (n + k));
      [apply Hm|by eapply moves_backed|lia|done|done|lia|lia]|].
    intros [[go a''] t''] (-> & Hn' & Hm' & Ht'' & Hpre' & new' & Hnew' & Hlen').
    exists (S k). split_and!; [f_equal; lia|lia|done|lia|by eapply moves_trans|].
    split; [by rewrite <-plus_n_Sm, <-Nat.add_1_r|]. split; [by etransitivity|].
    exists (new ++ new').
    by rewrite Hnew', Hnew, app_assoc, length_app, Hlen, Hlen', Nat.add_1_r.
  - intros [[go a'] t'] (k & Hrest & Hk & -> & Hn & Hm & Hg).
    assert (Z.of_nat k = bn) as <-.
    { destruct (decide (0 < bn - Z.of_nat k)); [|lia]. by rewrite seqZ_cons in Hrest by lia. }
    by rewrite Nat2Z.id.
Qed.

(** ** The whole operation *)

Lemma tpb_u32 m : mgr_wf m → is_u32 (tpb_of m).
Proof.
  intros Hwf. unfold tpb_of, tokens_per_block_of.
  destruct (block (allocator_ m) 0) as [b|] eqn:Hb; [|words].
  unfold block in Hb. rewrite (wf_blocks _ (proj1 (mgr_alloc _ Hwf))), list_lookup_fmap in Hb.
  apply fmap_Some in Hb as (id & _ & ->). simpl. apply shape_tokens, Hwf.
Qed.

(** A sequence whose tables were rewritten to [n] dense entries each. *)
Lemma seq_wf_rebuild tpb count sid st st' n :
  seq_wf tpb count sid st → 1 <= count → metadata st' = metadata st →
  length (tables st') = length (tables st) → Forall (table_wf sid tpb n) (tables st') →
  (prefix_key st' ≠ ""%string → (0 < n)%nat) →
  seq_wf tpb count sid st' ∧ seq_blocks st' = n.
Proof.
  intros [Hid Hcnt _ _] Hc Hmd Hlen Hall Hpk.
  assert (seq_blocks st' = n) as Hn.
  { unfold seq_blocks. destruct (tables st') as [|t ts]; [simpl in *; lia|].
    apply Forall_cons in Hall as [Ht _]. by apply table_len in Ht. }
  split; [|done]. split; [by rewrite Hmd|by rewrite Hlen|by rewrite Hn|by rewrite Hn].
Qed.

(** When the 32-bit arithmetic of [reserve_tokens] does not wrap around. *)
Record reserve_ok m (sid n : Z) : Prop := {
  reserve_count : 0 <= n;
  reserve_sum : n + tpb_of m < W32;
  reserve_frames : blocks_needed n (tpb_of m) * count_of m < W32;
  reserve_index st : sequences_ m !! sid = Some st →
    Z.of_nat (seq_blocks st) + blocks_needed n (tpb_of m) < W32
}.

(** Every table kept its entries and got more. *)
Definition extended (ts ts' : list BlockTable) : Prop :=
  Forall2 (λ t t', entries_ t `prefix_of` entries_ t') ts ts'.

(** Every table got [k] more blocks. *)
Definition appended (k : nat) (bs bs' : list (list (option (list byte)))) : Prop :=
  Forall2 (λ b b', ∃ new, b' = b ++ new ∧ length new = k) bs bs'.

Lemma reserve_tables_spec sid tpb bn n ts a :
  alloc_inv a → backed a (all_entries ts) → is_u32 tpb → 0 <= bn →
  bn * Z.of_nat (length ts) <= nfree a → Z.of_nat n + bn < W32 →
  Forall (table_wf sid tpb n) ts →
  runs (for_each (reserve_table sid tpb bn) a ts) (λ '(go, a', ts'),
    go = true ∧ nfree a' = nfree a - bn * Z.of_nat (length ts) ∧
    entries_move a (all_entries ts) a' (all_entries ts') ∧
    length ts' = length ts ∧ Forall (table_wf sid tpb (n + Z.to_nat bn)) ts' ∧
    appended (Z.to_nat bn) (table_bytes a <$> ts) (table_bytes a' <$> ts') ∧ extended ts ts').
Proof.
  intros Hi Hb Htpb Hbn Hfree Hmax Hts.
  eapply runs_mono; [apply (runs_for_each_tables (λ a, a) (reserve_table sid tpb bn)
    (table_wf sid tpb n)
    (λ rest a', nfree a' = nfree a - bn * (Z.of_nat (length ts) - Z.of_nat (length rest)) ∧
                (length rest ≤ length ts)%nat)
    (grown sid tpb n (Z.to_nat bn)) (λ _, 0) (λ _, 0));
    [|done|done|done|split; [lia|done]]|].
  - intros t rest a' Hi' Hb' Ht [Hn Hl]. cbn [length] in *.
    eapply runs_mono; [apply (reserve_table_spec sid tpb bn n); try done; nia|].
    intros [[go a''] t'] (-> & Hn' & Hm & Hg). split_and!; [done|nia|lia|done|done|done].
  - intros [[go a'] ts'] (-> & [Hn _] & Hm & _ & HR). cbn [length] in Hn.
    split_and!; [done|lia|done|symmetry; by eapply Forall2_length| | |].
    + eapply Forall2_Forall_r; [exact HR|]. apply Forall_true. by intros t t' [Ht _].
    + unfold appended. apply Forall2_fmap. eapply Forall2_impl; [exact HR|]. by intros t t' (_ & _ & Hg).
    + eapply Forall2_impl; [exact HR|]. by intros t t' (_ & Hpre & _).
Qed.

Lemma reserve_spec m sid n :
  mgr_wf m → reserve_ok m sid n →
  runs (reserve_tokens m sid n) (λ '(ok, m'),
    mgr_wf m' ∧ prefixes m' = prefixes m ∧
    if ok then
      let bn := blocks_needed n (tpb_of m) in
      ∃ st st', sequences_ m !! sid = Some st ∧ sequences_ m' = <[sid := st']> (sequences_ m) ∧
        tpb_of m ≠ 0 ∧ bn * count_of m <= nfree (allocator_ m) ∧
        nfree (allocator_ m') = nfree (allocator_ m) - bn * count_of m ∧
        seq_blocks st' = (seq_blocks st + Z.to_nat bn)%nat ∧
        contents m' = <[sid := seq_bytes (allocator_ m') st']> (contents m) ∧
        appended (Z.to_nat bn) (seq_bytes (allocator_ m) st) (seq_bytes (allocator_ m') st') ∧
        extended (tables st) (tables st')
    else m' = m ∧
      (contains m sid = false ∨ tpb_of m = 0 ∨
       nfree (allocator_ m) < blocks_needed n (tpb_of m) * count_of m)).
Proof.
  intros Hwf [Hn Hsum Hfr Hix]. unfold reserve_tokens, contains.
  destruct (sequences_ m !! sid) as [st|] eqn:Hs; [|split_and!; by auto].
  fold (tpb_of m). destruct (Z.eqb_spec (tpb_of m) 0) as [Hz|Hz]; [split_and!; by auto|].
  pose proof (tpb_u32 m Hwf) as Htpb. pose proof (table_count_pos m Hwf) as Hcp.
  pose proof (mgr_seq _ Hwf _ _ Hs) as Hsw. pose proof Hsw as [Hid Hcnt Hdense Hpk].
  destruct (blocks_needed_spec n (tpb_of m)) as [Hbn _]; [words|done|].
  rewrite ceil_blocks_exact by words. set (bn := blocks_needed n (tpb_of m)) in *.
  rewrite Hcnt, (u32_small (count_of m)) by words.
  rewrite (u32_small (bn * count_of m)) by (unfold is_u32; nia).
  unfold can_allocate. fold (nfree (allocator_ m)).
  destruct (Z.leb_spec (bn * count_of m) (nfree (allocator_ m))) as [Hle|Hgt]; simpl;
    [|split_and!; by auto].
  assert (backed (allocator_ m) (all_entries (tables st))) as Hb
    by by eapply accounted_backed; [apply Hwf|].
  run_step (reserve_tables_spec sid (tpb_of m) bn (seq_blocks st) (tables st) (allocator_ m));
    [apply Hwf|done|done|done|lia|by apply Hix|done|].
  intros [[go a'] ts'] (-> & Hn' & Hm & Hlen & Hall & Happ & Hext). cbn [runs].
  destruct (seq_wf_rebuild (tpb_of m) (count_of m) sid st (with_tables st ts')
    (seq_blocks st + Z.to_nat bn) Hsw) as [Hsw' Hblk]; [lia|done|done|done|simpl; intros Hk%Hpk; lia|].
  destruct (mgr_update m sid st a' (with_tables st ts')) as (Hwf' & Hc & Hp); [done..|].
  split_and!; [done|done|]. exists st, (with_tables st ts').
  split_and!; try done. simpl. lia.
Qed.
End Growth.
