(* ===== verification/CacheWrite.v ===== *)
(** Copy on write: [ensure_token_writable] hands out a frame only this entry
    refers to, without changing what any sequence or prefix stores. *)
From S2P Require Import Prelude.
From S2P Require Import Block.
From S2P Require Import SwapBackend.
From S2P Require Import BlockTable.
From S2P Require Import MemoryAllocator.
From S2P Require Import AllocatorSpec.
From S2P Require Import AllocatorProps.
From S2P Require Import KVCacheManager.
From S2P Require Import CacheAccounting.
From S2P Require Import AllocatorMoves.
From S2P Require Import CacheInvariant.
From S2P Require Import CacheLemmas.
From S2P Require Import CacheLifecycle.
From S2P Require Import CacheGrowth.

Section Write.
Context {B : Type} `{SwapBackendLaws B}.
Implicit Types a : MemoryAllocator B.
Implicit Types m : KVCacheManager B.

Lemma resident_entry e : resident e = true →
  entry_frames e = [physical_id e] ∧ entry_slots e = [] ∧ swap_slot e = None.
Proof. unfold resident, entry_frames, entry_slots. by destruct (swap_slot e). Qed.

Lemma resident_refs a e : resident e = true → backed a [e] → 0 < refs a (physical_id e).
Proof.
  intros Hr [Hf _]. destruct (resident_entry e Hr) as (Hfr & _ & _).
  specialize (Hf (physical_id e)). autorewrite with holds in Hf.
  rewrite Hfr, zcount_single, decide_True in Hf by done. lia.
Qed.

(** Copying to a fresh frame and giving up the shared one. *)
Lemma copy_to_fresh a e a1 id :
  alloc_inv a → resident e = true → backed a [e] → slab_ a1 = slab_ a →
  valid a id → refs a id = 0 → moves a a1 [] [id] [] [] →
  runs (copy_block a1 (physical_id e) id) (λ a2,
    preserves a [e] (release a2 (physical_id e)) [entry_set_frame id true e] ∧
    refs (release a2 (physical_id e)) id = 1).
Proof.
  intros Hi He Hb Hslab Hv Hz Hm. pose proof (resident_refs a e He Hb) as Hpos.
  destruct (resident_entry e He) as (Hfr & Hsl & Hsw). set (pid := physical_id e) in *.
  assert (pid ≠ id) as Hne by (intros Heq; rewrite Heq in Hpos; lia).
  pose proof (moves_inv _ _ _ _ _ _ Hm) as Hi1. pose proof (moves_pool _ _ _ _ _ _ Hm) as Hp1.
  assert (valid a pid) as Hvp by (apply refs_pos_valid; [apply Hi|lia]).
  assert (valid a1 pid ∧ valid a1 id) as [Hvp1 Hv1]
    by (unfold valid in *; by rewrite (same_pool_config _ _ Hp1)).
  rewrite copy_block_spec by (try done; apply Hi1). cbn [runs].
  set (a2 := set_frame a1 id (frame a1 pid)).
  pose proof (moves_refs _ _ _ _ _ _ Hm) as Hr1. autorewrite with holds in Hr1.
  assert (moves a1 a2 [id] [id] [] []) as Hm2.
  { apply write_moves; [done| |by apply length_frame; [apply Hi1|]].
    rewrite Hr1. autorewrite with holds. rewrite decide_True by done. lia. }
  assert (refs a2 pid = refs a pid) as Hr2.
  { change (refs a2 pid) with (refs a1 pid). rewrite Hr1. autorewrite with holds.
    rewrite decide_False by done. lia. }
  destruct (release_moves a2 pid) as (Hm3 & Hs3 & _); [apply Hm2|lia|].
  set (a3 := release a2 pid) in *.
  assert (entries_move a [e] a3 [entry_set_frame id true e]) as Hmove.
  { unfold entries_move. autorewrite with holds. rewrite Hfr, Hsl.
    unfold entry_frames, entry_slots. simpl. rewrite Hsw.
    eapply (moves_trans _ a1 _ _ [pid; id] _ _ []); [|eapply (moves_trans _ a2 _ _ [pid; id] _ _ [])].
    - eapply moves_count; [exact Hm|..]; intros j; autorewrite with holds; repeat case_decide; lia.
    - eapply moves_count; [exact Hm2|..]; intros j; autorewrite with holds; repeat case_decide; lia.
    - eapply moves_count; [exact Hm3|..]; intros j; autorewrite with holds; repeat case_decide; lia. }
  split; [split; [exact Hmove|]|].
  - rewrite !list_fmap_singleton. unfold entry_bytes. simpl. rewrite Hsw. do 2 f_equal.
    rewrite (frame_slab a2 a3) by (try done; apply Hm3).
    destruct (set_frame_wf a1 id (frame a1 pid)) as [_ Hfrm];
      [apply Hi1|done|by apply length_frame; [apply Hi1|]|].
    unfold a2. rewrite Hfrm, decide_True by done. by apply frame_slab.
  - rewrite (moves_refs _ _ _ _ _ _ Hmove). autorewrite with holds. rewrite Hfr.
    unfold entry_frames. simpl. rewrite Hsw, !zcount_single, decide_True, decide_False by done.
    lia.
Qed.

Lemma make_exclusive_spec a e :
  alloc_inv a → resident e = true → backed a [e] →
  runs (make_exclusive a e) (λ '(r, a'),
    match r with
    | None => a' = a ∧ 1 < refs a (physical_id e) ∧ nfree a = 0
    | Some (id, e') =>
      e' = entry_set_frame id true e ∧ preserves a [e] a' [e'] ∧ refs a' id = 1 ∧
      (refs a (physical_id e) = 1 ∧ id = physical_id e ∧ a' = a ∨
       1 < refs a (physical_id e) ∧ refs a id = 0)
    end).
Proof.
  intros Hi He Hb. pose proof (resident_refs a e He Hb) as Hpos.
  destruct (resident_entry e He) as (Hfr & Hsl & Hsw).
  assert (valid a (physical_id e)) as Hv by (apply refs_pos_valid; [apply Hi|lia]).
  destruct (info_valid a (physical_id e) (proj1 Hi) Hv) as [i Hinfo].
  pose proof (refs_info _ _ _ (proj1 Hv) Hinfo) as Hri.
  unfold make_exclusive. rewrite Hinfo. destruct (Z.leb_spec (ref_count i) 1) as [Hle|Hgt].
  - split_and!; [done| |lia|left; split_and!; [lia|done..]].
    split; [|by rewrite !list_fmap_singleton; unfold entry_bytes].
    unfold entries_move. autorewrite with holds. unfold entry_frames, entry_slots. simpl.
    rewrite Hsw. by apply moves_refl.
  - run_step (allocate_moves a Hi). intros [[id|] a1] (Hslab & Hback & Hr); cbn [runs].
    + destruct Hr as (Hvid & Hz & Hm & _).
      run_step (copy_to_fresh a e a1 id Hi He Hb Hslab Hvid Hz Hm).
      intros a2 [Hp Hone]. split_and!; [done..|right; split; [lia|done]].
    + destruct Hr as [-> Hz]. split_and!; [done|lia|done].
Qed.

(** A copy takes one free frame, and only then. *)
Lemma make_exclusive_free a e id e' a' :
  alloc_inv a → resident e = true → backed a [e] →
  make_exclusive a e = Some (Some (id, e'), a') →
  nfree a' = nfree a - (if 1 <? refs a (physical_id e) then 1 else 0).
Proof.
  intros Hi He Hb. pose proof (resident_refs a e He Hb) as Hpos.
  assert (valid a (physical_id e)) as Hv by (apply refs_pos_valid; [apply Hi|lia]).
  destruct (info_valid a (physical_id e) (proj1 Hi) Hv) as [i Hinfo].
  pose proof (refs_info _ _ _ (proj1 Hv) Hinfo) as Hri.
  unfold make_exclusive. rewrite Hinfo. destruct (Z.leb_spec (ref_count i) 1) as [Hle|Hgt].
  { intros [= <- <- <-]. rewrite (proj2 (Z.ltb_ge _ _)) by lia. lia. }
  rewrite (proj2 (Z.ltb_lt _ _)) by lia. intros Hrun.
  apply bind_Some in Hrun as ([[copy|] a1] & Hal & Hrun); [|done].
  apply bind_Some in Hrun as (a2 & Hcopy & [= -> <- <-]).
  pose proof (allocate_spec a (proj1 Hi)) as Hs. rewrite Hal in Hs.
  destruct Hs as (Hwf1 & Hp1 & _ & _ & Hvid & Hz & Hr1 & Hn1).
  assert (physical_id e ≠ id) as Hne by (intros Heq; rewrite Heq in Hpos; lia).
  rewrite copy_block_spec in Hcopy; [|done| | |done].
  2,3: unfold valid in *; by rewrite (same_pool_config _ _ Hp1).
  injection Hcopy as <-. set (a2 := set_frame a1 id (frame a1 (physical_id e))).
  assert (refs a2 (physical_id e) = refs a (physical_id e)) as Hr2.
  { change (refs a2 (physical_id e)) with (refs a1 (physical_id e)). rewrite Hr1.
    rewrite zcount_single, decide_False by done. lia. }
  assert (alloc_wf a2) as Hwf2.
  { apply set_frame_wf; [done| |apply length_frame; [done|]];
      unfold valid in *; by rewrite (same_pool_config _ _ Hp1). }
  destruct (release_spec a2 (physical_id e) Hwf2) as (_ & _ & _ & _ & _ & ->); [lia|].
  rewrite Hr2, (proj2 (Z.eqb_neq _ _)) by lia. change (nfree a2) with (nfree a1). lia.
Qed.

(** The entry a client names by sequence, layer and token. *)
Definition entry_at m (sid layer index : Z) (e : BlockTableEntry) : Prop :=
  ∃ st t, sequences_ m !! sid = Some st ∧ tables st !! Z.to_nat layer = Some t ∧
    entries_ t !! Z.to_nat index = Some e.

Lemma head_token_count m sid st t e0 es :
  mgr_wf m → sequences_ m !! sid = Some st → t ∈ tables st → entries_ t = e0 :: es →
  lb_token_count (logical e0) = tpb_of m.
Proof.
  intros Hwf Hs Ht He. pose proof (seq_dense _ _ _ _ (mgr_seq _ Hwf _ _ Hs)) as Hd.
  rewrite Forall_forall in Hd. specialize (Hd t Ht).
  by rewrite (table_dense _ _ _ _ Hd 0%nat e0) by by rewrite He.
Qed.

(** Rewriting one table of a sequence in place. *)
Lemma insert_table_move a a' ts k t t' :
  backed a (all_entries ts) → ts !! k = Some t →
  entries_move a (entries_ t) a' (entries_ t') →
  entries_move a (all_entries ts) a' (all_entries (<[k := t']> ts)) ∧
  table_bytes a' <$> <[k := t']> ts = <[k := table_bytes a' t']> (table_bytes a <$> ts).
Proof.
  intros Hb Hk Hm. pose proof (take_drop_middle _ _ _ Hk) as Hs.
  assert (k < length ts)%nat as Hlt by (by eapply lookup_lt_Some).
  rewrite (insert_take_drop ts k t') by done.
  rewrite <-Hs in Hb. destruct (tables_step _ _ _ _ _ _ Hb Hm) as (Hm' & Hpre & Hpost).
  rewrite <-Hs at 1. split; [done|].
  rewrite insert_take_drop by (by rewrite length_fmap).
  rewrite !fmap_app, !fmap_cons, Hpre, Hpost, <-fmap_take, <-fmap_drop. done.
Qed.

Lemma insert_table_wf m sid st k t t' :
  mgr_wf m → sequences_ m !! sid = Some st → tables st !! k = Some t →
  table_wf sid (tpb_of m) (seq_blocks st) t' →
  seq_wf (tpb_of m) (count_of m) sid (with_tables st (<[k := t']> (tables st))).
Proof.
  intros Hwf Hs Hk Ht'. pose proof (table_count_pos m Hwf) as Hc.
  pose proof (mgr_seq _ Hwf _ _ Hs) as Hsw. pose proof Hsw as [_ _ Hd Hpk].
  apply (seq_wf_rebuild _ _ _ st _ (seq_blocks st)); [done|lia|done|..].
  - simpl. by rewrite length_insert.
  - by apply Forall_insert.
  - exact Hpk.
Qed.

(** Where [ensure_token_writable] gets to: the entry's table is found dense, so
    [mutable_entry] is the position of the block. *)
Lemma ensure_reach m sid pos kind layer :
  mgr_wf m → 0 <= pos → 0 <= layer →
  let index := pos / tpb_of m in
  (ensure_token_writable m sid pos kind layer = Some (None, m) ∧
   ∀ e, tpb_of m ≠ 0 → entry_at m sid layer index e → resident e = false) ∨
  ∃ st t e, sequences_ m !! sid = Some st ∧ tables st !! Z.to_nat layer = Some t ∧
    entries_ t !! Z.to_nat index = Some e ∧ resident e = true ∧
    ensure_token_writable m sid pos kind layer =
      '(r, a') ← make_exclusive (allocator_ m) e;
      match r with
      | None => Some (None, with_state m a' (sequences_ m))
      | Some (id, e') =>
        Some (Some id, with_state m a' (<[sid := with_tables st
          (<[Z.to_nat layer := update_entry t (Z.to_nat index) (λ _, e')]> (tables st))]>
          (sequences_ m)))
      end.
Proof.
  intros Hwf Hpos Hlayer index. unfold ensure_token_writable.
  destruct (sequences_ m !! sid) as [st|] eqn:Hs.
  2:{ left. split; [done|]. intros e _ (st & t & Hst & _). congruence. }
  destruct (tables st !! Z.to_nat layer) as [t|] eqn:Ht.
  2:{ left. split; [done|]. intros e _ (st' & t & Hst & Htt & _). congruence. }
  pose proof (seq_dense _ _ _ _ (mgr_seq _ Hwf _ _ Hs)) as Hd.
  pose proof (proj1 (Forall_lookup _ _) Hd _ _ Ht) as Htw. simpl in Htw.
  destruct (entries_ t) as [|e0 es] eqn:Hes.
  { left. split; [done|]. intros e _ (st' & t' & Hst & Htt & He). simplify_eq.
    by rewrite Hes in He. }
  rewrite (head_token_count m sid st t e0 es) by
    (try done; by eapply list_elem_of_lookup_2).
  destruct (Z.eqb_spec (tpb_of m) 0) as [Hz|Hz]; [by left|].
  assert (0 <= index) as Hix by (pose proof (tpb_u32 m Hwf); apply Z.div_pos; words).
  fold index. rewrite (table_wf_find _ _ _ _ _ Htw), <-Hes.
  rewrite (proj2 (Z.leb_le _ _)) by done. simpl.
  destruct (Z.ltb_spec index (Z.of_nat (seq_blocks st))) as [Hlt|Hge].
  2:{ left. split; [done|]. intros e _ (st' & t' & Hst & Htt & He). simplify_eq.
      apply lookup_lt_Some in He. rewrite (table_len _ _ _ _ Htw) in He. lia. }
  destruct (lookup_lt_is_Some_2 (entries_ t) (Z.to_nat index)) as [e He];
    [rewrite (table_len _ _ _ _ Htw); lia|]. rewrite He. cbn [mbind option_bind].
  destruct (resident e) eqn:Hres; cbn [negb].
  - right. by exists st, t, e.
  - left. split; [done|]. intros e' _ (st' & t' & Hst & Htt & He'). congruence.
Qed.

Lemma table_backed m sid st k t :
  mgr_wf m → sequences_ m !! sid = Some st → tables st !! k = Some t →
  backed (allocator_ m) (entries_ t).
Proof.
  intros Hwf Hs Ht. pose proof (accounted_backed _ _ _ _ _ (mgr_accounted _ Hwf) Hs) as Hb.
  rewrite <-(take_drop_middle _ _ _ Ht), all_entries_app, all_entries_cons in Hb.
  apply backed_app in Hb as [_ Hb]. by apply backed_app in Hb as [Hb _].
Qed.

Lemma elem_backed a es k e : backed a es → es !! k = Some e → backed a [e].
Proof.
  intros Hb He. rewrite <-(take_drop_middle _ _ _ He) in Hb.
  apply backed_app in Hb as [_ Hb]. by apply (backed_app _ [e]) in Hb as [Hb _].
Qed.

(** Rewriting one entry of the cache without changing bytes. *)
Lemma rewrite_entry m sid st k t i e a' e' :
  mgr_wf m → sequences_ m !! sid = Some st → tables st !! k = Some t →
  entries_ t !! i = Some e → preserves (allocator_ m) [e] a' [e'] → logical e' = logical e →
  let st' := with_tables st (<[k := update_entry t i (λ _, e')]> (tables st)) in
  let m' := with_state m a' (<[sid := st']> (sequences_ m)) in
  mgr_wf m' ∧ contents m' = contents m ∧ prefixes m' = prefixes m ∧
  tables st' !! k = Some (update_entry t i (λ _, e')) ∧
  entries_ (update_entry t i (λ _, e')) !! i = Some e'.
Proof.
  intros Hwf Hs Ht He Hp Hl st' m'. set (t' := update_entry t i (λ _, e')) in *.
  pose proof (table_backed _ _ _ _ _ Hwf Hs Ht) as Hbt.
  destruct (update_preserves (allocator_ m) a' t i e (λ _, e') Hbt He Hp) as [Hm Hbytes].
  fold t' in Hm, Hbytes.
  destruct (insert_table_move (allocator_ m) a' (tables st) k t t') as [Hm' Hb']; [|done..|].
  { eapply accounted_backed; [apply Hwf|exact Hs]. }
  destruct (mgr_preserves m sid st a' st') as (Hwf' & Hc & Hpf); [done..|exact Hm'| | |].
  - apply (insert_table_wf m sid st k t t'); try done.
    pose proof (seq_dense _ _ _ _ (mgr_seq _ Hwf _ _ Hs)) as Hd.
    apply table_wf_update; [by apply (proj1 (Forall_lookup _ _) Hd _ _ Ht)|].
    intros e'' He''. by simplify_eq.
  - unfold seq_bytes, st'. simpl. rewrite Hb'. apply list_insert_id.
    rewrite list_lookup_fmap, Ht. simpl. f_equal. unfold table_bytes. by rewrite <-Hbytes.
  - split_and!; [done..| |].
    + unfold st'. simpl. rewrite list_lookup_insert_eq; [done|]. by eapply lookup_lt_Some.
    + unfold t'. simpl. by rewrite list_lookup_alter_eq, He.
Qed.

Lemma ensure_spec m sid pos kind layer :
  mgr_wf m → 0 <= pos → 0 <= layer →
  runs (ensure_token_writable m sid pos kind layer) (λ '(r, m'),
    mgr_wf m' ∧ contents m' = contents m ∧ prefixes m' = prefixes m ∧
    match r with
    | None => m' = m ∧ ∀ e, tpb_of m ≠ 0 → entry_at m sid layer (pos / tpb_of m) e →
        resident e = true → 1 < refs (allocator_ m) (physical_id e) ∧ nfree (allocator_ m) = 0
    | Some id => ∃ e, entry_at m sid layer (pos / tpb_of m) e ∧ resident e = true ∧
        entry_at m' sid layer (pos / tpb_of m) (entry_set_frame id true e) ∧
        refs (allocator_ m') id = 1 ∧ same_pool (allocator_ m) (allocator_ m')
    end).
Proof.
  intros Hwf Hpos Hlayer.
  destruct (ensure_reach m sid pos kind layer Hwf Hpos Hlayer)
    as [[-> Hno]|(st & t & e & Hs & Ht & He & Hres & ->)].
  { split_and!; try done. intros e Htpb Hat Hr. by rewrite (Hno e Htpb Hat) in Hr. }
  pose proof (table_backed _ _ _ _ _ Hwf Hs Ht) as Hbt.
  pose proof (elem_backed _ _ _ _ Hbt He) as Hbe.
  run_step (make_exclusive_spec (allocator_ m) e (mgr_alloc _ Hwf) Hres Hbe).
  intros [[[id e']|] a']; cbn [runs].
  - intros (-> & Hp & Hone & _).
    destruct (rewrite_entry m sid st _ t _ e a' _ Hwf Hs Ht He Hp eq_refl)
      as (Hwf' & Hc & Hpf & Ht' & He').
    split_and!; [done..|]. exists e.
    split_and!; [by exists st, t|done| |done|apply (moves_pool _ _ _ _ _ _ (proj1 Hp))].
    eexists _, _. by split; [apply lookup_insert_eq|].
  - intros (-> & Hsh & Hn). assert (with_state m (allocator_ m) (sequences_ m) = m) as ->
      by by destruct m.
    split_and!; try done. intros e' _ (st' & t' & Hst & Htt & He') _. by simplify_eq.
Qed.

(** ** Client writes *)

(** The pool after the client filled a frame it may write. *)
Definition write_block m (id : Z) (bytes : list byte) : KVCacheManager B :=
  with_state m (set_frame (allocator_ m) id bytes) (sequences_ m).

Lemma update_bytes a a' t i e :
  backed a (entries_ t) → entries_ t !! i = Some e → entries_move a [e] a' [e] →
  table_bytes a' t = <[i := entry_bytes a' e]> (table_bytes a t).
Proof.
  intros Hb He Hm. pose proof (take_drop_middle _ _ _ He) as Hs.
  assert (i < length (entries_ t))%nat as Hlt by (by eapply lookup_lt_Some).
  unfold table_bytes. rewrite insert_take_drop by (by rewrite length_fmap).
  rewrite <-Hs in Hb. rewrite <-Hs at 1. rewrite fmap_app, fmap_cons, <-fmap_take, <-fmap_drop.
  f_equal; [|f_equal]; (eapply moves_others_bytes; [exact Hm|]).
  - rewrite cons_middle, app_assoc in Hb. apply backed_app in Hb as [Hb _].
    eapply backed_perm; [|exact Hb]. apply Permutation_app_comm.
  - by apply backed_app in Hb as [_ Hb].
Qed.

(** A frame with one reference belongs to one block only: writing it changes
    that block and nothing else. *)
Lemma write_block_spec m sid layer index e bytes :
  mgr_wf m → entry_at m sid layer index e → resident e = true →
  refs (allocator_ m) (physical_id e) = 1 →
  Z.of_nat (length bytes) = block_stride_bytes_ (allocator_ m) →
  let m' := write_block m (physical_id e) bytes in
  mgr_wf m' ∧ prefixes m' = prefixes m ∧
  contents m' =
    alter (alter (alter (λ _, Some bytes) (Z.to_nat index)) (Z.to_nat layer)) sid (contents m).
Proof.
  intros Hwf (st & t & Hs & Ht & He) Hres Hone Hlen m'.
  destruct (resident_entry e Hres) as (Hfr & Hsl & Hsw).
  set (a := allocator_ m) in *. set (a' := set_frame a (physical_id e) bytes).
  pose proof (table_backed _ _ _ _ _ Hwf Hs Ht) as Hbt. fold a in Hbt.
  assert (entries_move a [e] a' [e]) as Hm.
  { unfold entries_move. autorewrite with holds. rewrite Hfr, Hsl.
    by apply write_moves; [apply Hwf|..]. }
  assert (entries_move a (entries_ t) a' (entries_ t)) as Hmt.
  { rewrite <-(take_drop_middle _ _ _ He). by apply (entries_move_frame _ _ _ [e] [e]). }
  destruct (insert_table_move a a' (tables st) (Z.to_nat layer) t t) as [Hm' Hb'];
    [by eapply accounted_backed; [apply Hwf|]|done..|].
  rewrite list_insert_id in Hm', Hb' by done.
  destruct (mgr_update m sid st a' st Hwf Hs eq_refl eq_refl eq_refl Hm') as (Hwf' & Hc & Hp);
    [by eapply mgr_seq|].
  rewrite (insert_id (sequences_ m) sid st Hs) in Hwf', Hc, Hp.
  split_and!; [done..|]. etransitivity; [exact Hc|].
  apply map_eq. intros k. destruct (decide (k = sid)) as [->|];
    [|by rewrite lookup_insert_ne, lookup_alter_ne].
  rewrite lookup_insert_eq, lookup_alter_eq. unfold contents. rewrite lookup_fmap, Hs. simpl.
  f_equal. unfold seq_bytes at 1. rewrite Hb'. fold a (seq_bytes a st).
  rewrite list_insert_alter. unfold seq_bytes. apply list_eq. intros j.
  destruct (decide (j = Z.to_nat layer)) as [->|]; [|by rewrite !list_lookup_alter_ne].
  rewrite !list_lookup_alter_eq, list_lookup_fmap, Ht. simpl. f_equal.
  rewrite (update_bytes a a' t _ e Hbt He Hm), list_insert_alter.
  unfold entry_bytes. rewrite Hsw. do 2 f_equal. unfold a'.
  assert (valid a (physical_id e)) as Hv by (apply refs_pos_valid; [apply Hwf|lia]).
  destruct (set_frame_wf a (physical_id e) bytes) as [_ Hfrm]; [apply Hwf|done..|].
  by rewrite Hfrm, decide_True.
Qed.
End Write.
