(* ===== verification/CacheSwap.v ===== *)
(** Swapping sequences out and in: bytes survive, restoring is all or nothing. *)
From S2P Require Import Prelude.
From S2P Require Import Block.
From S2P Require Import SwapBackend.
From S2P Require Import BlockTable.
From S2P Require Import MemoryAllocator.
From S2P Require Import AllocatorSpec.
From S2P Require Import AllocatorProps.
From S2P Require Import KVCacheManager.
From S2P Require Import CacheAccounting.
From S2P Require Import AllocatorMoves.
From S2P Require Import CacheInvariant.
From S2P Require Import CacheLemmas.
From S2P Require Import CacheLifecycle.
From S2P Require Import CacheGrowth.
From S2P Require Import CacheWrite.

(** Entries whose block is in the swap backend. *)
Definition swapped_in (es : list BlockTableEntry) : Z :=
  zsum (λ e, if resident e then 0 else 1) es.

Lemma swapped_in_app es fs : swapped_in (es ++ fs) = swapped_in es + swapped_in fs.
Proof. apply zsum_app. Qed.

Lemma swapped_in_cons e es :
  swapped_in (e :: es) = (if resident e then 0 else 1) + swapped_in es.
Proof. done. Qed.

Lemma swapped_in_range es : 0 <= swapped_in es <= Z.of_nat (length es).
Proof.
  induction es as [|e es IH]; [done|]. rewrite swapped_in_cons. cbn [length].
  destruct (resident e); lia.
Qed.

Lemma swapped_in_alter es i e f :
  es !! i = Some e →
  swapped_in (alter f i es) =
    swapped_in es - (if resident e then 0 else 1) + (if resident (f e) then 0 else 1).
Proof.
  revert i. induction es as [|e' es IH]; [done|]. intros [|i] He; simplify_eq/=.
  - rewrite !swapped_in_cons. lia.
  - change (swapped_in (e' :: alter f i es) = swapped_in (e' :: es)
      - (if resident e then 0 else 1) + (if resident (f e) then 0 else 1)).
    rewrite !swapped_in_cons, IH by done. lia.
Qed.

Lemma swapped_in_elem es e : e ∈ es → resident e = false → 0 < swapped_in es.
Proof.
  intros Hin Hr. apply list_elem_of_split in Hin as (l1 & l2 & ->).
  rewrite swapped_in_app, swapped_in_cons, Hr.
  pose proof (swapped_in_range l1). pose proof (swapped_in_range l2). lia.
Qed.

Lemma swapped_in_zero es : swapped_in es = 0 → ∀ e, e ∈ es → swap_slot e = None.
Proof.
  intros Hz e He. destruct (swap_slot e) as [s|] eqn:Hs; [|done].
  pose proof (swapped_in_elem es e He). unfold resident in *. rewrite Hs in *. lia.
Qed.

Lemma zsum_entries ts :
  zsum (λ t, swapped_in (entries_ t)) ts = swapped_in (all_entries ts).
Proof.
  induction ts as [|t ts IH]; [done|]. rewrite all_entries_cons, swapped_in_app.
  cbn [zsum]. by rewrite IH.
Qed.

Lemma swapped_count_entries ts : swapped_count ts = u32 (swapped_in (all_entries ts)).
Proof.
  unfold swapped_count. f_equal. apply zsum_entries.
Qed.

(** An entry after swapping out: as it was, or with a slot. *)
Definition evicted (e e' : BlockTableEntry) : Prop :=
  e' = e ∨ resident e = true ∧ ∃ s, e' = entry_set_slot (Some s) e.

Lemma evicted_refl es : Forall2 evicted es es.
Proof. induction es; constructor; [by left|done]. Qed.

Section Swap.
Context {B : Type} `{SwapBackendLaws B}.
Implicit Types a : MemoryAllocator B.
Implicit Types m : KVCacheManager B.

(** The backend can hand out [k] more slot ids, or there is none. *)
Definition can_store a (k : Z) : Prop := swap_backend_ a = None ∨ k <= budget a.

Lemma swap_out_entry a e :
  alloc_inv a → resident e = true → backed a [e] → can_store a 1 →
  runs (swap_out a (physical_id e)) (λ '(r, a'),
    match r with
    | None => a' = a
    | Some slot => preserves a [e] a' [entry_set_slot r e] ∧ nfree a' = nfree a + 1 ∧
        budget a' = budget a - 1 ∧ swap_backend_ a ≠ None
    end).
Proof.
  intros Hi Hres Hb [Hnone|Hbud]; [by unfold swap_out; rewrite Hnone|].
  pose proof (resident_refs a e Hres Hb) as Hpos.
  destruct (resident_entry e Hres) as (Hfr & Hsl & Hsw).
  assert (valid a (physical_id e)) as Hv by (apply refs_pos_valid; [apply Hi|lia]).
  eapply runs_mono; [apply swap_out_moves; [done|apply Hv|lia]|].
  intros [[slot|] a']; [|done]. intros (Hm & _ & Hbytes & Hbud' & Hn).
  split_and!; [split|done|done|].
  - unfold entries_move. autorewrite with holds. by rewrite Hfr, Hsl.
  - rewrite !list_fmap_singleton. unfold entry_bytes. simpl. by rewrite Hsw, Hbytes.
  - intros Hc. unfold budget in Hbud. rewrite Hc in Hbud. lia.
Qed.

Lemma swap_in_entry a e :
  alloc_inv a → resident e = false → backed a [e] → 0 < nfree a →
  ∃ slot, swap_slot e = Some slot ∧
  runs (swap_in a slot) (λ '(r, a'), ∃ id, r = Some id ∧
    preserves a [e] a' [entry_restore id e] ∧ nfree a' = nfree a - 1).
Proof.
  intros Hi Hres [_ Hb] Hn. unfold resident in Hres.
  destruct (swap_slot e) as [slot|] eqn:Hs; [|done]. exists slot. split; [done|].
  specialize (Hb slot). autorewrite with holds in Hb. unfold entry_slots in Hb.
  rewrite Hs, zcount_single, decide_True in Hb by done.
  destruct (held_pos a slot) as [bytes Hsw]; [lia|].
  eapply runs_mono; [by apply (swap_in_moves a slot bytes)|].
  intros [[id|] a']; [|lia]. intros (Hm & Hf & Hn'). exists id. split_and!; [done|split|done].
  - unfold entries_move. autorewrite with holds. unfold entry_frames, entry_slots. simpl.
    by rewrite Hs.
  - rewrite !list_fmap_singleton. unfold entry_bytes. simpl. by rewrite Hs, Hsw, Hf.
Qed.

(** ** One table *)

(** [k] counts the frames freed, in 32 bits. *)
Lemma swap_out_block_spec sid tpb n k a t x e :
  table_wf sid tpb n t → alloc_inv a → backed a (entries_ t) → can_store a 1 → is_u32 k →
  0 <= x → entries_ t !! Z.to_nat x = Some e → resident e = true →
  runs (swap_out_block (k, a, t) x) (λ '(k', a', t'),
    table_wf sid tpb n t' ∧ preserves a (entries_ t) a' (entries_ t') ∧
    k' = u32 (k + (nfree a' - nfree a)) ∧
    (a' = a ∨ swap_backend_ a ≠ None ∧ budget a' = budget a - 1) ∧
    nfree a' - swapped_in (entries_ t') = nfree a - swapped_in (entries_ t) ∧
    ∃ e', evicted e e' ∧ entries_ t' = <[Z.to_nat x := e']> (entries_ t)).
Proof.
  intros Ht Hi Hb Hc Hk Hx He Hres. unfold swap_out_block.
  rewrite (table_wf_find _ _ _ _ _ Ht), (proj2 (Z.leb_le _ _)), (proj2 (Z.ltb_lt _ _)) by
    (try done; apply lookup_lt_Some in He; rewrite (table_len _ _ _ _ Ht) in He; lia).
  simpl. rewrite He. cbn [mbind option_bind].
  run_step (swap_out_entry a e Hi Hres (elem_backed _ _ _ _ Hb He) Hc).
  intros [[slot|] a']; cbn [runs].
  - intros (Hp & Hn & Hbud & Hback). split_and!.
    + apply table_wf_update; [done|]. done.
    + by eapply update_preserves.
    + do 2 f_equal. lia.
    + by right.
    + simpl. rewrite (swapped_in_alter _ _ e), Hres by done. simpl. lia.
    + exists (entry_set_slot (Some slot) e). split; [right; eauto|]. simpl.
      rewrite list_insert_alter. apply list_eq. intros j.
      destruct (decide (j = Z.to_nat x)) as [->|]; [|by rewrite !list_lookup_alter_ne].
      by rewrite !list_lookup_alter_eq, He.
  - intros ->. split_and!; [done|by apply preserves_refl| |by left|done|].
    + by rewrite Z.sub_diag, Z.add_0_r, u32_small.
    + exists e. split; [by left|]. by rewrite list_insert_id.
Qed.

(** The indices the loop visits are positions of resident entries. *)
Lemma resident_indices sid tpb n t x :
  table_wf sid tpb n t →
  x ∈ index_of <$> filter (λ e, resident e) (entries_ t) →
  0 <= x ∧ ∃ e, entries_ t !! Z.to_nat x = Some e ∧ resident e = true.
Proof.
  intros Ht (e & -> & [He Hin]%list_elem_of_filter)%list_elem_of_fmap.
  apply list_elem_of_lookup_1 in Hin as [i Hi].
  rewrite (table_wf_index _ _ _ _ _ _ Ht Hi). split; [lia|]. rewrite Nat2Z.id.
  exists e. split; [done|]. by destruct (resident e).
Qed.

Lemma index_nodup t : table_sorted t → NoDup (index_of <$> entries_ t).
Proof.
  unfold table_sorted. induction (entries_ t) as [|e es IH]; intros Hs; [constructor|].
  apply sorted_cons in Hs as [Hs Ha]. rewrite fmap_cons. constructor; [|by apply IH].
  intros (e' & Heq & He')%list_elem_of_fmap. rewrite Forall_forall in Ha.
  specialize (Ha e' He'). lia.
Qed.

Lemma resident_indices_nodup sid tpb n t :
  table_wf sid tpb n t → NoDup (index_of <$> filter (λ e, resident e) (entries_ t)).
Proof.
  intros Ht%table_wf_sorted%index_nodup. eapply sublist_NoDup; [exact Ht|].
  apply fmap_sublist. apply sublist_filter.
Qed.

Lemma evicted_trans e e1 e2 : evicted e e1 → evicted e1 e2 → resident e1 = true → evicted e e2.
Proof. intros [->|(_ & s & ->)] H2 Hr; [done|]. by simpl in Hr. Qed.

Lemma can_store_mono a k k' : can_store a k → k' <= k → can_store a k'.
Proof. intros [?|?]; [by left|right; lia]. Qed.

(** The loop over the indices; [r] slot ids are kept for the tables to come. *)
Lemma swap_out_blocks_spec sid tpb n k a t l r :
  alloc_inv a → backed a (entries_ t) → table_wf sid tpb n t → is_u32 k → 0 <= r →
  NoDup l → (∀ x, x ∈ l → 0 <= x ∧ ∃ e, entries_ t !! Z.to_nat x = Some e ∧ resident e = true) →
  can_store a (Z.of_nat (length l) + r) →
  runs (foldM swap_out_block (k, a, t) l) (λ '(k', a', t'),
    table_wf sid tpb n t' ∧ preserves a (entries_ t) a' (entries_ t') ∧
    k' = u32 (k + (nfree a' - nfree a)) ∧ can_store a' r ∧
    nfree a' - swapped_in (entries_ t') = nfree a - swapped_in (entries_ t) ∧
    Forall2 evicted (entries_ t) (entries_ t')).
Proof.
  intros Hi Hb Ht Hk Hr. revert k a t Hi Hb Ht Hk.
  induction l as [|x l IH]; intros k a t Hi Hb Ht Hk Hnd Hl Hc; simpl.
  - rewrite Z.sub_diag, Z.add_0_r, u32_small by done. split_and!; [done|by apply preserves_refl|done|done|done|].
    apply evicted_refl.
  - apply NoDup_cons in Hnd as [Hx Hnd].
    destruct (Hl x) as (Hx0 & e & He & Hres); [by left|]. cbn [length] in Hc.
    run_step (swap_out_block_spec sid tpb n k a t x e Ht Hi Hb); try done.
    { eapply can_store_mono; [exact Hc|lia]. }
    intros [[k' a'] t'] (Ht' & Hp & -> & Hc' & Hsw & e' & Hev & Hes). simpl.
    eapply runs_mono; [apply IH; try done|].
    + apply Hp.
    + eapply moves_backed; [apply Hp|done].
    + apply u32_range.
    + intros y Hy. destruct (Hl y) as (Hy0 & ey & Hey & Hry); [by right|]. split; [done|].
      exists ey. rewrite Hes, list_lookup_insert_ne; [done|]. intros Heq.
      assert (x = y) by lia. by subst.
    + destruct Hc' as [->|[Hback Hbud]]; [eapply can_store_mono; [exact Hc|lia]|].
      destruct Hc as [?|Hc]; [done|]. right. lia.
    + intros [[k2 a2] t2] (Ht2 & Hp2 & -> & Hc2 & Hsw2 & Hev2).
      split_and!; [done|by eapply preserves_trans| |done|lia|].
      * rewrite u32_add_l. f_equal. lia.
      * rewrite Hes in Hev2. apply Forall2_same_length_lookup. split.
        { apply Forall2_length in Hev2. by rewrite length_insert in Hev2. }
        intros j e1 e2 H1 H2. destruct (decide (j = Z.to_nat x)) as [->|Hj].
        -- rewrite He in H1. injection H1 as <-.
           assert (evicted e' e2) as Hev3.
           { eapply Forall2_lookup_lr; [exact Hev2| |exact H2].
             apply list_lookup_insert_eq. by eapply lookup_lt_Some. }
           destruct Hev as [->|Hev]; [done|]. right.
           destruct Hev3 as [->|[Hr' _]]; [done|]. by destruct Hev as (_ & s & ->).
        -- eapply Forall2_lookup_lr; [exact Hev2| |exact H2].
           by rewrite list_lookup_insert_ne.
Qed.

Lemma swap_out_table_spec sid tpb n k a t r :
  alloc_inv a → backed a (entries_ t) → table_wf sid tpb n t → is_u32 k → 0 <= r →
  can_store a (Z.of_nat (length (entries_ t)) + r) →
  runs (swap_out_table (k, a) t) (λ '(go, (k', a'), t'),
    go = true ∧ table_wf sid tpb n t' ∧ preserves a (entries_ t) a' (entries_ t') ∧
    k' = u32 (k + (nfree a' - nfree a)) ∧ can_store a' r ∧
    nfree a' - swapped_in (entries_ t') = nfree a - swapped_in (entries_ t) ∧
    Forall2 evicted (entries_ t) (entries_ t')).
Proof.
  intros Hi Hb Ht Hk Hr Hc. unfold swap_out_table. cbn [fst snd].
  run_step (swap_out_blocks_spec sid tpb n k a t
    (index_of <$> filter (λ e, resident e) (entries_ t)) r); try done.
  - by eapply resident_indices_nodup.
  - intros x. by eapply resident_indices.
  - eapply can_store_mono; [exact Hc|]. rewrite length_fmap.
    pose proof (sublist_length _ _ (sublist_filter (λ e, resident e) (entries_ t))). lia.
  - by intros [[k' a'] t'] ?.
Qed.

(** ** Swapping out a sequence *)

Lemma swap_out_tables_spec sid tpb n k a ts r :
  0 <= r → alloc_inv a → backed a (all_entries ts) → is_u32 k → Forall (table_wf sid tpb n) ts →
  can_store a (Z.of_nat (length (all_entries ts)) + r) →
  runs (for_each swap_out_table (k, a) ts) (λ '(go, (k', a'), ts'),
    entries_move a (all_entries ts) a' (all_entries ts') ∧
    k' = u32 (k + (nfree a' - nfree a)) ∧ can_store a' r ∧
    nfree a' - swapped_in (all_entries ts') = nfree a - swapped_in (all_entries ts) ∧
    length ts' = length ts ∧
    Forall (table_wf sid tpb n) ts' ∧ table_bytes a' <$> ts' = table_bytes a <$> ts ∧
    Forall2 evicted (all_entries ts) (all_entries ts')).
Proof.
  intros Hr Hi Hb Hk Hts Hc.
  eapply runs_mono; [apply (runs_for_each_tables (λ s : Z * MemoryAllocator B, snd s)
    swap_out_table (table_wf sid tpb n)
    (λ rest s, is_u32 (fst s) ∧ can_store (snd s) (Z.of_nat (length (all_entries rest)) + r) ∧
               fst s = u32 (k + (nfree (snd s) - nfree a)))
    (λ t b t' b', table_wf sid tpb n t' ∧ b' = b ∧ Forall2 evicted (entries_ t) (entries_ t'))
    (λ s, nfree (snd s)) (λ t, swapped_in (entries_ t)));
    [|done|done|done|]|].
  - intros t rest [k' a'] Hi' Hb' Ht (Hk' & Hc' & Heq). cbn [fst snd] in *.
    rewrite all_entries_cons, length_app, Nat2Z.inj_add in Hc'.
    eapply runs_mono; [apply (swap_out_table_spec sid tpb n k' a' t
      (Z.of_nat (length (all_entries rest)) + r)); try done; [lia|by rewrite Z.add_assoc]|].
    intros [[go [k2 a2]] t'] (-> & Ht' & [Hm Hbytes] & -> & Hc2 & Hsw & Hev). cbn [fst snd] in *.
    split_and!; try done; [apply u32_range|]. subst k'. rewrite u32_add_l. f_equal. lia.
  - cbn [fst snd]. split_and!; [done|done|]. by rewrite Z.sub_diag, Z.add_0_r, u32_small.
  - intros [[go [k' a']] ts'] (_ & (_ & Hc' & Heq) & Hm & Hst & HR). cbn [fst snd] in *.
    rewrite !zsum_entries in Hst. split_and!; [done|done|done|done|symmetry; by eapply Forall2_length|..].
    + eapply Forall2_Forall_r; [exact HR|]. apply Forall_true. by intros t t' (? & _).
    + clear -HR. induction HR as [|t t' ts ts' (_ & Ht & _) _ IH]; [done|].
      by rewrite !fmap_cons, Ht, IH.
    + clear -HR. induction HR as [|t t' ts ts' (_ & _ & Ht) _ IH]; [constructor|].
      rewrite !all_entries_cons. by apply Forall2_app.
Qed.

(** Blocks of a sequence, in all its tables. *)
Definition block_count m (sid : Z) : Z :=
  match sequences_ m !! sid with
  | Some st => Z.of_nat (length (all_entries (tables st)))
  | None => 0
  end.

(** The same pool, request index and prefixes. *)
Definition same_index m m' : Prop :=
  same_pool (allocator_ m) (allocator_ m') ∧
  sequences_by_request_ m' = sequences_by_request_ m ∧ prefix_index_ m' = prefix_index_ m.

Lemma same_index_refl m : same_index m m.
Proof. done. Qed.

Lemma same_index_trans m1 m2 m3 : same_index m1 m2 → same_index m2 m3 → same_index m1 m3.
Proof. unfold same_index, same_pool. intros (? & ? & ?) (? & ? & ?). split_and!; congruence. Qed.

(** The sequences of [m'] are those of [m] with other frames for [sid]. *)
Definition remapped (R : BlockTableEntry → BlockTableEntry → Prop) m m' (sid : Z) : Prop :=
  match sequences_ m !! sid with
  | None => m' = m
  | Some st => ∃ ts', sequences_ m' = <[sid := with_tables st ts']> (sequences_ m) ∧
      same_index m m' ∧
      Forall2 R (all_entries (tables st)) (all_entries ts')
  end.

(** Frames a sequence needs to become resident. *)
Definition needed m (sid : Z) : Z :=
  match sequences_ m !! sid with
  | Some st => swapped_in (all_entries (tables st))
  | None => 0
  end.

Lemma swap_out_sequence_spec m sid r :
  mgr_wf m → 0 <= r → can_store (allocator_ m) (block_count m sid + r) →
  runs (swap_out_sequence m sid) (λ '(k, m'),
    mgr_wf m' ∧ contents m' = contents m ∧ prefixes m' = prefixes m ∧
    k = u32 (nfree (allocator_ m') - nfree (allocator_ m)) ∧ can_store (allocator_ m') r ∧
    nfree (allocator_ m') - needed m' sid = nfree (allocator_ m) - needed m sid ∧
    remapped evicted m m' sid).
Proof.
  intros Hwf Hr Hc. unfold swap_out_sequence, remapped, block_count, needed in *.
  destruct (sequences_ m !! sid) as [st|] eqn:Hs;
    [|split_and!; try done; [by rewrite Z.sub_diag|by rewrite Hs]].
  pose proof (mgr_seq _ Hwf _ _ Hs) as Hsw. pose proof (table_count_pos m Hwf) as Hcp.
  run_step (swap_out_tables_spec sid (tpb_of m) (seq_blocks st) 0 (allocator_ m) (tables st) r
    Hr); [apply Hwf|by eapply accounted_backed; [apply Hwf|]|words|apply Hsw|done|].
  intros [[go [k a']] ts'] (Hm & -> & Hc' & Hst & Hlen & Hts & Hbytes & Hev). cbn [runs].
  destruct (seq_wf_rebuild (tpb_of m) (count_of m) sid st (with_tables st ts')
    (seq_blocks st) Hsw) as [Hsw' _]; [lia|done..|apply Hsw|].
  destruct (mgr_preserves m sid st a' (with_tables st ts')) as (Hwf' & Hcn & Hp); [done..|].
  split_and!; [done..| |].
  - simpl. by rewrite lookup_insert_eq.
  - exists ts'. split_and!; try done. split; [by eapply moves_pool|done].
Qed.

(** ** Swapping in *)

Lemma swap_in_block_spec sid tpb n a t i e :
  table_wf sid tpb n t → alloc_inv a → backed a (entries_ t) →
  swapped_in (entries_ t) <= nfree a → entries_ t !! i = Some e →
  runs (swap_in_block (true, a, t) i) (λ '(go, a', t'),
    go = true ∧ table_wf sid tpb n t' ∧ preserves a (entries_ t) a' (entries_ t') ∧
    nfree a' - swapped_in (entries_ t') = nfree a - swapped_in (entries_ t) ∧
    ∃ e', resident e' = true ∧ entries_ t' = <[i := e']> (entries_ t)).
Proof.
  intros Ht Hi Hb Hn He. unfold swap_in_block. cbn [negb]. rewrite He. cbn [mbind option_bind].
  destruct (resident e) eqn:Hres.
  { split_and!; [done|done|by apply preserves_refl|done|]. exists e. by rewrite list_insert_id. }
  rewrite (table_wf_index _ _ _ _ _ _ Ht He), (table_wf_find _ _ _ _ _ Ht).
  rewrite (proj2 (Z.leb_le _ _)), (proj2 (Z.ltb_lt _ _)) by
    (apply lookup_lt_Some in He; rewrite (table_len _ _ _ _ Ht) in He; lia).
  simpl. rewrite Nat2Z.id, He. cbn [mbind option_bind].
  pose proof (swapped_in_elem (entries_ t) e ltac:(by eapply list_elem_of_lookup_2) Hres).
  destruct (swap_in_entry a e Hi Hres (elem_backed _ _ _ _ Hb He)) as (slot & Hsl & Hrun); [lia|].
  rewrite Hsl. cbn [mbind option_bind].
  run_step Hrun. intros [r a'] (id & -> & Hp & Hn'). cbn [runs]. split_and!; [done|..].
  - by apply table_wf_update.
  - by eapply update_preserves.
  - simpl. rewrite (swapped_in_alter _ _ e), Hres by done. simpl. lia.
  - exists (entry_restore id e). split; [done|]. simpl. rewrite list_insert_alter.
    apply list_eq. intros j. destruct (decide (j = i)) as [->|];
      [by rewrite !list_lookup_alter_eq, He|by rewrite !list_lookup_alter_ne].
Qed.

Lemma swap_in_table_spec sid tpb n a t :
  alloc_inv a → backed a (entries_ t) → table_wf sid tpb n t →
  swapped_in (entries_ t) <= nfree a →
  runs (swap_in_table a t) (λ '(go, a', t'),
    go = true ∧ table_wf sid tpb n t' ∧ preserves a (entries_ t) a' (entries_ t') ∧
    nfree a' = nfree a - swapped_in (entries_ t) ∧
    ∀ e, e ∈ entries_ t' → resident e = true).
Proof.
  intros Hi Hb Ht Hn. unfold swap_in_table.
  eapply runs_mono; [apply (runs_foldM_rest _ (λ rest '(go, a', t'), ∃ k,
    rest = seq k (length (entries_ t) - k) ∧ go = true ∧ table_wf sid tpb n t' ∧
    preserves a (entries_ t) a' (entries_ t') ∧
    nfree a' - swapped_in (entries_ t') = nfree a - swapped_in (entries_ t) ∧
    ∀ i e, (i < k)%nat → entries_ t' !! i = Some e → resident e = true))|].
  - exists 0%nat. split_and!; [by rewrite Nat.sub_0_r|done|done|by apply preserves_refl|done|lia].
  - intros x rest [[go a'] t'] (k & Hrest & -> & Ht' & Hp & Heq & Hres).
    destruct (length (entries_ t) - k)%nat as [|r] eqn:Hlen; [done|].
    injection Hrest as -> ->.
    destruct (lookup_lt_is_Some_2 (entries_ t') k) as [e He].
    { rewrite (table_len _ _ _ _ Ht'), <-(table_len _ _ _ _ Ht). lia. }
    eapply runs_mono; [apply (swap_in_block_spec sid tpb n a' t' k e Ht'); try done|].
    + apply Hp.
    + by eapply moves_backed; [apply Hp|].
    + lia.
    + intros [[go a2] t2] (-> & Ht2 & Hp2 & Heq2 & e' & He' & Hes).
      exists (S k). split_and!; [f_equal; lia|done|done|by eapply preserves_trans|lia|].
      intros i e2 Hlt. rewrite Hes. intros [(_ & <- & _)|[Hne He2]]%list_lookup_insert_Some;
        [done|]. eapply (Hres i); [lia|done].
  - intros [[go a'] t'] (k & Hrest & -> & Ht' & Hp & Heq & Hres).
    assert (length (entries_ t) <= k)%nat as Hk.
    { destruct (length (entries_ t) - k)%nat eqn:Hl; [lia|done]. }
    assert (∀ e, e ∈ entries_ t' → resident e = true) as Hall.
    { intros e [i He]%list_elem_of_lookup_1. apply (Hres i); [|done].
      apply lookup_lt_Some in He. rewrite (table_len _ _ _ _ Ht') in He.
      rewrite (table_len _ _ _ _ Ht) in Hk. lia. }
    split_and!; [done..| |done].
    assert (swapped_in (entries_ t') = 0); [|lia]. clear -Hall.
    induction (entries_ t') as [|e es IH]; [done|]. rewrite swapped_in_cons, Hall by left.
    rewrite IH; [done|]. intros. apply Hall. by right.
Qed.

Lemma swap_in_tables_spec sid tpb n a ts :
  alloc_inv a → backed a (all_entries ts) → Forall (table_wf sid tpb n) ts →
  swapped_in (all_entries ts) <= nfree a →
  runs (for_each swap_in_table a ts) (λ '(go, a', ts'),
    go = true ∧ entries_move a (all_entries ts) a' (all_entries ts') ∧
    nfree a' = nfree a - swapped_in (all_entries ts) ∧ length ts' = length ts ∧
    Forall (table_wf sid tpb n) ts' ∧ table_bytes a' <$> ts' = table_bytes a <$> ts ∧
    ∀ e, e ∈ all_entries ts' → resident e = true).
Proof.
  intros Hi Hb Hts Hn.
  eapply runs_mono; [apply (runs_for_each_tables (λ a, a) swap_in_table (table_wf sid tpb n)
    (λ rest a', nfree a' - swapped_in (all_entries rest) = nfree a - swapped_in (all_entries ts))
    (λ t b t' b', table_wf sid tpb n t' ∧ b' = b ∧ ∀ e, e ∈ entries_ t' → resident e = true)
    (λ _, 0) (λ _, 0)); [|done..]|].
  - intros t rest a' Hi' Hb' Ht Heq. rewrite all_entries_cons, swapped_in_app in Heq.
    pose proof (swapped_in_range (all_entries rest)).
    eapply runs_mono; [apply (swap_in_table_spec sid tpb n a' t); try done; lia|].
    intros [[go a2] t'] (-> & Ht' & [Hm Hbytes] & Hn2 & Hres). split_and!; [done|lia|done..].
  - intros [[go a'] ts'] (-> & Heq & Hm & _ & HR).
    change (swapped_in (all_entries [])) with 0 in Heq.
    split_and!; [done|done|lia|symmetry; by eapply Forall2_length|..].
    + eapply Forall2_Forall_r; [exact HR|]. apply Forall_true. by intros t t' (? & _).
    + clear -HR. induction HR as [|t t' ts ts' (_ & Ht & _) _ IH]; [done|].
      by rewrite !fmap_cons, Ht, IH.
    + clear -HR. intros e (t' & He & Ht')%list_elem_of_bind.
      apply list_elem_of_lookup_1 in Ht' as [i Hi].
      destruct (Forall2_lookup_r _ _ _ _ _ HR Hi) as (t & _ & _ & _ & Hres). by apply Hres.
Qed.

Definition swap_in_ok m (sid : Z) : Prop :=
  ∀ st, sequences_ m !! sid = Some st → swapped_in (all_entries (tables st)) < W32.

Lemma needed_range m sid : 0 <= needed m sid.
Proof.
  unfold needed. destruct (sequences_ m !! sid) as [st|]; [|done].
  by destruct (swapped_in_range (all_entries (tables st))).
Qed.

Lemma swap_in_sequence_spec m sid :
  mgr_wf m → swap_in_ok m sid →
  runs (swap_in_sequence m sid) (λ '(ok, m'),
    mgr_wf m' ∧ contents m' = contents m ∧ prefixes m' = prefixes m ∧
    ok = contains m sid && (needed m sid <=? nfree (allocator_ m)) ∧
    if ok then
      nfree (allocator_ m') = nfree (allocator_ m) - needed m sid ∧ needed m' sid = 0 ∧
      (∀ sid', sid' ≠ sid → sequences_ m' !! sid' = sequences_ m !! sid') ∧ same_index m m'
    else m' = m).
Proof.
  intros Hwf Hok. unfold swap_in_sequence, needed, contains.
  destruct (sequences_ m !! sid) as [st|] eqn:Hs; [|done].
  pose proof (mgr_seq _ Hwf _ _ Hs) as Hsw. pose proof (table_count_pos m Hwf) as Hcp.
  pose proof (swapped_in_range (all_entries (tables st))) as Hr. specialize (Hok st Hs).
  rewrite swapped_count_entries, u32_small by words. cbn [andb].
  set (need := swapped_in _) in *.
  assert (0 <= nfree (allocator_ m)) by (unfold nfree; lia).
  destruct (Z.eqb_spec need 0) as [Hz|Hz].
  { rewrite (proj2 (Z.leb_le _ _)) by lia. split_and!; try done; [lia|].
    rewrite Hs. exact Hz. }
  unfold can_allocate. fold (nfree (allocator_ m)).
  destruct (Z.leb_spec need (nfree (allocator_ m))) as [Hle|Hgt]; cbn [negb]; [|done].
  run_step (swap_in_tables_spec sid (tpb_of m) (seq_blocks st) (allocator_ m) (tables st));
    [apply Hwf|by eapply accounted_backed; [apply Hwf|]|apply Hsw|done|].
  intros [[go a'] ts'] (-> & Hm & Hn & Hlen & Hts & Hbytes & Hres). cbn [runs].
  destruct (seq_wf_rebuild (tpb_of m) (count_of m) sid st (with_tables st ts')
    (seq_blocks st) Hsw) as [Hsw' _]; [lia|done..|apply Hsw|].
  destruct (mgr_preserves m sid st a' (with_tables st ts')) as (Hwf' & Hc & Hp); [done..|].
  split_and!; try done.
  - simpl. rewrite lookup_insert_eq. simpl.
    enough (∀ es, (∀ e, e ∈ es → resident e = true) → swapped_in es = 0) as Hall by auto.
    clear. induction es as [|e es IH]; [done|]. intros Hall.
    rewrite swapped_in_cons, Hall by left. rewrite IH; [done|]. intros. apply Hall. by right.
  - intros sid' Hne. simpl. by rewrite lookup_insert_ne.
  - split; [by eapply moves_pool|done].
Qed.

(** ** Whole requests *)

Lemma request_needed m ids :
  request_swapped_count m ids = u32 (zsum (needed m) ids).
Proof.
  unfold request_swapped_count. f_equal. apply zsum_ext. intros sid _. unfold needed.
  destruct (sequences_ m !! sid) as [st|]; [|done].
  induction (tables st) as [|t ts IH]; [done|].
  rewrite all_entries_cons, swapped_in_app. cbn [zsum]. by rewrite IH.
Qed.

Lemma swap_in_loop_spec m ids :
  mgr_wf m → NoDup ids → (∀ sid, sid ∈ ids → contains m sid = true) →
  zsum (needed m) ids <= nfree (allocator_ m) → zsum (needed m) ids < W32 →
  runs (foldM (λ s sid, if fst s : bool then swap_in_sequence (snd s) sid else Some s)
    (true, m) ids) (λ '(ok, m'),
    ok = true ∧ mgr_wf m' ∧ contents m' = contents m ∧ prefixes m' = prefixes m ∧
    nfree (allocator_ m') = nfree (allocator_ m) - zsum (needed m) ids ∧
    (∀ sid, sid ∈ ids → needed m' sid = 0) ∧
    (∀ sid, sid ∉ ids → sequences_ m' !! sid = sequences_ m !! sid) ∧ same_index m m').
Proof.
  revert m. induction ids as [|sid ids IH]; intros m Hwf Hnd Hin Hn Hmax; simpl in *.
  { split_and!; try done; [lia|]. by intros sid ?%not_elem_of_nil. }
  apply NoDup_cons in Hnd as [Hnew Hnd].
  assert (0 <= zsum (needed m) ids) by (apply zsum_nonneg; intros; apply needed_range).
  pose proof (needed_range m sid).
  run_step (swap_in_sequence_spec m sid Hwf).
  { intros st Hst. unfold needed in *. rewrite Hst in *. lia. }
  intros [ok m1] (Hwf1 & Hc1 & Hp1 & -> & Hrest).
  rewrite Hin, (proj2 (Z.leb_le _ _)) in Hrest |- * by (try left; lia). simpl in *.
  destruct Hrest as (Hn1 & Hz1 & Hoth & Hix1).
  assert (∀ s, s ∈ ids → sequences_ m1 !! s = sequences_ m !! s) as Hsame.
  { intros s Hs. apply Hoth. by intros ->. }
  assert (zsum (needed m1) ids = zsum (needed m) ids) as Hsum.
  { apply zsum_ext. intros s Hs. unfold needed. by rewrite Hsame. }
  eapply runs_mono; [apply IH; try done; try lia|].
  { intros s Hs. unfold contains. rewrite Hsame by done. apply Hin. by right. }
  intros [ok m2] (-> & Hwf2 & Hc2 & Hp2 & Hn2 & Hz2 & Hoth2 & Hix2).
  split_and!; try congruence; try done.
  - lia.
  - intros s [->|Hs]%elem_of_cons; [|by apply Hz2].
    unfold needed. rewrite Hoth2 by done. exact Hz1.
  - intros s [Hne Hs]%not_elem_of_cons. rewrite Hoth2 by done. by apply Hoth.
  - by eapply same_index_trans.
Qed.

Lemma sequences_for_spec m rid :
  mgr_wf m → NoDup (sequences_for m rid) ∧
  ∀ sid, sid ∈ sequences_for m rid ↔
    ∃ st, sequences_ m !! sid = Some st ∧ sm_request_id (metadata st) = rid.
Proof.
  intros Hwf. pose proof (mgr_index _ Hwf) as [_ Hn Hm]. unfold sequences_for. split.
  - destruct (sequences_by_request_ m !! rid) eqn:Hr; [by eapply Hn|constructor].
  - intros sid. apply Hm.
Qed.

(** All of a request's blocks come back, or nothing happens. *)
Lemma swap_in_request_spec m rid :
  mgr_wf m → zsum (needed m) (sequences_for m rid) < W32 →
  runs (swap_in_request m rid) (λ '(ok, m'),
    mgr_wf m' ∧ contents m' = contents m ∧ prefixes m' = prefixes m ∧
    ok = (zsum (needed m) (sequences_for m rid) <=? nfree (allocator_ m)) ∧
    if ok then
      nfree (allocator_ m') =
        nfree (allocator_ m) - zsum (needed m) (sequences_for m rid) ∧
      (∀ sid, sid ∈ sequences_for m rid → needed m' sid = 0) ∧
      (∀ sid, sid ∉ sequences_for m rid → sequences_ m' !! sid = sequences_ m !! sid) ∧
      same_index m m'
    else m' = m).
Proof.
  intros Hwf Hmax. destruct (sequences_for_spec m rid Hwf) as [Hnd Hmem].
  unfold swap_in_request. rewrite request_needed.
  assert (0 <= zsum (needed m) (sequences_for m rid))
    by (apply zsum_nonneg; intros; apply needed_range).
  rewrite u32_small by words. unfold can_allocate. fold (nfree (allocator_ m)).
  assert (0 <= nfree (allocator_ m)) by (unfold nfree; lia).
  destruct (Z.leb_spec (zsum (needed m) (sequences_for m rid)) (nfree (allocator_ m))) as [Hle|Hgt].
  - rewrite andb_false_r. eapply runs_mono; [apply swap_in_loop_spec; try done|].
    + intros sid (st & Hs & _)%Hmem. unfold contains. by rewrite Hs.
    + intros [ok m'] (-> & ? & ? & ? & ? & ? & ? & ?). done.
  - rewrite (proj2 (Z.ltb_lt _ _)) by lia. done.
Qed.

Lemma remapped_other m m' sid sid' :
  remapped evicted m m' sid → sid' ≠ sid → sequences_ m' !! sid' = sequences_ m !! sid'.
Proof.
  unfold remapped. destruct (sequences_ m !! sid) as [st|]; [|by intros ->].
  intros (ts' & -> & _) Hne. by rewrite lookup_insert_ne.
Qed.

Lemma remapped_index m m' sid : remapped evicted m m' sid → same_index m m'.
Proof.
  unfold remapped. destruct (sequences_ m !! sid) as [st|]; [|by intros ->].
  by intros (ts' & _ & ? & _).
Qed.

Lemma swap_out_loop_spec m k ids r :
  mgr_wf m → NoDup ids → is_u32 k → 0 <= r →
  can_store (allocator_ m) (zsum (block_count m) ids + r) →
  runs (foldM (λ s sid, '(k, m') ← swap_out_sequence (snd s) sid; Some (fst s ⊞ k, m'))
    (k, m) ids) (λ '(k', m'),
    mgr_wf m' ∧ contents m' = contents m ∧ prefixes m' = prefixes m ∧
    k' = u32 (k + (nfree (allocator_ m') - nfree (allocator_ m))) ∧ can_store (allocator_ m') r ∧
    (∀ sid, sid ∉ ids → sequences_ m' !! sid = sequences_ m !! sid) ∧ same_index m m' ∧
    nfree (allocator_ m') - zsum (needed m') ids = nfree (allocator_ m) - zsum (needed m) ids).
Proof.
  intros Hwf Hnd Hk Hr. revert k m Hwf Hk.
  induction Hnd as [|sid ids Hnew Hnd IH]; intros k m Hwf Hk Hc; simpl in *.
  { split_and!; try done. by rewrite Z.sub_diag, Z.add_0_r, u32_small. }
  assert (0 <= zsum (block_count m) ids) as Hsum0.
  { apply zsum_nonneg. intros s _. unfold block_count. case_match; lia. }
  apply runs_bind.
  run_step (swap_out_sequence_spec m sid (zsum (block_count m) ids + r) Hwf); [lia| |].
  { eapply can_store_mono; [exact Hc|lia]. }
  intros [k1 m1] (Hwf1 & Hc1 & Hp1 & -> & Hcs & Hn1 & Hrm). cbn [runs].
  assert (zsum (needed m1) ids = zsum (needed m) ids) as Hneed.
  { apply zsum_ext. intros s Hs. unfold needed.
    rewrite (remapped_other _ _ _ _ Hrm); [done|]. by intros ->. }
  assert (zsum (block_count m1) ids = zsum (block_count m) ids) as Hsum.
  { apply zsum_ext. intros s Hs. unfold block_count.
    rewrite (remapped_other _ _ _ _ Hrm); [done|]. by intros ->. }
  eapply runs_mono; [apply IH; [done|apply u32_range|by rewrite Hsum]|].
  intros [k' m'] (Hwf' & Hc' & Hp' & -> & Hcs' & Hoth & Hix & Hn').
  split_and!; try done; try congruence.
  - cbn [fst]. rewrite u32_add_l, <-Z.add_assoc, (Z.add_comm (u32 _)), Z.add_assoc, u32_add_r.
    f_equal. lia.
  - intros s [Hne Hs]%not_elem_of_cons. rewrite Hoth by done. by eapply remapped_other.
  - by eapply same_index_trans; [eapply remapped_index|].
  - assert (needed m' sid = needed m1 sid) as -> by (unfold needed; by rewrite Hoth). lia.
Qed.

(** Swapping out a request: nothing changes but where blocks are; the count is
    the number of frames freed. *)
Lemma swap_out_request_spec m rid :
  mgr_wf m → can_store (allocator_ m) (zsum (block_count m) (sequences_for m rid)) →
  runs (swap_out_request m rid) (λ '(k, m'),
    mgr_wf m' ∧ contents m' = contents m ∧ prefixes m' = prefixes m ∧
    k = u32 (nfree (allocator_ m') - nfree (allocator_ m)) ∧
    (∀ sid, sid ∉ sequences_for m rid → sequences_ m' !! sid = sequences_ m !! sid)).
Proof.
  intros Hwf Hc. destruct (sequences_for_spec m rid Hwf) as [Hnd _].
  eapply runs_mono; [apply (swap_out_loop_spec m 0 _ 0 Hwf Hnd);
    [words|done|by rewrite Z.add_0_r]|].
  by intros [k m'] (? & ? & ? & -> & _ & ? & _).
Qed.
End Swap.
