(* ===== verification/CacheRecords.v ===== *)
(** The prefix index as data: replacing the records of one key while user counts
    stay exact, and finding the record of a hash. *)
From S2P Require Import Prelude.
From S2P Require Import Block.
From S2P Require Import SwapBackend.
From S2P Require Import BlockTable.
From S2P Require Import MemoryAllocator.
From S2P Require Import AllocatorSpec.
From S2P Require Import AllocatorProps.
From S2P Require Import KVCacheManager.
From S2P Require Import CacheAccounting.
From S2P Require Import AllocatorMoves.
From S2P Require Import CacheInvariant.
From S2P Require Import CacheLemmas.

(** The records of a key, none for a key that is absent. *)
Definition records_of (key : string) (pidx : gmap string (list PrefixRecord))
    : list PrefixRecord := default [] (pidx !! key).

(** The index with other records for a key; no key has an empty list. *)
Definition set_records (key : string) (recs : list PrefixRecord)
    (pidx : gmap string (list PrefixRecord)) : gmap string (list PrefixRecord) :=
  match recs with [] => delete key pidx | _ => <[key := recs]> pidx end.

Lemma set_records_lookup key recs pidx key' :
  (∀ k, pidx !! k ≠ Some []) →
  set_records key recs pidx !! key' ≠ Some [] ∧
  records_of key' (set_records key recs pidx) =
    if decide (key' = key) then recs else records_of key' pidx.
Proof.
  intros Hne. unfold records_of, set_records. destruct recs as [|r recs]; case_decide as Hk.
  - subst. rewrite lookup_delete_eq. done.
  - rewrite lookup_delete_ne by done. split; [apply Hne|done].
  - subst. rewrite lookup_insert_eq. done.
  - rewrite lookup_insert_ne by done. split; [apply Hne|done].
Qed.

Lemma records_of_Some key pidx r :
  r ∈ records_of key pidx ↔ ∃ recs, pidx !! key = Some recs ∧ r ∈ recs.
Proof.
  unfold records_of. destruct (pidx !! key) as [recs|]; simpl.
  - split; [eauto|]. by intros (recs' & [= <-] & ?).
  - split; [by intros ?%not_elem_of_nil|]. by intros (? & ? & _).
Qed.

Lemma pin_refs_lookup id key pidx :
  pin_refs id pidx = record_refs id (records_of key pidx) + pin_refs id (delete key pidx).
Proof.
  unfold pin_refs, records_of. destruct (pidx !! key) as [recs|] eqn:Hk.
  - by rewrite (map_zsum_delete _ pidx key recs).
  - by rewrite delete_id.
Qed.

Lemma pin_refs_set id key recs pidx :
  pin_refs id (set_records key recs pidx) =
  pin_refs id pidx - record_refs id (records_of key pidx) + record_refs id recs.
Proof.
  rewrite (pin_refs_lookup id key pidx). unfold set_records, pin_refs. destruct recs as [|r recs].
  - change (record_refs id []) with 0. lia.
  - rewrite <-insert_delete_eq, map_zsum_insert by apply lookup_delete_eq. lia.
Qed.

(** A consistent prefix index after the records of one key and the sequences
    changed: the other keys keep their users. *)
Lemma prefix_wf_replace tpb count seqs seqs' pidx key recs :
  prefix_wf tpb count seqs pidx → key ≠ ""%string →
  (∀ key' hash, key' ≠ key → key' ≠ ""%string →
     prefix_users key' hash seqs' = prefix_users key' hash seqs) →
  (∀ sid st, seqs' !! sid = Some st → prefix_key st ≠ ""%string → prefix_key st ≠ key →
     ∃ st0, seqs !! sid = Some st0 ∧ prefix_key st0 = prefix_key st ∧
            prefix_hash st0 = prefix_hash st) →
  NoDup (content_hash <$> recs) →
  (∀ r, r ∈ recs → record_wf tpb count r ∧ users r = prefix_users key (content_hash r) seqs' ∧
     0 < users r < W32) →
  (∀ sid st, seqs' !! sid = Some st → prefix_key st = key →
     ∃ r, r ∈ recs ∧ content_hash r = prefix_hash st) →
  prefix_wf tpb count seqs' (set_records key recs pidx).
Proof.
  intros [He Hnm Hh Hr Hm] Hkey Hus Hold Hnd Hrec Hmem.
  assert (∀ key' recs', set_records key recs pidx !! key' = Some recs' →
    key' = key ∧ recs' = recs ∨ key' ≠ key ∧ pidx !! key' = Some recs') as Hcase.
  { intros key' recs' Hk'. destruct (set_records_lookup key recs pidx key' He) as [_ Hl].
    unfold records_of in Hl. rewrite Hk' in Hl. simpl in Hl. case_decide as Hd; [by left|].
    right. split; [done|]. unfold set_records in Hk'.
    destruct recs; [by rewrite lookup_delete_ne in Hk'|by rewrite lookup_insert_ne in Hk']. }
  split.
  - intros key'. by apply set_records_lookup.
  - destruct (set_records key recs pidx !! "") as [recs'|] eqn:Hk; [|done].
    destruct (Hcase _ _ Hk) as [[<- _]|[_ Hc]]; [done|]. congruence.
  - intros key' recs' Hk. destruct (Hcase _ _ Hk) as [[-> ->]|[_ Hc]]; [done|by eapply Hh].
  - intros key' recs' r Hk Hin. destruct (Hcase _ _ Hk) as [[-> ->]|[Hne Hc]]; [by apply Hrec|].
    destruct (Hr _ _ _ Hc Hin) as (Hw & Hu & Hpos). split_and!; [done| |lia..].
    rewrite Hus; [done|done|]. intros ->. congruence.
  - intros sid st Hs Hpk.
    destruct (decide (prefix_key st = key)) as [Hk|Hk].
    + destruct (Hmem _ _ Hs Hk) as (r & Hin & Hhash). exists recs, r. split_and!; [|done..].
      rewrite Hk. unfold set_records. destruct recs; [by apply not_elem_of_nil in Hin|].
      apply lookup_insert_eq.
    + destruct (Hold _ _ Hs Hpk Hk) as (st0 & Hs0 & Hk0 & Hh0).
      destruct (Hm sid st0 Hs0) as (recs0 & r & Hl & Hin & Hhash); [by rewrite Hk0|].
      exists recs0, r. rewrite <-Hh0. split_and!; [|done..]. rewrite Hk0 in Hl.
      unfold set_records. destruct recs; [by rewrite lookup_delete_ne|by rewrite lookup_insert_ne].
Qed.

(** [find_record] returns the only record with a hash. *)
Lemma find_record_Some hash recs i r :
  find_record hash recs = Some (i, r) → recs !! i = Some r ∧ content_hash r = hash.
Proof. unfold find_record. by intros (? & ? & _)%list_find_Some. Qed.

Lemma find_record_None hash recs :
  find_record hash recs = None → ∀ r, r ∈ recs → content_hash r ≠ hash.
Proof. unfold find_record. intros Hf%list_find_None. by rewrite Forall_forall in Hf. Qed.

Lemma find_record_elem hash recs r :
  r ∈ recs → content_hash r = hash → ∃ i r', find_record hash recs = Some (i, r').
Proof.
  intros Hin Hh. destruct (find_record hash recs) as [[i r']|] eqn:Hf; [by eauto|].
  by destruct (find_record_None _ _ Hf r Hin).
Qed.

(** Records at different positions have different hashes. *)
Lemma record_hash_inj (recs : list PrefixRecord) (i j : nat) r r' :
  NoDup (content_hash <$> recs) → recs !! i = Some r → recs !! j = Some r' →
  content_hash r = content_hash r' → i = j.
Proof.
  intros Hnd Hi Hj Heq. eapply NoDup_lookup; [exact Hnd|..].
  - by rewrite list_lookup_fmap, Hi.
  - by rewrite list_lookup_fmap, Hj, Heq.
Qed.

(** The bytes a record pins do not depend on its users. *)
Lemma record_refs_users id recs i r n :
  recs !! i = Some r → record_refs id (<[i := with_users r n]> recs) = record_refs id recs.
Proof.
  intros Hi. pose proof (take_drop_middle _ _ _ Hi) as Hs. rewrite <-Hs at 2.
  rewrite insert_take_drop by (by eapply lookup_lt_Some). unfold record_refs.
  by rewrite !zsum_app.
Qed.

Lemma record_refs_delete id recs i r :
  recs !! i = Some r →
  record_refs id (delete i recs) = record_refs id recs - zcount id (physical_ids r).
Proof.
  intros Hi. pose proof (take_drop_middle _ _ _ Hi) as Hs. rewrite <-Hs at 2.
  rewrite delete_take_drop. unfold record_refs. rewrite !zsum_app. simpl. lia.
Qed.

Lemma hashes_users (recs : list PrefixRecord) (i : nat) r n :
  recs !! i = Some r → content_hash <$> <[i := with_users r n]> recs = content_hash <$> recs.
Proof.
  intros Hi. rewrite list_fmap_insert. apply list_insert_id. by rewrite list_lookup_fmap, Hi.
Qed.
