(* ===== verification/CacheRelease.v ===== *)
(** Releasing a sequence: its references, its slots and its share of a published
    prefix go back to the pool, and nothing else changes. *)
From S2P Require Import Prelude.
From S2P Require Import Block.
From S2P Require Import SwapBackend.
From S2P Require Import BlockTable.
From S2P Require Import MemoryAllocator.
From S2P Require Import AllocatorSpec.
From S2P Require Import AllocatorProps.
From S2P Require Import KVCacheManager.
From S2P Require Import CacheAccounting.
From S2P Require Import AllocatorMoves.
From S2P Require Import CacheInvariant.
From S2P Require Import CacheLemmas.
From S2P Require Import CacheLifecycle.
From S2P Require Import CacheRecords.

(** The records of a key after one user left the record at position [i]. *)
Definition drop_user (i : nat) (r : PrefixRecord) (recs : list PrefixRecord)
    : list PrefixRecord :=
  if 0 <? users r - 1 then <[i := with_users r (users r - 1)]> recs else delete i recs.

(** The ids that record gives up. *)
Definition dropped_ids (r : PrefixRecord) : list Z :=
  if 0 <? users r - 1 then [] else physical_ids r.

Lemma drop_user_refs id i r recs :
  recs !! i = Some r →
  record_refs id (drop_user i r recs) = record_refs id recs - zcount id (dropped_ids r).
Proof.
  intros Hi. unfold drop_user, dropped_ids. destruct (0 <? _).
  - rewrite record_refs_users by done. autorewrite with holds. lia.
  - by apply record_refs_delete.
Qed.

Lemma drop_user_elem i r recs r' :
  recs !! i = Some r → NoDup (content_hash <$> recs) → r' ∈ drop_user i r recs →
  (r' = with_users r (users r - 1) ∧ 0 < users r - 1) ∨
  (r' ∈ recs ∧ content_hash r' ≠ content_hash r).
Proof.
  intros Hi Hnd Hin. unfold drop_user in Hin.
  destruct (Z.ltb_spec 0 (users r - 1)) as [Hpos|Hpos].
  - apply list_elem_of_lookup_1 in Hin as [j Hj].
    apply list_lookup_insert_Some in Hj as [(<- & <- & _)|[Hne Hj]]; [by left|right].
    split; [by eapply list_elem_of_lookup_2|]. intros Heq. apply Hne. symmetry.
    by eapply record_hash_inj.
  - right. apply list_elem_of_lookup_1 in Hin as [j Hj].
    assert (∃ k, recs !! k = Some r' ∧ k ≠ i) as (k & Hk & Hne).
    { destruct (decide (j < i)%nat) as [Hlt|Hge].
      - rewrite list_lookup_delete_lt in Hj by done. exists j. split; [done|lia].
      - rewrite list_lookup_delete_ge in Hj by lia. exists (S j). split; [done|lia]. }
    split; [by eapply list_elem_of_lookup_2|]. intros Heq. by destruct (Hne (record_hash_inj _ _ _ _ _ Hnd Hk Hi Heq)).
Qed.

Lemma drop_user_hashes i r recs :
  recs !! i = Some r → NoDup (content_hash <$> recs) →
  NoDup (content_hash <$> drop_user i r recs).
Proof.
  intros Hi Hnd. unfold drop_user. destruct (0 <? _).
  - by rewrite hashes_users.
  - eapply sublist_NoDup; [exact Hnd|]. apply fmap_sublist, sublist_delete.
Qed.

(** Leaving a prefix keeps the index consistent. *)
Lemma prefix_wf_leave tpb count seqs pidx sid st recs i r :
  prefix_wf tpb count seqs pidx → seqs !! sid = Some st → prefix_key st ≠ ""%string →
  pidx !! prefix_key st = Some recs → recs !! i = Some r → content_hash r = prefix_hash st →
  prefix_wf tpb count (delete sid seqs) (set_records (prefix_key st) (drop_user i r recs) pidx).
Proof.
  intros Hpw Hs Hkey Hrecs Hi Hh. pose proof Hpw as [_ _ Hnd Hr Hm].
  specialize (Hnd _ _ Hrecs). apply (prefix_wf_replace _ _ seqs); try done.
  - intros key' hash Hne _. rewrite (prefix_users_delete _ _ _ _ st) by done.
    rewrite decide_False by (intros [Hc _]; congruence). lia.
  - intros sid' st' [_ Hs']%lookup_delete_Some _ _. by exists st'.
  - by apply drop_user_hashes.
  - intros r' Hin. rewrite (prefix_users_delete _ _ _ _ st) by done.
    destruct (drop_user_elem _ _ _ _ Hi Hnd Hin) as [[-> Hpos]|[Hin' Hne]].
    + destruct (Hr _ _ r Hrecs) as (Hw & Hu & Hlt); [by eapply list_elem_of_lookup_2|].
      simpl. rewrite decide_True by done. split_and!; [exact Hw|lia..].
    + destruct (Hr _ _ r' Hrecs Hin') as (Hw & Hu & Hlt).
      rewrite decide_False by (intros [_ Hc]; congruence). split_and!; [exact Hw|lia..].
  - intros sid' st' [Hne Hs']%lookup_delete_Some Hk.
    destruct (Hm _ _ Hs') as (recs' & r' & Hrecs' & Hin & Hh'); [by rewrite Hk|].
    rewrite Hk, Hrecs in Hrecs'. injection Hrecs' as <-.
    destruct (decide (content_hash r' = content_hash r)) as [Heq|Hdiff].
    + assert (0 < users r - 1) as Hpos.
      { destruct (Hr _ _ r Hrecs) as (_ & -> & _); [by eapply list_elem_of_lookup_2|].
        pose proof (map_zsum_two (λ _ st0, if decide (prefix_key st0 = prefix_key st ∧
          prefix_hash st0 = content_hash r) then 1 else 0) seqs sid sid' st st') as H2.
        specialize (H2 ltac:(intros; simpl; case_decide; lia) Hs Hs' Hne). simpl in H2.
        rewrite !decide_True in H2 by (split; congruence). unfold prefix_users. lia. }
      exists (with_users r (users r - 1)). split; [|simpl; congruence].
      unfold drop_user. rewrite (proj2 (Z.ltb_lt _ _)) by done.
      eapply list_elem_of_lookup_2, list_lookup_insert_eq. by eapply lookup_lt_Some.
    + exists r'. split; [|done]. apply list_elem_of_lookup_1 in Hin as [j Hj].
      assert (j ≠ i) as Hji by (intros ->; congruence). unfold drop_user.
      destruct (0 <? users r - 1).
      * apply (list_elem_of_lookup_2 _ j). by rewrite list_lookup_insert_ne.
      * destruct (decide (j < i)%nat).
        -- apply (list_elem_of_lookup_2 _ j). by rewrite list_lookup_delete_lt.
        -- apply (list_elem_of_lookup_2 _ (j - 1)).
           rewrite list_lookup_delete_ge by lia. by replace (S (j - 1)) with j by lia.
Qed.

(** A sequence without a prefix leaves no trace in the index. *)
Lemma prefix_wf_delete tpb count seqs pidx sid st :
  prefix_wf tpb count seqs pidx → seqs !! sid = Some st → prefix_key st = ""%string →
  prefix_wf tpb count (delete sid seqs) pidx.
Proof.
  intros [He Hn Hh Hr Hm] Hs Hk. split; [done..| |].
  - intros key recs r Hrec Hin. rewrite (prefix_users_delete _ _ _ _ st) by done.
    rewrite decide_False by (rewrite Hk; intros [<- _]; congruence).
    rewrite Z.sub_0_r. by eapply Hr.
  - intros sid' s [_ Hs']%lookup_delete_Some. by eapply Hm.
Qed.

(** ** Pins as holdings *)

(** An entry that stands for one pin of a record. *)
Definition pin_entry (id : Z) : BlockTableEntry :=
  mkBlockTableEntry (block_at 0 0 0) id false None.

Lemma frames_of_pins l : frames_of (pin_entry <$> l) = l.
Proof. induction l as [|id l IH]; [done|]. by rewrite fmap_cons, frames_of_cons, IH. Qed.

Lemma slots_of_pins l : slots_of (pin_entry <$> l) = [].
Proof. induction l as [|id l IH]; [done|]. by rewrite fmap_cons, slots_of_cons, IH. Qed.

#[export] Hint Rewrite frames_of_pins slots_of_pins : holds.

Section Release.
Context {B : Type} `{SwapBackendLaws B}.
Implicit Types a : MemoryAllocator B.
Implicit Types m : KVCacheManager B.

(** The pins of records and the entries of two sequences are backed together. *)
Lemma accounted_backed_pins a seqs pidx gone sid st :
  accounted a seqs pidx → (∀ id, zcount id gone <= pin_refs id pidx) →
  seqs !! sid = Some st →
  backed a ((pin_entry <$> gone) ++ all_entries (tables st)) ∧
  ∀ sid' st', seqs !! sid' = Some st' → sid ≠ sid' →
    backed a (((pin_entry <$> gone) ++ all_entries (tables st)) ++ all_entries (tables st')).
Proof.
  intros [Hr Hh] Hg Hs.
  split; [|intros sid' st' Hs' Hne]; split; intros i; autorewrite with holds;
    [rewrite Hr; specialize (Hg i); unfold seq_refs|rewrite Hh; unfold slot_refs
    |rewrite Hr; specialize (Hg i); unfold seq_refs|rewrite Hh; unfold slot_refs].
  - pose proof (map_zsum_elem (λ _ st, zcount i (frames_of (all_entries (tables st)))) seqs sid st
      (λ _ _ _, zcount_nonneg _ _) Hs). simpl in *. lia.
  - apply (map_zsum_elem (λ _ st, zcount i (slots_of (all_entries (tables st)))) seqs sid st); [|done].
    intros. apply zcount_nonneg.
  - pose proof (map_zsum_two (λ _ st, zcount i (frames_of (all_entries (tables st)))) seqs
      sid sid' st st' (λ _ _ _, zcount_nonneg _ _) Hs Hs' Hne). simpl in *. lia.
  - apply (map_zsum_two (λ _ st, zcount i (slots_of (all_entries (tables st)))) seqs
      sid sid' st st'); [intros; apply zcount_nonneg|done..].
Qed.

(** A record that outlives the operation: the same frames under the same key. *)
Definition outlives (pidx pidx' : gmap string (list PrefixRecord)) : Prop :=
  ∀ key r', r' ∈ records_of key pidx' →
    ∃ r, r ∈ records_of key pidx ∧ physical_ids r' = physical_ids r ∧
      content_hash r' = content_hash r ∧ record_token_count r' = record_token_count r.

Lemma drop_user_outlives key i r pidx :
  pidx !! key = Some (records_of key pidx) → records_of key pidx !! i = Some r →
  NoDup (content_hash <$> records_of key pidx) → (∀ k, pidx !! k ≠ Some []) →
  outlives pidx (set_records key (drop_user i r (records_of key pidx)) pidx).
Proof.
  intros Hk Hi Hnd Hne key' r' Hin.
  destruct (set_records_lookup key (drop_user i r (records_of key pidx)) pidx key' Hne)
    as [_ Hl]. rewrite Hl in Hin. case_decide as Hd; [subst key'|by exists r'].
  destruct (drop_user_elem _ _ _ _ Hi Hnd Hin) as [[-> _]|[? _]]; [|by exists r'].
  exists r. split; [by eapply list_elem_of_lookup_2|done].
Qed.

Lemma set_records_cons key recs pidx :
  recs ≠ [] → set_records key recs pidx = <[key := recs]> pidx.
Proof. by destruct recs. Qed.

(** [drop_prefix_user]: the pins of the sequence's record go back when it was
    the last user. *)
Lemma drop_prefix_user_spec m sid st :
  mgr_wf m → sequences_ m !! sid = Some st →
  ∃ a' pidx' gone st',
    drop_prefix_user m st =
      (mkKVCacheManager a' (sequences_ m) (sequences_by_request_ m) pidx', st') ∧
    tables st' = tables st ∧ metadata st' = metadata st ∧
    moves (allocator_ m) a' gone [] [] [] ∧
    (∀ id, pin_refs id (prefix_index_ m) = pin_refs id pidx' + zcount id gone) ∧
    prefix_wf (tpb_of m) (count_of m) (delete sid (sequences_ m)) pidx' ∧
    outlives (prefix_index_ m) pidx'.
Proof.
  intros Hwf Hs. pose proof (mgr_prefix _ Hwf) as Hpw. unfold drop_prefix_user.
  destruct (decide (prefix_key st = ""%string)) as [Hk|Hk].
  { exists (allocator_ m), (prefix_index_ m), [], st. split_and!; try done.
    - by destruct m.
    - apply moves_refl, Hwf.
    - intros id. autorewrite with holds. lia.
    - by eapply prefix_wf_delete.
    - intros key r Hin. by exists r. }
  destruct (prefix_member _ _ _ _ Hpw _ _ Hs Hk) as (recs & r0 & Hrecs & Hin & Hh).
  destruct (find_record_elem _ _ _ Hin Hh) as (i & r & Hf). rewrite Hrecs, Hf.
  destruct (find_record_Some _ _ _ _ Hf) as [Hi Hhash].
  assert (records_of (prefix_key st) (prefix_index_ m) = recs) as Hro
    by (unfold records_of; by rewrite Hrecs).
  destruct (prefix_records _ _ _ _ Hpw _ _ r Hrecs) as (_ & _ & Hu);
    [by eapply list_elem_of_lookup_2|].
  rewrite (proj2 (Z.ltb_lt 0 (users r))), (u32_small (users r - 1)) by words.
  pose proof (prefix_wf_leave _ _ _ _ _ _ _ _ _ Hpw Hs Hk Hrecs Hi Hhash) as Hleave.
  assert (NoDup (content_hash <$> recs)) as Hnd by exact (prefix_hashes _ _ _ _ Hpw _ _ Hrecs).
  assert (outlives (prefix_index_ m) (set_records (prefix_key st) (drop_user i r recs)
    (prefix_index_ m))) as Hout.
  { pose proof (drop_user_outlives (prefix_key st) i r (prefix_index_ m)) as Ho.
    rewrite Hro in Ho. apply Ho; try done. by apply Hpw. }
  assert (∀ id, pin_refs id (prefix_index_ m) =
    pin_refs id (set_records (prefix_key st) (drop_user i r recs) (prefix_index_ m))
      + zcount id (dropped_ids r)) as Hpins.
  { intros id. rewrite pin_refs_set, Hro, drop_user_refs by done. lia. }
  unfold drop_user, dropped_ids in *. destruct (Z.ltb_spec 0 (users r - 1)) as [Hpos|Hz].
  - rewrite set_records_cons in Hleave, Hout, Hpins
      by (intros Hc%(f_equal length); rewrite length_insert in Hc; by destruct recs).
    eexists _, _, [], _. split_and!; [done|done|done| | | |]; try done.
    apply moves_refl, Hwf.
  - eexists _, _, (physical_ids r), _. split_and!; [done|done|done| | | |]; try done.
    apply release_all_moves; [apply Hwf|]. intros id. rewrite (proj1 (mgr_accounted _ Hwf)).
    pose proof (record_pins id _ _ _ _ Hrecs ltac:(by eapply list_elem_of_lookup_2)).
    pose proof (seq_refs_nonneg id (sequences_ m)). lia.
Qed.

(** Giving up pins and entries together. *)
Lemma release_moves_all a a1 gone es :
  backed a ((pin_entry <$> gone) ++ es) → moves a a1 gone [] [] [] →
  entries_move a ((pin_entry <$> gone) ++ es) (foldl release_entry a1 es) [].
Proof.
  intros Hb Hm.
  assert (entries_move a (pin_entry <$> gone) a1 []) as Hm1.
  { unfold entries_move. autorewrite with holds. exact Hm. }
  assert (entries_move a ((pin_entry <$> gone) ++ es) a1 es) as Hm2
    by apply (entries_move_frame _ _ [] _ [] es Hm1).
  eapply moves_trans; [exact Hm2|]. apply release_entries_moves; [apply Hm|].
  by eapply moves_backed.
Qed.

Lemma release_sequence_spec m sid :
  mgr_wf m →
  let m' := release_sequence m sid in
  mgr_wf m' ∧ sequences_ m' = delete sid (sequences_ m) ∧
  same_pool (allocator_ m) (allocator_ m') ∧
  contents m' = delete sid (contents m) ∧
  outlives (prefix_index_ m) (prefix_index_ m') ∧
  (∀ key r, r ∈ records_of key (prefix_index_ m') →
     record_bytes (allocator_ m') r = record_bytes (allocator_ m) r).
Proof.
  intros Hwf. unfold release_sequence.
  destruct (sequences_ m !! sid) as [st|] eqn:Hs.
  2:{ split_and!; [done|by rewrite delete_id|done| |by intros key r Hr; exists r|done].
      rewrite delete_id; [done|]. unfold contents. by rewrite lookup_fmap, Hs. }
  destruct (drop_prefix_user_spec m sid st Hwf Hs)
    as (a1 & pidx' & gone & st' & -> & Hts & Hmd & Hm1 & Hpins & Hpw & Hout).
  rewrite Hts, Hmd. simpl. rewrite release_tables_entries.
  pose proof Hwf as [Hi Hsh Hseq Hacc Hidx Hpre].
  assert (∀ id, zcount id gone <= pin_refs id (prefix_index_ m)) as Hg.
  { intros id. rewrite Hpins. pose proof (pin_refs_nonneg id pidx'). lia. }
  destruct (accounted_backed_pins _ _ _ gone sid st Hacc Hg Hs) as [Hb Hb2].
  pose proof (release_moves_all _ _ _ _ Hb Hm1) as Hm.
  set (a2 := foldl release_entry a1 (all_entries (tables st))) in *.
  pose proof (moves_pool _ _ _ _ _ _ Hm) as Hp.
  set (m' := mkKVCacheManager a2 _ _ _).
  assert (tpb_of m' = tpb_of m) as Htpb by apply (same_pool_tpb _ _ Hp).
  assert (count_of m' = count_of m) as Hcnt by apply (same_pool_count _ _ Hp).
  assert (accounted a2 (delete sid (sequences_ m)) pidx') as Hacc'.
  { destruct Hacc as [Hr Hh], Hm as [_ _ Hmr Hmh _ _]. split; intros i.
    - rewrite Hmr, Hr, Hpins. unfold seq_refs.
      rewrite (map_zsum_delete _ (sequences_ m) sid st) by done.
      autorewrite with holds. lia.
    - rewrite Hmh, Hh. unfold slot_refs.
      rewrite (map_zsum_delete _ (sequences_ m) sid st) by done.
      autorewrite with holds. lia. }
  split_and!; [split|..]; try done.
  - apply Hm.
  - simpl. by rewrite (same_pool_config _ _ Hp).
  - rewrite Htpb, Hcnt. simpl. intros sid' s [_ ?]%lookup_delete_Some. auto.
  - by apply index_wf_delete.
  - by rewrite Htpb, Hcnt.
  - unfold contents. simpl. rewrite fmap_delete. apply map_eq. intros k.
    destruct (decide (k = sid)) as [->|]; [by rewrite !lookup_delete_eq|].
    rewrite !lookup_delete_ne, !lookup_fmap by done.
    destruct (sequences_ m !! k) as [s|] eqn:Hk; [|done]. simpl. f_equal.
    eapply moves_tables_bytes; [exact Hm|]. by apply (Hb2 k).
  - intros key r Hr. eapply moves_record_bytes; [exact Hm|]. intros id Hid.
    apply records_of_Some in Hr as (recs & Hk & Hin).
    pose proof (record_pins id _ _ _ _ Hk Hin). apply zcount_pos in Hid.
    destruct Hacc as [Hr _]. rewrite Hr, Hpins. autorewrite with holds. simpl in *.
    unfold seq_refs. rewrite (map_zsum_delete _ (sequences_ m) sid st) by done.
    pose proof (seq_refs_nonneg id (delete sid (sequences_ m))). unfold seq_refs in *. lia.
Qed.

Lemma release_all_spec m ids :
  mgr_wf m →
  let m' := foldl release_sequence m ids in
  mgr_wf m' ∧ sequences_ m' = foldl (λ s id, delete id s) (sequences_ m) ids ∧
  same_pool (allocator_ m) (allocator_ m') ∧
  contents m' = foldl (λ s id, delete id s) (contents m) ids.
Proof.
  revert m. induction ids as [|sid ids IH]; intros m Hwf; simpl; [done|].
  destruct (release_sequence_spec m sid Hwf) as (Hwf1 & Hs1 & Hp1 & Hc1 & _).
  destruct (IH _ Hwf1) as (Hwf2 & Hs2 & Hp2 & Hc2). rewrite Hs1 in Hs2. rewrite Hc1 in Hc2.
  split_and!; try done. unfold same_pool in *. congruence.
Qed.

(** Nothing is left behind: without sequences the pool is as it was made. *)
Lemma no_sequences m :
  mgr_wf m → sequences_ m = ∅ →
  (∀ id, refs (allocator_ m) id = 0) ∧ swapped (allocator_ m) = ∅ ∧
  prefix_index_ m = ∅ ∧ sequences_by_request_ m = ∅ ∧
  nfree (allocator_ m) = max_blocks (config_ (allocator_ m)).
Proof.
  intros [Hi _ _ [Hr Hh] Hidx Hpw] He. rewrite He in *.
  assert (prefix_index_ m = ∅) as Hp.
  { apply map_empty. intros key. destruct (prefix_index_ m !! key) as [recs|] eqn:Hk; [|done].
    destruct recs as [|r recs]; [by destruct (prefix_nonempty _ _ _ _ Hpw key)|].
    destruct (prefix_records _ _ _ _ Hpw _ _ r Hk) as (_ & Hu & Hpos); [by left|].
    unfold prefix_users in Hu. rewrite map_zsum_empty in Hu. lia. }
  assert (∀ id, refs (allocator_ m) id = 0) as Hz.
  { intros id. rewrite Hr, Hp. unfold seq_refs, pin_refs. by rewrite !map_zsum_empty. }
  split_and!; [done| |done| |].
  - apply map_empty. intros s. specialize (Hh s). unfold held, slot_refs in Hh.
    rewrite map_zsum_empty in Hh. by case_match.
  - apply map_empty. intros rid. destruct (sequences_by_request_ m !! rid) as [ids|] eqn:Hk; [|done].
    destruct ids as [|sid ids]; [by destruct (index_nonempty _ _ Hidx rid)|].
    destruct (proj1 (index_member _ _ Hidx rid sid)) as (st & Hs & _); [rewrite Hk; by left|].
    by rewrite lookup_empty in Hs.
  - rewrite (nfree_count _ (proj1 Hi)), filter_all by done. rewrite length_seqZ.
    pose proof (wf_max _ (proj1 Hi)). words.
Qed.
End Release.
