(* ===== verification/CachePrefix.v ===== *)
(** Publishing a prompt prefix and attaching it to an empty sequence: the pins
    keep the frames, the attached sequence stores the published bytes. *)
From S2P Require Import Prelude.
From S2P Require Import Block.
From S2P Require Import SwapBackend.
From S2P Require Import BlockTable.
From S2P Require Import MemoryAllocator.
From S2P Require Import AllocatorSpec.
From S2P Require Import AllocatorProps.
From S2P Require Import KVCacheManager.
From S2P Require Import CacheAccounting.
From S2P Require Import AllocatorMoves.
From S2P Require Import CacheInvariant.
From S2P Require Import CacheLemmas.
From S2P Require Import CacheLifecycle.
From S2P Require Import CacheGrowth.
From S2P Require Import CacheRecords.
From S2P Require Import CacheRelease.

(** ** The loops of [attach_prefix] *)

(** The entry the loop maps for block [i]. *)
Definition attached_entry (sid tpb : Z) (i : nat) (id : Z) : BlockTableEntry :=
  mkBlockTableEntry (block_at sid tpb i) id false None.

Section Attach.
Context {B : Type} `{SwapBackendLaws B}.
Implicit Types a : MemoryAllocator B.
Implicit Types m : KVCacheManager B.

Lemma attach_block_spec sid tpb ids k a t n id :
  table_wf sid tpb n t → is_u32 tpb → Z.of_nat n + 1 < W32 → ids !! k = Some id →
  ∃ t', attach_block sid tpb ids (k, a, t) (Z.of_nat n) = Some (S k, retain a id, t') ∧
    entries_ t' = entries_ t ++ [attached_entry sid tpb n id] ∧ table_wf sid tpb (S n) t'.
Proof.
  intros Ht Htpb Hmax Hid. unfold attach_block. rewrite Hid. cbn [mbind option_bind].
  rewrite (u32_small (Z.of_nat n)) by words.
  rewrite (u64_small (Z.of_nat n * tpb)) by (unfold is_u64, is_u32, W32, W64 in *; nia).
  unfold logical_at. rewrite (table_kind _ _ _ _ Ht).
  destruct (table_wf_snoc sid tpb n t (block_at sid tpb n) id false Ht Hmax eq_refl)
    as [Hes Ht']. eauto.
Qed.

Lemma attach_blocks_spec sid tpb ids l k a t n :
  table_wf sid tpb n t → is_u32 tpb → Z.of_nat n + Z.of_nat (length l) < W32 →
  (∀ i, (i < length l)%nat → ids !! (k + i)%nat = l !! i) →
  ∃ t', foldM (attach_block sid tpb ids) (k, a, t)
          (seqZ (Z.of_nat n) (Z.of_nat (length l))) =
        Some ((k + length l)%nat, foldl retain a l, t') ∧
    entries_ t' = entries_ t ++ imap (λ i id, attached_entry sid tpb (n + i) id) l ∧
    table_wf sid tpb (n + length l) t'.
Proof.
  revert k a t n. induction l as [|id l IH]; intros k a t n Ht Htpb Hmax Hl.
  { exists t. split_and!; [by rewrite Nat.add_0_r|by rewrite app_nil_r|by rewrite Nat.add_0_r]. }
  cbn [length] in *. rewrite seqZ_cons by lia. cbn [foldM].
  destruct (attach_block_spec sid tpb ids k a t n id Ht Htpb) as (t1 & -> & Hes1 & Ht1);
    [lia|rewrite <-(Nat.add_0_r k); apply (Hl 0%nat); lia|]. cbn [mbind option_bind].
  destruct (IH (S k) (retain a id) t1 (S n) Ht1 Htpb) as (t' & Hrun & Hes' & Ht'); [lia|..].
  { intros i Hi. replace (S k + i)%nat with (k + S i)%nat by lia. apply (Hl (S i)). lia. }
  replace (Z.succ (Z.of_nat n)) with (Z.of_nat (S n)) by lia.
  replace (Z.pred (Z.of_nat (S (length l)))) with (Z.of_nat (length l)) by lia.
  exists t'. split_and!.
  - rewrite Hrun. simpl. do 3 f_equal. lia.
  - rewrite Hes', Hes1, <-app_assoc. f_equal. rewrite imap_cons. simpl. f_equal.
    + by rewrite Nat.add_0_r.
    + apply imap_ext. intros i x _. simpl. by rewrite Nat.add_succ_r.
  - by replace (n + S (length l))%nat with (S n + length l)%nat by lia.
Qed.

Lemma frames_of_attached sid tpb n l :
  frames_of (imap (λ i id, attached_entry sid tpb (n + i) id) l) = l ∧
  slots_of (imap (λ i id, attached_entry sid tpb (n + i) id) l) = [] ∧
  physical_id <$> imap (λ i id, attached_entry sid tpb (n + i) id) l = l ∧
  Forall (λ e, writable e = false ∧ resident e = true)
    (imap (λ i id, attached_entry sid tpb (n + i) id) l).
Proof.
  revert n. induction l as [|id l IH]; intros n; [by repeat constructor|].
  rewrite imap_cons.
  assert (imap ((λ i id0, attached_entry sid tpb (n + i) id0) ∘ S) l =
          imap (λ i id0, attached_entry sid tpb (S n + i) id0) l) as ->.
  { apply imap_ext. intros i x _. simpl. by rewrite Nat.add_succ_r. }
  destruct (IH (S n)) as (Hf & Hs & Hp & Hw).
  rewrite frames_of_cons, slots_of_cons, fmap_cons, Hf, Hs, Hp. split_and!; [done..|].
  by constructor.
Qed.

(** All tables: each gets the next [n] ids. *)
Lemma attach_tables_spec sid tpb n ts pre rest a :
  Forall (table_wf sid tpb 0) ts → is_u32 tpb → Z.of_nat n < W32 →
  length rest = (length ts * n)%nat →
  ∃ ts', for_each (attach_table sid tpb (pre ++ rest) (Z.of_nat n)) (length pre, a) ts =
      Some (true, (length (pre ++ rest), foldl retain a rest), ts') ∧
    length ts' = length ts ∧ Forall (table_wf sid tpb n) ts' ∧
    frames_of (all_entries ts') = rest ∧ slots_of (all_entries ts') = [] ∧
    Forall (λ e, writable e = false ∧ resident e = true) (all_entries ts') ∧
    physical_id <$> all_entries ts' = rest.
Proof.
  intros Hts Htpb Hn. revert pre rest a.
  induction Hts as [|t ts Ht Hts IH]; intros pre rest a Hlen; cbn [length] in Hlen.
  { destruct rest; [|done]. exists []. rewrite app_nil_r. split_and!; done. }
  assert (rest = take n rest ++ drop n rest) as Hsp by by rewrite take_drop.
  set (l := take n rest) in *. set (rest' := drop n rest) in *.
  assert (length l = n) as Hl by (unfold l; rewrite length_take; lia).
  assert (length rest' = (length ts * n)%nat) as Hr by (unfold rest'; rewrite length_drop; lia).
  clearbody l rest'. subst rest. cbn [for_each].
  destruct (attach_blocks_spec sid tpb (pre ++ l ++ rest') l (length pre) a t 0 Ht Htpb)
    as (t' & Hrun & Hes & Ht'); [lia|..].
  { intros i Hi. rewrite lookup_app_r by lia. rewrite lookup_app_l by lia. f_equal. lia. }
  rewrite Hl in Hrun, Ht'. change (Z.of_nat 0) with 0 in Hrun.
  assert (attach_table sid tpb (pre ++ l ++ rest') (Z.of_nat n) (length pre, a) t =
    Some (true, ((length pre + n)%nat, foldl retain a l), t')) as ->
    by (unfold attach_table; cbn [fst snd]; by rewrite Hrun).
  cbn [mbind option_bind].
  destruct (IH (pre ++ l) rest' (foldl retain a l) Hr)
    as (ts' & Hrun' & Hlen' & Hwf' & Hf & Hsl & Hw & Hp).
  rewrite <-app_assoc, length_app, Hl in Hrun'. rewrite Hrun'. cbn [mbind option_bind].
  exists (t' :: ts').
  assert (entries_ t = []) as Ht0 by (apply nil_length_inv, (table_len _ _ _ _ Ht)).
  rewrite Ht0 in Hes. simpl in Hes.
  destruct (frames_of_attached sid tpb 0 l) as (Hf0 & Hs0 & Hp0 & Hw0). simpl in Hf0, Hs0, Hp0, Hw0, Ht'.
  split_and!.
  - rewrite foldl_app. do 4 f_equal.
  - simpl; by rewrite Hlen'.
  - by constructor.
  - by rewrite all_entries_cons, frames_of_app, Hes, Hf0, Hf.
  - by rewrite all_entries_cons, slots_of_app, Hes, Hs0, Hsl.
  - rewrite all_entries_cons, Hes. by apply Forall_app.
  - by rewrite all_entries_cons, fmap_app, Hes, Hp0, Hp.
Qed.
End Attach.

(** ** Joining a prefix *)

Lemma records_of_users tpb count seqs pidx key r :
  prefix_wf tpb count seqs pidx → r ∈ records_of key pidx →
  record_wf tpb count r ∧ users r = prefix_users key (content_hash r) seqs ∧ 0 < users r < W32.
Proof. intros Hpw (recs & Hk & Hin)%records_of_Some. by eapply prefix_records. Qed.

Lemma records_of_nodup tpb count seqs pidx key :
  prefix_wf tpb count seqs pidx → NoDup (content_hash <$> records_of key pidx).
Proof.
  intros Hpw. unfold records_of. destruct (pidx !! key) eqn:Hk; [|constructor].
  by eapply prefix_hashes.
Qed.

(** A hash without a record has no users. *)
Lemma prefix_users_none tpb count seqs pidx key hash :
  prefix_wf tpb count seqs pidx → key ≠ ""%string →
  (∀ r, r ∈ records_of key pidx → content_hash r ≠ hash) → prefix_users key hash seqs = 0.
Proof.
  intros Hpw Hkey Hno. unfold prefix_users.
  destruct (decide (0 < map_zsum (λ _ st, if decide (prefix_key st = key ∧ prefix_hash st = hash)
    then 1 else 0) seqs)) as [Hpos|Hz].
  - apply map_zsum_pos in Hpos as (sid & st & Hs & Hp); [|intros; case_decide; lia].
    case_decide as Hd; [|lia]. destruct Hd as [Hk Hh].
    destruct (prefix_member _ _ _ _ Hpw _ _ Hs) as (recs & r & Hrec & Hin & Hh');
      [by rewrite Hk|]. rewrite Hk in Hrec.
    destruct (Hno r); [|congruence]. apply records_of_Some. eauto.
  - assert (0 <= map_zsum (λ _ st, if decide (prefix_key st = key ∧ prefix_hash st = hash)
      then 1 else 0) seqs); [|lia]. apply map_zsum_nonneg. intros. case_decide; lia.
Qed.

Lemma prefix_wf_join tpb count seqs pidx sid st st' recs :
  prefix_wf tpb count seqs pidx → seqs !! sid = Some st → prefix_key st = ""%string →
  prefix_key st' ≠ ""%string → NoDup (content_hash <$> recs) →
  (∀ r, r ∈ recs →
     (content_hash r ≠ prefix_hash st' ∧ r ∈ records_of (prefix_key st') pidx) ∨
     (content_hash r = prefix_hash st' ∧ record_wf tpb count r ∧
      users r = prefix_users (prefix_key st') (prefix_hash st') seqs + 1 ∧ 0 < users r < W32)) →
  (∃ r, r ∈ recs ∧ content_hash r = prefix_hash st') →
  (∀ r, r ∈ records_of (prefix_key st') pidx →
     ∃ r', r' ∈ recs ∧ content_hash r' = content_hash r) →
  prefix_wf tpb count (<[sid := st']> seqs) (set_records (prefix_key st') recs pidx).
Proof.
  intros Hpw Hs Hk Hk' Hnd Hrec (rj & Hj & Hhj) Hkeep.
  assert (∀ key hash, key ≠ ""%string → prefix_users key hash (<[sid := st']> seqs) =
    prefix_users key hash seqs +
    (if decide (prefix_key st' = key ∧ prefix_hash st' = hash) then 1 else 0)) as Hus.
  { intros key hash Hne. rewrite (prefix_users_update _ _ _ _ st) by done.
    rewrite (decide_False (P := prefix_key st = key ∧ _)) by (intros [Hc _]; congruence). lia. }
  apply (prefix_wf_replace _ _ seqs); try done.
  - intros key' hash Hne Hne'. rewrite Hus by done. rewrite decide_False by (intros [Hc _]; congruence). lia.
  - intros sid' s [[<- <-]|[_ Hs']]%lookup_insert_Some ? ?; [done|by exists s].
  - intros r Hin. rewrite Hus by done. destruct (Hrec r Hin) as [[Hne Hold]|(-> & Hw & Hu & Hlt)].
    + rewrite decide_False by (intros [_ Hc]; congruence).
      destruct (records_of_users _ _ _ _ _ _ Hpw Hold) as (? & ? & ?). split_and!; [done|lia..].
    + rewrite decide_True by done. split_and!; [done|lia..].
  - intros sid' s [[<- <-]|[_ Hs']]%lookup_insert_Some Hks; [by exists rj|].
    destruct (prefix_member _ _ _ _ Hpw _ _ Hs') as (recs0 & r & Hl & Hin & Hh); [by rewrite Hks|].
    rewrite Hks in Hl. destruct (Hkeep r) as (r' & Hin' & Hh'); [apply records_of_Some; eauto|].
    exists r'. split; [done|congruence].
Qed.

(** Joining the record at position [i]. *)
Lemma prefix_wf_join_existing tpb count seqs pidx sid st st' i r :
  prefix_wf tpb count seqs pidx → seqs !! sid = Some st → prefix_key st = ""%string →
  prefix_key st' ≠ ""%string → records_of (prefix_key st') pidx !! i = Some r →
  content_hash r = prefix_hash st' → users r + 1 < W32 →
  prefix_wf tpb count (<[sid := st']> seqs)
    (set_records (prefix_key st') (<[i := with_users r (users r + 1)]>
       (records_of (prefix_key st') pidx)) pidx).
Proof.
  intros Hpw Hs Hk Hk' Hi Hh Hmax. set (recs := records_of _ _) in *.
  pose proof (records_of_nodup _ _ _ _ (prefix_key st') Hpw) as Hnd. fold recs in Hnd.
  destruct (records_of_users _ _ _ _ (prefix_key st') r Hpw) as (Hw & Hu & Hlt);
    [by eapply list_elem_of_lookup_2|].
  assert (with_users r (users r + 1) ∈ <[i := with_users r (users r + 1)]> recs) as Hin.
  { eapply list_elem_of_lookup_2, list_lookup_insert_eq. by eapply lookup_lt_Some. }
  apply (prefix_wf_join _ _ _ _ _ st); try done.
  - by rewrite hashes_users.
  - intros r' [j Hj]%list_elem_of_lookup_1.
    apply list_lookup_insert_Some in Hj as [(<- & <- & _)|[Hne Hj]].
    + right. simpl. rewrite <-Hh. split_and!; [done|exact Hw|lia..].
    + left. split; [|by eapply list_elem_of_lookup_2]. rewrite <-Hh. intros Heq. apply Hne.
      symmetry. by eapply record_hash_inj.
  - by exists (with_users r (users r + 1)).
  - intros r' [j Hj]%list_elem_of_lookup_1. destruct (decide (j = i)) as [->|Hne].
    + fold recs in Hj. assert (r = r') as -> by congruence. by eexists.
    + exists r'. split; [|done]. apply (list_elem_of_lookup_2 _ j).
      by rewrite list_lookup_insert_ne.
Qed.

(** Publishing a new record. *)
Lemma prefix_wf_join_new tpb count seqs pidx sid st st' r :
  prefix_wf tpb count seqs pidx → seqs !! sid = Some st → prefix_key st = ""%string →
  prefix_key st' ≠ ""%string → content_hash r = prefix_hash st' →
  (∀ r', r' ∈ records_of (prefix_key st') pidx → content_hash r' ≠ prefix_hash st') →
  record_wf tpb count r → users r = 1 →
  prefix_wf tpb count (<[sid := st']> seqs)
    (set_records (prefix_key st') (records_of (prefix_key st') pidx ++ [r]) pidx).
Proof.
  intros Hpw Hs Hk Hk' Hh Hno Hw Hu. apply (prefix_wf_join _ _ _ _ _ st); try done.
  - rewrite fmap_app. apply NoDup_app. split_and!.
    + by eapply records_of_nodup.
    + intros h (r' & -> & Hin)%list_elem_of_fmap Hc. simpl in Hc.
      apply list_elem_of_singleton in Hc. by apply (Hno r'); [|congruence].
    + apply NoDup_singleton.
  - intros r' [Hin| ->%list_elem_of_singleton]%elem_of_app; [left; by split; [apply Hno|]|right].
    rewrite (prefix_users_none _ _ _ _ _ _ Hpw Hk' Hno). split_and!; [done|done|lia|words..].
  - exists r. split; [|done]. apply elem_of_app. right. by apply list_elem_of_singleton.
  - intros r' Hin. exists r'. split; [|done]. apply elem_of_app. by left.
Qed.

(** ** Attaching *)

Section AttachSpec.
Context {B : Type} `{SwapBackendLaws B}.
Implicit Types a : MemoryAllocator B.
Implicit Types m : KVCacheManager B.

Lemma first_table m sid st :
  mgr_wf m → sequences_ m !! sid = Some st →
  ∃ t0 ts, tables st = t0 :: ts ∧ length (entries_ t0) = seq_blocks st.
Proof.
  intros Hwf Hs. pose proof (table_count_pos m Hwf) as Hc.
  destruct (mgr_seq _ Hwf _ _ Hs) as [_ Hcnt _ _]. unfold seq_blocks.
  destruct (tables st) as [|t0 ts]; [simpl in *; lia|]. by exists t0, ts.
Qed.

Lemma no_blocks m sid st :
  mgr_wf m → sequences_ m !! sid = Some st → seq_blocks st = 0%nat →
  all_entries (tables st) = [] ∧ prefix_key st = ""%string ∧
  Forall (table_wf sid (tpb_of m) 0) (tables st).
Proof.
  intros Hwf Hs Hz. destruct (mgr_seq _ Hwf _ _ Hs) as [_ _ Hd Hk]. rewrite Hz in Hd.
  split_and!; [|destruct (decide (prefix_key st = ""%string)) as [?|Hne];
    [done|apply Hk in Hne; lia]|done].
  induction Hd as [|t ts Ht _ IH]; [done|]. rewrite all_entries_cons, IH, app_nil_r.
  apply nil_length_inv, (table_len _ _ _ _ Ht).
Qed.

(** When [attach_prefix] can map the record [r] onto the sequence. *)
Record attachable m (sid : Z) (key : string) (st : SequenceState) (r : PrefixRecord) : Prop := {
  attach_key : key ≠ ""%string;
  attach_seq : sequences_ m !! sid = Some st;
  attach_empty : seq_blocks st = 0%nat;
  attach_record : prefix_index_ m !! key = Some [r];
  attach_tpb : tpb_of m ≠ 0
}.

(** Counters do not overflow. *)
Definition attach_ok m (key : string) : Prop :=
  ∀ r, prefix_index_ m !! key = Some [r] →
    room (allocator_ m) (physical_ids r) ∧ users r + 1 < W32.

Lemma attach_run m sid key st r :
  mgr_wf m → attachable m sid key st r →
  ∃ ts' n, attach_prefix m sid key = Some (record_token_count r,
      mkKVCacheManager (foldl retain (allocator_ m) (physical_ids r))
        (<[sid := with_prefix (with_tables st ts') key (content_hash r)]> (sequences_ m))
        (sequences_by_request_ m)
        (set_records key [with_users r (users r ⊞ 1)] (prefix_index_ m))) ∧
    (0 < n)%nat ∧ Z.of_nat (length (physical_ids r)) = count_of m * Z.of_nat n ∧
    length ts' = length (tables st) ∧ Forall (table_wf sid (tpb_of m) n) ts' ∧
    frames_of (all_entries ts') = physical_ids r ∧ slots_of (all_entries ts') = [] ∧
    Forall (λ e, writable e = false ∧ resident e = true) (all_entries ts') ∧
    physical_id <$> all_entries ts' = physical_ids r.
Proof.
  intros Hwf [Hkey Hs Hz Hrec Htpb]. unfold attach_prefix. rewrite decide_False, Hs by done.
  destruct (first_table m sid st Hwf Hs) as (t0 & ts0 & Hts0 & Ht0).
  assert (text_table st = Some t0) as -> by (unfold text_table; by rewrite Hts0).
  assert (table_empty t0 = true) as Hemp.
  { unfold table_empty. rewrite Hz in Ht0. by destruct (entries_ t0). }
  cbn [mbind option_bind]. rewrite Hemp, Hrec. cbn [negb]. fold (tpb_of m).
  destruct (prefix_records _ _ _ _ (mgr_prefix _ Hwf) _ _ r Hrec) as ((n & Hn & Hnm & Hlen & Htok) & _);
    [by left|]. pose proof (table_count_pos m Hwf) as Hc.
  destruct (mgr_seq _ Hwf _ _ Hs) as [_ Hcnt _ _]. rewrite Hcnt, Hlen.
  rewrite !(proj2 (Z.eqb_neq _ _)) by nia. cbn [orb].
  rewrite Z.mul_comm, Z_mod_mult, Z.div_mul by lia. cbn [negb Z.eqb].
  destruct (no_blocks m sid st Hwf Hs Hz) as (_ & _ & Hd).
  destruct (attach_tables_spec sid (tpb_of m) n (tables st) [] (physical_ids r) (allocator_ m))
    as (ts' & Hrun & Hlen' & Hwf' & Hf & Hsl & Hw & Hp); [done|by apply tpb_u32|done|lia|].
  simpl in Hrun. rewrite Hrun. cbn [mbind option_bind]. exists ts', n.
  split_and!; try done. lia.
Qed.

Lemma table_bytes_join a ts : mjoin (table_bytes a <$> ts) = entry_bytes a <$> all_entries ts.
Proof.
  induction ts as [|t ts IH]; [done|].
  rewrite fmap_cons, all_entries_cons, fmap_app, <-IH. done.
Qed.

Lemma resident_bytes a es :
  Forall (λ e, writable e = false ∧ resident e = true) es →
  entry_bytes a <$> es = (λ id, Some (frame a id)) <$> (physical_id <$> es).
Proof.
  rewrite <-list_fmap_compose. induction 1 as [|e es [_ He] _ IH]; [done|].
  rewrite !fmap_cons, IH. f_equal. unfold entry_bytes, resident in *. simpl.
  by destruct (swap_slot e).
Qed.

(** An operation that only retains frames changes no bytes. *)
Lemma same_slab_bytes a a' :
  same_pool a a' → slab_ a' = slab_ a → swap_backend_ a' = swap_backend_ a →
  (∀ e, entry_bytes a' e = entry_bytes a e) ∧ (∀ r, record_bytes a' r = record_bytes a r) ∧
  (∀ st, seq_bytes a' st = seq_bytes a st).
Proof.
  intros Hp Hs Hb.
  assert (∀ e, entry_bytes a' e = entry_bytes a e) as He.
  { intros e. unfold entry_bytes. rewrite (swapped_backend _ _ Hb). case_match; [done|].
    f_equal. by apply frame_slab. }
  split_and!; [done|..].
  - intros r. apply list_fmap_ext. intros _ id _. by apply frame_slab.
  - intros st. apply list_fmap_ext. intros _ t _. apply list_fmap_ext. intros _ e _. apply He.
Qed.

Lemma mgr_join m sid st st' a' pidx' :
  mgr_wf m → sequences_ m !! sid = Some st → metadata st' = metadata st →
  alloc_inv a' → same_pool (allocator_ m) a' → slab_ a' = slab_ (allocator_ m) →
  swap_backend_ a' = swap_backend_ (allocator_ m) →
  accounted a' (<[sid := st']> (sequences_ m)) pidx' →
  prefix_wf (tpb_of m) (count_of m) (<[sid := st']> (sequences_ m)) pidx' →
  seq_wf (tpb_of m) (count_of m) sid st' →
  let m' := mkKVCacheManager a' (<[sid := st']> (sequences_ m)) (sequences_by_request_ m) pidx' in
  mgr_wf m' ∧ contents m' = <[sid := seq_bytes a' st']> (contents m).
Proof.
  intros Hwf Hs Hmd Hi' Hp Hsl Hb Hacc Hpw Hsw m'.
  assert (tpb_of m' = tpb_of m) as Htpb by apply (same_pool_tpb _ _ Hp).
  assert (count_of m' = count_of m) as Hcnt by apply (same_pool_count _ _ Hp).
  split; [split|]; try done.
  - simpl. rewrite (same_pool_config _ _ Hp). apply Hwf.
  - rewrite Htpb, Hcnt. simpl. intros sid' s [[<- <-]|[_ ?]]%lookup_insert_Some; [done|].
    by apply Hwf.
  - eapply index_wf_update; [apply Hwf|done|]. by rewrite Hmd.
  - by rewrite Htpb, Hcnt.
  - unfold contents. simpl. rewrite fmap_insert. f_equal. apply map_fmap_ext.
    intros k s _. by apply same_slab_bytes.
Qed.

Lemma attach_success m sid key st r :
  mgr_wf m → attachable m sid key st r → attach_ok m key →
  runs (attach_prefix m sid key) (λ '(k, m'), ∃ st',
    mgr_wf m' ∧ k = record_token_count r ∧ prefixes m' = prefixes m ∧
    sequences_ m' = <[sid := st']> (sequences_ m) ∧ prefix_key st' = key ∧
    contents m' = <[sid := seq_bytes (allocator_ m') st']> (contents m) ∧
    mjoin (seq_bytes (allocator_ m') st') = Some <$> record_bytes (allocator_ m) r ∧
    Forall (λ e, writable e = false ∧ resident e = true) (all_entries (tables st')) ∧
    physical_id <$> all_entries (tables st') = physical_ids r).
Proof.
  intros Hwf Hat Hok. destruct (attach_run m sid key st r Hwf Hat)
    as (ts' & n & -> & Hn & Hlen & Hl & Hts & Hf & Hsl & Hw & Hp).
  destruct Hat as [Hkey Hs Hz Hrec Htpb]. destruct (Hok r Hrec) as [Hroom Hmax].
  destruct (no_blocks m sid st Hwf Hs Hz) as (Hnil & Hpk & _).
  pose proof (table_count_pos m Hwf) as Hc. pose proof (mgr_accounted _ Hwf) as Hacc.
  assert (records_of key (prefix_index_ m) = [r]) as Hro by (unfold records_of; by rewrite Hrec).
  destruct (records_of_users _ _ _ _ key r (mgr_prefix _ Hwf)) as (_ & _ & Hu);
    [rewrite Hro; by left|]. rewrite (u32_small (users r + 1)) by words.
  destruct (retain_all_moves (allocator_ m) (physical_ids r)) as (Hm & Hslab & Hback & _);
    [apply Hwf| |done|].
  { intros id Hid. rewrite (proj1 Hacc). pose proof (seq_refs_nonneg id (sequences_ m)).
    pose proof (record_pins id _ _ _ r Hrec ltac:(by left)). apply zcount_pos in Hid. lia. }
  set (a' := foldl retain _ _) in *. set (st' := with_prefix _ _ _).
  pose proof (moves_pool _ _ _ _ _ _ Hm) as Hpool.
  destruct (same_slab_bytes _ _ Hpool Hslab Hback) as (Heb & Hrb & _).
  destruct (seq_wf_rebuild (tpb_of m) (count_of m) sid st st' n (mgr_seq _ Hwf _ _ Hs))
    as [Hsw' _]; [lia|done..|].
  destruct (mgr_join m sid st st' a' (set_records key [with_users r (users r + 1)]
    (prefix_index_ m))) as [Hwf' Hcont]; try done.
  - apply Hm.
  - destruct (accounted_update (allocator_ m) a' (sequences_ m) (prefix_index_ m) sid st st'
      Hacc Hs) as [Hr Hh].
    { unfold entries_move. simpl. rewrite Hnil, Hf, Hsl. exact Hm. }
    split; [|done]. intros id. rewrite Hr, pin_refs_set, Hro.
    unfold record_refs. simpl. lia.
  - pose proof (prefix_wf_join_existing (tpb_of m) (count_of m) (sequences_ m)
      (prefix_index_ m) sid st st' 0 r) as Hj. simpl in Hj. rewrite Hro in Hj.
    by apply Hj; try done; apply Hwf.
  - exists st'. split_and!; try done.
    + unfold prefixes. simpl. apply map_eq. intros k. rewrite !lookup_fmap.
      destruct (decide (k = key)) as [->|]; [|rewrite lookup_insert_ne by done].
      * rewrite lookup_insert_eq, Hrec. simpl. by rewrite <-(Hrb r).
      * destruct (prefix_index_ m !! k) as [recs|]; [|done]. simpl. f_equal.
        apply list_fmap_ext. intros _ r0 _. apply Hrb.
    + unfold seq_bytes. simpl. rewrite table_bytes_join, resident_bytes, Hp by done.
      unfold record_bytes. rewrite <-list_fmap_compose. apply list_fmap_ext.
      intros _ id _. simpl. f_equal. by apply frame_slab.
Qed.

(** Every other call changes nothing and reports 0. *)
Lemma attach_refused m sid key :
  mgr_wf m → (∀ st r, ¬ attachable m sid key st r) → attach_prefix m sid key = Some (0, m).
Proof.
  intros Hwf Hno. unfold attach_prefix. case_decide as Hkey; [done|].
  destruct (sequences_ m !! sid) as [st|] eqn:Hs; [|done].
  destruct (first_table m sid st Hwf Hs) as (t0 & ts0 & Hts0 & Ht0).
  assert (text_table st = Some t0) as -> by (unfold text_table; by rewrite Hts0).
  cbn [mbind option_bind]. destruct (table_empty t0) eqn:Hemp; cbn [negb]; [|done].
  destruct (prefix_index_ m !! key) as [[|r [|]]|] eqn:Hrec; try done.
  fold (tpb_of m). destruct (Z.eqb_spec (tpb_of m) 0) as [|Htpb]; [done|].
  exfalso. apply (Hno st r). split; try done. rewrite <-Ht0. unfold table_empty in Hemp.
  by destruct (entries_ t0).
Qed.
End AttachSpec.

(** ** Publishing *)

Section Publish.
Context {B : Type} `{SwapBackendLaws B}.
Implicit Types a : MemoryAllocator B.
Implicit Types m : KVCacheManager B.

(** The hash of the bytes of resident blocks, table by table. *)
Definition hash_bytes (h : Z) (bytes : list byte) : Z :=
  foldl (λ h x, fnv_mix h (byte_value x)) h bytes.
Definition hash_table a (t : BlockTable) : Z :=
  foldl (λ h e, if resident e then hash_bytes h (frame a (physical_id e)) else h)
    fnv_offset (entries_ t).
Definition hash_tables a (ts : list BlockTable) : Z :=
  foldl (λ h t, fnv_mix h (hash_table a t)) fnv_offset ts.

Lemma hash_entry_spec a h e :
  alloc_wf a → (resident e = true → valid a (physical_id e)) →
  hash_entry a h e =
    Some (if resident e then hash_bytes h (frame a (physical_id e)) else h).
Proof.
  intros Hwf Hv. unfold hash_entry. destruct (resident e); cbn [negb]; [|done].
  specialize (Hv eq_refl). destruct (block a (physical_id e)) as [b|] eqn:Hb;
    [|by rewrite block_valid in Hb].
  assert (size_bytes_ b = block_stride_bytes_ a) as Hsz
    by (rewrite block_valid in Hb by done; by simplify_eq).
  pose proof (wf_stride _ Hwf). rewrite Hsz, (proj2 (Z.eqb_neq _ _)) by lia.
  rewrite (read_frame _ _ _ Hwf Hv Hb). done.
Qed.

(** Hashing never reads outside the pool. *)
Lemma content_hash_spec a ts :
  alloc_wf a → (∀ e, e ∈ all_entries ts → resident e = true → valid a (physical_id e)) →
  content_hash_of a ts = Some (hash_tables a ts).
Proof.
  intros Hwf. unfold content_hash_of, hash_tables. generalize fnv_offset.
  induction ts as [|t ts IH]; intros h Hv; [done|]. cbn [foldM foldl].
  assert (content_hash_of_table a t = Some (hash_table a t)) as ->.
  { unfold content_hash_of_table, hash_table. generalize fnv_offset.
    assert (∀ e, e ∈ entries_ t → resident e = true → valid a (physical_id e)) as Ht.
    { intros e He. apply Hv. rewrite all_entries_cons. apply elem_of_app. by left. }
    clear Hv. induction (entries_ t) as [|e es IHe]; intros h'; [done|]. cbn [foldM foldl].
    rewrite hash_entry_spec by (try done; apply Ht; left). cbn [mbind option_bind].
    apply IHe. intros e' He'. apply Ht. by right. }
  cbn [mbind option_bind]. apply IH. intros e He. apply Hv. rewrite all_entries_cons.
  apply elem_of_app. by right.
Qed.

Lemma bind_ids (ts : list BlockTable) :
  (t ← ts; physical_id <$> entries_ t) = physical_id <$> all_entries ts.
Proof.
  induction ts as [|t ts IH]; [done|]. rewrite all_entries_cons, fmap_app, <-IH. done.
Qed.

Lemma all_entries_length sid tpb n ts :
  Forall (table_wf sid tpb n) ts → length (all_entries ts) = (length ts * n)%nat.
Proof.
  induction 1 as [|t ts Ht _ IH]; [done|].
  rewrite all_entries_cons, length_app, IH, (table_len _ _ _ _ Ht). done.
Qed.

(** Counters do not overflow, and the sequence does not leave another prefix
    behind: [publish_prefix] overwrites the key without dropping its user. *)
Record publish_ok m (sid : Z) (key : string) : Prop := {
  publish_room st : sequences_ m !! sid = Some st →
    room (allocator_ m) (physical_id <$> all_entries (tables st));
  publish_users r : r ∈ records_of key (prefix_index_ m) → users r + 1 < W32;
  publish_fresh st : sequences_ m !! sid = Some st →
    prefix_key st = ""%string ∨ prefix_key st = key
}.

(** What [publish_prefix] does once its guards have passed. *)
Definition publish_tail m (sid : Z) (key : string) (st : SequenceState) : KVCacheManager B :=
  let hash := hash_tables (allocator_ m) (tables st) in
  let ids := physical_id <$> all_entries (tables st) in
  let seqs := <[sid := with_prefix st key hash]> (sequences_ m) in
  let recs := records_of key (prefix_index_ m) in
  match find_record hash recs with
  | Some (i, r) =>
    mkKVCacheManager (allocator_ m) seqs (sequences_by_request_ m)
      (set_records key (<[i := with_users r (users r + 1)]> recs) (prefix_index_ m))
  | None =>
    mkKVCacheManager (foldl retain (allocator_ m) ids) seqs (sequences_by_request_ m)
      (set_records key (recs ++ [mkPrefixRecord hash
         (u32 (u32 (Z.of_nat (seq_blocks st)) * tpb_of m)) 1 ids]) (prefix_index_ m))
  end.

(** The guards of [publish_prefix], in order. *)
Definition publishes m (sid : Z) (key : string) : bool :=
  match sequences_ m !! sid with
  | Some st =>
    negb (bool_decide (key = ""%string)) && (0 <? Z.of_nat (seq_blocks st)) &&
    (bool_decide (prefix_key st = key) ||
     negb (tpb_of m =? 0) && all_resident (tables st))
  | None => false
  end.

Lemma entries_valid m sid st e :
  mgr_wf m → sequences_ m !! sid = Some st → e ∈ all_entries (tables st) →
  resident e = true → 0 < refs (allocator_ m) (physical_id e) ∧
  valid (allocator_ m) (physical_id e).
Proof.
  intros Hwf Hs He Hres.
  destruct (accounted_backed _ _ _ _ _ (mgr_accounted _ Hwf) Hs) as [Hf _].
  assert (0 < refs (allocator_ m) (physical_id e)) as Hpos.
  { specialize (Hf (physical_id e)). enough (0 < zcount (physical_id e)
      (frames_of (all_entries (tables st)))) by lia. apply zcount_pos.
    eapply entry_frames_elem; [exact He|]. unfold entry_frames, resident in *.
    destruct (swap_slot e); [done|]. by left. }
  split; [done|]. apply refs_pos_valid; [apply Hwf|lia].
Qed.

Lemma publish_run m sid key :
  mgr_wf m → publish_ok m sid key →
  publish_prefix m sid key = Some (publishes m sid key,
    match sequences_ m !! sid with
    | Some st => if publishes m sid key && negb (bool_decide (prefix_key st = key))
                 then publish_tail m sid key st else m
    | None => m
    end).
Proof.
  intros Hwf Hok. unfold publish_prefix, publishes.
  destruct (decide (key = ""%string)) as [->|Hkey].
  { destruct (sequences_ m !! sid); [|done]. by rewrite bool_decide_true. }
  rewrite (bool_decide_false (key = ""%string)) by done.
  destruct (sequences_ m !! sid) as [st|] eqn:Hs; [|done]. cbn [negb andb].
  destruct (first_table m sid st Hwf Hs) as (t0 & ts0 & Hts0 & Ht0).
  assert (text_table st = Some t0) as -> by (unfold text_table; by rewrite Hts0).
  cbn [mbind option_bind].
  assert (table_empty t0 = negb (0 <? Z.of_nat (seq_blocks st))) as ->.
  { rewrite <-Ht0. unfold table_empty. by destruct (entries_ t0). }
  destruct (0 <? Z.of_nat (seq_blocks st)) eqn:Hblk; cbn [negb andb]; [|done].
  destruct (decide (prefix_key st = key)) as [Hpk|Hpk];
    [by rewrite bool_decide_true|rewrite bool_decide_false by done]. cbn [orb negb].
  fold (tpb_of m). destruct (tpb_of m =? 0) eqn:Hz; cbn [negb andb]; [done|].
  rewrite content_hash_spec; [|apply Hwf|intros e He Hr; by eapply entries_valid].
  cbn [mbind option_bind]. destruct (all_resident (tables st)) eqn:Hres; cbn [negb andb]; [|done].
  unfold publish_tail. fold (records_of key (prefix_index_ m)). rewrite bind_ids.
  destruct (find_record _ _) as [[i r]|] eqn:Hf.
  - destruct (find_record_Some _ _ _ _ Hf) as [Hi Hh].
    assert (r ∈ records_of key (prefix_index_ m)) as Hin by by eapply list_elem_of_lookup_2.
    destruct (records_of_users _ _ _ _ key r (mgr_prefix _ Hwf) Hin) as (_ & _ & Hu).
    pose proof (publish_users _ _ _ Hok r Hin). rewrite u32_small by words.
    rewrite set_records_cons; [done|]. intros Hc%(f_equal length).
    rewrite length_insert in Hc. apply lookup_lt_Some in Hi. simpl in Hc. lia.
  - rewrite set_records_cons by by destruct (records_of key (prefix_index_ m)).
    unfold table_size. by rewrite Ht0.
Qed.

Lemma publish_seq_wf m sid key st h :
  mgr_wf m → sequences_ m !! sid = Some st → (0 < seq_blocks st)%nat →
  seq_wf (tpb_of m) (count_of m) sid (with_prefix st key h).
Proof. intros Hwf Hs Hblk. by destruct (mgr_seq _ Hwf _ _ Hs). Qed.

Lemma insert_same_tables m sid st st' :
  sequences_ m !! sid = Some st → tables st' = tables st →
  <[sid := seq_bytes (allocator_ m) st']> (contents m) = contents m.
Proof.
  intros Hs Ht. apply insert_id. unfold contents. rewrite lookup_fmap, Hs. simpl.
  unfold seq_bytes. by rewrite Ht.
Qed.

(** What both ends of [publish_prefix] keep. *)
Definition published m (key : string) (ts : list BlockTable) m' : Prop :=
  mgr_wf m' ∧ contents m' = contents m ∧
  (∀ r, record_bytes (allocator_ m') r = record_bytes (allocator_ m) r) ∧
  (∀ key' r', r' ∈ records_of key' (prefix_index_ m') →
     (∃ r, r ∈ records_of key' (prefix_index_ m) ∧ physical_ids r' = physical_ids r) ∨
     key' = key ∧ physical_ids r' = physical_id <$> all_entries ts ∧ all_resident ts = true).

Lemma publish_existing m sid key st i r :
  mgr_wf m → sequences_ m !! sid = Some st → (0 < seq_blocks st)%nat → key ≠ ""%string →
  prefix_key st = ""%string → records_of key (prefix_index_ m) !! i = Some r →
  users r + 1 < W32 →
  published m key (tables st)
    (mkKVCacheManager (allocator_ m)
      (<[sid := with_prefix st key (content_hash r)]> (sequences_ m)) (sequences_by_request_ m)
      (set_records key (<[i := with_users r (users r + 1)]>
        (records_of key (prefix_index_ m))) (prefix_index_ m))).
Proof.
  intros Hwf Hs Hblk Hkey Hpk Hi Hmax. set (st' := with_prefix _ _ _).
  destruct (mgr_join m sid st st' (allocator_ m) (set_records key
    (<[i := with_users r (users r + 1)]> (records_of key (prefix_index_ m)))
    (prefix_index_ m))) as [Hwf' Hcont]; try done.
  - apply Hwf.
  - destruct (mgr_accounted _ Hwf) as [Hr Hh]. split; intros x.
    + rewrite Hr, pin_refs_set, record_refs_users by done. unfold seq_refs.
      rewrite (map_zsum_update _ _ _ st) by done. simpl. lia.
    + rewrite Hh. unfold slot_refs. rewrite (map_zsum_update _ _ _ st) by done. simpl. lia.
  - by apply (prefix_wf_join_existing _ _ _ _ sid st st' i r); try done; apply Hwf.
  - by apply publish_seq_wf.
  - split_and!; [done| |done|].
    + etransitivity; [exact Hcont|]. by eapply insert_same_tables.
    + intros key' r' Hin. left. simpl in Hin.
      destruct (set_records_lookup key (<[i := with_users r (users r + 1)]>
        (records_of key (prefix_index_ m))) (prefix_index_ m) key') as [_ Hl];
        [apply Hwf|]. rewrite Hl in Hin. case_decide as Hd; [subst key'|by exists r'].
      apply list_elem_of_lookup_1 in Hin as [j Hj].
      apply list_lookup_insert_Some in Hj as [(<- & <- & _)|[_ Hj]].
      * exists r. split; [by eapply list_elem_of_lookup_2|done].
      * exists r'. split; [by eapply list_elem_of_lookup_2|done].
Qed.

Lemma publish_new m sid key st tok :
  let h := hash_tables (allocator_ m) (tables st) in
  let ids := physical_id <$> all_entries (tables st) in
  mgr_wf m → sequences_ m !! sid = Some st → (0 < seq_blocks st)%nat → key ≠ ""%string →
  prefix_key st = ""%string → all_resident (tables st) = true →
  (∀ r, r ∈ records_of key (prefix_index_ m) → content_hash r ≠ h) →
  room (allocator_ m) ids → tok = u32 (Z.of_nat (seq_blocks st) * tpb_of m) →
  published m key (tables st)
    (mkKVCacheManager (foldl retain (allocator_ m) ids)
      (<[sid := with_prefix st key h]> (sequences_ m)) (sequences_by_request_ m)
      (set_records key (records_of key (prefix_index_ m) ++ [mkPrefixRecord h tok 1 ids])
        (prefix_index_ m))).
Proof.
  intros h ids Hwf Hs Hblk Hkey Hpk Hres Hno Hroom Htok. set (st' := with_prefix _ _ _).
  destruct (resident_holds _ (proj1 (all_resident_spec _) Hres)) as [Hfr Hsl].
  pose proof (table_count_pos m Hwf) as Hc. pose proof (mgr_seq _ Hwf _ _ Hs) as [_ Hcnt Hd _].
  destruct (retain_all_moves (allocator_ m) ids) as (Hm & Hslab & Hback & _);
    [apply Hwf| |done|].
  { intros id (e & -> & He)%list_elem_of_fmap. eapply entries_valid; [done..|].
    unfold resident. by rewrite (proj1 (all_resident_spec _) Hres). }
  pose proof (moves_pool _ _ _ _ _ _ Hm) as Hpool.
  destruct (same_slab_bytes _ _ Hpool Hslab Hback) as (_ & Hrb & Hsb).
  destruct (mgr_join m sid st st' (foldl retain (allocator_ m) ids) (set_records key
    (records_of key (prefix_index_ m) ++ [mkPrefixRecord h tok 1 ids]) (prefix_index_ m)))
    as [Hwf' Hcont]; try done.
  - apply Hm.
  - destruct (mgr_accounted _ Hwf) as [Hr Hh], Hm as [_ _ Hmr Hmh _ _]. split; intros x.
    + rewrite Hmr, Hr, pin_refs_set. unfold seq_refs, record_refs.
      rewrite (map_zsum_update _ _ _ st), zsum_app by done. simpl.
      autorewrite with holds. lia.
    + rewrite Hmh, Hh. unfold slot_refs. rewrite (map_zsum_update _ _ _ st) by done.
      simpl. autorewrite with holds. lia.
  - apply (prefix_wf_join_new _ _ _ _ sid st st'); try done; [apply Hwf|].
    pose proof (first_table m sid st Hwf Hs) as (t0 & ts0 & Hts0 & Ht0).
    exists (seq_blocks st). split_and!; [done| |simpl|by subst tok].
    + rewrite Hts0 in Hd. apply Forall_cons in Hd as [Hd _]. by apply table_max in Hd.
    + unfold ids. rewrite length_fmap, (all_entries_length _ _ _ _ Hd), Nat2Z.inj_mul. lia.
  - by apply publish_seq_wf.
  - split_and!; [done| |done|].
    + etransitivity; [exact Hcont|]. rewrite Hsb. by eapply insert_same_tables.
    + intros key' r' Hin. simpl in Hin.
      destruct (set_records_lookup key (records_of key (prefix_index_ m) ++
        [mkPrefixRecord h tok 1 ids]) (prefix_index_ m) key') as [_ Hl];
        [apply Hwf|]. rewrite Hl in Hin. case_decide as Hd'; [subst key'|left; by exists r'].
      apply elem_of_app in Hin as [Hin| ->%list_elem_of_singleton]; [left; by exists r'|by right].
Qed.

(** [publish_prefix] succeeds exactly when its guards hold, changes no block of
    any sequence or prefix, and leaves the sequence under the key. *)
Lemma publish_spec m sid key :
  mgr_wf m → publish_ok m sid key →
  runs (publish_prefix m sid key) (λ '(ok, m'),
    ok = publishes m sid key ∧
    (if ok then ∃ st, sequences_ m !! sid = Some st ∧
       published m key (tables st) m' ∧
       (prefix_key <$> sequences_ m' !! sid) = Some key
     else m' = m)).
Proof.
  intros Hwf Hok. rewrite publish_run by done. cbn [runs]. split; [done|].
  destruct (publishes m sid key) eqn:Hp; [|by destruct (sequences_ m !! sid)].
  unfold publishes in Hp. destruct (sequences_ m !! sid) as [st|] eqn:Hs; [|done].
  exists st. split; [done|]. apply andb_true_iff in Hp as [[Hkey Hblk]%andb_true_iff Hrest].
  apply negb_true_iff, bool_decide_eq_false in Hkey. apply Z.ltb_lt in Hblk. cbn [andb].
  destruct (bool_decide (prefix_key st = key)) eqn:Hpk; cbn [negb orb] in *.
  { apply bool_decide_eq_true in Hpk. rewrite Hs. simpl. rewrite Hpk.
    split; [|done]. split_and!; [done..|]. intros key' r' Hin. left. by exists r'. }
  apply bool_decide_eq_false in Hpk. apply andb_true_iff in Hrest as [Htpb Hres].
  destruct (publish_fresh _ _ _ Hok st Hs) as [Hfresh|?]; [|done].
  unfold publish_tail. destruct (find_record _ _) as [[i r]|] eqn:Hf.
  - destruct (find_record_Some _ _ _ _ Hf) as [Hi Hh]. rewrite <-Hh.
    split; [|simpl; by rewrite lookup_insert_eq]. apply publish_existing; try done; [lia|].
    eapply publish_users; [done|]. by eapply list_elem_of_lookup_2.
  - split; [|simpl; by rewrite lookup_insert_eq]. apply publish_new; try done; [lia|..].
    + by apply find_record_None.
    + by eapply publish_room.
    + rewrite (u32_small (Z.of_nat _)); [done|]. pose proof (first_table m sid st Hwf Hs) as (t0 & ts0 & Hts0 & Ht0).
      pose proof (seq_dense _ _ _ _ (mgr_seq _ Hwf _ _ Hs)) as Hd. rewrite Hts0 in Hd.
      apply Forall_cons in Hd as [Hd _]. apply table_max in Hd. words.
Qed.
End Publish.
