(* ===== verification/CacheProps.v ===== *)
(** Properties of the cache manager: it refines private storage per sequence,
    hands out exclusive frames, shares prefixes without copying, restores swapped
    requests all or nothing, and gives everything back. *)
From S2P Require Import Prelude.
From S2P Require Import Block.
From S2P Require Import CacheLayout.
From S2P Require Import SwapBackend.
From S2P Require Import BlockTable.
From S2P Require Import MemoryAllocator.
From S2P Require Import AllocatorSpec.
From S2P Require Import AllocatorProps.
From S2P Require Import KVCacheManager.
From S2P Require Import CacheAccounting.
From S2P Require Import AllocatorMoves.
From S2P Require Import CacheInvariant.
From S2P Require Import CacheLemmas.
From S2P Require Import CacheLifecycle.
From S2P Require Import CacheGrowth.
From S2P Require Import CacheWrite.
From S2P Require Import CacheSwap.
From S2P Require Import CacheRecords.
From S2P Require Import CacheRelease.
From S2P Require Import CachePrefix.

(** ** The abstract cache *)

(** Every sequence owns its blocks; a prefix is a list of blocks. Nothing is
    shared, paged or swapped here. *)
Abbreviation blocks := (list (list (option (list byte)))).
Record abstract_cache := mkAbstract {
  abs_seqs : gmap Z blocks;
  abs_prefixes : gmap string (list (list (list byte)))
}.

Inductive cache_op :=
  | CreateSequence (md : SequenceMetadata)
  | ForkSequence (parent : Z) (md : SequenceMetadata)
  | ReserveTokens (sid n : Z)
  | WriteToken (sid pos layer : Z) (bytes : list byte)
  | SwapOutSequence (sid : Z)
  | SwapInSequence (sid : Z)
  | SwapOutRequest (rid : Z)
  | SwapInRequest (rid : Z)
  | ReleaseSequence (sid : Z)
  | PublishPrefix (sid : Z) (key : string)
  | AttachPrefix (sid : Z) (key : string).

(** The new prefixes are old ones, except those that satisfy [new]. *)
Definition prefixes_from (new : string → list (list byte) → Prop)
    (p p' : gmap string (list (list (list byte)))) : Prop :=
  ∀ key x, (∃ l, p' !! key = Some l ∧ x ∈ l) →
    (∃ l, p !! key = Some l ∧ x ∈ l) ∨ new key x.

(** [cache_spec count tpb op b c c']: the operation may take the abstract cache
    [c] to [c'], reporting success [b]; a sequence has [count] tables of blocks of
    [tpb] tokens. *)
Inductive cache_spec (count : nat) (tpb : Z) : cache_op → bool → abstract_cache → abstract_cache → Prop :=
  | abs_refused op c : cache_spec count tpb op false c c
  | abs_create md s p :
    s !! sm_sequence_id md = None →
    cache_spec count tpb (CreateSequence md) true (mkAbstract s p)
      (mkAbstract (<[sm_sequence_id md := replicate count []]> s) p)
  | abs_fork parent md bs s p :
    s !! parent = Some bs → s !! sm_sequence_id md = None →
    cache_spec count tpb (ForkSequence parent md) true (mkAbstract s p)
      (mkAbstract (<[sm_sequence_id md := bs]> s) p)
  | abs_reserve sid n bs bs' s p :
    s !! sid = Some bs → appended (Z.to_nat (blocks_needed n tpb)) bs bs' →
    cache_spec count tpb (ReserveTokens sid n) true (mkAbstract s p)
      (mkAbstract (<[sid := bs']> s) p)
  | abs_write sid pos layer bytes bs b s p :
    let index := pos / tpb in
    s !! sid = Some bs → bs !! Z.to_nat layer = Some b → (Z.to_nat index < length b)%nat →
    cache_spec count tpb (WriteToken sid pos layer bytes) true (mkAbstract s p)
      (mkAbstract (alter (alter (alter (λ _, Some bytes) (Z.to_nat index)) (Z.to_nat layer)) sid s) p)
  | abs_move op c :
    match op with
    | SwapOutSequence _ | SwapInSequence _ | SwapOutRequest _ | SwapInRequest _ => True
    | _ => False
    end → cache_spec count tpb op true c c
  | abs_release sid s p p' :
    prefixes_from (λ _ _, False) p p' →
    cache_spec count tpb (ReleaseSequence sid) true (mkAbstract s p) (mkAbstract (delete sid s) p')
  | abs_publish sid key bs s p p' :
    s !! sid = Some bs →
    prefixes_from (λ k x, k = key ∧ Some <$> x = mjoin bs) p p' →
    cache_spec count tpb (PublishPrefix sid key) true (mkAbstract s p) (mkAbstract s p')
  | abs_attach sid key x bs bs' s p :
    s !! sid = Some bs → mjoin bs = [] → p !! key = Some [x] → mjoin bs' = Some <$> x →
    cache_spec count tpb (AttachPrefix sid key) true (mkAbstract s p)
      (mkAbstract (<[sid := bs']> s) p).

Section Refinement.
Context {B : Type} `{SwapBackendLaws B}.
Implicit Types a : MemoryAllocator B.
Implicit Types m : KVCacheManager B.

Definition abstract m : abstract_cache := mkAbstract (contents m) (prefixes m).

(** A client writes one block of one layer: it asks for a writable frame and
    fills it. *)
Definition write_token m (sid pos layer : Z) (bytes : list byte)
    : option (bool * KVCacheManager B) :=
  '(r, m1) ← ensure_token_writable m sid pos TextKV layer;
  match r with
  | Some id => Some (true, write_block m1 id bytes)
  | None => Some (false, m1)
  end.

Definition cache_run m (op : cache_op) : option (bool * KVCacheManager B) :=
  match op with
  | CreateSequence md => Some (create_sequence m md)
  | ForkSequence parent md => Some (fork_sequence m parent md)
  | ReserveTokens sid n => reserve_tokens m sid n
  | WriteToken sid pos layer bytes => write_token m sid pos layer bytes
  | SwapOutSequence sid => '(_, m') ← swap_out_sequence m sid; Some (true, m')
  | SwapInSequence sid => swap_in_sequence m sid
  | SwapOutRequest rid => '(_, m') ← swap_out_request m rid; Some (true, m')
  | SwapInRequest rid => swap_in_request m rid
  | ReleaseSequence sid => Some (true, release_sequence m sid)
  | PublishPrefix sid key => publish_prefix m sid key
  | AttachPrefix sid key =>
    '(k, m') ← attach_prefix m sid key;
    Some (0 <? k, m')
  end.

(** When an operation's counters stay within their machine types. *)
Definition cache_op_ok m (op : cache_op) : Prop :=
  match op with
  | CreateSequence _ | ReleaseSequence _ => True
  | ForkSequence parent _ => fork_room m parent
  | ReserveTokens sid n => reserve_ok m sid n
  | WriteToken _ pos layer bytes =>
    0 <= pos ∧ 0 <= layer ∧ Z.of_nat (length bytes) = block_stride_bytes_ (allocator_ m)
  | SwapOutSequence sid => can_store (allocator_ m) (block_count m sid)
  | SwapInSequence sid => swap_in_ok m sid
  | SwapOutRequest rid =>
    can_store (allocator_ m) (zsum (block_count m) (sequences_for m rid))
  | SwapInRequest rid => zsum (needed m) (sequences_for m rid) < W32
  | PublishPrefix sid key => publish_ok m sid key
  | AttachPrefix _ key => attach_ok m key ∧
      ∀ r, prefix_index_ m !! key = Some [r] → 0 < record_token_count r
  end.

(** The outcome of an operation that refines the abstract cache. *)
Definition refines m (op : cache_op) (res : bool * KVCacheManager B) : Prop :=
  mgr_wf (snd res) ∧
  cache_spec (Z.to_nat (count_of m)) (tpb_of m) op (fst res) (abstract m) (abstract (snd res)).

Lemma refines_same m op m' :
  mgr_wf m' → contents m' = contents m → prefixes m' = prefixes m →
  cache_spec (Z.to_nat (count_of m)) (tpb_of m) op true (abstract m) (abstract m) →
  refines m op (true, m').
Proof.
  intros Hwf Hc Hp Hs. split; [done|]. unfold abstract in *. simpl. by rewrite Hc, Hp.
Qed.

Lemma refines_refused m op : mgr_wf m → refines m op (false, m).
Proof. intros Hwf. split; [done|]. apply abs_refused. Qed.

Lemma refines_create m md : mgr_wf m → refines m (CreateSequence md) (create_sequence m md).
Proof.
  intros Hwf. pose proof (create_spec m md Hwf) as Hs. unfold contains in Hs.
  destruct (create_sequence m md) as [ok m'].
  destruct Hs as (Hok & Hwf' & Hp & Hc). destruct ok; [|subst m'; by apply refines_refused].
  split; [done|]. unfold abstract. simpl. rewrite Hc, Hp. apply abs_create.
  unfold contents. rewrite lookup_fmap. by destruct (sequences_ m !! sm_sequence_id md).
Qed.

Lemma refines_fork m parent md :
  mgr_wf m → fork_room m parent →
  refines m (ForkSequence parent md) (fork_sequence m parent md).
Proof.
  intros Hwf Hroom.
  destruct (sequences_ m !! parent) as [st|] eqn:Hp;
    [|rewrite fork_failure by (left; unfold contains; by rewrite Hp); by apply refines_refused].
  destruct (sequences_ m !! sm_sequence_id md) as [st'|] eqn:Hc;
    [rewrite fork_failure by (right; left; unfold contains; by rewrite Hc);
     by apply refines_refused|].
  destruct (all_resident (tables st)) eqn:Hres;
    [|rewrite fork_failure by (right; right; eauto); by apply refines_refused].
  destruct (fork_success m parent st md Hwf Hp Hc Hres Hroom) as (Hok & Hwf' & Hpf & _ & Hcont).
  destruct (fork_sequence m parent md) as [ok m']. simpl in *. subst ok.
  split; [done|]. unfold abstract. simpl. rewrite Hcont, Hpf. apply abs_fork.
  - unfold contents. by rewrite lookup_fmap, Hp.
  - unfold contents. by rewrite lookup_fmap, Hc.
Qed.

Lemma refines_reserve m sid n :
  mgr_wf m → reserve_ok m sid n →
  runs (reserve_tokens m sid n) (refines m (ReserveTokens sid n)).
Proof.
  intros Hwf Hok. eapply runs_mono; [by apply reserve_spec|].
  intros [[|] m'] (Hwf' & Hp & Hr); [|destruct Hr as [-> _]; by apply refines_refused].
  destruct Hr as (st & st' & Hs & _ & _ & _ & _ & _ & Hc & Happ & _).
  split; [done|]. unfold abstract. simpl. rewrite Hc, Hp. eapply abs_reserve; [|exact Happ].
  unfold contents. by rewrite lookup_fmap, Hs.
Qed.

Lemma refines_write m sid pos layer bytes :
  mgr_wf m → 0 <= pos → 0 <= layer →
  Z.of_nat (length bytes) = block_stride_bytes_ (allocator_ m) →
  runs (write_token m sid pos layer bytes) (refines m (WriteToken sid pos layer bytes)).
Proof.
  intros Hwf Hpos Hlayer Hlen. unfold write_token.
  run_step (ensure_spec m sid pos TextKV layer Hwf Hpos Hlayer).
  intros [[id|] m1] (Hwf1 & Hc1 & Hp1 & Hr); cbn [runs];
    [|destruct Hr as [-> _]; by apply refines_refused].
  destruct Hr as (e & Hat & Hres & Hat1 & Hone & Hpool).
  destruct (write_block_spec m1 sid layer (pos / tpb_of m) (entry_set_frame id true e) bytes)
    as (Hwf2 & Hp2 & Hc2); [done..|by rewrite (same_pool_stride _ _ Hpool)|].
  split; [done|]. unfold abstract. simpl in *. rewrite Hc2, Hp2, Hc1, Hp1.
  destruct Hat as (st & t & Hs & Ht & He). eapply abs_write.
  - unfold contents. by rewrite lookup_fmap, Hs.
  - unfold seq_bytes. by rewrite list_lookup_fmap, Ht.
  - unfold table_bytes. rewrite length_fmap. by eapply lookup_lt_Some.
Qed.

Lemma prefixes_lookup m key x :
  (∃ l, prefixes m !! key = Some l ∧ x ∈ l) ↔
  ∃ r, r ∈ records_of key (prefix_index_ m) ∧ x = record_bytes (allocator_ m) r.
Proof.
  unfold prefixes, records_of. rewrite lookup_fmap.
  destruct (prefix_index_ m !! key) as [recs|]; simpl.
  - split.
    + intros (l & [= <-] & (r & -> & Hin)%list_elem_of_fmap). by exists r.
    + intros (r & Hin & ->). eexists. split; [done|]. apply list_elem_of_fmap. by exists r.
  - split; [by intros (? & ? & _)|]. by intros (r & ?%not_elem_of_nil & _).
Qed.

Lemma refines_release m sid :
  mgr_wf m → refines m (ReleaseSequence sid) (true, release_sequence m sid).
Proof.
  intros Hwf. destruct (release_sequence_spec m sid Hwf) as (Hwf' & _ & _ & Hc & Hout & Hrb).
  split; [done|]. unfold abstract. simpl. rewrite Hc. apply abs_release.
  intros key x (r' & Hin & ->)%prefixes_lookup. left. apply prefixes_lookup.
  destruct (Hout key r' Hin) as (r & Hin' & Hids & _). exists r. split; [done|].
  rewrite (Hrb key) by done. unfold record_bytes. by rewrite Hids.
Qed.

Lemma resident_table_bytes a ts :
  all_resident ts = true →
  mjoin (table_bytes a <$> ts) = Some ∘ frame a <$> (physical_id <$> all_entries ts).
Proof.
  intros Hres. rewrite table_bytes_join, <-list_fmap_compose. apply list_fmap_ext.
  intros i e He%list_elem_of_lookup_2. unfold entry_bytes.
  by rewrite (proj1 (all_resident_spec _) Hres).
Qed.

Lemma refines_publish m sid key :
  mgr_wf m → publish_ok m sid key →
  runs (publish_prefix m sid key) (refines m (PublishPrefix sid key)).
Proof.
  intros Hwf Hok. eapply runs_mono; [by apply publish_spec|].
  intros [ok m'] [_ Hr]. destruct ok; [|subst m'; by apply refines_refused].
  destruct Hr as (st & Hs & (Hwf' & Hc & Hrb & Hin) & _). split; [done|].
  unfold abstract. simpl. rewrite Hc. eapply abs_publish.
  - unfold contents. by rewrite lookup_fmap, Hs.
  - intros key' x (r' & Hin' & ->)%prefixes_lookup. rewrite Hrb.
    destruct (Hin key' r' Hin') as [(r & Hr & Hids)|(-> & Hids & Hres)]; [left|right].
    + apply prefixes_lookup. exists r. split; [done|]. unfold record_bytes. by rewrite Hids.
    + split; [done|]. unfold seq_bytes, record_bytes. rewrite resident_table_bytes, Hids by done.
      by rewrite <-list_fmap_compose.
Qed.

Lemma attachable_dec m sid key :
  (∃ st r, attachable m sid key st r) ∨ (∀ st r, ¬ attachable m sid key st r).
Proof.
  destruct (sequences_ m !! sid) as [st|] eqn:Hs; [|right; by intros st r [_ ? _ _ _]; simplify_eq].
  destruct (prefix_index_ m !! key) as [[|r [|]]|] eqn:Hr;
    try (right; intros ? ? [_ _ _ ? _]; congruence).
  destruct (decide (key ≠ ""%string ∧ seq_blocks st = 0%nat ∧ tpb_of m ≠ 0)) as [(?&?&?)|Hn].
  - left. by exists st, r.
  - right. intros st' r' [? ? ? ? ?]. simplify_eq. by apply Hn.
Qed.

Lemma refines_attach m sid key :
  mgr_wf m → attach_ok m key →
  (∀ r, prefix_index_ m !! key = Some [r] → 0 < record_token_count r) →
  runs (cache_run m (AttachPrefix sid key)) (refines m (AttachPrefix sid key)).
Proof.
  intros Hwf Hok Htok. simpl. destruct (attachable_dec m sid key) as [(st & r & Hat)|Hno].
  - run_step (attach_success m sid key st r Hwf Hat Hok).
    intros [k m'] (st' & Hwf' & -> & Hp & Hseqs & Hkey & Hc & Hj & _). cbn [runs].
    destruct Hat as [_ Hs Hz Hrec _]. rewrite (proj2 (Z.ltb_lt _ _)) by by apply Htok.
    split; [done|]. unfold abstract. simpl. rewrite Hc, Hp. eapply abs_attach; [| | |exact Hj].
    + unfold contents. by rewrite lookup_fmap, Hs.
    + unfold seq_bytes. rewrite table_bytes_join.
      by destruct (no_blocks m sid st Hwf Hs Hz) as (-> & _).
    + unfold prefixes. by rewrite lookup_fmap, Hrec.
  - rewrite attach_refused by done. by apply refines_refused.
Qed.

Lemma refines_moves m op :
  mgr_wf m → cache_op_ok m op →
  match op with
  | SwapOutSequence _ | SwapInSequence _ | SwapOutRequest _ | SwapInRequest _ => True
  | _ => False
  end → runs (cache_run m op) (refines m op).
Proof.
  intros Hwf Hok Hop. destruct op; try done; simpl in *.
  - run_step (swap_out_sequence_spec m sid 0 Hwf); [done|by rewrite Z.add_0_r|].
    intros [k m'] (Hwf' & Hc & Hp & _). apply refines_same; [done..|]. by apply abs_move.
  - eapply runs_mono; [by apply swap_in_sequence_spec|].
    intros [[|] m'] (Hwf' & Hc & Hp & _ & Hr); [|subst m'; by apply refines_refused].
    apply refines_same; [done..|]. by apply abs_move.
  - run_step (swap_out_request_spec m rid Hwf Hok).
    intros [k m'] (Hwf' & Hc & Hp & _). apply refines_same; [done..|]. by apply abs_move.
  - eapply runs_mono; [by apply swap_in_request_spec|].
    intros [[|] m'] (Hwf' & Hc & Hp & _ & Hr); [|subst m'; by apply refines_refused].
    apply refines_same; [done..|]. by apply abs_move.
Qed.

Lemma cache_refines m op :
  mgr_wf m → cache_op_ok m op → runs (cache_run m op) (refines m op).
Proof.
  intros Hwf Hok. destruct op; try (by apply refines_moves); simpl in Hok.
  - by apply refines_create.
  - by apply refines_fork.
  - by apply refines_reserve.
  - destruct Hok as (? & ? & ?). by apply refines_write.
  - by apply refines_release.
  - by apply refines_publish.
  - destruct Hok. by apply refines_attach.
Qed.

(** ** Properties *)

(** C1. The paged cache implements private storage. Every operation of the manager,
    and a client's write of a block, is defined and takes a step of the abstract
    cache, in which each sequence owns its blocks: sharing, copy on write,
    eviction and prefix reuse are invisible in what the sequences store. The
    invariant is kept, so the steps compose. Excluded ([cache_op_ok]) are counters
    at the end of their range, and publishing a sequence under a second key, which
    loses the invariant. *)
Theorem cache_run_refines m op :
  mgr_wf m → cache_op_ok m op →
  runs (cache_run m op) (λ '(b, m'),
    mgr_wf m' ∧
    cache_spec (Z.to_nat (count_of m)) (tpb_of m) op b (abstract m) (abstract m')).
Proof. intros Hwf Hok. eapply runs_mono; [by apply cache_refines|]. by intros [b m']. Qed.

(** A pool no one has used yet. *)
Record fresh_pool a : Prop := {
  fresh_inv : alloc_inv a;
  fresh_shape : shape_typed (block_shape (config_ a));
  fresh_refs id : refs a id = 0;
  fresh_swapped : swapped a = ∅
}.

Lemma new_manager_wf a : fresh_pool a → mgr_wf (KVCacheManager_new a).
Proof.
  intros [Hi Hsh Hr Hs]. split; simpl; try done.
  - split; intros i; simpl.
    + rewrite Hr. unfold seq_refs, pin_refs. by rewrite !map_zsum_empty.
    + unfold held, slot_refs. by rewrite Hs, lookup_empty, map_zsum_empty.
  - split; simpl; try done. intros rid sid. rewrite lookup_empty.
    split; [by intros ?%not_elem_of_nil|]. by intros (st & ? & _).
Qed.

(** The states a client can reach by operations whose counters do not overflow, and
    without publishing a sequence under a second key ([cache_op_ok]). *)
Inductive reachable (m0 : KVCacheManager B) : KVCacheManager B → Prop :=
  | reach_start : reachable m0 m0
  | reach_step m op b m' :
    reachable m0 m → cache_op_ok m op → cache_run m op = Some (b, m') → reachable m0 m'.

Lemma reachable_wf m0 m : mgr_wf m0 → reachable m0 m → mgr_wf m.
Proof.
  intros Hwf. induction 1 as [|m op b m' _ IH Hok Hrun]; [done|].
  pose proof (cache_refines m op IH Hok) as Hr. rewrite Hrun in Hr. apply Hr.
Qed.

(** C13. In every state a client reaches without publishing a sequence under a second
    key and without overflowing a counter, the reference count of a frame is exactly the
    number of resident entries that map it plus the number of prefixes that pin
    it, every slot in the backend belongs to exactly one entry, and a frame is
    free exactly when nothing refers to it: no frame or slot leaks, none is
    freed early. *)
Theorem reachable_accounting a m :
  fresh_pool a → reachable (KVCacheManager_new a) m →
  (∀ id, refs (allocator_ m) id =
     seq_refs id (sequences_ m) + pin_refs id (prefix_index_ m)) ∧
  (∀ s, held (allocator_ m) s = slot_refs s (sequences_ m)) ∧
  (∀ id, id ∈ free_list_ (allocator_ m) ↔ valid (allocator_ m) id ∧
     seq_refs id (sequences_ m) + pin_refs id (prefix_index_ m) = 0).
Proof.
  intros Hf Hr. pose proof (reachable_wf _ _ (new_manager_wf a Hf) Hr) as Hwf.
  destruct (mgr_accounted _ Hwf) as [Hrefs Hheld]. split_and!; [done..|].
  intros id. rewrite (wf_free _ (proj1 (mgr_alloc _ Hwf))). by rewrite Hrefs.
Qed.

(** C23. Releasing every sequence gives the pool back: all frames free, swap space
    empty, no prefix and no request remembered. The cache satisfies the invariant
    before: every state of [reachable] does, and one in which a sequence was
    published under a second key does not, where the frames of the first key stay
    pinned ([publish_second_key_leaks]). *)
Theorem release_all_returns_pool m ids :
  mgr_wf m → (∀ sid, contains m sid = true → sid ∈ ids) →
  let m' := foldl release_sequence m ids in
  (∀ id, refs (allocator_ m') id = 0) ∧
  nfree (allocator_ m') = max_blocks (config_ (allocator_ m)) ∧
  swapped (allocator_ m') = ∅ ∧ prefix_index_ m' = ∅ ∧ sequences_by_request_ m' = ∅.
Proof.
  intros Hwf Hall m'. destruct (release_all_spec m ids Hwf) as (Hwf' & Hs & Hp & _).
  fold m' in Hwf', Hs, Hp.
  assert (∀ l (q : gmap Z SequenceState) k, foldl (λ s id, delete id s) q l !! k = None ↔
    (k ∈ l ∨ q !! k = None)) as Hdel.
  { induction l as [|x l IH]; intros q k; simpl.
    - split; [by right|]. by intros [?%not_elem_of_nil|].
    - rewrite IH, elem_of_cons, lookup_delete_None. intuition. }
  destruct (no_sequences m' Hwf') as (Hz & Hsw & Hpre & Hidx & Hn).
  { rewrite Hs. apply map_empty. intros k. apply Hdel.
    destruct (sequences_ m !! k) eqn:Hk; [left|by right]. apply Hall. unfold contains.
    by rewrite Hk. }
  split_and!; try done. by rewrite Hn, (same_pool_config _ _ Hp).
Qed.

(** C14. The copy-on-write guard. A frame handed out for writing has a single
    reference, is mapped writable at the block asked for, and holding it changed
    nothing any sequence or prefix stores. It is refused only when the block is
    not resident, or it is shared and the pool has no frame for a copy. *)
Theorem ensure_token_writable_exclusive m sid pos kind layer :
  mgr_wf m → 0 <= pos → 0 <= layer →
  runs (ensure_token_writable m sid pos kind layer) (λ '(r, m'),
    mgr_wf m' ∧ abstract m' = abstract m ∧
    match r with
    | Some id =>
      refs (allocator_ m') id = 1 ∧
      ∃ e, entry_at m' sid layer (pos / tpb_of m) e ∧ physical_id e = id ∧
           writable e = true ∧ swap_slot e = None
    | None =>
      m' = m ∧ ∀ e, tpb_of m ≠ 0 → entry_at m sid layer (pos / tpb_of m) e →
        resident e = true → 1 < refs (allocator_ m) (physical_id e) ∧ nfree (allocator_ m) = 0
    end).
Proof.
  intros Hwf Hpos Hlayer. eapply runs_mono; [by apply ensure_spec|].
  intros [[id|] m'] (Hwf' & Hc & Hp & Hr);
    (split; [done|split; [unfold abstract; congruence|]]).
  - destruct Hr as (e & _ & Hres & Hat & Hone & _). split; [done|].
    exists (entry_set_frame id true e). split_and!; try done. simpl.
    by destruct (resident_entry e Hres) as (_ & _ & ->).
  - apply Hr.
Qed.

(** C22. [reserve_tokens] adds exactly the blocks the tokens need to every table, or
    nothing: it succeeds exactly when the sequence is known, blocks hold tokens
    and the pool has a frame for each block of each table. *)
Theorem reserve_tokens_exact m sid n :
  mgr_wf m → reserve_ok m sid n →
  let bn := blocks_needed n (tpb_of m) in
  runs (reserve_tokens m sid n) (λ '(ok, m'),
    (ok = true ↔ contains m sid = true ∧ tpb_of m ≠ 0 ∧
                 bn * count_of m <= nfree (allocator_ m)) ∧
    (ok = true → n <= bn * tpb_of m < n + tpb_of m ∧
      nfree (allocator_ m') = nfree (allocator_ m) - bn * count_of m ∧
      ∃ st st', sequences_ m !! sid = Some st ∧
        sequences_ m' = <[sid := st']> (sequences_ m) ∧
        seq_blocks st' = (seq_blocks st + Z.to_nat bn)%nat ∧
        appended (Z.to_nat bn) (seq_bytes (allocator_ m) st) (seq_bytes (allocator_ m') st')) ∧
    (ok = false → m' = m)).
Proof.
  intros Hwf Hok bn. eapply runs_mono; [by apply reserve_spec|].
  intros [[|] m'] (Hwf' & Hp & Hr).
  - destruct Hr as (st & st' & Hs & Hs' & Hz & Hle & Hn & Hb & _ & Happ & _).
    split_and!; [|intros _|done].
    + split; [|done]. intros _. split_and!; [|done..]. unfold contains. by rewrite Hs.
    + pose proof (tpb_u32 m Hwf). destruct (blocks_needed_spec n (tpb_of m)) as [_ ?];
        [words|apply Hok|]. split_and!; [lia..|]. by exists st, st'.
  - destruct Hr as [-> Hr]. split_and!; [|done..]. split; [done|]. intros (Hc & Hz & Hle).
    destruct Hr as [Hr|[Hr|Hr]]; [congruence|done|]. fold bn in Hr. lia.
Qed.
End Refinement.
