(* ===== verification/CacheViews.v ===== *)
(** What an execution backend reads through a cache view: [slot] resolves exactly
    the vectors of resident blocks, and the bytes there are the ones the sequence
    stores. *)
From S2P Require Import Prelude.
From S2P Require Import Block.
From S2P Require Import CacheLayout.
From S2P Require Import SwapBackend.
From S2P Require Import BlockTable.
From S2P Require Import MemoryAllocator.
From S2P Require Import AllocatorSpec.
From S2P Require Import AllocatorProps.
From S2P Require Import KVCacheManager.
From S2P Require Import CacheAccounting.
From S2P Require Import AllocatorMoves.
From S2P Require Import CacheInvariant.
From S2P Require Import CacheLemmas.
From S2P Require Import CacheLifecycle.
From S2P Require Import CacheGrowth.
From S2P Require Import CacheWrite.
From S2P Require Import CacheRecords.
From S2P Require Import CacheRelease.
From S2P Require Import CachePrefix.

Lemma splice_nested {A} base off n (k l : list A) :
  (off + length k ≤ n)%nat → (base + n ≤ length l)%nat →
  splice base (splice off k (slice base n l)) l = splice (base + off) k l.
Proof.
  intros Hk Hn. assert (length (slice base n l) = n) as Hs by (by apply length_slice).
  unfold splice at 1. rewrite length_splice by lia. rewrite Hs.
  unfold splice, slice.
  assert (take base l ++ take off (take n (drop base l)) = take (base + off) l) as <-.
  { rewrite take_take, Nat.min_l by lia. apply take_take_drop. }
  assert (drop (off + length k) (take n (drop base l)) ++ drop (base + n) l =
    drop (base + off + length k) l) as <-.
  { rewrite skipn_firstn_comm, drop_drop.
    rewrite <-(take_drop (n - (off + length k)) (drop (base + off + length k) l)), drop_drop.
    f_equal; [f_equal; f_equal; lia|f_equal; lia]. }
  by rewrite <-!(assoc_L (++)).
Qed.

Section Views.
Context {B : Type} `{SwapBackendLaws B}.
Implicit Types a : MemoryAllocator B.
Implicit Types m : KVCacheManager B.

(** A pool whose blocks have elements and fit their frames, as the allocator's
    constructors make it. *)
Record view_pool a : Prop := {
  view_frames : 0 < max_blocks (config_ a);
  view_elements : 0 < exact_elements (block_shape (config_ a));
  view_element_bytes : 0 < bytes_per_element (block_shape (config_ a));
  view_range : exact_elements (block_shape (config_ a))
               * bytes_per_element (block_shape (config_ a)) < W64;
  view_fits : byte_size (block_shape (config_ a)) <= block_stride_bytes_ a
}.

Lemma pool_shape_config a : alloc_wf a → 0 < max_blocks (config_ a) →
  pool_shape a = block_shape (config_ a) ∧
  tokens_per_block_of a = tokens_per_block (block_shape (config_ a)).
Proof.
  intros Hwf Hm. unfold pool_shape, tokens_per_block_of.
  rewrite block_valid by (unfold valid; done || lia). done.
Qed.

(** The table that stores a layer. *)
Definition layer_table a (layer : Z) : Z :=
  if per_layer_frames (pool_shape a) then layer else 0.
(** The layer inside a frame. *)
Definition frame_layer a (layer : Z) : Z :=
  if per_layer_frames (pool_shape a) then 0 else layer.

Lemma lookup_dense sid tpb n t index :
  table_wf sid tpb n t → 0 <= index →
  lookup_block t index =
    (e ← entries_ t !! Z.to_nat index; if resident e then Some (physical_id e) else None).
Proof.
  intros Ht Hix. rewrite lookup_block_spec by by eapply table_wf_sorted.
  rewrite <-entry_refines by by eapply table_wf_sorted.
  unfold entry. rewrite (table_wf_find _ _ _ _ _ Ht), (proj2 (Z.leb_le _ _)) by done. simpl.
  destruct (Z.ltb_spec index (Z.of_nat n)) as [Hlt|Hge]; simpl.
  - destruct (entries_ t !! Z.to_nat index) as [e|]; simpl; [|done].
    unfold resident. by destruct (swap_slot e).
  - rewrite lookup_ge_None_2; [done|]. rewrite (table_len _ _ _ _ Ht). lia.
Qed.

(** The view of a sequence. *)
Definition view_of m (sid : Z) (kind : CacheKind) (st : SequenceState) (t0 : BlockTable)
    : CacheView B :=
  mkCacheView sid kind (Some t0) (Some (tables st)) (Some (allocator_ m))
    (mkKVBlockLayout (pool_shape (allocator_ m))).

Lemma cache_view_run m sid kind :
  mgr_wf m →
  cache_view m sid kind = Some
    (match sequences_ m !! sid with
     | Some st => match tables st with t0 :: _ => Some (view_of m sid kind st t0) | [] => None end
     | None => None
     end).
Proof.
  intros Hwf. unfold cache_view. destruct (sequences_ m !! sid) as [st|] eqn:Hs; [|done].
  destruct (first_table m sid st Hwf Hs) as (t0 & ts & Hts & _).
  unfold text_table, view_of. by rewrite Hts.
Qed.

Lemma view_of_valid m sid kind st t0 :
  mgr_wf m → view_pool (allocator_ m) → view_valid (view_of m sid kind st t0) = true.
Proof.
  intros Hwf [Hm He Hb Hr _]. unfold view_valid, view_of. simpl.
  rewrite (proj1 (pool_shape_config _ (proj1 (mgr_alloc _ Hwf)) Hm)), element_count_mod. simpl.
  rewrite u64_small by (split; [lia|nia]). by apply Z.ltb_lt.
Qed.

Lemma block_bytes_spec m sid kind st t0 ts layer index :
  mgr_wf m → view_pool (allocator_ m) → sequences_ m !! sid = Some st →
  tables st = t0 :: ts → 0 <= index → 0 <= layer →
  block_bytes (view_of m sid kind st t0) index layer =
    (t ← tables st !! Z.to_nat layer; e ← entries_ t !! Z.to_nat index;
     base ← pool_base_ (allocator_ m);
     if resident e
     then Some (base + physical_id e * block_stride_bytes_ (allocator_ m)) else None).
Proof.
  intros Hwf Hvp Hs Hts Hix Hl. unfold block_bytes. rewrite view_of_valid by done.
  unfold view_of. cbn [negb view_layer_tables view_block_table view_allocator].
  destruct (Z.ltb_spec layer (Z.of_nat (length (tables st)))) as [Hlt|Hge].
  2:{ rewrite lookup_ge_None_2 by lia. rewrite Hts in Hge. cbn [length] in Hge.
      by rewrite (proj2 (Z.eqb_neq layer 0)) by lia. }
  destruct (lookup_lt_is_Some_2 (tables st) (Z.to_nat layer)) as [t Ht]; [lia|].
  rewrite Ht. cbn [mbind option_bind].
  pose proof (seq_dense _ _ _ _ (mgr_seq _ Hwf _ _ Hs)) as Hd.
  pose proof (proj1 (Forall_lookup _ _) Hd _ _ Ht) as Htw. simpl in Htw.
  rewrite (lookup_dense _ _ _ _ _ Htw) by done.
  destruct (entries_ t !! Z.to_nat index) as [e|] eqn:He; cbn [mbind option_bind]; [|done].
  destruct (resident e) eqn:Hres; cbn [mbind option_bind];
    [|by destruct (pool_base_ (allocator_ m))].
  destruct (entries_valid m sid st e Hwf Hs) as [_ Hv]; [|done|].
  { apply list_elem_of_bind. exists t. split; by eapply list_elem_of_lookup_2. }
  rewrite block_valid by (try done; apply Hwf).
  destruct (frame_address (allocator_ m) (physical_id e)) as (base & Hbase & Hst);
    [apply Hwf|done|]. cbn [mbind option_bind]. by rewrite Hst, Hbase.
Qed.

(** [slot] as one lookup. *)
Lemma slot_spec m sid kind st t0 ts stream layer token head :
  mgr_wf m → view_pool (allocator_ m) → sequences_ m !! sid = Some st →
  tables st = t0 :: ts → 0 <= layer → 0 <= token →
  let a := allocator_ m in
  let s := pool_shape a in
  slot (bytes_per_element s) (view_of m sid kind st t0) stream layer token head =
    (t ← tables st !! Z.to_nat (layer_table a layer);
     off ← element_offset (mkKVBlockLayout s) (frame_layer a layer) stream
             (token mod tpb_of m) head;
     e ← entries_ t !! Z.to_nat (token / tpb_of m);
     base ← pool_base_ a;
     if resident e
     then Some (base + physical_id e * block_stride_bytes_ a + off * bytes_per_element s)
     else None).
Proof.
  intros Hwf Hvp Hs Hts Hl Htk a s.
  destruct (pool_shape_config a (proj1 (mgr_alloc _ Hwf)) (view_frames _ Hvp)) as [Hps Htp].
  assert (tokens_per_block s = tpb_of m) as Htpb by (unfold s, tpb_of; fold a; by rewrite Hps, Htp).
  assert (0 < tpb_of m) as Hpos.
  { rewrite <-Htpb. unfold s. rewrite Hps. destruct (exact_elements_pos (block_shape (config_ a)))
      as (_ & _ & ? & _); [apply Hwf|pose proof (view_elements _ Hvp); unfold a; lia|done]. }
  unfold slot. rewrite view_of_valid by done.
  change (view_layout (view_of m sid kind st t0)) with (mkKVBlockLayout s).
  change (view_layer_tables (view_of m sid kind st t0)) with (Some (tables st)).
  cbn [shape]. rewrite Z.eqb_refl, Htpb.
  unfold layer_table, frame_layer. fold s. cbn [negb orb].
  assert (0 <= token / tpb_of m) by (apply Z.div_pos; lia).
  destruct (per_layer_frames s) eqn:Hpl; cbn [andb].
  - destruct (Z.leb_spec (Z.of_nat (length (tables st))) layer) as [Hge|Hlt];
      [by rewrite lookup_ge_None_2 by lia|].
    destruct (lookup_lt_is_Some_2 (tables st) (Z.to_nat layer)) as [t Ht]; [lia|].
    rewrite (block_bytes_spec m sid kind st t0 ts) by (done || lia). rewrite Ht. cbn [mbind option_bind].
    destruct (element_offset _ _ _ _ _); cbn [mbind option_bind]; [|done].
    destruct (entries_ t !! _) as [e|]; cbn [mbind option_bind]; [|done]. fold a.
    destruct (pool_base_ a); cbn [mbind option_bind]; [|done]. by destruct (resident e).
  - rewrite (block_bytes_spec m sid kind st t0 ts) by (done || lia).
    destruct (tables st !! Z.to_nat 0) as [t|] eqn:Ht; [|by rewrite Hts in Ht].
    cbn [mbind option_bind].
    destruct (element_offset _ _ _ _ _); cbn [mbind option_bind]; [|done].
    destruct (entries_ t !! _) as [e|]; cbn [mbind option_bind]; [|done]. fold a.
    destruct (pool_base_ a); cbn [mbind option_bind]; [|done]. by destruct (resident e).
Qed.

(** Reading a range inside a frame. *)
Lemma read_in_frame a id base off n :
  alloc_wf a → valid a id → pool_base_ a = Some base → 0 <= off → 0 <= n →
  off + n <= block_stride_bytes_ a →
  read_mem a (Some (base + id * block_stride_bytes_ a + off)) n =
    Some (slice (Z.to_nat off) (Z.to_nat n) (frame a id)).
Proof.
  intros Hwf Hv Hb Ho Hn Hle. destruct (frame_range a id Hwf Hv) as [Hf1 Hf2].
  unfold read_mem. rewrite Hb. cbn [mbind option_bind].
  replace (base + id * block_stride_bytes_ a + off - base)
    with (id * block_stride_bytes_ a + off) by lia.
  rewrite !(proj2 (Z.leb_le _ _)) by lia. cbn [andb]. f_equal.
  unfold frame, slice. rewrite skipn_firstn_comm, take_take, drop_drop. f_equal; [lia|].
  f_equal. lia.
Qed.

(** Writing one. *)
Lemma set_frame_twice a id b1 b2 :
  alloc_wf a → valid a id → Z.of_nat (length b1) = block_stride_bytes_ a →
  Z.of_nat (length b2) = block_stride_bytes_ a →
  set_frame (set_frame a id b1) id b2 = set_frame a id b2.
Proof.
  intros Hwf Hv H1 H2. destruct (frame_range a id Hwf Hv). unfold set_frame. simpl.
  unfold with_slab. simpl. f_equal.
  set (base := Z.to_nat (id * block_stride_bytes_ a)). unfold splice.
  rewrite take_app_le by (rewrite length_take; lia). rewrite take_take, Nat.min_id. f_equal.
  f_equal. replace (length b2) with (length b1) by lia.
  rewrite (assoc_L (++)). rewrite drop_app_length'; [done|].
  rewrite length_app, length_take. lia.
Qed.

Lemma set_frame_same a id : alloc_wf a → valid a id → set_frame a id (frame a id) = a.
Proof.
  intros Hwf Hv. destruct (frame_range a id Hwf Hv). pose proof (length_frame a id Hwf Hv) as Hl.
  unfold set_frame. assert (splice (Z.to_nat (id * block_stride_bytes_ a)) (frame a id) (slab_ a)
    = slab_ a) as ->; [|by destruct a].
  unfold splice, frame, slice in *. rewrite length_take, length_drop, Nat.min_l by lia.
  rewrite <-drop_drop. by rewrite take_drop, take_drop.
Qed.

(** A write inside a frame rewrites its bytes. *)
Lemma write_in_frame a id base off bytes :
  alloc_wf a → valid a id → pool_base_ a = Some base → 0 <= off →
  off + Z.of_nat (length bytes) <= block_stride_bytes_ a →
  write_mem a (Some (base + id * block_stride_bytes_ a + off)) bytes =
    Some (set_frame a id (splice (Z.to_nat off) bytes (frame a id))).
Proof.
  intros Hwf Hv Hb Ho Hle. destruct (frame_range a id Hwf Hv) as [Hf1 Hf2].
  pose proof (wf_stride _ Hwf).
  unfold write_mem. rewrite Hb. cbn [mbind option_bind].
  replace (base + id * block_stride_bytes_ a + off - base)
    with (id * block_stride_bytes_ a + off) by lia.
  rewrite !(proj2 (Z.leb_le _ _)) by lia. cbn [andb]. f_equal. unfold set_frame. f_equal.
  unfold frame. rewrite splice_nested by lia. f_equal. lia.
Qed.

(** ** Pools that differ in what they store *)

Lemma view_pool_same a a' : same_pool a a' → view_pool a → view_pool a'.
Proof.
  intros Hp [H1 H2 H3 H4 H5]. pose proof (same_pool_config _ _ Hp) as Hc.
  pose proof (same_pool_stride _ _ Hp) as Hs. split; rewrite ?Hc, ?Hs; done.
Qed.

Lemma pool_shape_same a a' :
  alloc_wf a → alloc_wf a' → same_pool a a' → 0 < max_blocks (config_ a) →
  pool_shape a' = pool_shape a.
Proof.
  intros Hwf Hwf' Hp Hm. pose proof (same_pool_config _ _ Hp) as Hc.
  destruct (pool_shape_config a Hwf Hm) as [-> _].
  destruct (pool_shape_config a' Hwf') as [-> _]; by rewrite Hc.
Qed.

Lemma contents_entry m sid st layer index t e :
  sequences_ m !! sid = Some st → tables st !! layer = Some t →
  entries_ t !! index = Some e →
  (bs ← contents m !! sid; b ← bs !! layer; b !! index) =
    Some (entry_bytes (allocator_ m) e).
Proof.
  intros Hs Ht He. unfold contents. rewrite lookup_fmap, Hs. cbn [fmap option_fmap option_map mbind option_bind].
  unfold seq_bytes. rewrite list_lookup_fmap, Ht. cbn [fmap option_fmap option_map mbind option_bind].
  unfold table_bytes. by rewrite list_lookup_fmap, He.
Qed.

(** What [slot] resolves to. *)
Lemma slot_reads m sid kind v stream layer token head addr :
  mgr_wf m → view_pool (allocator_ m) → cache_view m sid kind = Some (Some v) →
  0 <= layer → 0 <= token → 0 <= head →
  let a := allocator_ m in
  let s := pool_shape a in
  slot (bytes_per_element s) v stream layer token head = Some addr →
  ∃ block off,
    (bs ← contents m !! sid; b ← bs !! Z.to_nat (layer_table a layer);
     b !! Z.to_nat (token / tpb_of m)) = Some (Some block) ∧
    element_offset (view_layout v) (frame_layer a layer) stream (token mod tpb_of m) head
      = Some off ∧
    read_mem a (Some addr) (head_dim s * bytes_per_element s) =
      Some (slice (Z.to_nat (off * bytes_per_element s))
              (Z.to_nat (head_dim s * bytes_per_element s)) block).
Proof.
  intros Hwf Hvp Hview Hl Htk Hh a s Hslot. rewrite cache_view_run in Hview by done.
  destruct (sequences_ m !! sid) as [st|] eqn:Hs; [|done].
  destruct (tables st) as [|t0 ts] eqn:Hts; [done|]. injection Hview as <-.
  rewrite (slot_spec m sid kind st t0 ts) in Hslot by done. fold a s in Hslot.
  apply bind_Some in Hslot as (t & Ht & Hslot). apply bind_Some in Hslot as (off & Hoff & Hslot).
  apply bind_Some in Hslot as (e & He & Hslot). apply bind_Some in Hslot as (base & Hbase & Hslot).
  destruct (resident e) eqn:Hres; [|done]. injection Hslot as <-.
  exists (frame a (physical_id e)), off.
  destruct (pool_shape_config a (proj1 (mgr_alloc _ Hwf)) (view_frames _ Hvp)) as [Hps Htp].
  fold s in Hps. destruct Hvp as [Hm Hel Heb Hrg Hft].
  destruct (exact_elements_pos (block_shape (config_ a))) as (_ & HL & HT & HK & HD);
    [apply Hwf|unfold a; lia|].
  assert (0 < tpb_of m) by (unfold tpb_of; fold a; lia).
  assert (0 <= token mod tpb_of m) by (apply Z.mod_pos_bound; lia).
  destruct (vector_in_bytes (mkKVBlockLayout s) (frame_layer a layer) stream
    (token mod tpb_of m) head off) as [Ho1 Ho2]; cbn [shape]; rewrite ?Hps in *; try done;
    [apply Hwf|unfold frame_layer; case_match; lia|].
  destruct (entries_valid m sid st e Hwf Hs) as [_ Hv]; [|done|].
  { apply list_elem_of_bind. exists t. split; eapply list_elem_of_lookup_2; [exact He|exact Ht]. }
  cbn [shape] in *. split_and!.
  - rewrite (contents_entry _ _ _ _ _ _ _ Hs Ht He).
    destruct (resident_entry e Hres) as (_ & _ & Hsw). unfold entry_bytes. by rewrite Hsw.
  - unfold view_of. cbn [view_layout]. fold a s. by rewrite Hps.
  - fold a in Heb, Hft. clear Hps. apply read_in_frame; try done; [apply Hwf|nia|nia].
Qed.

(** ** Properties *)

(** C18. A backend reads what the sequence stores. When [slot] resolves a vector, the
    bytes at the address it returns are the bytes of the sequence's block at the
    vector's offset, and all of them lie in the pool. *)
Theorem view_reads_contents m sid kind v stream layer token head addr :
  mgr_wf m → view_pool (allocator_ m) → cache_view m sid kind = Some (Some v) →
  0 <= layer → 0 <= token → 0 <= head →
  let a := allocator_ m in
  let s := pool_shape a in
  slot (bytes_per_element s) v stream layer token head = Some addr →
  ∃ block off,
    (bs ← contents m !! sid; b ← bs !! Z.to_nat (layer_table a layer);
     b !! Z.to_nat (token / tpb_of m)) = Some (Some block) ∧
    element_offset (view_layout v) (frame_layer a layer) stream (token mod tpb_of m) head
      = Some off ∧
    read_mem a (Some addr) (head_dim s * bytes_per_element s) =
      Some (slice (Z.to_nat (off * bytes_per_element s))
              (Z.to_nat (head_dim s * bytes_per_element s)) block).
Proof. apply slot_reads. Qed.

(** [slot] resolves exactly the vectors in range whose block is resident: an
    index out of the block shape, an unmapped block and a swapped-out block all
    give a null pointer. *)
Theorem view_slot_resident m sid kind v stream layer token head :
  mgr_wf m → view_pool (allocator_ m) → cache_view m sid kind = Some (Some v) →
  0 <= layer → 0 <= token → 0 <= head →
  let a := allocator_ m in
  let s := pool_shape a in
  is_Some (slot (bytes_per_element s) v stream layer token head) ↔
  in_block s (frame_layer a layer) (token mod tpb_of m) head ∧
  ∃ e, entry_at m sid (layer_table a layer) (token / tpb_of m) e ∧ resident e = true.
Proof.
  intros Hwf Hvp Hview Hl Htk Hh a s. rewrite cache_view_run in Hview by done.
  destruct (sequences_ m !! sid) as [st|] eqn:Hs; [|done].
  destruct (tables st) as [|t0 ts] eqn:Hts; [done|]. injection Hview as <-.
  rewrite (slot_spec m sid kind st t0 ts) by done. fold a s.
  destruct (wf_base _ (proj1 (mgr_alloc _ Hwf)) (view_frames _ Hvp)) as [base Hbase].
  fold a in Hbase. rewrite Hbase.
  split.
  - intros [addr Hslot]. apply bind_Some in Hslot as (t & Ht & Hslot).
    apply bind_Some in Hslot as (off & Hoff & Hslot). apply bind_Some in Hslot as (e & He & Hslot).
    cbn [mbind option_bind] in Hslot. destruct (resident e) eqn:Hres; [|done].
    assert (in_block s (frame_layer a layer) (token mod tpb_of m) head) as Hin.
    { unfold element_offset in Hoff. cbn [shape] in Hoff. case_match eqn:Hc; [done|].
      apply orb_false_iff in Hc as [[Hc1 Hc2]%orb_false_iff Hc3].
      apply Z.leb_gt in Hc1, Hc2, Hc3. unfold frame_layer in *.
      assert (0 <= token mod tpb_of m).
      { destruct (decide (tpb_of m = 0)) as [->|]; [by rewrite Z.mod_0_r|].
        pose proof (tpb_u32 m Hwf). apply Z.mod_pos_bound. words. }
      split_and!; try done. case_match; lia. }
    split; [done|]. exists e. split; [|done]. by exists st, t.
  - intros (Hin & e & (st' & t & Hs' & Ht & He) & Hres). simplify_eq. rewrite Ht.
    cbn [mbind option_bind].
    destruct (element_offset (mkKVBlockLayout s) (frame_layer a layer) stream
      (token mod tpb_of m) head) as [off|] eqn:Hoff.
    + cbn [mbind option_bind]. rewrite He. cbn [mbind option_bind]. rewrite Hres. by eexists.
    + unfold element_offset in Hoff. cbn [shape] in Hoff. destruct Hin as (H1 & H2 & H3).
      by rewrite !(proj2 (Z.leb_gt _ _)) in Hoff by lia.
Qed.
End Views.
