(* ===== verification/CacheSharing.v ===== *)
(** Sharing and paging seen from a request: a fork and an attached prefix take no
    frame, swapping out and in restores a sequence, a request comes back whole or
    not at all; and the arithmetic of [reserve_tokens] at the top of its range. *)
From S2P Require Import Prelude.
From S2P Require Import Block.
From S2P Require Import CacheLayout.
From S2P Require Import SwapBackend.
From S2P Require Import BlockTable.
From S2P Require Import MemoryAllocator.
From S2P Require Import AllocatorSpec.
From S2P Require Import AllocatorProps.
From S2P Require Import KVCacheManager.
From S2P Require Import CacheAccounting.
From S2P Require Import AllocatorMoves.
From S2P Require Import CacheInvariant.
From S2P Require Import CacheLemmas.
From S2P Require Import CacheLifecycle.
From S2P Require Import CacheGrowth.
From S2P Require Import CacheWrite.
From S2P Require Import CacheSwap.
From S2P Require Import CacheRecords.
From S2P Require Import CacheRelease.
From S2P Require Import CachePrefix.
From S2P Require Import CacheProps.

Section Sharing.
Context {B : Type} `{SwapBackendLaws B}.
Implicit Types a : MemoryAllocator B.
Implicit Types m : KVCacheManager B.

(** When a fork is allowed. *)
Definition forkable m (parent : Z) (md : SequenceMetadata) : Prop :=
  contains m (sm_sequence_id md) = false ∧
  ∃ st, sequences_ m !! parent = Some st ∧ all_resident (tables st) = true.

#[local] Instance forkable_dec m parent md : Decision (forkable m parent md).
Proof.
  unfold forkable. destruct (sequences_ m !! parent) as [st|];
    [|right; by intros (_ & st & ? & _)].
  destruct (decide (contains m (sm_sequence_id md) = false ∧ all_resident (tables st) = true))
    as [[Hc Hr]|Hno]; [left; split; [done|by exists st]|right].
  intros (Hc & st' & [= <-] & Hr). by apply Hno.
Defined.

Lemma fork_refused m parent md :
  ¬ forkable m parent md → fork_sequence m parent md = (false, m).
Proof.
  intros Hno. apply fork_failure. unfold forkable, contains in *.
  destruct (sequences_ m !! parent) as [st|] eqn:Hp; [right|by left].
  destruct (sequences_ m !! sm_sequence_id md) as [st'|] eqn:Hc; [by left|right].
  exists st. split; [done|]. destruct (all_resident (tables st)) eqn:Hr; [|done].
  exfalso. apply Hno. split; [done|]. by exists st.
Qed.

(** C20. A fork takes no frame. It succeeds exactly when the parent is known and
    resident and the child's id is new; the child then stores what the parent
    stores, every other sequence what it stored, and no frame is allocated or
    copied. A refused fork changes nothing. *)
Theorem fork_sequence_shares m parent md :
  mgr_wf m → fork_room m parent →
  let '(ok, m') := fork_sequence m parent md in
  (ok = true ↔ forkable m parent md) ∧
  (ok = true →
     nfree (allocator_ m') = nfree (allocator_ m) ∧
     contents m' !! sm_sequence_id md = contents m !! parent ∧
     (∀ sid, sid ≠ sm_sequence_id md → contents m' !! sid = contents m !! sid) ∧
     prefixes m' = prefixes m) ∧
  (ok = false → m' = m).
Proof.
  intros Hwf Hroom. destruct (decide (forkable m parent md)) as [Hf|Hf].
  - destruct Hf as (Hc & st & Hp & Hres). unfold contains in Hc.
    destruct (sequences_ m !! sm_sequence_id md) eqn:Hcs; [done|].
    destruct (fork_success m parent st md Hwf Hp Hcs Hres Hroom)
      as (Hok & _ & Hpf & Hn & Hcont).
    destruct (fork_sequence m parent md) as [ok m']. simpl in *. subst ok.
    split_and!; [split; [intros _|done]|intros _|done].
    + split; [unfold contains; by rewrite Hcs|]. by exists st.
    + split_and!; [done| | |done]; rewrite Hcont.
      * rewrite lookup_insert_eq. unfold contents. by rewrite lookup_fmap, Hp.
      * intros sid Hne. by rewrite lookup_insert_ne.
  - rewrite fork_refused by done. by split_and!.
Qed.

(** C21. Attaching a published prefix takes no frame and copies nothing. For a known
    sequence without blocks and a key with a single record it returns the
    record's token count, the sequence's blocks are the pinned frames, read-only,
    and store the bytes the prefix stores; otherwise it returns 0 and changes
    nothing. *)
Theorem attach_prefix_shares m sid key :
  mgr_wf m → attach_ok m key →
  (∀ st r, attachable m sid key st r → runs (attach_prefix m sid key) (λ '(k, m'),
     k = record_token_count r ∧ ∃ st',
       sequences_ m' = <[sid := st']> (sequences_ m) ∧ prefix_key st' = key ∧
       physical_id <$> all_entries (tables st') = physical_ids r ∧
       Forall (λ e, writable e = false ∧ resident e = true) (all_entries (tables st')) ∧
       mjoin (seq_bytes (allocator_ m') st') = Some <$> record_bytes (allocator_ m) r ∧
       (∀ sid', sid' ≠ sid → contents m' !! sid' = contents m !! sid') ∧
       prefixes m' = prefixes m)) ∧
  ((∀ st r, ¬ attachable m sid key st r) → attach_prefix m sid key = Some (0, m)).
Proof.
  intros Hwf Hok. split; [|intros Hno; by apply attach_refused].
  intros st r Hat. eapply runs_mono; [by eapply attach_success|].
  intros [k m'] (st' & _ & -> & Hp & Hs & Hkey & Hc & Hj & Hw & Hids).
  split; [done|]. exists st'. split_and!; try done.
  intros sid' Hne. by rewrite Hc, lookup_insert_ne.
Qed.

Lemma contains_contents m sid : contains m sid = bool_decide (is_Some (contents m !! sid)).
Proof.
  unfold contains, contents. rewrite lookup_fmap.
  by destruct (sequences_ m !! sid).
Qed.

(** C19. Swapping a sequence out and in again is invisible. A resident sequence that
    has been swapped out, as far as the backend takes its blocks, always comes
    back: every block is resident again, the pool has as many free frames as
    before, and no sequence or prefix stores anything else. The first call
    reports the frames it freed, which are the blocks it moved. *)
Theorem swap_out_in_restores m sid :
  mgr_wf m → can_store (allocator_ m) (block_count m sid) → needed m sid = 0 →
  runs (swap_out_sequence m sid) (λ '(k, m1),
    k = u32 (needed m1 sid) ∧ contents m1 = contents m ∧ prefixes m1 = prefixes m ∧
    (swap_in_ok m1 sid → runs (swap_in_sequence m1 sid) (λ '(ok, m2),
       ok = contains m sid ∧ mgr_wf m2 ∧ needed m2 sid = 0 ∧
       nfree (allocator_ m2) = nfree (allocator_ m) ∧
       contents m2 = contents m ∧ prefixes m2 = prefixes m))).
Proof.
  intros Hwf Hc Hz. eapply runs_mono;
    [apply (swap_out_sequence_spec m sid 0); try done; by rewrite Z.add_0_r|].
  intros [k m1] (Hwf1 & Hc1 & Hp1 & -> & _ & Hn & _). rewrite Hz in Hn.
  assert (contains m1 sid = contains m sid) as Hcon by by rewrite !contains_contents, Hc1.
  split_and!; [f_equal; lia|done..|]. intros Hok.
  eapply runs_mono; [by apply swap_in_sequence_spec|].
  intros [ok m2] (Hwf2 & Hc2 & Hp2 & -> & Hr). rewrite Hcon in *.
  assert (0 <= nfree (allocator_ m)) by (unfold nfree; lia).
  rewrite (proj2 (Z.leb_le _ _)) in * by lia. rewrite andb_true_r in *.
  destruct (contains m sid) eqn:Hin.
  - destruct Hr as (Hn2 & Hz2 & _). split_and!; try done; [lia|congruence..].
  - subst m2. unfold contains, needed in *. destruct (sequences_ m1 !! sid); [done|].
    split_and!; try done; lia.
Qed.

(** A request comes back from swap all or nothing: [swap_in_request] succeeds
    exactly when the pool has a frame for every block its sequences have in the
    backend, and then all of them are resident; otherwise nothing moves. Either
    way no sequence stores anything else, and sequences of other requests keep
    their blocks where they are. *)
Theorem swap_in_request_all_or_nothing m rid :
  mgr_wf m → zsum (needed m) (sequences_for m rid) < W32 →
  runs (swap_in_request m rid) (λ '(ok, m'),
    mgr_wf m' ∧ contents m' = contents m ∧ prefixes m' = prefixes m ∧
    (ok = true ↔ zsum (needed m) (sequences_for m rid) <= nfree (allocator_ m)) ∧
    (ok = true →
       (∀ sid, sid ∈ sequences_for m rid → needed m' sid = 0) ∧
       (∀ sid, sid ∉ sequences_for m rid → sequences_ m' !! sid = sequences_ m !! sid)) ∧
    (ok = false → m' = m)).
Proof.
  intros Hwf Hmax. eapply runs_mono; [by apply swap_in_request_spec|].
  intros [ok m'] (Hwf' & Hc & Hp & -> & Hr).
  destruct (Z.leb_spec (zsum (needed m) (sequences_for m rid)) (nfree (allocator_ m)));
    split_and!; try done; [by intros _; split; apply Hr|]. split; [done|lia].
Qed.

(** ** A second publication *)

(** C39. Publishing a sequence that already uses a prefix under another key forgets
    the first key without dropping its user: the first record keeps one user
    more than there are sequences that use it, so its frames stay pinned when
    they are all released. *)
Theorem publish_second_key_stale m sid st key m' :
  mgr_wf m → sequences_ m !! sid = Some st → prefix_key st ≠ ""%string →
  prefix_key st ≠ key → publish_prefix m sid key = Some (true, m') →
  ∃ r, r ∈ records_of (prefix_key st) (prefix_index_ m') ∧
    content_hash r = prefix_hash st ∧
    users r = prefix_users (prefix_key st) (content_hash r) (sequences_ m') + 1.
Proof.
  intros Hwf Hs Hne Hkey Hpub.
  destruct (prefix_member _ _ _ _ (mgr_prefix _ Hwf) _ _ Hs Hne) as (recs & r & Hrecs & Hr & Hh).
  destruct (prefix_records _ _ _ _ (mgr_prefix _ Hwf) _ _ _ Hrecs Hr) as (_ & Hu & _).
  exists r. unfold publish_prefix in Hpub. rewrite Hs in Hpub.
  destruct (decide (key = "")%string); [done|].
  apply bind_Some in Hpub as (t0 & _ & Hpub). destruct (table_empty t0); [done|].
  destruct (decide (prefix_key st = key)); [done|]. case_match; [done|].
  apply bind_Some in Hpub as (hash & _ & Hpub). case_match; [done|].
  assert (records_of (prefix_key st) (prefix_index_ m') = recs ∧
    sequences_ m' = <[sid := with_prefix st key hash]> (sequences_ m)) as [-> ->].
  { unfold records_of. repeat case_match; simplify_eq; simpl;
      by rewrite lookup_insert_ne, Hrecs by done. }
  split_and!; [done..|]. rewrite Hu. unfold prefix_users.
  rewrite (map_zsum_update _ _ _ _ _ Hs). simpl.
  rewrite (decide_True _ _ (conj eq_refl (eq_sym Hh))).
  rewrite decide_False by (intros [? _]; congruence). lia.
Qed.

(** ** The top of the range of [reserve_tokens] *)

Lemma reserve_nothing sid tpb a ts :
  for_each (reserve_table sid tpb 0) a ts = Some (true, a, ts).
Proof.
  induction ts as [|t ts IH]; [done|]. cbn [for_each].
  change (reserve_table sid tpb 0 a t) with (Some (true, a, t)).
  cbn [mbind option_bind]. by rewrite IH.
Qed.

(** C38. A request for almost [2^32] tokens wraps the rounding up of the block count
    to zero: [reserve_tokens] reports success and reserves nothing. *)
Theorem reserve_tokens_wraps m sid n :
  contains m sid = true → 1 < tpb_of m < W32 → W32 - tpb_of m < n < W32 →
  reserve_tokens m sid n = Some (true, m).
Proof.
  unfold contains, tpb_of. intros Hc Ht Hn. unfold reserve_tokens.
  destruct (sequences_ m !! sid) as [st|] eqn:Hs; [|done].
  rewrite (proj2 (Z.eqb_neq _ _)) by lia.
  set (tpb := tokens_per_block_of (allocator_ m)) in *.
  assert (ceil_blocks n tpb = 0) as ->.
  { unfold ceil_blocks. assert (n ⊞ tpb = n + tpb - W32) as ->.
    { unfold u32. symmetry. apply (Z.mod_unique_pos _ _ 1); words. }
    rewrite u32_small by words. apply Z.div_small. lia. }
  rewrite (u32_small (0 * _)) by words. unfold can_allocate. simpl.
  rewrite (proj2 (Z.leb_le 0 _)) by lia. simpl. rewrite reserve_nothing. simpl.
  unfold with_state, with_tables. destruct st. simpl in *. rewrite insert_id by done.
  by destruct m.
Qed.
End Sharing.
