(* ===== verification/CacheDemo.v ===== *)
(** A small cache the properties are instantiated at: a pool of four frames with
    two tokens per block and a four-slot host backend; one sequence of two blocks,
    its prefix published, a second sequence, swapped blocks. *)
From S2P Require Import Prelude.
From S2P Require Import Block.
From S2P Require Import CacheLayout.
From S2P Require Import SwapBackend.
From S2P Require Import BlockTable.
From S2P Require Import MemoryAllocator.
From S2P Require Import AllocatorSpec.
From S2P Require Import AllocatorProps.
From S2P Require Import KVCacheManager.
From S2P Require Import CacheAccounting.
From S2P Require Import AllocatorMoves.
From S2P Require Import CacheInvariant.
From S2P Require Import CacheLemmas.
From S2P Require Import CacheLifecycle.
From S2P Require Import CacheGrowth.
From S2P Require Import CacheWrite.
From S2P Require Import CacheSwap.
From S2P Require Import CacheRecords.
From S2P Require Import CacheRelease.
From S2P Require Import CachePrefix.
From S2P Require Import CacheProps.
From S2P Require Import CacheViews.
From S2P Require Import CacheSharing.

(** ** Discharging side conditions on concrete states *)

Section Bounds.
Context {B : Type} `{SwapBackendLaws B}.

(** [room] from a bound on the counters. *)
Lemma room_bound (a : MemoryAllocator B) (l : list Z) :
  forallb (λ i, ref_count i + Z.of_nat (length l) <? W32) (infos_ a) = true →
  Z.of_nat (length l) < W32 → room a l.
Proof.
  intros Hall Hlen id. pose proof (zcount_length id l). unfold refs.
  destruct (0 <=? id); [|lia]. destruct (info a id) as [i|] eqn:Hi; [|lia].
  apply forallb_forall with (x := i) in Hall; [apply Z.ltb_lt in Hall; lia|].
  apply list_elem_of_In.
  unfold info in Hi. by eapply list_elem_of_lookup_2.
Qed.

(** A run keeps the invariant. *)
Lemma cache_run_wf m op b m' :
  mgr_wf m → cache_op_ok m op → cache_run m op = Some (b, m') → mgr_wf m'.
Proof.
  intros Hwf Hok Hrun. pose proof (cache_refines m op Hwf Hok) as Hr. rewrite Hrun in Hr.
  apply Hr.
Qed.
End Bounds.

(** ** The states *)

Definition demo_md (sid : Z) : SequenceMetadata :=
  mkSequenceMetadata sid 10 [] (mkPositionalEncodingMetadata []).

(** The state after an operation. *)
Definition after (m : KVCacheManager HostSwapBackend) (op : cache_op)
    : KVCacheManager HostSwapBackend :=
  match cache_run m op with Some (_, m') => m' | None => m end.

Definition demo_new : KVCacheManager HostSwapBackend := KVCacheManager_new demo_pool.
(** One sequence with two blocks. *)
Definition demo_one := after (after demo_new (CreateSequence (demo_md 1))) (ReserveTokens 1 3).

Lemma demo_fresh : fresh_pool demo_pool.
Proof.
  split; [apply demo_pool_inv| |apply demo_pool_wf|].
  - split; vm_compute; intuition discriminate.
  - rewrite demo_pool_eq. done.
Qed.

Lemma demo_new_wf : mgr_wf demo_new.
Proof. apply new_manager_wf, demo_fresh. Qed.

Ltac run_demo prev :=
  unfold after;
  match goal with
  | |- mgr_wf (match cache_run ?m ?op with _ => _ end) =>
    let Hr := fresh in
    destruct (cache_run m op) as [[? ?]|] eqn:Hr; [|exact prev];
    refine (cache_run_wf _ _ _ _ prev _ Hr)
  end.

Lemma demo_created_wf : mgr_wf (after demo_new (CreateSequence (demo_md 1))).
Proof. run_demo demo_new_wf. done. Qed.

Lemma demo_one_wf : mgr_wf demo_one.
Proof.
  unfold demo_one. run_demo demo_created_wf. split; [done|done|done|].
  intros st Hs. vm_compute in Hs. injection Hs as <-. vm_compute. done.
Qed.

(** The sequence's blocks in the backend. *)
Definition demo_swapped := after demo_one (SwapOutSequence 1).
(** The sequence's blocks published, and a sequence without blocks. *)
Definition demo_published := after demo_one (PublishPrefix 1 "sys").
Definition demo_shared := after demo_published (CreateSequence (demo_md 2)).

Lemma demo_one_only sid st : sequences_ demo_one !! sid = Some st → sid = 1.
Proof.
  intros Hs. assert ((map_to_list (sequences_ demo_one)).*1 = [1]) as Hk by by vm_compute.
  apply elem_of_map_to_list in Hs. apply (list_elem_of_fmap_2 fst) in Hs.
  rewrite Hk in Hs. by apply list_elem_of_singleton in Hs.
Qed.

Lemma demo_room sid st :
  sequences_ demo_one !! sid = Some st →
  room (allocator_ demo_one) (physical_id <$> all_entries (tables st)).
Proof.
  intros Hs. assert (sid = 1) as -> by by eapply demo_one_only.
  vm_compute in Hs. injection Hs as <-. by apply room_bound; vm_compute.
Qed.

Lemma demo_can_store k : k <= 1000 → can_store (allocator_ demo_one) k.
Proof. intros Hk. right. transitivity 1000; [done|]. vm_compute. done. Qed.

Lemma demo_swapped_wf : mgr_wf demo_swapped.
Proof. unfold demo_swapped. run_demo demo_one_wf. by apply demo_can_store. Qed.

Lemma demo_published_wf : mgr_wf demo_published.
Proof.
  unfold demo_published. run_demo demo_one_wf. split.
  - apply demo_room.
  - intros r Hr. vm_compute in Hr. by apply not_elem_of_nil in Hr.
  - intros st Hs. left. vm_compute in Hs. by injection Hs as <-.
Qed.

Lemma demo_shared_wf : mgr_wf demo_shared.
Proof. unfold demo_shared. by run_demo demo_published_wf. Qed.

Lemma demo_shared_ok : attach_ok demo_shared "sys".
Proof.
  intros r Hr. vm_compute in Hr. injection Hr as <-. split; [|done].
  by apply room_bound; vm_compute.
Qed.

Lemma demo_shared_attachable :
  ∃ st r, attachable demo_shared 2 "sys" st r ∧ record_token_count r = 4.
Proof.
  assert (∃ st, sequences_ demo_shared !! 2 = Some st ∧ seq_blocks st = 0%nat) as (st & Hs & Hn)
    by (eexists; split; vm_compute; reflexivity).
  assert (∃ r, prefix_index_ demo_shared !! "sys"%string = Some [r] ∧ record_token_count r = 4)
    as (r & Hr & Ht) by (eexists; split; vm_compute; reflexivity).
  exists st, r. split; [|exact Ht]. by split; [| | | |vm_compute].
Qed.

Lemma demo_published_user :
  ∃ st, sequences_ demo_published !! 1 = Some st ∧ prefix_key st = "sys"%string.
Proof. eexists. split; vm_compute; reflexivity. Qed.

Lemma demo_reachable : reachable demo_new demo_one.
Proof.
  assert (∀ m op, reachable demo_new m → cache_op_ok m op → reachable demo_new (after m op)) as Hstep.
  { intros m op Hm Hok. unfold after. destruct (cache_run m op) as [[b m']|] eqn:Hr; [|done].
    by eapply reach_step. }
  apply Hstep; [apply Hstep; [apply reach_start|done]|].
  split; [done..|]. intros st Hs. vm_compute in Hs. by injection Hs as <-.
Qed.

Lemma demo_view : view_pool (allocator_ demo_one).
Proof. split; by vm_compute. Qed.

(** ** Witnesses *)

Lemma cache_run_refines_witness :
  runs (cache_run demo_one (ForkSequence 1 (demo_md 2))) (λ '(b, m'),
    mgr_wf m' ∧
    cache_spec (Z.to_nat (count_of demo_one)) (tpb_of demo_one) (ForkSequence 1 (demo_md 2)) b
      (abstract demo_one) (abstract m')).
Proof.
  apply cache_run_refines; [apply demo_one_wf|]. intros st. apply demo_room.
Defined.

Lemma reachable_accounting_witness :
  refs (allocator_ demo_one) 3 =
    seq_refs 3 (sequences_ demo_one) + pin_refs 3 (prefix_index_ demo_one) ∧
  refs (allocator_ demo_one) 3 = 1.
Proof.
  split; [|vm_compute; reflexivity].
  exact (proj1 (reachable_accounting demo_pool demo_one demo_fresh demo_reachable) 3).
Defined.

Lemma release_all_returns_pool_witness :
  nfree (allocator_ (foldl release_sequence demo_one [1])) =
    max_blocks (config_ (allocator_ demo_one)).
Proof.
  refine (proj1 (proj2 (release_all_returns_pool demo_one [1] demo_one_wf _))).
  intros sid Hs. unfold contains in Hs. destruct (sequences_ demo_one !! sid) eqn:He; [|done].
  apply demo_one_only in He as ->. by left.
Defined.

Lemma ensure_token_writable_exclusive_witness :
  runs (ensure_token_writable demo_one 1 0 TextKV 0) (λ '(r, m'), abstract m' = abstract demo_one).
Proof.
  eapply runs_mono; [apply (ensure_token_writable_exclusive demo_one 1 0 TextKV 0 demo_one_wf); lia|].
  by intros [r m'] (_ & ? & _).
Defined.

Lemma reserve_tokens_exact_witness :
  runs (reserve_tokens demo_one 1 4) (λ '(ok, m'),
    ok = true ↔ contains demo_one 1 = true ∧ tpb_of demo_one ≠ 0 ∧
      blocks_needed 4 (tpb_of demo_one) * count_of demo_one <= nfree (allocator_ demo_one)).
Proof.
  eapply runs_mono; [apply (reserve_tokens_exact demo_one 1 4 demo_one_wf)|].
  - split; [done|done|done|]. intros st Hs. vm_compute in Hs. by injection Hs as <-.
  - by intros [ok m'] (? & _).
Defined.

Lemma fork_sequence_shares_witness :
  fst (fork_sequence demo_one 1 (demo_md 2)) = true ↔ forkable demo_one 1 (demo_md 2).
Proof.
  pose proof (fork_sequence_shares demo_one 1 (demo_md 2) demo_one_wf (demo_room 1)) as Hf.
  destruct (fork_sequence demo_one 1 (demo_md 2)) as [ok m']. apply Hf.
Defined.

Lemma attach_prefix_shares_witness :
  runs (attach_prefix demo_shared 2 "sys") (λ '(k, m'), k = 4).
Proof.
  pose proof (attach_prefix_shares demo_shared 2 "sys" demo_shared_wf demo_shared_ok) as [Hall _].
  destruct demo_shared_attachable as (st & r & Hat & Hr). specialize (Hall st r Hat).
  destruct (attach_prefix demo_shared 2 "sys") as [[k m']|]; [|done].
  destruct Hall as [-> _]. exact Hr.
Defined.

Lemma swap_out_in_restores_witness :
  runs (swap_out_sequence demo_one 1) (λ '(k, m1), contents m1 = contents demo_one).
Proof.
  eapply runs_mono; [apply (swap_out_in_restores demo_one 1 demo_one_wf)|].
  - by apply demo_can_store.
  - reflexivity.
  - by intros [k m1] (_ & ? & _).
Defined.

Lemma swap_in_request_all_or_nothing_witness :
  runs (swap_in_request demo_swapped 10) (λ '(ok, m'), contents m' = contents demo_swapped).
Proof.
  eapply runs_mono;
    [apply (swap_in_request_all_or_nothing demo_swapped 10 demo_swapped_wf); reflexivity|].
  by intros [ok m'] (_ & ? & _).
Defined.

Lemma reserve_tokens_wraps_witness :
  reserve_tokens demo_one 1 4294967295 = Some (true, demo_one).
Proof. apply reserve_tokens_wraps; [reflexivity|split; reflexivity..]. Defined.

Lemma view_reads_contents_witness :
  runs (cache_view demo_one 1 TextKV) (λ v, runs v (λ v,
    runs (slot 1 v Key 0 2 0) (λ addr, addr = 72 ∧
      is_Some (read_mem (allocator_ demo_one) (Some addr) 1)))).
Proof.
  destruct (cache_view demo_one 1 TextKV) as [[v|]|] eqn:Hv; [|by vm_compute in Hv..].
  cbn [runs]. destruct (slot 1 v Key 0 2 0) as [addr|] eqn:Hs; [|].
  2:{ vm_compute in Hv. injection Hv as <-. by vm_compute in Hs. }
  destruct (view_reads_contents demo_one 1 TextKV v Key 0 2 0 addr demo_one_wf demo_view Hv)
    as (b & off & _ & _ & Hr); [lia..|exact Hs|].
  cbn [runs]. split; [|exact (ex_intro _ _ Hr)].
  clear Hr. vm_compute in Hv. injection Hv as <-. vm_compute in Hs. by injection Hs as <-.
Defined.

Lemma view_slot_resident_witness :
  runs (cache_view demo_swapped 1 TextKV) (λ v, runs v (λ v,
    is_Some (slot 1 v Key 0 2 0) →
    ∃ e, entry_at demo_swapped 1 0 1 e ∧ resident e = true)).
Proof.
  destruct (cache_view demo_swapped 1 TextKV) as [[v|]|] eqn:Hv; [|by vm_compute in Hv..].
  cbn [runs]. intros Hs.
  refine (proj2 (proj1 (view_slot_resident demo_swapped 1 TextKV v Key 0 2 0 demo_swapped_wf _ Hv
    _ _ _) Hs)); [|lia..].
  split; by vm_compute.
Defined.

Lemma publish_second_key_stale_witness :
  ∃ r, r ∈ records_of "sys" (prefix_index_ (after demo_published (PublishPrefix 1 "chat"))) ∧
    users r = prefix_users "sys" (content_hash r)
      (sequences_ (after demo_published (PublishPrefix 1 "chat"))) + 1.
Proof.
  destruct demo_published_user as (st & Hs & Hk).
  destruct (publish_second_key_stale demo_published 1 st "chat"
    (after demo_published (PublishPrefix 1 "chat")) demo_published_wf Hs) as (r & Hin & _ & Hu).
  - by rewrite Hk.
  - by rewrite Hk.
  - vm_compute. reflexivity.
  - exists r. rewrite Hk in Hin, Hu. split; [exact Hin|exact Hu].
Defined.

(** After the stale publication even releasing the sequence leaves its two frames
    pinned by the first key, with no sequence left to drop them. *)
Lemma publish_second_key_leaks :
  let m := after (after demo_published (PublishPrefix 1 "chat")) (ReleaseSequence 1) in
  map_to_list (sequences_ m) = [] ∧ nfree (allocator_ m) = 2 ∧
  length (records_of "sys" (prefix_index_ m)) = 1%nat.
Proof. by vm_compute. Qed.
