(* ===== verification/Scheduler.v ===== *)
(** The continuous batcher ([include/qwenvl_paged/Scheduler.h], [src/Scheduler.cpp]):
    admission, chunked prefill, decode, preemption under pressure, resumption.

    The scheduler points to a cache manager and to its allocator; the model holds
    the manager's state, with the allocator inside it, and threads both. [None] is
    undefined behaviour, or fuel that ran out, which [SchedulerLoops] excludes. *)
From S2P Require Import Prelude.
From S2P Require Import Block.
From S2P Require Import SwapBackend.
From S2P Require Import BlockTable.
From S2P Require Import MemoryAllocator.
From S2P Require Import KVCacheManager.

(** ** Data *)

Inductive RequestState := Pending | Prefill | Decode | Preempted | Finished | Cancelled.

#[export] Instance RequestState_eq_dec : EqDecision RequestState.
Proof. solve_decision. Defined.

Record SamplingConfig := mkSamplingConfig {
  num_parallel_samples : Z;
  max_decode_tokens : Z
}.

Record Request := mkRequest {
  request_id : Z;
  root_sequence_id : Z;
  prompt_tokens : Z;
  sampling : SamplingConfig;
  multimodal_spans : list MultimodalSpan;
  positional_encoding : PositionalEncodingMetadata;
  rq_prefix_key : string;
  rq_state : RequestState;
  remaining_prefill_tokens : Z;
  admission_skips : Z;
  lifetime_blocks : Z
}.

Definition set_progress (st : RequestState) (remaining skips lifetime : Z) (r : Request) : Request :=
  mkRequest (request_id r) (root_sequence_id r) (prompt_tokens r) (sampling r)
    (multimodal_spans r) (positional_encoding r) (rq_prefix_key r) st remaining skips lifetime.
Definition set_rq_state (st : RequestState) (r : Request) : Request :=
  set_progress st (remaining_prefill_tokens r) (admission_skips r) (lifetime_blocks r) r.
Definition set_remaining (n : Z) (r : Request) : Request :=
  set_progress (rq_state r) n (admission_skips r) (lifetime_blocks r) r.
(** [++admission_skips]. *)
Definition skip_once (r : Request) : Request :=
  set_progress (rq_state r) (remaining_prefill_tokens r) (admission_skips r ⊞ 1)
    (lifetime_blocks r) r.

Record SchedulerConfig := mkSchedulerConfig {
  max_active_requests : Z;
  max_batch_tokens : Z;
  preemption_watermark_blocks : Z;
  size_aware_admission : bool;
  admission_skip_limit : Z
}.

Record PreemptionInfo := mkPreemptionInfo { reason : string; swapped_blocks : Z }.

Record BatchPlan := mkBatchPlan {
  prefill_requests : list Z;
  prefill_tokens : list Z;
  decode_requests : list Z;
  scheduled_tokens : Z
}.
Definition BatchPlan_empty : BatchPlan := mkBatchPlan [] [] [] 0.

Record Scheduler (B : Type) := mkScheduler {
  sched_config : SchedulerConfig;
  cache_manager_ : KVCacheManager B;
  pending_ : list Request;
  active_ : list Request;
  preempted_ : list Request;
  preemption_info_ : gmap Z PreemptionInfo;
  lifetime_held_ : Z
}.
Arguments mkScheduler {B}.
Arguments sched_config {B}.
Arguments cache_manager_ {B}.
Arguments pending_ {B}.
Arguments active_ {B}.
Arguments preempted_ {B}.
Arguments preemption_info_ {B}.
Arguments lifetime_held_ {B}.

(** The first request of a queue with an id. *)
Definition find_request (queue : list Request) (id : Z) : option (nat * Request) :=
  list_find (λ r, request_id r = id) queue.

Definition metadata_from (r : Request) : SequenceMetadata :=
  mkSequenceMetadata (root_sequence_id r) (request_id r) (multimodal_spans r)
    (positional_encoding r).

(** ** Plans *)

Definition schedule_prefill_chunk (config : SchedulerConfig) (r : Request) (plan : BatchPlan)
    : BatchPlan :=
  if remaining_prefill_tokens r =? 0 then plan
  else if max_batch_tokens config <=? scheduled_tokens plan then plan
  else
    let chunk := Z.min (remaining_prefill_tokens r)
                   (max_batch_tokens config ⊟ scheduled_tokens plan) in
    if chunk =? 0 then plan
    else mkBatchPlan (prefill_requests plan ++ [request_id r]) (prefill_tokens plan ++ [chunk])
           (decode_requests plan) (scheduled_tokens plan ⊞ chunk).

(** The loop over the active requests, up to the [break]. *)
Fixpoint schedule_decode_tokens (config : SchedulerConfig) (active : list Request)
    (plan : BatchPlan) : BatchPlan :=
  match active with
  | [] => plan
  | r :: rest =>
    if decide (rq_state r = Decode) then
      if max_batch_tokens config <=? scheduled_tokens plan then plan
      else
        schedule_decode_tokens config rest
          (mkBatchPlan (prefill_requests plan) (prefill_tokens plan)
             (decode_requests plan ++ [request_id r]) (scheduled_tokens plan ⊞ 1))
    else schedule_decode_tokens config rest plan
  end.

(** The second loop of [schedule_next]: chunks for requests in prefill that the
    plan does not have yet. *)
Definition continue_prefill (config : SchedulerConfig) (plan : BatchPlan) (r : Request)
    : BatchPlan :=
  if decide (rq_state r = Prefill) then
    if decide (request_id r ∈ prefill_requests plan) then plan
    else schedule_prefill_chunk config r plan
  else plan.

Section Scheduler.
Context {B : Type} `{SwapBackend B}.
Implicit Types a : MemoryAllocator B.
Implicit Types m : KVCacheManager B.
Implicit Types s : Scheduler B.

Definition Scheduler_new (config : SchedulerConfig) m : Scheduler B :=
  mkScheduler config m [] [] [] ∅ 0.

Definition sched_allocator s : MemoryAllocator B := allocator_ (cache_manager_ s).

Definition with_cache s m : Scheduler B :=
  mkScheduler (sched_config s) m (pending_ s) (active_ s) (preempted_ s)
    (preemption_info_ s) (lifetime_held_ s).
Definition with_pending s (q : list Request) : Scheduler B :=
  mkScheduler (sched_config s) (cache_manager_ s) q (active_ s) (preempted_ s)
    (preemption_info_ s) (lifetime_held_ s).
Definition with_active s (q : list Request) : Scheduler B :=
  mkScheduler (sched_config s) (cache_manager_ s) (pending_ s) q (preempted_ s)
    (preemption_info_ s) (lifetime_held_ s).

Definition enqueue s (r : Request) : Scheduler B :=
  with_pending s (pending_ s ++ [set_progress Pending (prompt_tokens r) 0 0 r]).

Definition blocks_for_tokens a (token_count : Z) : Z :=
  match block a 0 with
  | None => 0
  | Some b =>
    let tpb := tokens_per_block (shape_ b) in
    if tpb =? 0 then 0
    else
      let token_blocks := u32 (token_count ⊞ tpb - 1) / tpb in
      let tables := if per_layer_frames (shape_ b) then num_layers (shape_ b) else 1 in
      token_blocks ⊠ tables
  end.

Definition lifetime_blocks_for m (r : Request) : Z :=
  let cached :=
    if decide (rq_prefix_key r = ""%string) then 0 else prefix_token_count m (rq_prefix_key r) in
  let usable := if cached <=? prompt_tokens r then cached else 0 in
  let unique := if usable <? prompt_tokens r then prompt_tokens r - usable else 0 in
  blocks_for_tokens (allocator_ m) (unique ⊞ max_decode_tokens (sampling r)).

(** [lifetime_held_] without what a request holds. *)
Definition held_without (held : Z) (r : Request) : Z :=
  if (0 <? lifetime_blocks r) && (lifetime_blocks r <=? held)
  then held ⊟ lifetime_blocks r else held.

(** ** Preemption *)

Definition preempt s (id : Z) (why : string) : option (bool * Scheduler B) :=
  match find_request (active_ s) id with
  | None => Some (false, s)
  | Some (i, r) =>
    '(k, m') ← swap_out_request (cache_manager_ s) (request_id r);
    Some (true,
      mkScheduler (sched_config s) m' (pending_ s) (delete i (active_ s))
        (preempted_ s ++ [set_rq_state Preempted r])
        (<[request_id r := mkPreemptionInfo why k]> (preemption_info_ s))
        (held_without (lifetime_held_ s) r))
  end.

Definition resume s (id : Z) : option (bool * Scheduler B) :=
  match find_request (preempted_ s) id with
  | None => Some (false, s)
  | Some (i, r) =>
    '(ok, m') ← swap_in_request (cache_manager_ s) (request_id r);
    if negb ok then Some (false, with_cache s m')
    else
      let st := if 0 <? remaining_prefill_tokens r then Prefill else Decode in
      Some (true,
        mkScheduler (sched_config s) m' (pending_ s) (active_ s ++ [set_rq_state st r])
          (delete i (preempted_ s)) (delete id (preemption_info_ s))
          (lifetime_held_ s ⊞ lifetime_blocks r))
  end.

(** The [while] loop of [reclaim_for_admission]. *)
Fixpoint reclaim_loop (fuel : nat) (required needed total admitted : Z) s
    : option (Scheduler B) :=
  if (admitted <? Z.of_nat (length (active_ s))) &&
     ((free_blocks (stats (sched_allocator s)) <? required)
      || (total <? lifetime_held_ s ⊞ needed))
  then
    match fuel with
    | O => None
    | S fuel =>
      let before := free_blocks (stats (sched_allocator s)) in
      victim ← active_ s !! Z.to_nat (Z.of_nat (length (active_ s)) - admitted - 1);
      '(ok, s') ← preempt s (request_id victim) "cache pressure watermark"%string;
      if negb ok then Some s'
      else if free_blocks (stats (sched_allocator s')) <=? before then Some s'
      else reclaim_loop fuel required needed total admitted s'
    end
  else Some s.

Definition reclaim_for_admission s (prompt decode admitted : Z) : option (Scheduler B) :=
  if preemption_watermark_blocks (sched_config s) =? 0 then Some s
  else
    let total := total_blocks (stats (sched_allocator s)) in
    let needed := blocks_for_tokens (sched_allocator s) (prompt ⊞ decode) in
    if (needed =? 0) || (total <? needed) then Some s
    else
      let required := Z.min (needed ⊞ preemption_watermark_blocks (sched_config s)) total in
      reclaim_loop (length (active_ s)) required needed total admitted s.

(** ** Admission *)

(** What [try_admit] asks of the cache manager: a sequence for the candidate,
    the published prefix attached, the rest of the prompt reserved, or the
    sequence released again. *)
Definition admit_sequence m (candidate : Request) : option (bool * KVCacheManager B) :=
  let '(created, m2) := create_sequence m (metadata_from candidate) in
  if negb created then Some (false, m2)
  else
    let root := root_sequence_id candidate in
    let prompt := prompt_tokens candidate in
    let cached :=
      if decide (rq_prefix_key candidate = ""%string) then 0
      else prefix_token_count m2 (rq_prefix_key candidate) in
    '(attached, m3) ←
      (if (0 <? cached) && (cached <=? prompt)
       then attach_prefix m2 root (rq_prefix_key candidate) else Some (0, m2));
    let still_need := if attached <? prompt then prompt - attached else 0 in
    '(reserved, m4) ←
      (if 0 <? still_need then reserve_tokens m3 root still_need else Some (true, m3));
    if negb reserved || (0 <? prompt) && (attached =? 0) && (still_need =? 0)
    then Some (false, release_request m4 (request_id candidate))
    else Some (true, m4).

(** [try_admit]: the candidate as it is left, and the plan. *)
Definition try_admit s (candidate : Request) (plan : BatchPlan) (admitted : Z)
    : option (bool * Request * BatchPlan * Scheduler B) :=
  if max_batch_tokens (sched_config s) <=? scheduled_tokens plan
  then Some (false, candidate, plan, s)
  else
    let needed := lifetime_blocks_for (cache_manager_ s) candidate in
    if total_blocks (stats (sched_allocator s)) <? needed
    then Some (false, candidate, plan, s)
    else
      s1 ← reclaim_for_admission s (prompt_tokens candidate)
             (max_decode_tokens (sampling candidate)) admitted;
      if total_blocks (stats (sched_allocator s1)) <? lifetime_held_ s1 ⊞ needed
      then Some (false, candidate, plan, s1)
      else
        '(ok, m') ← admit_sequence (cache_manager_ s1) candidate;
        if negb ok then Some (false, candidate, plan, with_cache s1 m')
        else
          let remaining :=
            if remaining_prefill_tokens candidate =? 0 then prompt_tokens candidate
            else remaining_prefill_tokens candidate in
          let candidate' :=
            set_progress Prefill remaining (admission_skips candidate) needed candidate in
          Some (true, candidate', schedule_prefill_chunk (sched_config s1) candidate' plan,
                mkScheduler (sched_config s1) m' (pending_ s1) (active_ s1) (preempted_ s1)
                  (preemption_info_ s1) (lifetime_held_ s1 ⊞ needed)).

Definition admitted_so_far (plan : BatchPlan) : Z := Z.of_nat (length (prefill_requests plan)).

(** The scan of a size-aware admission: the first request from position [i] on
    that fits is moved to the active queue, those before it are skipped. *)
Fixpoint scan_pending (rest : list Request) (i : nat) (plan : BatchPlan) s
    : option (bool * BatchPlan * Scheduler B) :=
  match rest with
  | [] => Some (false, plan, s)
  | r :: rest' =>
    '(ok, r', plan', s') ← try_admit s r plan (admitted_so_far plan);
    if negb ok then scan_pending rest' (S i) plan' s'
    else
      Some (true, plan',
            with_pending (with_active s' (active_ s' ++ [r']))
              (((skip_once) <$> take i (pending_ s')) ++ drop (S i) (pending_ s')))
  end.

Definition must_take_head (config : SchedulerConfig) (head : Request) : bool :=
  negb (size_aware_admission config)
  || (admission_skip_limit config <=? admission_skips head).

(** [admit_from_pending]. *)
Fixpoint admit_loop (fuel : nat) (plan : BatchPlan) s : option (BatchPlan * Scheduler B) :=
  match pending_ s with
  | [] => Some (plan, s)
  | head :: _ =>
    if max_active_requests (sched_config s) <=? Z.of_nat (length (active_ s))
    then Some (plan, s)
    else
      match fuel with
      | O => None
      | S fuel =>
        if must_take_head (sched_config s) head then
          '(ok, head', plan', s') ← try_admit s head plan (admitted_so_far plan);
          if negb ok then Some (plan', s')
          else
            admit_loop fuel plan'
              (with_pending (with_active s' (active_ s' ++ [head'])) (tail (pending_ s')))
        else
          '(ok, plan', s') ← scan_pending (pending_ s) 0 plan s;
          if negb ok then Some (plan', s') else admit_loop fuel plan' s'
      end
  end.

Definition schedule_next s : option (BatchPlan * Scheduler B) :=
  '(plan, s') ← admit_loop (length (pending_ s)) BatchPlan_empty s;
  let plan' := foldl (continue_prefill (sched_config s')) plan (active_ s') in
  Some (schedule_decode_tokens (sched_config s') (active_ s') plan', s').

(** ** Progress *)

Definition step_request (produced : Z) (r : Request) : Request :=
  if decide (rq_state r = Prefill) then
    if remaining_prefill_tokens r <=? produced
    then set_rq_state Decode (set_remaining 0 r)
    else set_remaining (remaining_prefill_tokens r - produced) r
  else r.

Definition complete_step s (id produced : Z) : Scheduler B :=
  match find_request (active_ s) id with
  | None => s
  | Some (i, _) => with_active s (alter (step_request produced) i (active_ s))
  end.

(** ** Cancellation *)

(** One iteration of the loop over the queues that finds the request. *)
Definition cancel_in s (id : Z) (r : Request) (pending active preempted : list Request)
    : Scheduler B :=
  mkScheduler (sched_config s) (release_request (cache_manager_ s) (request_id r))
    pending active preempted (delete id (preemption_info_ s))
    (held_without (lifetime_held_ s) r).

Definition cancel s (id : Z) : Scheduler B :=
  match find_request (pending_ s) id with
  | Some (i, r) => cancel_in s id r (delete i (pending_ s)) (active_ s) (preempted_ s)
  | None =>
    match find_request (active_ s) id with
    | Some (i, r) => cancel_in s id r (pending_ s) (delete i (active_ s)) (preempted_ s)
    | None =>
      match find_request (preempted_ s) id with
      | Some (i, r) => cancel_in s id r (pending_ s) (active_ s) (delete i (preempted_ s))
      | None => s
      end
    end
  end.

(** ** Queries *)

Definition preemption_info s (id : Z) : option PreemptionInfo := preemption_info_ s !! id.

Definition state s (id : Z) : option RequestState :=
  match find_request (pending_ s) id with
  | Some (_, r) => Some (rq_state r)
  | None =>
    match find_request (active_ s) id with
    | Some (_, r) => Some (rq_state r)
    | None => rq_state ∘ snd <$> find_request (preempted_ s) id
    end
  end.

Definition active_size s : Z := Z.of_nat (length (active_ s)).
End Scheduler.
