(* ===== verification/SchedulerPlan.v ===== *)
(** Batch plans: the token budget, and that a plan serves the requests that are
    active, greedily and in queue order. *)
From S2P Require Import Prelude.
From S2P Require Import Block.
From S2P Require Import SwapBackend.
From S2P Require Import BlockTable.
From S2P Require Import MemoryAllocator.
From S2P Require Import KVCacheManager.
From S2P Require Import Scheduler.

(** What holds of a plan under construction, whatever it is built from. *)
Record plan_wf (config : SchedulerConfig) (plan : BatchPlan) : Prop := {
  plan_parallel : length (prefill_requests plan) = length (prefill_tokens plan);
  plan_positive : Forall (λ c, 0 < c) (prefill_tokens plan);
  plan_sum : scheduled_tokens plan =
    zsum (λ c, c) (prefill_tokens plan) + Z.of_nat (length (decode_requests plan));
  plan_budget : scheduled_tokens plan <= max_batch_tokens config
}.

Definition config_wf (config : SchedulerConfig) : Prop :=
  is_u32 (max_batch_tokens config) ∧ is_u32 (max_active_requests config) ∧
  is_u32 (preemption_watermark_blocks config) ∧ is_u32 (admission_skip_limit config).

Lemma zsum_id_nonneg l : Forall (λ c, 0 < c) l → 0 <= zsum (λ c, c) l.
Proof. induction 1; simpl; [done|lia]. Qed.

Lemma plan_nonneg config plan : plan_wf config plan → 0 <= scheduled_tokens plan.
Proof. intros [_ Hp -> _]. pose proof (zsum_id_nonneg _ Hp). lia. Qed.

Lemma empty_plan_wf config : config_wf config → plan_wf config BatchPlan_empty.
Proof. intros [? _]. split; simpl; [done|constructor|done|words]. Qed.

(** A chunk is appended exactly when the request has tokens left and the budget
    is not spent. *)
Lemma prefill_chunk_run config r plan :
  config_wf config → plan_wf config plan → 0 <= remaining_prefill_tokens r →
  schedule_prefill_chunk config r plan =
    let chunk := Z.min (remaining_prefill_tokens r) (max_batch_tokens config - scheduled_tokens plan) in
    if 0 <? chunk
    then mkBatchPlan (prefill_requests plan ++ [request_id r]) (prefill_tokens plan ++ [chunk])
           (decode_requests plan) (scheduled_tokens plan + chunk)
    else plan.
Proof.
  intros [Hm _] Hp Hr. pose proof (plan_nonneg _ _ Hp). pose proof (plan_budget _ _ Hp).
  unfold schedule_prefill_chunk. rewrite (u32_small (_ - _)) by words.
  set (chunk := Z.min _ _). destruct (Z.eqb_spec (remaining_prefill_tokens r) 0) as [Hz|Hz].
  { by rewrite (proj2 (Z.ltb_ge _ _)) by lia. }
  destruct (Z.leb_spec (max_batch_tokens config) (scheduled_tokens plan)).
  { by rewrite (proj2 (Z.ltb_ge _ _)) by lia. }
  rewrite (proj2 (Z.eqb_neq _ _)), (proj2 (Z.ltb_lt _ _)) by lia.
  by rewrite u32_small by words.
Qed.

Lemma prefill_chunk_wf config r plan :
  config_wf config → plan_wf config plan → 0 <= remaining_prefill_tokens r →
  plan_wf config (schedule_prefill_chunk config r plan).
Proof.
  intros Hc Hp Hr. rewrite prefill_chunk_run by done. cbn zeta.
  destruct (Z.ltb_spec 0 (Z.min (remaining_prefill_tokens r)
    (max_batch_tokens config - scheduled_tokens plan))) as [Hlt|]; [|done].
  destruct Hp as [Hl Hpos Hs Hb]. split; simpl.
  - by rewrite !length_app, Hl.
  - by apply Forall_app; split; [|constructor].
  - rewrite zsum_app, Hs. simpl. lia.
  - lia.
Qed.

(** ** Decode tokens *)

Lemma decode_tokens_wf config active plan :
  config_wf config → plan_wf config plan →
  plan_wf config (schedule_decode_tokens config active plan).
Proof.
  intros Hc. revert plan. induction active as [|r active IH]; intros plan Hp; simpl; [done|].
  destruct (decide _); [|by apply IH].
  destruct (Z.leb_spec (max_batch_tokens config) (scheduled_tokens plan)); [done|].
  apply IH. pose proof (plan_nonneg _ _ Hp). destruct Hp as [Hl Hpos Hs Hb], Hc as [Hm _].
  split; simpl; [done|done| |]; rewrite u32_small by words; [rewrite length_app; simpl|]; lia.
Qed.

(** The requests decoded: a prefix of those in decode, all of them unless the
    budget is spent. *)
Lemma decode_tokens_run config active plan :
  config_wf config → plan_wf config plan →
  let plan' := schedule_decode_tokens config active plan in
  let ds := request_id <$> filter (λ r, rq_state r = Decode) active in
  prefill_requests plan' = prefill_requests plan ∧ prefill_tokens plan' = prefill_tokens plan ∧
  ∃ ds' rest, decode_requests plan' = decode_requests plan ++ ds' ∧ ds = ds' ++ rest ∧
    (rest = [] ∨ scheduled_tokens plan' = max_batch_tokens config).
Proof.
  intros Hc. revert plan. induction active as [|r active IH]; intros plan Hp; simpl.
  { split_and!; [done..|]. exists [], []. rewrite app_nil_r. auto. }
  rewrite filter_cons. destruct (decide (rq_state r = Decode)) as [Hd|Hd].
  2:{ destruct (IH plan Hp) as (? & ? & ds' & rest & ? & ? & ?). eauto 8. }
  destruct (Z.leb_spec (max_batch_tokens config) (scheduled_tokens plan)).
  { split_and!; [done..|]. eexists [], _. rewrite app_nil_r. split_and!; [done..|].
    right. pose proof (plan_budget _ _ Hp). lia. }
  pose proof (decode_tokens_wf config [r] plan Hc Hp) as Hp'. simpl in Hp'.
  rewrite decide_True, (proj2 (Z.leb_gt _ _)) in Hp' by done.
  destruct (IH _ Hp') as (H1 & H2 & ds' & rest & H3 & H4 & H5). simpl in *.
  split_and!; [done..|]. exists (request_id r :: ds'), rest.
  rewrite H3, <-app_assoc. split_and!; [done| |done]. simpl. f_equal. exact H4.
Qed.

(** ** Prefill chunks *)

(** Every chunk of a plan is for a request in prefill that is active, once, and is
    all the request has left unless the budget is spent. *)
Record serves (config : SchedulerConfig) (active : list Request) (plan : BatchPlan) : Prop := {
  serves_chunks : Forall2 (λ id c, ∃ r, r ∈ active ∧ request_id r = id ∧ rq_state r = Prefill ∧
      0 < c <= remaining_prefill_tokens r ∧
      (c = remaining_prefill_tokens r ∨ scheduled_tokens plan = max_batch_tokens config))
    (prefill_requests plan) (prefill_tokens plan);
  serves_once : NoDup (prefill_requests plan)
}.

Definition spent (config : SchedulerConfig) (plan : BatchPlan) : Prop :=
  scheduled_tokens plan = max_batch_tokens config.

Lemma serves_mono config active active' plan :
  serves config active plan → (∀ r, r ∈ active → r ∈ active') → serves config active' plan.
Proof.
  intros [Hc Hn] Hsub. split; [|done]. eapply Forall2_impl; [exact Hc|].
  intros id c (r & Hr & ?). exists r. auto.
Qed.

Lemma serves_empty config active : serves config active BatchPlan_empty.
Proof. split; simpl; constructor. Qed.

Lemma serves_chunk config active plan r :
  config_wf config → plan_wf config plan → serves config active plan →
  r ∈ active → rq_state r = Prefill → 0 <= remaining_prefill_tokens r →
  request_id r ∉ prefill_requests plan →
  let plan' := schedule_prefill_chunk config r plan in
  serves config active plan' ∧ plan_wf config plan' ∧
  (∀ id, id ∈ prefill_requests plan → id ∈ prefill_requests plan') ∧
  decode_requests plan' = decode_requests plan ∧ (spent config plan → spent config plan') ∧
  (0 < remaining_prefill_tokens r → request_id r ∈ prefill_requests plan' ∨ spent config plan').
Proof.
  intros Hc Hp Hs Hin Hst Hrem Hni plan'. split_and!; try (by apply prefill_chunk_wf);
    unfold plan'; rewrite prefill_chunk_run by done; cbn zeta;
    set (c := Z.min _ _); destruct (Z.ltb_spec 0 c) as [Hpos|Hpos]; unfold spent in *; simpl; try done;
    try (subst c; pose proof (plan_budget _ _ Hp); lia).
  - destruct Hs as [Hch Hn]. split; simpl.
    + apply Forall2_app.
      * eapply Forall2_impl; [exact Hch|]. intros id c' (r' & ? & ? & ? & ? & Hor).
        exists r'. split_and!; try done; subst c; lia.
      * constructor; [|constructor]. exists r. split_and!; try done; subst c; lia.
    + apply NoDup_app. split_and!; [done| |apply NoDup_singleton].
      by intros id Hid ->%list_elem_of_singleton.
  - intros id Hid. apply elem_of_app. by left.
  - intros _. left. apply elem_of_app. right. by left.
Qed.

Lemma continue_prefill_fold config active l plan :
  config_wf config → plan_wf config plan → serves config active plan →
  (∀ r, r ∈ l → r ∈ active) → Forall (λ r, 0 <= remaining_prefill_tokens r) l →
  let plan' := foldl (continue_prefill config) plan l in
  serves config active plan' ∧ plan_wf config plan' ∧
  (∀ id, id ∈ prefill_requests plan → id ∈ prefill_requests plan') ∧
  decode_requests plan' = decode_requests plan ∧ (spent config plan → spent config plan') ∧
  (∀ r, r ∈ l → rq_state r = Prefill → 0 < remaining_prefill_tokens r →
     request_id r ∈ prefill_requests plan' ∨ spent config plan').
Proof.
  intros Hc. revert plan. induction l as [|r l IH]; intros plan Hp Hs Hsub Hrem; simpl.
  { split_and!; try done. by intros r ?%not_elem_of_nil. }
  apply Forall_cons in Hrem as [Hr Hrem].
  assert (∃ p, p = continue_prefill config plan r ∧ serves config active p ∧ plan_wf config p ∧
    (∀ id, id ∈ prefill_requests plan → id ∈ prefill_requests p) ∧
    decode_requests p = decode_requests plan ∧ (spent config plan → spent config p) ∧
    (rq_state r = Prefill → 0 < remaining_prefill_tokens r →
       request_id r ∈ prefill_requests p ∨ spent config p))
    as (p & Hpe & Hsp & Hpp & Hip & Hdp & Htp & Hlp).
  { eexists. split; [done|]. unfold continue_prefill.
    destruct (decide (rq_state r = Prefill)) as [Hst|Hst]; [|by split_and!].
    destruct (decide (request_id r ∈ prefill_requests plan)) as [Hi|Hi]; [by auto 8|].
    destruct (serves_chunk config active plan r Hc Hp Hs) as (? & ? & ? & ? & ? & ?);
      [by apply Hsub; left|done..|]. by auto 8. }
  rewrite <-Hpe.
  destruct (IH p Hpp Hsp) as (Hs' & Hp' & Hi' & Hd' & Ht' & Hl');
    [by intros; apply Hsub; right|done|].
  split_and!; [done|done|by auto|congruence|by auto|].
  intros r' [->|Hr']%elem_of_cons Hst' Hpos; [|by apply Hl'].
  destruct (Hlp Hst' Hpos) as [|]; [left|right]; by auto.
Qed.

(** ** The finished plan *)

(** What a plan over the active requests promises. *)
Record plan_ok (config : SchedulerConfig) (active : list Request) (plan : BatchPlan) : Prop := {
  ok_wf : plan_wf config plan;
  ok_serves : serves config active plan;
  ok_decodes : Forall (λ id, ∃ r, r ∈ active ∧ request_id r = id ∧ rq_state r = Decode)
                 (decode_requests plan);
  ok_once : NoDup (prefill_requests plan ++ decode_requests plan);
  ok_greedy : spent config plan ∨
    ∀ r, r ∈ active →
      (rq_state r = Prefill → 0 < remaining_prefill_tokens r →
         request_id r ∈ prefill_requests plan) ∧
      (rq_state r = Decode → request_id r ∈ decode_requests plan)
}.

Lemma ids_unique active r r' :
  NoDup (request_id <$> active) → r ∈ active → r' ∈ active → request_id r = request_id r' → r = r'.
Proof.
  intros Hn [i Hi]%list_elem_of_lookup_1 [j Hj]%list_elem_of_lookup_1 He.
  assert (i = j) as ->; [|congruence].
  eapply (NoDup_lookup (request_id <$> active)); [done|by rewrite list_lookup_fmap, Hi|].
  rewrite list_lookup_fmap, Hj. simpl. by rewrite He.
Qed.

Lemma finish_plan config active plan :
  config_wf config → plan_wf config plan → serves config active plan →
  decode_requests plan = [] → NoDup (request_id <$> active) →
  Forall (λ r, 0 <= remaining_prefill_tokens r) active →
  plan_ok config active
    (schedule_decode_tokens config active (foldl (continue_prefill config) plan active)).
Proof.
  intros Hc Hp Hs Hd Hn Hrem.
  destruct (continue_prefill_fold config active active plan) as (Hs1 & Hp1 & _ & Hd1 & _ & Hl1);
    [done..|]. set (plan1 := foldl _ _ _) in *. rewrite Hd in Hd1.
  pose proof (decode_tokens_wf config active plan1 Hc Hp1) as Hp2.
  destruct (decode_tokens_run config active plan1 Hc Hp1) as (Hpr & Hpt & ds & rest & Hds & Hall & Hor).
  set (plan2 := schedule_decode_tokens _ _ _) in *. rewrite Hd1 in Hds. simpl in Hds.
  assert (Forall (λ id, ∃ r, r ∈ active ∧ request_id r = id ∧ rq_state r = Decode) ds) as Hdec.
  { apply Forall_forall. intros id Hid.
    assert (id ∈ request_id <$> filter (λ r, rq_state r = Decode) active) as (r & -> & Hr)%list_elem_of_fmap.
    { rewrite Hall. apply elem_of_app. by left. }
    apply list_elem_of_filter in Hr as [? ?]. by exists r. }
  split; [done| |by rewrite Hds| |].
  - destruct Hs1 as [Hch Hno]. split; [|by rewrite Hpr]. rewrite Hpr, Hpt.
    eapply Forall2_impl; [exact Hch|]. intros id c (r & ? & ? & ? & ? & Hsp).
    exists r. split_and!; [done|done|done|lia|lia|]. destruct Hsp as [|Hsp]; [by left|right].
    pose proof (plan_sum _ _ Hp2) as Hs2. rewrite Hpt in Hs2.
    pose proof (plan_sum _ _ Hp1) as Hs1. rewrite Hd1 in Hs1. pose proof (plan_budget _ _ Hp2).
    simpl in Hs1. lia.
  - rewrite Hpr, Hds. apply NoDup_app. split_and!; [apply Hs1| |].
    + intros id Hid Hid'. apply list_elem_of_lookup_1 in Hid as [i Hi].
      destruct (Forall2_lookup_l _ _ _ _ _ (serves_chunks _ _ _ Hs1) Hi) as (c & _ & r & Hr & Hri & Hst & _).
      destruct (proj1 (Forall_forall _ _) Hdec _ Hid') as (r' & Hr' & Hri' & Hst').
      assert (r = r') as -> by (eapply ids_unique; [exact Hn|done..|congruence]). congruence.
    + assert (NoDup (ds ++ rest)) as [? _]%NoDup_app; [|done]. rewrite <-Hall.
      eapply sublist_NoDup; [exact Hn|]. apply fmap_sublist, sublist_filter.
  - unfold spent. destruct Hor as [->|Hor]; [|by left]. rewrite app_nil_r in Hall.
    destruct (decide (scheduled_tokens plan2 = max_batch_tokens config)) as [|Hne]; [by left|right].
    intros r Hr. split.
    + intros Hst Hpos. rewrite Hpr. destruct (Hl1 r Hr Hst Hpos) as [|Hsp]; [done|].
      exfalso. unfold spent in Hsp. pose proof (plan_sum _ _ Hp2) as Hs2. rewrite Hpt in Hs2.
      pose proof (plan_sum _ _ Hp1) as Hs1'. rewrite Hd1 in Hs1'. pose proof (plan_budget _ _ Hp2).
      simpl in Hs1'. lia.
    + intros Hst. rewrite Hds, <-Hall. apply list_elem_of_fmap_2, list_elem_of_filter. done.
Qed.
