(* ===== verification/SchedulerInvariant.v ===== *)
(** The invariant of the scheduler: disjoint queues in their states, exact
    accounting of lifetime blocks, sequences owned by admitted requests, active
    requests resident; and the sizes that keep the counters from overflowing. *)
From S2P Require Import Prelude.
From S2P Require Import Block.
From S2P Require Import SwapBackend.
From S2P Require Import BlockTable.
From S2P Require Import MemoryAllocator.
From S2P Require Import AllocatorSpec.
From S2P Require Import AllocatorProps.
From S2P Require Import KVCacheManager.
From S2P Require Import CacheAccounting.
From S2P Require Import AllocatorMoves.
From S2P Require Import CacheInvariant.
From S2P Require Import CacheLemmas.
From S2P Require Import CacheLifecycle.
From S2P Require Import CacheGrowth.
From S2P Require Import CacheWrite.
From S2P Require Import CacheSwap.
From S2P Require Import CacheRecords.
From S2P Require Import CacheRelease.
From S2P Require Import CachePrefix.
From S2P Require Import Scheduler.
From S2P Require Import SchedulerPlan.

(** ** Sizes of the abstract cache *)

(** Blocks stored by sequences, blocks pinned by prefixes, sequences. *)
Definition blocks_of (bs : list (list (option (list byte)))) : Z :=
  zsum (λ b, Z.of_nat (length b)) bs.

Lemma blocks_of_nonneg bs : 0 <= blocks_of bs.
Proof. apply zsum_nonneg. lia. Qed.

Section Sizes.
Context {B : Type} `{SwapBackendLaws B}.
Implicit Types a : MemoryAllocator B.
Implicit Types m : KVCacheManager B.

Definition stored m : Z := map_zsum (λ _ bs, blocks_of bs) (contents m).
Definition pinned m : Z :=
  map_zsum (λ _ recs, zsum (λ x : list (list byte), Z.of_nat (length x)) recs) (prefixes m).
Definition sequence_count m : Z := map_zsum (λ _ _, 1) (contents m).

Lemma blocks_of_entries a st :
  blocks_of (seq_bytes a st) = Z.of_nat (length (all_entries (tables st))).
Proof.
  unfold blocks_of, seq_bytes. induction (tables st) as [|t ts IH]; [done|].
  rewrite fmap_cons, all_entries_cons, length_app. cbn [zsum].
  unfold table_bytes at 1. rewrite length_fmap, IH. lia.
Qed.

Lemma stored_entries m :
  stored m = map_zsum (λ _ st, Z.of_nat (length (all_entries (tables st)))) (sequences_ m).
Proof.
  unfold stored, contents. rewrite map_zsum_fmap. apply map_zsum_ext. intros.
  apply blocks_of_entries.
Qed.

Lemma pinned_ids m :
  pinned m = map_zsum (λ _ recs, zsum (λ r, Z.of_nat (length (physical_ids r))) recs)
    (prefix_index_ m).
Proof.
  unfold pinned, prefixes. rewrite map_zsum_fmap. apply map_zsum_ext. intros _ recs _.
  induction recs as [|r recs IH]; [done|]. rewrite fmap_cons. cbn [zsum]. rewrite IH.
  unfold record_bytes. by rewrite length_fmap.
Qed.

Lemma stored_nonneg m : 0 <= stored m.
Proof. apply map_zsum_nonneg. intros. apply blocks_of_nonneg. Qed.

Lemma pinned_nonneg m : 0 <= pinned m.
Proof. apply map_zsum_nonneg. intros. apply zsum_nonneg. lia. Qed.

Lemma frames_length es : (length (frames_of es) ≤ length es)%nat.
Proof.
  induction es as [|e es IH]; [done|]. rewrite frames_of_cons, length_app. unfold entry_frames.
  case_match; simpl; lia.
Qed.

(** No frame has more references than there are blocks. *)
Lemma refs_bound m id : mgr_wf m → refs (allocator_ m) id <= stored m + pinned m.
Proof.
  intros Hwf. rewrite (proj1 (mgr_accounted _ Hwf)), stored_entries, pinned_ids.
  apply Z.add_le_mono; apply map_zsum_le.
  - intros _ st _. pose proof (zcount_length id (frames_of (all_entries (tables st)))).
    pose proof (frames_length (all_entries (tables st))). lia.
  - intros _ recs _. induction recs as [|r recs IH]; [done|]. unfold record_refs in *. cbn [zsum].
    pose proof (zcount_length id (physical_ids r)). lia.
Qed.

(** No prefix has more users than there are sequences. *)
Lemma users_bound m key r :
  mgr_wf m → r ∈ records_of key (prefix_index_ m) → users r <= sequence_count m.
Proof.
  intros Hwf (recs & Hk & Hr)%records_of_Some.
  destruct (prefix_records _ _ _ _ (mgr_prefix _ Hwf) _ _ _ Hk Hr) as (_ & -> & _).
  unfold sequence_count, contents, prefix_users. rewrite map_zsum_fmap.
  apply map_zsum_le. intros. case_decide; lia.
Qed.

Lemma record_pinned m key r :
  mgr_wf m → r ∈ records_of key (prefix_index_ m) →
  Z.of_nat (length (physical_ids r)) <= pinned m.
Proof.
  intros Hwf (recs & Hk & Hr)%records_of_Some. rewrite pinned_ids.
  transitivity (zsum (λ r, Z.of_nat (length (physical_ids r))) recs).
  - by apply (zsum_elem (λ r, Z.of_nat (length (physical_ids r)))); [lia|].
  - apply (map_zsum_elem (λ _ recs, zsum (λ r, Z.of_nat (length (physical_ids r))) recs)
      (prefix_index_ m) key recs); [|done]. intros. apply zsum_nonneg. lia.
Qed.

Lemma block_count_contents m sid :
  block_count m sid = match contents m !! sid with Some bs => blocks_of bs | None => 0 end.
Proof.
  unfold block_count, contents. rewrite lookup_fmap.
  destruct (sequences_ m !! sid); [|done]. simpl. by rewrite blocks_of_entries.
Qed.

(** No sequence stores and no record pins more than [limit] blocks. *)
Definition sized (limit : Z) m : Prop :=
  (∀ sid bs, contents m !! sid = Some bs → blocks_of bs <= limit) ∧
  (∀ key r, r ∈ records_of key (prefix_index_ m) → Z.of_nat (length (physical_ids r)) <= limit).

Lemma sized_from limit m m' :
  sized limit m →
  (∀ sid bs, contents m' !! sid = Some bs → contents m !! sid = Some bs ∨ blocks_of bs <= limit) →
  (∀ key r', r' ∈ records_of key (prefix_index_ m') →
     (∃ r, r ∈ records_of key (prefix_index_ m) ∧ physical_ids r' = physical_ids r) ∨
     Z.of_nat (length (physical_ids r')) <= limit) →
  sized limit m'.
Proof.
  intros [Hs Hr] Hc Hp. split.
  - intros sid bs Hb. destruct (Hc sid bs Hb) as [?|?]; [by eapply Hs|done].
  - intros key r' Hr'. destruct (Hp key r' Hr') as [(r & ? & ->)|?]; [by eapply Hr|done].
Qed.

Lemma sized_same limit m m' :
  contents m' = contents m → prefix_index_ m' = prefix_index_ m → sized limit m → sized limit m'.
Proof. unfold sized. by intros -> ->. Qed.

(** Different sequences store different blocks. *)
Lemma stored_sum m ids : NoDup ids → zsum (block_count m) ids <= stored m.
Proof.
  intros Hnd. rewrite (zsum_ext _ (λ sid, match contents m !! sid with Some bs => blocks_of bs | None => 0 end))
    by (intros; apply block_count_contents).
  unfold stored. generalize (contents m). clear - Hnd. induction Hnd as [|sid ids Hn Hnd IH]; intros q; simpl.
  { apply map_zsum_nonneg. intros. apply blocks_of_nonneg. }
  destruct (q !! sid) as [bs|] eqn:Hq; [|rewrite Z.add_0_l; apply IH].
  rewrite (map_zsum_delete _ q sid bs Hq). apply Z.add_le_mono; [done|].
  etransitivity; [|apply (IH (delete sid q))]. apply Z.eq_le_incl, zsum_ext. intros i Hi.
  rewrite lookup_delete_ne; [done|]. by intros ->.
Qed.

Lemma needed_block_count m sid : needed m sid <= block_count m sid.
Proof.
  unfold needed, block_count. destruct (sequences_ m !! sid) as [st|]; [|done].
  by destruct (swapped_in_range (all_entries (tables st))).
Qed.
End Sizes.

(** ** Requests *)

(** The part of a request the engine chooses. *)
Record request_typed (r : Request) : Prop := {
  typed_prompt : 0 < prompt_tokens r < W32;
  typed_decode : is_u32 (max_decode_tokens (sampling r))
}.

Definition pending_ok (r : Request) : Prop :=
  request_typed r ∧ rq_state r = Pending ∧ remaining_prefill_tokens r = prompt_tokens r ∧
  lifetime_blocks r = 0.

(** A request in prefill has tokens left to prefill, one in decode has none. *)
Definition progress_ok (r : Request) : Prop :=
  0 <= remaining_prefill_tokens r <= prompt_tokens r.

Definition active_ok (r : Request) : Prop :=
  request_typed r ∧ progress_ok r ∧ 0 <= lifetime_blocks r ∧
  (rq_state r = Prefill ∧ 0 < remaining_prefill_tokens r ∨
   rq_state r = Decode ∧ remaining_prefill_tokens r = 0).

Definition preempted_ok (r : Request) : Prop :=
  request_typed r ∧ progress_ok r ∧ 0 <= lifetime_blocks r ∧ rq_state r = Preempted.

(** Requests earlier in the queue have been skipped at least as often, none more
    often than the limit. *)
Definition skips_ok (config : SchedulerConfig) (pending : list Request) : Prop :=
  StronglySorted (λ r r', admission_skips r' <= admission_skips r) pending ∧
  Forall (λ r, 0 <= admission_skips r <= admission_skip_limit config) pending.

Definition lifetime_of (q : list Request) : Z := zsum lifetime_blocks q.

Abbreviation ids q := (request_id <$> q).

Section Invariant.
Context {B : Type} `{SwapBackendLaws B}.
Implicit Types m : KVCacheManager B.
Implicit Types s : Scheduler B.

Record queues_wf s : Prop := {
  q_ids : NoDup (ids (pending_ s) ++ ids (active_ s) ++ ids (preempted_ s));
  q_pending : Forall pending_ok (pending_ s);
  q_active : Forall active_ok (active_ s);
  q_preempted : Forall preempted_ok (preempted_ s);
  q_skips : skips_ok (sched_config s) (pending_ s);
  q_held : lifetime_held_ s = lifetime_of (active_ s);
  q_held_max : lifetime_held_ s < W32;
  q_info id : is_Some (preemption_info_ s !! id) ↔ id ∈ ids (preempted_ s)
}.

(** The sequences of the requests [owners], and where their blocks are:
    every sequence belongs to an admitted request, the prompt of an admitted
    request has its blocks, and those of active requests are resident. *)
Definition owned m (owners : list Z) : Prop :=
  ∀ sid st, sequences_ m !! sid = Some st → sm_request_id (metadata st) ∈ owners.
Definition backs m (r : Request) : Prop :=
  ∃ st, sequences_ m !! root_sequence_id r = Some st ∧
    sm_request_id (metadata st) = request_id r ∧
    blocks_needed (prompt_tokens r) (tpb_of m) <= Z.of_nat (seq_blocks st).
Definition resident_request m (id : Z) : Prop :=
  ∀ sid st, sequences_ m !! sid = Some st → sm_request_id (metadata st) = id →
    all_resident (tables st) = true.

Record sched_wf s : Prop := {
  s_config : config_wf (sched_config s);
  s_queues : queues_wf s;
  s_cache : mgr_wf (cache_manager_ s);
  s_owned : owned (cache_manager_ s) (ids (active_ s) ++ ids (preempted_ s));
  s_backs : Forall (backs (cache_manager_ s)) (active_ s ++ preempted_ s);
  s_resident : Forall (resident_request (cache_manager_ s)) (ids (active_ s))
}.

(** ** Room *)

(** Blocks that admitting a request stores. *)
Definition admission_blocks m (r : Request) : Z :=
  blocks_needed (prompt_tokens r) (tpb_of m) * count_of m.

(** [sched_room cap victims s]: blocks stored and pinned, and those the pending
    requests add, stay below [cap]; so do the prefixes' tokens and the
    sequences; the backend has slots to swap out [victims] requests. *)
Record sched_room (cap : Z) (victims : nat) s : Prop := {
  room_cap : cap < W32;
  room_blocks : stored (cache_manager_ s) + pinned (cache_manager_ s)
    + zsum (admission_blocks (cache_manager_ s)) (pending_ s) <= cap;
  room_sequences : sequence_count (cache_manager_ s) + Z.of_nat (length (pending_ s)) < W32;
  room_tokens : pinned (cache_manager_ s) * tpb_of (cache_manager_ s) < W32;
  room_prompts : Forall (λ r, prompt_tokens r + tpb_of (cache_manager_ s) < W32) (pending_ s);
  room_slots : can_store (allocator_ (cache_manager_ s)) (Z.of_nat victims * cap);
  room_held : Z.max (lifetime_held_ s) (max_blocks (config_ (sched_allocator s)))
    + max_blocks (config_ (sched_allocator s)) < W32
}.
End Invariant.
