(* ===== verification/SchedulerAdmission.v ===== *)
(** What admission asks of the cache manager: a sequence with the blocks of the
    whole prompt, part of them shared with a prefix, or no change at all. *)
From S2P Require Import Prelude.
From S2P Require Import Block.
From S2P Require Import SwapBackend.
From S2P Require Import BlockTable.
From S2P Require Import MemoryAllocator.
From S2P Require Import AllocatorSpec.
From S2P Require Import AllocatorProps.
From S2P Require Import KVCacheManager.
From S2P Require Import CacheAccounting.
From S2P Require Import AllocatorMoves.
From S2P Require Import CacheInvariant.
From S2P Require Import CacheLemmas.
From S2P Require Import CacheLifecycle.
From S2P Require Import CacheGrowth.
From S2P Require Import CacheWrite.
From S2P Require Import CacheSwap.
From S2P Require Import CacheRecords.
From S2P Require Import CacheRelease.
From S2P Require Import CachePrefix.
From S2P Require Import Scheduler.
From S2P Require Import SchedulerPlan.
From S2P Require Import SchedulerInvariant.

Section Structure.
Context {B : Type} `{SwapBackendLaws B}.
Implicit Types a : MemoryAllocator B.
Implicit Types m : KVCacheManager B.

(** The pool and its backend are the same; only counters, the free list and
    bytes differ. *)
Definition untouched a a' : Prop := same_pool a a' ∧ swap_backend_ a' = swap_backend_ a.

Lemma untouched_refl a : untouched a a.
Proof. done. Qed.

Lemma untouched_trans a1 a2 a3 : untouched a1 a2 → untouched a2 a3 → untouched a1 a3.
Proof. unfold untouched, same_pool. intros [? ?] [? ?]. split; congruence. Qed.

Lemma allocate_untouched a r a' : allocate a = Some (r, a') → untouched a a'.
Proof.
  unfold allocate. destruct (pop_back _) as [[free id]|]; [|by intros [= <- <-]].
  destruct (info a id); [|done]. by intros [= <- <-].
Qed.

Lemma release_untouched a id : untouched a (release a id).
Proof. unfold release. by repeat case_match. Qed.

Lemma retain_untouched a id : untouched a (retain a id).
Proof. unfold retain. by repeat case_match. Qed.

Lemma retain_all_untouched a l : untouched a (foldl retain a l).
Proof.
  revert a. induction l as [|id l IH]; intros a; [done|]. simpl.
  eapply untouched_trans; [apply retain_untouched|apply IH].
Qed.

Lemma release_entries_untouched a es :
  Forall (λ e, resident e = true) es → untouched a (foldl release_entry a es).
Proof.
  intros Hes. revert a. induction Hes as [|e es He _ IH]; intros a; [done|]. simpl.
  eapply untouched_trans; [|apply IH]. unfold release_entry, resident in *.
  destruct (swap_slot e); [done|]. apply release_untouched.
Qed.

Lemma foldM_untouched {A S} (f : S → A → option S) (get : S → MemoryAllocator B) s l s' :
  (∀ s x s', f s x = Some s' → untouched (get s) (get s')) →
  foldM f s l = Some s' → untouched (get s) (get s').
Proof.
  intros Hf. revert s. induction l as [|x l IH]; intros s; simpl; [by intros [= ->]|].
  intros (s1 & Hs & Hl)%bind_Some. eapply untouched_trans; [by eapply Hf|by apply IH].
Qed.

Lemma reserve_table_untouched sid tpb bn a t go a' t' :
  reserve_table sid tpb bn a t = Some (go, a', t') → untouched a a'.
Proof.
  unfold reserve_table. intros Hrun.
  apply (foldM_untouched _ (λ s : bool * MemoryAllocator B * BlockTable, s.1.2)) in Hrun; [done|].
  clear Hrun. intros [[g b] u] i [[g' b'] u']. unfold reserve_block. destruct g; simpl.
  - intros ([r b1] & Ha & Hr)%bind_Some. apply allocate_untouched in Ha.
    by destruct r; simplify_eq.
  - intros Heq. by simplify_eq.
Qed.

Lemma for_each_untouched sid tpb bn ts a go a' ts' :
  for_each (reserve_table sid tpb bn) a ts = Some (go, a', ts') → untouched a a'.
Proof.
  revert a go a' ts'. induction ts as [|t ts IH]; intros a go a' ts'; simpl.
  { by intros [= _ <- _]. }
  intros ([[g a1] t1] & Ht%reserve_table_untouched & Hrest)%bind_Some. destruct g.
  - apply bind_Some in Hrest as ([[g2 a2] ts2] & Hts%IH & [= <- <- <-]).
    by eapply untouched_trans.
  - by injection Hrest as <- <- <-.
Qed.

(** [reserve_tokens] rewrites the tables of one sequence. *)
Lemma reserve_tokens_structure m sid n ok m' :
  reserve_tokens m sid n = Some (ok, m') →
  untouched (allocator_ m) (allocator_ m') ∧
  sequences_by_request_ m' = sequences_by_request_ m ∧ prefix_index_ m' = prefix_index_ m ∧
  ∀ st, sequences_ m !! sid = Some st → ∃ ts, sequences_ m' !! sid = Some (with_tables st ts).
Proof.
  unfold reserve_tokens. destruct (sequences_ m !! sid) as [st|] eqn:Hs; [|by intros [= <- <-]].
  assert (∀ st', Some st = Some st' → ∃ ts, sequences_ m !! sid = Some (with_tables st' ts)) as Hid.
  { intros st' [= <-]. exists (tables st). rewrite Hs. by destruct st. }
  case_match; [by intros [= <- <-]|]. case_match; [by intros [= <- <-]|].
  intros ([[g a'] ts'] & Hrun & [= <- <-])%bind_Some. apply for_each_untouched in Hrun.
  split_and!; [done..|]. intros st' [= <-]. exists ts'. simpl. by rewrite lookup_insert_eq.
Qed.

Lemma untouched_held a a' s : untouched a a' → held a' s = held a s.
Proof. intros [_ Hb]. unfold held. by rewrite (swapped_backend _ _ Hb). Qed.

Lemma untouched_room a a' k : untouched a a' → can_store a k → can_store a' k.
Proof. intros [_ Hb]. unfold can_store, budget. by rewrite Hb. Qed.

(** When only references move, the resident sequences stay resident. *)
Lemma untouched_resident m m' sid st st' :
  mgr_wf m → mgr_wf m' → untouched (allocator_ m) (allocator_ m') →
  sequences_ m !! sid = Some st → sequences_ m' = <[sid := st']> (sequences_ m) →
  all_resident (tables st) = true → all_resident (tables st') = true.
Proof.
  intros Hwf Hwf' Hu Hs Hs' Hres. apply all_resident_spec. intros e He.
  destruct (resident_holds _ (proj1 (all_resident_spec _) Hres)) as [_ Hsl].
  destruct (swap_slot e) as [s|] eqn:Hsw; [|done]. exfalso.
  pose proof (proj2 (mgr_accounted _ Hwf) s) as H1.
  pose proof (proj2 (mgr_accounted _ Hwf') s) as H2.
  rewrite (untouched_held _ _ s Hu) in H2. rewrite H1, Hs' in H2. unfold slot_refs in H2.
  rewrite (map_zsum_update _ _ _ st) in H2 by done. rewrite Hsl, zcount_nil in H2.
  assert (0 < zcount s (slots_of (all_entries (tables st')))) as Hpos; [|lia].
  apply zcount_pos, list_elem_of_bind. exists e. split; [|done]. unfold entry_slots.
  rewrite Hsw. by left.
Qed.

(** The free frames are determined by the sequences and the prefixes. *)
Lemma nfree_determined m m' :
  mgr_wf m → mgr_wf m' → same_pool (allocator_ m) (allocator_ m') →
  sequences_ m' = sequences_ m → prefix_index_ m' = prefix_index_ m →
  nfree (allocator_ m') = nfree (allocator_ m) ∧
  ∀ id, refs (allocator_ m') id = refs (allocator_ m) id.
Proof.
  intros Hwf Hwf' Hp Hs Hx.
  assert (∀ id, refs (allocator_ m') id = refs (allocator_ m) id) as Hr.
  { intros id. by rewrite (proj1 (mgr_accounted _ Hwf)), (proj1 (mgr_accounted _ Hwf')), Hs, Hx. }
  split; [|done]. rewrite (nfree_count _ (proj1 (mgr_alloc _ Hwf))),
    (nfree_count _ (proj1 (mgr_alloc _ Hwf'))), (same_pool_config _ _ Hp).
  do 2 f_equal. apply list_filter_iff. intros id. by rewrite Hr.
Qed.
End Structure.

Lemma blocks_needed_shift k n tpb :
  0 < tpb → blocks_needed (n + k * tpb) tpb = blocks_needed n tpb + k.
Proof.
  intros. unfold blocks_needed. replace (n + k * tpb + tpb - 1) with (n + tpb - 1 + k * tpb) by lia.
  by rewrite Z.div_add by lia.
Qed.

Lemma blocks_needed_zero tpb : 0 < tpb → blocks_needed 0 tpb = 0.
Proof. intros. unfold blocks_needed. apply Z.div_small. lia. Qed.

Section Stages.
Context {B : Type} `{SwapBackendLaws B}.
Implicit Types a : MemoryAllocator B.
Implicit Types m : KVCacheManager B.

(** The record of the sequence's prefix has it as one more user. *)
Definition joined m (st : SequenceState) m' : Prop :=
  prefix_key st = ""%string ∧ prefix_index_ m' = prefix_index_ m ∨
  ∃ r, prefix_key st ≠ ""%string ∧ prefix_hash st = content_hash r ∧
    prefix_index_ m !! prefix_key st = Some [r] ∧ 0 < users r ∧ users r + 1 < W32 ∧
    prefix_index_ m' = set_records (prefix_key st) [with_users r (users r + 1)] (prefix_index_ m).

(** [m'] is [m] with the candidate's sequence [st]. *)
Record stage m (c : Request) (st : SequenceState) m' : Prop := {
  stage_wf : mgr_wf m';
  stage_fresh : sequences_ m !! root_sequence_id c = None;
  stage_seqs : sequences_ m' = <[root_sequence_id c := st]> (sequences_ m);
  stage_metadata : metadata st = metadata_from c;
  stage_resident : all_resident (tables st) = true;
  stage_joined : joined m st m';
  stage_untouched : untouched (allocator_ m) (allocator_ m');
  stage_index : sequences_by_request_ m' =
    index_sequence (request_id c) (root_sequence_id c) (sequences_by_request_ m);
  stage_contents : contents m' = <[root_sequence_id c := seq_bytes (allocator_ m') st]> (contents m);
  stage_prefixes : prefixes m' = prefixes m
}.

Lemma stage_tpb m c st m' : stage m c st m' → tpb_of m' = tpb_of m ∧ count_of m' = count_of m.
Proof.
  intros [_ _ _ _ _ _ [Hp _] _ _ _]. split;
    [apply (same_pool_tpb _ _ Hp)|apply (same_pool_count _ _ Hp)].
Qed.

Lemma stage_lookup m c st m' : stage m c st m' → sequences_ m' !! root_sequence_id c = Some st.
Proof. intros Hst. by rewrite (stage_seqs _ _ _ _ Hst), lookup_insert_eq. Qed.

Lemma create_stage m c :
  mgr_wf m → sequences_ m !! root_sequence_id c = None →
  ∃ st m', create_sequence m (metadata_from c) = (true, m') ∧ stage m c st m' ∧
    seq_blocks st = 0%nat ∧ prefix_index_ m' = prefix_index_ m ∧ allocator_ m' = allocator_ m.
Proof.
  intros Hwf Hs. pose proof (create_spec m (metadata_from c) Hwf) as Hspec.
  unfold contains in Hspec. unfold create_sequence in *. cbn [sm_sequence_id metadata_from] in *.
  rewrite Hs in *. cbn [negb] in Hspec. destruct Hspec as (_ & Hwf' & Hp & Hc).
  rewrite map_emplace_new in * by done. set (st := mkSequenceState _ _ _ _) in *.
  set (m' := mkKVCacheManager _ _ _ _) in *. exists st, m'.
  assert (∀ n id, all_entries (replicate n (BlockTable_new id TextKV)) = []) as Hnil
    by (intros n id; induction n; [done|]; simpl replicate; by rewrite all_entries_cons).
  split_and!; try done.
  - split; try done.
    + apply all_resident_spec. unfold st. simpl. rewrite Hnil. by intros e ?%not_elem_of_nil.
    + by left.
    + rewrite Hc. f_equal. unfold seq_bytes, st. simpl. by rewrite fmap_replicate.
  - unfold seq_blocks, st. simpl. by destruct (Z.to_nat _).
Qed.

(** Giving the sequence up restores everything. *)
Lemma release_stage m c st m' :
  mgr_wf m → stage m c st m' → sequences_for m (request_id c) = [] →
  let m'' := release_request m' (request_id c) in
  mgr_wf m'' ∧ untouched (allocator_ m) (allocator_ m'') ∧ sequences_ m'' = sequences_ m ∧
  prefix_index_ m'' = prefix_index_ m ∧ contents m'' = contents m ∧
  nfree (allocator_ m'') = nfree (allocator_ m).
Proof.
  intros Hwf Hst Hnone m''. pose proof Hst as [Hwf' Hfr Hs Hmd Hres Hj Hu Hix Hc Hp].
  set (root := root_sequence_id c) in *.
  assert (m'' = release_sequence m' root) as Hm''.
  { unfold m'', release_request, sequences_for. rewrite Hix. unfold index_sequence.
    rewrite lookup_insert_eq. unfold sequences_for in Hnone. by rewrite Hnone. }
  destruct (release_sequence_spec m' root Hwf') as (Hwf'' & Hs'' & Hp'' & Hc'' & _).
  rewrite <-Hm'' in *.
  assert (untouched (allocator_ m') (allocator_ m'') ∧ prefix_index_ m'' = prefix_index_ m)
    as [Hu'' Hpi].
  { pose proof (stage_lookup _ _ _ _ Hst) as Hl. fold root in Hl.
    rewrite Hm''. unfold release_sequence. rewrite Hl.
    unfold drop_prefix_user.
    assert (∀ a, untouched a (release_tables a (tables st))) as Hrel.
    { intros a. rewrite release_tables_entries. apply release_entries_untouched, Forall_forall.
      intros e He. unfold resident. by rewrite (proj1 (all_resident_spec _) Hres). }
    destruct Hj as [[-> Hpi]|(r & Hk & Hh & Hrec & Hpos & Hmax & Hpi)]; [by rewrite decide_True|].
    rewrite decide_False, Hpi by done. simpl. rewrite lookup_insert_eq, Hh.
    unfold find_record. simpl. rewrite decide_True by done. simpl.
    assert ((if 0 <? users r + 1 then users r + 1 ⊟ 1 else users r + 1) = users r) as ->.
    { rewrite (proj2 (Z.ltb_lt 0 (users r + 1))), u32_small by words. lia. }
    rewrite (proj2 (Z.ltb_lt 0 (users r))) by lia. simpl.
    split; [done|]. rewrite insert_insert_eq. apply map_eq. intros k.
    destruct (decide (k = prefix_key st)) as [->|]; [|by rewrite lookup_insert_ne].
    rewrite lookup_insert_eq, Hrec. do 2 f_equal. by destruct r. }
  assert (sequences_ m'' = sequences_ m) as Hseq by by rewrite Hs'', Hs, delete_insert_id.
  pose proof (untouched_trans _ _ _ Hu Hu'') as Hun.
  split_and!; try done.
  - rewrite Hc'', Hc. apply delete_insert_id. unfold contents. by rewrite lookup_fmap, Hfr.
  - by apply (nfree_determined m m'' Hwf Hwf'' (proj1 Hun)).
Qed.

(** When admitting the candidate overflows no counter. *)
Record admission_room m (c : Request) : Prop := {
  adm_prompt : 0 <= prompt_tokens c;
  adm_sum : prompt_tokens c + tpb_of m < W32;
  adm_blocks : stored m + pinned m + admission_blocks m c < W32;
  adm_users : sequence_count m + 1 < W32;
  adm_tokens : pinned m * tpb_of m < W32
}.

(** A published prefix of whole blocks. *)
Lemma record_tokens m key r :
  mgr_wf m → pinned m * tpb_of m < W32 → r ∈ records_of key (prefix_index_ m) →
  ∃ n, 0 < n ∧ Z.of_nat (length (physical_ids r)) = count_of m * n ∧
    record_token_count r = n * tpb_of m.
Proof.
  intros Hwf Hmax Hin. pose proof (record_pinned m key r Hwf Hin) as Hp.
  apply records_of_Some in Hin as (recs & Hk & Hr).
  destruct (prefix_records _ _ _ _ (mgr_prefix _ Hwf) _ _ _ Hk Hr) as ((n & Hn & _ & Hlen & Htok) & _).
  pose proof (table_count_pos m Hwf). pose proof (tpb_u32 m Hwf) as [Ht _].
  exists (Z.of_nat n). split_and!; [lia|done|]. rewrite Htok. apply u32_small.
  assert (Z.of_nat n <= pinned m) by (rewrite Hlen in Hp; nia). split; [nia|].
  assert (Z.of_nat n * tpb_of m <= pinned m * tpb_of m) by nia. lia.
Qed.

Lemma prefix_token_count_record m key :
  0 < prefix_token_count m key →
  ∃ r, key ≠ ""%string ∧ prefix_index_ m !! key = Some [r] ∧
    prefix_token_count m key = record_token_count r.
Proof.
  unfold prefix_token_count. case_decide; [done|].
  destruct (prefix_index_ m !! key) as [[|r [|]]|]; try done. by exists r.
Qed.

(** Attaching the prefix: as many blocks as its tokens. *)
Lemma attach_stage m c st m2 key :
  mgr_wf m → admission_room m c → stage m c st m2 → seq_blocks st = 0%nat →
  prefix_index_ m2 = prefix_index_ m → allocator_ m2 = allocator_ m →
  0 < prefix_token_count m2 key <= prompt_tokens c →
  runs (attach_prefix m2 (root_sequence_id c) key) (λ '(attached, m3), ∃ st',
    stage m c st' m3 ∧ attached = Z.of_nat (seq_blocks st') * tpb_of m ∧
    attached = prefix_token_count m2 key).
Proof.
  intros Hwf [Hp0 Hsum Hblk Husers Htok] Hst Hz Hpi Ha [Hpos Hle].
  destruct (prefix_token_count_record m2 key Hpos) as (r & Hkey & Hrec & Hcached).
  pose proof (stage_lookup _ _ _ _ Hst) as Hl. pose proof (stage_wf _ _ _ _ Hst) as Hwf2.
  destruct (stage_tpb _ _ _ _ Hst) as [Htpb Hcnt]. rewrite Hpi in Hrec.
  assert (r ∈ records_of key (prefix_index_ m)) as Hin by (unfold records_of; rewrite Hrec; by left).
  destruct (record_tokens m key r Hwf Htok Hin) as (n & Hn & Hlen & Htc).
  pose proof (tpb_u32 m Hwf) as [Ht0 _]. pose proof (table_count_pos m Hwf) as Hcp.
  assert (0 < tpb_of m) as Htp by nia.
  assert (n <= blocks_needed (prompt_tokens c) (tpb_of m)) as Hnb.
  { destruct (blocks_needed_spec (prompt_tokens c) (tpb_of m)); [done..|]. nia. }
  assert (attachable m2 (root_sequence_id c) key st r) as Hat.
  { split; try done; [by rewrite Hpi|by rewrite Htpb; lia]. }
  assert (attach_ok m2 key) as Hok.
  { intros r'. rewrite Hpi, Hrec. intros [= <-]. rewrite Ha. split.
    - intros id. pose proof (refs_bound m id Hwf). pose proof (zcount_length id (physical_ids r)).
      unfold admission_blocks in Hblk. nia.
    - pose proof (users_bound m key r Hwf Hin). lia. }
  pose proof (attach_success m2 _ key st r Hwf2 Hat Hok) as Hsucc.
  destruct (attach_run m2 _ key st r Hwf2 Hat) as (ts' & n' & Hrun & Hn' & Hlen' & Hl' & Hts & _).
  rewrite Hrun in *. cbn [runs] in *.
  destruct Hsucc as (st' & Hwf3 & _ & Hp3 & Hs3 & Hk3 & Hc3 & _ & Hres3 & _).
  assert (st' = with_prefix (with_tables st ts') key (content_hash r)) as ->.
  { cbn [sequences_] in Hs3.
    pose proof (f_equal (λ q, q !! root_sequence_id c) Hs3) as Heq. simpl in Heq.
    rewrite !lookup_insert_eq in Heq. by injection Heq as ->. }
  set (st' := with_prefix _ _ _) in *. exists st'.
  assert (seq_blocks st' = n') as Hblocks.
  { destruct (first_table _ _ _ Hwf3 (eq_trans (f_equal (lookup _) Hs3) (lookup_insert_eq _ _ _)))
      as (t0 & ts0 & Hts0 & <-). simpl in Hts0. rewrite Hts0 in Hts.
    apply Forall_cons in Hts as [Ht _]. apply Ht. }
  assert (Z.of_nat n' = n) as Hnn by (rewrite Hcnt in Hlen'; nia).
  split_and!; [|by rewrite Hblocks, Hnn|done].
  destruct (prefix_records _ _ _ _ (mgr_prefix _ Hwf) _ _ r Hrec) as (_ & _ & Hu); [by left|].
  pose proof (users_bound m key r Hwf Hin) as Hub.
  pose proof Hst as [_ Hfr Hs2 Hmd _ _ Hu2 Hix Hc2 Hp2].
  split; try done.
  - rewrite Hs3, Hs2. by rewrite insert_insert_eq.
  - apply all_resident_spec. intros e He.
    pose proof (proj1 (Forall_forall _ _) Hres3 e He) as [_ Hr]. unfold resident in Hr.
    by destruct (swap_slot e).
  - right. exists r. split_and!; try done; [lia|lia|].
    cbn [prefix_index_]. rewrite Hpi, u32_small by words. done.
  - eapply untouched_trans; [exact Hu2|]. apply retain_all_untouched.
  - rewrite Hc3, Hc2. by rewrite insert_insert_eq.
  - by rewrite Hp3.
Qed.

(** Reserving the rest of the prompt. *)
Lemma reserve_stage m c st m3 n :
  mgr_wf m → admission_room m c → stage m c st m3 → 0 < n ->
  Z.of_nat (seq_blocks st) * tpb_of m + n = prompt_tokens c →
  runs (reserve_tokens m3 (root_sequence_id c) n) (λ '(ok, m4),
    if ok then ∃ st', stage m c st' m4 ∧
      Z.of_nat (seq_blocks st') = blocks_needed (prompt_tokens c) (tpb_of m)
    else m4 = m3).
Proof.
  intros Hwf [Hp0 Hsum Hblk Husers Htok] Hst Hn Hprompt.
  pose proof (stage_lookup _ _ _ _ Hst) as Hl. pose proof (stage_wf _ _ _ _ Hst) as Hwf3.
  destruct (stage_tpb _ _ _ _ Hst) as [Htpb Hcnt]. pose proof (tpb_u32 m Hwf) as [Ht0 _].
  pose proof (table_count_pos m Hwf) as Hcp. pose proof (stored_nonneg m). pose proof (pinned_nonneg m).
  destruct (decide (tpb_of m = 0)) as [Hz|Hz].
  { unfold reserve_tokens. rewrite Hl. fold (tpb_of m3). by rewrite Htpb, Hz. }
  assert (blocks_needed (prompt_tokens c) (tpb_of m) =
    blocks_needed n (tpb_of m) + Z.of_nat (seq_blocks st)) as Hbn.
  { rewrite <-blocks_needed_shift by lia. f_equal. lia. }
  destruct (blocks_needed_spec n (tpb_of m)) as [Hb0 _]; [lia..|]. unfold admission_blocks in Hblk.
  assert (reserve_ok m3 (root_sequence_id c) n) as Hok.
  { split; rewrite ?Htpb, ?Hcnt; [lia|nia|nia|]. intros st'. rewrite Hl. intros [= <-]. nia. }
  pose proof (reserve_spec m3 _ n Hwf3 Hok) as Hspec.
  destruct (reserve_tokens m3 (root_sequence_id c) n) as [[ok m4]|] eqn:Hrun; [|done].
  destruct (reserve_tokens_structure _ _ _ _ _ Hrun) as (Hu & Hix4 & Hpi4 & Hst4).
  cbn [runs] in *. destruct Hspec as (Hwf4 & Hp4 & Hr). destruct ok; [|by destruct Hr].
  destruct Hr as (st0 & st' & Hl0 & Hs4 & _ & _ & _ & Hblk4 & Hc4 & _).
  rewrite Hl in Hl0. injection Hl0 as <-. destruct (Hst4 st Hl) as (ts & Hts).
  assert (st' = with_tables st ts) as Heq.
  { rewrite Hs4, lookup_insert_eq in Hts. by injection Hts. }
  exists st'. split; [|rewrite Hblk4, Htpb, Hbn; lia].
  pose proof Hst as [_ Hfr Hs3 Hmd Hres Hj Hu3 Hix Hc3 Hp3].
  split; try done.
  - by rewrite Hs4, Hs3, insert_insert_eq.
  - by rewrite Heq.
  - by eapply (untouched_resident m3 m4).
  - rewrite Heq. unfold joined in *. simpl. by rewrite Hpi4.
  - by eapply untouched_trans.
  - by rewrite Hix4.
  - by rewrite Hc4, Hc3, insert_insert_eq.
  - by rewrite Hp4.
Qed.

(** ** The whole admission *)

(** The candidate's sequence is there, with the blocks of its whole prompt, or
    nothing has changed. *)
Definition admission_outcome m (c : Request) (ok : bool) m' : Prop :=
  if ok then ∃ st, stage m c st m' ∧
    Z.of_nat (seq_blocks st) = blocks_needed (prompt_tokens c) (tpb_of m)
  else mgr_wf m' ∧ untouched (allocator_ m) (allocator_ m') ∧ sequences_ m' = sequences_ m ∧
    prefix_index_ m' = prefix_index_ m ∧ contents m' = contents m ∧
    nfree (allocator_ m') = nfree (allocator_ m).

Lemma admit_sequence_spec m c :
  mgr_wf m → admission_room m c → 0 < prompt_tokens c → sequences_for m (request_id c) = [] →
  runs (admit_sequence m c) (λ '(ok, m'), admission_outcome m c ok m').
Proof.
  intros Hwf Hroom Hpos Hnone. unfold admit_sequence.
  destruct (sequences_ m !! root_sequence_id c) as [st0|] eqn:Hroot.
  { unfold create_sequence. cbn [sm_sequence_id metadata_from]. rewrite Hroot. by split_and!. }
  destruct (create_stage m c Hwf Hroot) as (st & m2 & -> & Hst & Hz & Hpi & Ha).
  cbn [negb].
  assert ((if decide (rq_prefix_key c = "") then 0 else prefix_token_count m2 (rq_prefix_key c))
    = prefix_token_count m2 (rq_prefix_key c)) as ->
    by (unfold prefix_token_count; by case_decide).
  set (cached := prefix_token_count m2 (rq_prefix_key c)).
  assert (runs (if (0 <? cached) && (cached <=? prompt_tokens c)
    then attach_prefix m2 (root_sequence_id c) (rq_prefix_key c) else Some (0, m2))
    (λ '(attached, m3), ∃ st', stage m c st' m3 ∧
       attached = Z.of_nat (seq_blocks st') * tpb_of m ∧ 0 <= attached <= prompt_tokens c)) as Hattach.
  { destruct (Z.ltb_spec 0 cached), (Z.leb_spec cached (prompt_tokens c)); cbn [andb];
      try (exists st; rewrite Hz; split_and!; [done|lia..]).
    eapply runs_mono; [by apply (attach_stage m c st m2)|].
    intros [att m3] (st' & ? & -> & Heq). exists st'. rewrite Heq. fold cached.
    split_and!; [done|done|lia..]. }
  run_step Hattach. intros [att m3] (st' & Hst' & Hatt & Hrange).
  destruct (Z.ltb_spec att (prompt_tokens c)) as [Hlt|Hge].
  - rewrite (proj2 (Z.ltb_lt 0 (prompt_tokens c - att))) by lia.
    run_step (reserve_stage m c st' m3 (prompt_tokens c - att) Hwf Hroom Hst'); [lia..|].
    intros [ok m4]. destruct ok; cbn [negb orb].
    + rewrite (proj2 (Z.eqb_neq (prompt_tokens c - att) 0)), andb_false_r by lia.
      cbn [runs admission_outcome]. by intros (st4 & ? & ?); exists st4.
    + intros ->. by eapply release_stage.
  - assert (att = prompt_tokens c) as Heq by lia. cbn [Z.ltb Z.compare mbind option_bind].
    rewrite (proj2 (Z.eqb_neq att 0)) by lia. rewrite andb_false_r. cbn [negb orb andb runs].
    exists st'. split; [done|]. rewrite <-Heq, Hatt.
    pose proof (tpb_u32 m Hwf) as [? _]. assert (0 < tpb_of m) by nia.
    rewrite <-(Z.add_0_l (_ * _)), blocks_needed_shift, blocks_needed_zero by lia. lia.
Qed.
End Stages.
