(* ===== verification/SchedulerPreemption.v ===== *)
(** Preempting a request: its blocks go to the backend, everything else stays;
    and the reclamation loop, which preempts the newest requests first. *)
From S2P Require Import Prelude.
From S2P Require Import Block.
From S2P Require Import SwapBackend.
From S2P Require Import BlockTable.
From S2P Require Import MemoryAllocator.
From S2P Require Import AllocatorSpec.
From S2P Require Import AllocatorProps.
From S2P Require Import KVCacheManager.
From S2P Require Import CacheAccounting.
From S2P Require Import AllocatorMoves.
From S2P Require Import CacheInvariant.
From S2P Require Import CacheLemmas.
From S2P Require Import CacheLifecycle.
From S2P Require Import CacheGrowth.
From S2P Require Import CacheWrite.
From S2P Require Import CacheSwap.
From S2P Require Import CacheRecords.
From S2P Require Import CacheRelease.
From S2P Require Import CachePrefix.
From S2P Require Import Scheduler.
From S2P Require Import SchedulerPlan.
From S2P Require Import SchedulerInvariant.
From S2P Require Import SchedulerAdmission.

(** ** Queues *)

Lemma find_request_at queue i r :
  NoDup (ids queue) → queue !! i = Some r → find_request queue (request_id r) = Some (i, r).
Proof.
  intros Hn Hi. apply list_find_Some. split_and!; [done..|]. intros j r' Hj Hlt He.
  assert (i = j); [|lia]. eapply (NoDup_lookup (ids queue)); [done|by rewrite list_lookup_fmap, Hi|].
  by rewrite list_lookup_fmap, Hj, <-He.
Qed.

Lemma find_request_Some queue id i r :
  find_request queue id = Some (i, r) → queue !! i = Some r ∧ request_id r = id.
Proof. intros (? & ? & _)%list_find_Some. done. Qed.

Lemma find_request_None queue id : find_request queue id = None ↔ id ∉ ids queue.
Proof.
  unfold find_request. rewrite list_find_None, Forall_forall. split.
  - intros Hall (r & -> & Hr)%list_elem_of_fmap. by apply (Hall r).
  - intros Hid r Hr <-. apply Hid, list_elem_of_fmap_2, Hr.
Qed.

Lemma delete_ids queue i r : queue !! i = Some r → ids queue ≡ₚ request_id r :: ids (delete i queue).
Proof. intros Hi%delete_Permutation. by rewrite Hi at 1. Qed.

Lemma delete_middle {A} (l k : list A) x : delete (length l) (l ++ x :: k) = l ++ k.
Proof. by induction l as [|y l IH]; [|simpl; f_equal]. Qed.

Section Preemption.
Context {B : Type} `{SwapBackendLaws B}.
Implicit Types m : KVCacheManager B.
Implicit Types s : Scheduler B.

(** ** Caches that store the same *)

(** [m'] stores what [m] stores, under the same index. *)
Record same_store m m' : Prop := {
  store_wf : mgr_wf m';
  store_contents : contents m' = contents m;
  store_prefixes : prefixes m' = prefixes m;
  store_index : same_index m m'
}.

Lemma same_store_sizes m m' :
  same_store m m' → stored m' = stored m ∧ pinned m' = pinned m ∧
    sequence_count m' = sequence_count m ∧ tpb_of m' = tpb_of m ∧ count_of m' = count_of m.
Proof.
  intros [_ Hc Hp (Hpool & _ & _)]. unfold stored, pinned, sequence_count. rewrite Hc, Hp.
  split_and!; [done..| |]; [apply (same_pool_tpb _ _ Hpool)|apply (same_pool_count _ _ Hpool)].
Qed.

Lemma seq_blocks_contents a st : seq_blocks st = length (default [] (head (seq_bytes a st))).
Proof.
  unfold seq_blocks, seq_bytes. destruct (tables st) as [|t ts]; [done|].
  simpl. unfold table_bytes. by rewrite length_fmap.
Qed.

(** Such a cache has the same sequences, of the same requests and lengths. *)
Lemma same_store_sequence m m' sid st :
  mgr_wf m → same_store m m' → sequences_ m !! sid = Some st →
  ∃ st', sequences_ m' !! sid = Some st' ∧
    sm_request_id (metadata st') = sm_request_id (metadata st) ∧
    seq_blocks st' = seq_blocks st.
Proof.
  intros Hwf [Hwf' Hc _ (_ & Hidx & _)] Hs.
  pose proof (f_equal (lookup sid) Hc) as Hl. unfold contents in Hl.
  rewrite !lookup_fmap, Hs in Hl. apply fmap_Some in Hl as (st' & Hs' & Hb).
  exists st'. split_and!; [done| |].
  - destruct (sequences_for_spec m (sm_request_id (metadata st)) Hwf) as [_ H1].
    destruct (sequences_for_spec m' (sm_request_id (metadata st)) Hwf') as [_ H2].
    assert (sid ∈ sequences_for m (sm_request_id (metadata st))) as Hin by (apply H1; eauto).
    unfold sequences_for in *. rewrite <-Hidx in Hin. apply H2 in Hin as (st'' & ? & ?).
    by simplify_eq.
  - by rewrite (seq_blocks_contents (allocator_ m') st'), (seq_blocks_contents (allocator_ m) st), <-Hb.
Qed.

Lemma same_store_sym m m' : mgr_wf m → same_store m m' → same_store m' m.
Proof.
  intros Hwf [_ ? ? (? & ? & ?)]. by split.
Qed.

Lemma same_store_owned m m' owners :
  mgr_wf m → same_store m m' → owned m owners → owned m' owners.
Proof.
  intros Hwf Hsame Ho sid st' Hs'. pose proof (same_store_sym _ _ Hwf Hsame) as Hsym.
  destruct (same_store_sequence m' m sid st' (store_wf _ _ Hsame) Hsym Hs') as (st & Hs & <- & _).
  by eapply Ho.
Qed.

Lemma same_store_backs m m' r : mgr_wf m → same_store m m' → backs m r → backs m' r.
Proof.
  intros Hwf Hsame (st & Hs & Hid & Hb).
  destruct (same_store_sequence m m' _ st Hwf Hsame Hs) as (st' & Hs' & Hid' & Hb').
  destruct (same_store_sizes _ _ Hsame) as (_ & _ & _ & Htpb & _).
  exists st'. rewrite Htpb, Hb'. split_and!; [done|congruence|done].
Qed.

Lemma same_store_resident m m' id :
  mgr_wf m → same_store m m' →
  (∀ sid st, sequences_ m !! sid = Some st → sm_request_id (metadata st) = id →
     sequences_ m' !! sid = sequences_ m !! sid) →
  resident_request m id → resident_request m' id.
Proof.
  intros Hwf Hsame Hkeep Hres sid st' Hs' Hid. pose proof (same_store_sym _ _ Hwf Hsame) as Hsym.
  destruct (same_store_sequence m' m sid st' (store_wf _ _ Hsame) Hsym Hs') as (st & Hs & Hid' & _).
  assert (st' = st) as ->; [|by eapply Hres].
  pose proof (Hkeep sid st Hs ltac:(congruence)). congruence.
Qed.

(** Swapping out a request. *)
Lemma swap_out_request_store m rid k :
  mgr_wf m → 0 <= k → can_store (allocator_ m) (stored m + k) →
  runs (swap_out_request m rid) (λ '(n, m'),
    same_store m m' ∧ can_store (allocator_ m') k ∧
    n = u32 (nfree (allocator_ m') - nfree (allocator_ m)) ∧
    (∀ sid st, sequences_ m !! sid = Some st → sm_request_id (metadata st) ≠ rid →
       sequences_ m' !! sid = sequences_ m !! sid) ∧
    nfree (allocator_ m') - zsum (needed m') (sequences_for m rid) =
      nfree (allocator_ m) - zsum (needed m) (sequences_for m rid)).
Proof.
  intros Hwf Hk Hc. destruct (sequences_for_spec m rid Hwf) as [Hnd Hmem].
  eapply runs_mono; [apply (swap_out_loop_spec m 0 (sequences_for m rid) k Hwf Hnd); [words|done|]|].
  { eapply can_store_mono; [exact Hc|]. pose proof (stored_sum m _ Hnd). lia. }
  intros [n m'] (Hwf' & Hct & Hp & -> & Hcs & Hoth & Hix & Hn). split_and!; try done.
  intros sid st Hs Hne. apply Hoth. intros (st' & ? & ?)%Hmem. by simplify_eq.
Qed.

(** ** [preempt] *)

Lemma admission_blocks_nonneg m r : mgr_wf m → 0 <= prompt_tokens r → 0 <= admission_blocks m r.
Proof.
  intros Hwf Hr. unfold admission_blocks, blocks_needed. pose proof (tpb_u32 _ Hwf) as [Ht _].
  pose proof (table_count_pos _ Hwf). apply Z.mul_nonneg_nonneg; [|lia].
  destruct (decide (tpb_of m = 0)) as [->|]; [by rewrite Z.div_0_r|]. apply Z.div_pos; lia.
Qed.

Lemma pending_blocks_nonneg m q :
  mgr_wf m → Forall pending_ok q → 0 <= zsum (admission_blocks m) q.
Proof.
  intros Hwf Hq. apply zsum_nonneg. intros r Hin. apply admission_blocks_nonneg; [done|].
  destruct (proj1 (Forall_forall _ _) Hq r Hin) as ([Hp _] & _). lia.
Qed.

Lemma room_stored cap v s :
  sched_wf s → sched_room cap v s →
  stored (cache_manager_ s) + pinned (cache_manager_ s) <= cap ∧
  0 <= stored (cache_manager_ s) ∧ 0 <= pinned (cache_manager_ s).
Proof.
  intros Hwf Hr. pose proof (room_blocks _ _ _ Hr).
  pose proof (stored_nonneg (cache_manager_ s)). pose proof (pinned_nonneg (cache_manager_ s)).
  pose proof (pending_blocks_nonneg _ _ (s_cache _ Hwf) (q_pending _ (s_queues _ Hwf))). lia.
Qed.

Lemma held_without_active s i r :
  queues_wf s → active_ s !! i = Some r →
  held_without (lifetime_held_ s) r = lifetime_of (delete i (active_ s)) ∧
  0 <= lifetime_of (delete i (active_ s)) <= lifetime_held_ s.
Proof.
  intros Hq Hi. pose proof (q_held _ Hq) as Hh. pose proof (q_held_max _ Hq) as Hmax.
  assert (0 <= lifetime_blocks r) as Hr
    by (apply (proj1 (Forall_lookup _ _) (q_active _ Hq) _ _ Hi)).
  assert (0 <= lifetime_of (delete i (active_ s))) as Hd.
  { apply zsum_nonneg. intros x Hx. pose proof (proj1 (Forall_forall _ _) (q_active _ Hq) x) as Ha.
    destruct Ha as (_ & _ & ? & _); [|done].
    rewrite (delete_Permutation _ _ _ Hi). by right. }
  unfold lifetime_of in *. rewrite (delete_Permutation _ _ _ Hi) in Hh. cbn [zsum] in Hh.
  unfold held_without. split; [|lia]. rewrite (proj2 (Z.leb_le _ _)), andb_true_r by lia.
  destruct (Z.ltb_spec 0 (lifetime_blocks r)); [|lia]. rewrite u32_small by words. lia.
Qed.

Lemma request_typed_progress st n k l r :
  request_typed r → request_typed (set_progress st n k l r).
Proof. by intros [? ?]. Qed.

Lemma preempted_ok_of_active r : active_ok r → preempted_ok (set_rq_state Preempted r).
Proof.
  intros (Ht & Hp & Hl & _). split; [by apply request_typed_progress|]. by split_and!.
Qed.

(** The state after a preemption that left the cache [m'] and freed [n] frames. *)
Definition preempted_at s (i : nat) (r : Request) (why : string) (n : Z) m' : Scheduler B :=
  mkScheduler (sched_config s) m' (pending_ s) (delete i (active_ s))
    (preempted_ s ++ [set_rq_state Preempted r])
    (<[request_id r := mkPreemptionInfo why n]> (preemption_info_ s))
    (lifetime_of (delete i (active_ s))).

Lemma preempted_queues s i r why n m' :
  queues_wf s → active_ s !! i = Some r → queues_wf (preempted_at s i r why n m').
Proof.
  intros Hq Hi. pose proof Hq as [Hn Hp Ha Hpr Hs Hh Hmax Hinfo].
  pose proof (held_without_active s i r Hq Hi) as [_ Hd].
  assert (active_ok r) as Hr by by apply (proj1 (Forall_lookup _ _) Ha i).
  split; simpl; try done.
  - rewrite fmap_app. simpl. rewrite (delete_ids _ _ _ Hi) in Hn.
    assert (∀ l k : list Z, l ++ k ++ [request_id r] ≡ₚ request_id r :: l ++ k) as Hmove.
    { intros l k. rewrite (assoc_L (++)). by rewrite <-Permutation_cons_append. }
    by rewrite Hmove.
  - apply Forall_forall. intros x Hx. apply (proj1 (Forall_forall _ _) Ha).
    rewrite (delete_Permutation _ _ _ Hi). by right.
  - apply Forall_app. split; [done|]. constructor; [|constructor].
    by apply preempted_ok_of_active.
  - lia.
  - intros id. rewrite fmap_app, elem_of_app. simpl.
    destruct (decide (id = request_id r)) as [->|Hne].
    + rewrite lookup_insert_eq. split; [intros _; right; by left|by eexists].
    + rewrite lookup_insert_ne, Hinfo by done. split; [by left|].
      intros [?|[?|?%not_elem_of_nil]%elem_of_cons]; done.
Qed.

Lemma preempted_wf s i r why n m' :
  sched_wf s → active_ s !! i = Some r → same_store (cache_manager_ s) m' →
  (∀ sid st, sequences_ (cache_manager_ s) !! sid = Some st →
     sm_request_id (metadata st) ≠ request_id r →
     sequences_ m' !! sid = sequences_ (cache_manager_ s) !! sid) →
  sched_wf (preempted_at s i r why n m').
Proof.
  intros Hwf Hi Hsame Hoth. pose proof Hwf as [Hcf Hq Hm Ho Hb Hres].
  pose proof (delete_ids _ _ _ Hi) as Hperm.
  split; simpl; [done|by apply preempted_queues|apply Hsame| | |].
  - eapply same_store_owned; [done|exact Hsame|]. intros sid st Hs. specialize (Ho sid st Hs).
    rewrite Hperm in Ho. rewrite fmap_app. simpl.
    rewrite elem_of_app, elem_of_cons in Ho. rewrite !elem_of_app, list_elem_of_singleton. tauto.
  - eapply Forall_impl; [|intros x; apply same_store_backs; done].
    rewrite (assoc_L (++)). apply Forall_app in Hb as [Hba Hbp].
    rewrite (delete_Permutation _ _ _ Hi) in Hba. apply Forall_cons in Hba as [Hbr Hba].
    apply Forall_app. split; [by apply Forall_app|]. by constructor; [|constructor].
  - apply Forall_forall. intros id Hid.
    assert (id ∈ ids (active_ s)) as Hin by (rewrite Hperm; by right).
    eapply same_store_resident; [done|exact Hsame| |by apply (proj1 (Forall_forall _ _) Hres)].
    intros sid st Hs He. apply (Hoth sid st Hs). rewrite He. intros ->.
    pose proof (q_ids _ Hq) as Hn. apply NoDup_app in Hn as (_ & _ & Hn).
    apply NoDup_app in Hn as (Hn & _). rewrite Hperm in Hn. by apply NoDup_cons in Hn as [? _].
Qed.

Lemma preempted_room cap v s i r why n m' :
  sched_wf s → sched_room cap (S v) s → active_ s !! i = Some r →
  same_store (cache_manager_ s) m' → can_store (allocator_ m') (Z.of_nat v * cap) →
  sched_room cap v (preempted_at s i r why n m').
Proof.
  intros Hwf [H1 H2 H3 H4 H5 H6 H7] Hi Hsame Hc.
  destruct (same_store_sizes _ _ Hsame) as (E1 & E2 & E3 & E4 & E5).
  pose proof (held_without_active s i r (s_queues _ Hwf) Hi) as [_ Hd].
  pose proof (store_index _ _ Hsame) as (Hpool & _).
  split; simpl; rewrite ?E1, ?E2, ?E3, ?E4; try done.
  - assert (∀ q, zsum (admission_blocks m') q = zsum (admission_blocks (cache_manager_ s)) q) as ->; [|done].
    intros q. apply zsum_ext. intros x _. unfold admission_blocks. by rewrite E4, E5.
  - unfold sched_allocator in *. simpl. rewrite (same_pool_config _ _ Hpool). lia.
Qed.

Lemma preempt_at cap v s i r why :
  sched_wf s → sched_room cap (S v) s → active_ s !! i = Some r →
  runs (preempt s (request_id r) why) (λ '(ok, s'),
    ok = true ∧ sched_wf s' ∧ sched_room cap v s' ∧ ∃ n m',
      s' = preempted_at s i r why n m' ∧ same_store (cache_manager_ s) m' ∧
      n = u32 (nfree (allocator_ m') - nfree (sched_allocator s))).
Proof.
  intros Hwf Hroom Hi. unfold preempt.
  pose proof (q_ids _ (s_queues _ Hwf)) as Hn. apply NoDup_app in Hn as (_ & _ & Hn).
  apply NoDup_app in Hn as (Hn & _). rewrite (find_request_at _ _ _ Hn Hi).
  destruct (room_stored cap (S v) s Hwf Hroom) as (Hst & ? & ?).
  run_step (swap_out_request_store (cache_manager_ s) (request_id r) (Z.of_nat v * cap));
    [apply Hwf|nia|eapply can_store_mono; [apply (room_slots _ _ _ Hroom)|nia]|].
  intros [n m'] (Hsame & Hc & Hk & Hoth & _). cbn [runs]. split; [done|].
  rewrite (proj1 (held_without_active s i r (s_queues _ Hwf) Hi)).
  fold (preempted_at s i r why n m').
  split_and!; [by apply preempted_wf|by apply preempted_room|]. by exists n, m'.
Qed.

(** ** [reclaim_for_admission] *)

(** The newest requests of [keep] were preempted, the newest first; the requests
    [prot] behind them are untouched. *)
Definition reclaimed (keep prot : list Request) s (keep' : list Request) s' : Prop :=
  sched_config s' = sched_config s ∧ pending_ s' = pending_ s ∧ active_ s' = keep' ++ prot ∧
  same_store (cache_manager_ s) (cache_manager_ s') ∧
  ∃ victims, keep = keep' ++ victims ∧
    preempted_ s' = preempted_ s ++ (set_rq_state Preempted <$> reverse victims).

Lemma same_store_refl m : mgr_wf m → same_store m m.
Proof. by split. Qed.

Lemma same_store_trans m1 m2 m3 : same_store m1 m2 → same_store m2 m3 → same_store m1 m3.
Proof.
  intros [_ ? ? ?] [? ? ? ?]. split; [done|congruence|congruence|by eapply same_index_trans].
Qed.

Lemma reclaimed_refl keep prot s :
  sched_wf s → active_ s = keep ++ prot → reclaimed keep prot s keep s.
Proof.
  intros Hwf Ha. split_and!; [done|done|done|by apply same_store_refl, Hwf|].
  exists []. by rewrite !app_nil_r.
Qed.

Lemma reclaim_loop_spec slack cap fuel required needed total keep prot s :
  sched_wf s → sched_room cap (slack + length keep) s → active_ s = keep ++ prot →
  (length keep ≤ fuel)%nat →
  runs (reclaim_loop fuel required needed total (Z.of_nat (length prot)) s) (λ s',
    sched_wf s' ∧ ∃ keep', reclaimed keep prot s keep' s' ∧ sched_room cap (slack + length keep') s').
Proof.
  revert keep s. induction fuel as [|fuel IH]; intros keep s Hwf Hroom Ha Hf; simpl;
    rewrite Ha, length_app.
  { destruct keep; [|simpl in Hf; lia]. rewrite (proj2 (Z.ltb_ge _ _)) by (simpl; lia).
    split; [done|]. exists []. split; [by apply reclaimed_refl|done]. }
  destruct keep as [|r keep _] using rev_ind.
  { rewrite (proj2 (Z.ltb_ge _ _)) by (simpl; lia). split; [done|]. exists [].
    split; [by apply reclaimed_refl|done]. }
  destruct (_ && _); [|split; [done|]; eexists; split; [by apply reclaimed_refl|done]].
  rewrite length_app. simpl.
  replace (Z.to_nat (Z.of_nat (length keep + 1 + length prot) - Z.of_nat (length prot) - 1))
    with (length keep) by lia.
  assert (active_ s !! length keep = Some r) as Hi.
  { rewrite Ha, <-(assoc_L (++)). simpl. by apply list_lookup_middle. }
  rewrite <-(assoc_L (++)). simpl. rewrite list_lookup_middle by done. simpl.
  rewrite length_app in Hroom. simpl in Hroom. rewrite Nat.add_1_r, Nat.add_succ_r in Hroom.
  run_step (preempt_at cap (slack + length keep) s (length keep) r "cache pressure watermark" Hwf Hroom Hi).
  intros [ok s1] (-> & Hwf1 & Hroom1 & n & m' & Hs1 & Hsame & _). cbn [negb].
  assert (active_ s1 = keep ++ prot) as Ha1.
  { rewrite Hs1. simpl. rewrite Ha, <-(assoc_L (++)). apply delete_middle. }
  assert (reclaimed (keep ++ [r]) prot s keep s1) as Hrec1.
  { split_and!; try done; rewrite Hs1; try done. by exists [r]. }
  destruct (_ <=? _); [by split; [|exists keep]|].
  eapply runs_mono; [apply (IH keep s1 Hwf1 Hroom1 Ha1); rewrite length_app in Hf; simpl in Hf; lia|].
  intros s' (Hwf' & keep' & Hrec & Hroom'). split; [done|]. exists keep'. split; [|done].
  destruct Hrec1 as (C1 & P1 & _ & S1 & _), Hrec as (C2 & P2 & A2 & S2 & vs & -> & Q2).
  split_and!; [congruence|congruence|done|by eapply same_store_trans|].
  exists (vs ++ [r]). split; [by rewrite (assoc_L (++))|].
  rewrite Q2, Hs1. simpl. rewrite reverse_app, fmap_app, (assoc_L (++)). done.
Qed.

Lemma reclaim_spec slack cap prompt decode keep prot s :
  sched_wf s → sched_room cap (slack + length keep) s → active_ s = keep ++ prot →
  runs (reclaim_for_admission s prompt decode (Z.of_nat (length prot))) (λ s',
    sched_wf s' ∧ ∃ keep', reclaimed keep prot s keep' s' ∧ sched_room cap (slack + length keep') s').
Proof.
  intros Hwf Hroom Ha. unfold reclaim_for_admission.
  assert (sched_wf s ∧ ∃ keep', reclaimed keep prot s keep' s ∧ sched_room cap (slack + length keep') s)
    as Hsame by (split; [done|]; exists keep; split; [by apply reclaimed_refl|done]).
  destruct (_ =? 0); [done|]. destruct (_ || _); [done|].
  apply reclaim_loop_spec; try done. rewrite Ha, length_app. lia.
Qed.
End Preemption.
