(* ===== verification/SchedulerLoops.v ===== *)
(** Admission as the scheduler does it: one attempt, the size-aware scan, the
    admission loop and the whole of [schedule_next]. Every call is defined, so the
    fuel of the loops, one unit per queued request, is enough. *)
From S2P Require Import Prelude.
From S2P Require Import Block.
From S2P Require Import SwapBackend.
From S2P Require Import BlockTable.
From S2P Require Import MemoryAllocator.
From S2P Require Import AllocatorSpec.
From S2P Require Import AllocatorProps.
From S2P Require Import KVCacheManager.
From S2P Require Import CacheAccounting.
From S2P Require Import AllocatorMoves.
From S2P Require Import CacheInvariant.
From S2P Require Import CacheLemmas.
From S2P Require Import CacheLifecycle.
From S2P Require Import CacheGrowth.
From S2P Require Import CacheWrite.
From S2P Require Import CacheSwap.
From S2P Require Import CacheRecords.
From S2P Require Import CacheRelease.
From S2P Require Import CachePrefix.
From S2P Require Import Scheduler.
From S2P Require Import SchedulerPlan.
From S2P Require Import SchedulerInvariant.
From S2P Require Import SchedulerAdmission.
From S2P Require Import SchedulerPreemption.

(** ** The pending queue without the request taken *)

Definition maybe_skipped (r r' : Request) : Prop := r' = r ∨ r' = skip_once r.

(** [q'] is [q] without [c], some requests skipped once more. *)
Definition waiting (c : Request) (q q' : list Request) : Prop :=
  ∃ q0, q ≡ₚ c :: q0 ∧ Forall2 maybe_skipped q0 q'.

Lemma maybe_skipped_map {A} (f : Request → A) q q' :
  (∀ r, f (skip_once r) = f r) → Forall2 maybe_skipped q q' → f <$> q' = f <$> q.
Proof.
  intros Hf. induction 1 as [|r r' q q' [->| ->] _ IH]; [done|..]; by rewrite !fmap_cons, IH, ?Hf.
Qed.

Lemma waiting_ids c q q' : waiting c q q' → ids q ≡ₚ request_id c :: ids q'.
Proof. intros (q0 & -> & Hq). by rewrite (maybe_skipped_map request_id _ _ (λ _, eq_refl) Hq). Qed.

Lemma waiting_zsum (f : Request → Z) c q q' :
  (∀ r, f (skip_once r) = f r) → waiting c q q' → zsum f q = f c + zsum f q'.
Proof.
  intros Hf (q0 & -> & Hq). cbn [zsum]. f_equal.
  induction Hq as [|r r' q1 q2 [->| ->] _ IH]; [done|..]; cbn [zsum]; rewrite IH, ?Hf; done.
Qed.

Lemma waiting_Forall (P : Request → Prop) c q q' :
  (∀ r, P r → P (skip_once r)) → waiting c q q' → Forall P q → P c ∧ Forall P q'.
Proof.
  intros Hp (q0 & Hperm & Hq) Hall. rewrite Hperm in Hall. apply Forall_cons in Hall as [Hc Hall].
  split; [done|]. clear Hperm. induction Hq as [|r r' q1 q2 Hr _ IH]; [done|].
  apply Forall_cons in Hall as [Hr1 Hall]. constructor; [destruct Hr as [->| ->]; auto|auto].
Qed.

(** *** Skipping *)

Definition skipped_to (i : nat) (q : list Request) : list Request :=
  (skip_once <$> take i q) ++ drop (S i) q.

Lemma waiting_skipped c q i : q !! i = Some c → waiting c q (skipped_to i q).
Proof.
  intros Hi. exists (take i q ++ drop (S i) q). split.
  - rewrite <-delete_take_drop. by apply delete_Permutation.
  - apply Forall2_app.
    + induction (take i q) as [|r l IH]; constructor; [by right|done].
    + induction (drop (S i) q) as [|r l IH]; constructor; [by left|done].
Qed.

Lemma waiting_tail c q : waiting c (c :: q) q.
Proof. exists q. split; [done|]. induction q; constructor; [by left|done]. Qed.

Lemma skips_tail config c q : skips_ok config (c :: q) → skips_ok config q.
Proof. intros [Hs Hf]. apply StronglySorted_inv in Hs as [Hs _]. by apply Forall_cons in Hf as [_ Hf]. Qed.

Lemma skips_skipped config head rest i :
  is_u32 (admission_skip_limit config) → skips_ok config (head :: rest) →
  admission_skips head < admission_skip_limit config →
  skips_ok config (skipped_to i (head :: rest)).
Proof.
  intros Hlim [Hs Hf] Hlt. set (q := head :: rest) in *.
  assert (Forall (λ r, 0 <= admission_skips r < admission_skip_limit config) q) as Hall.
  { apply StronglySorted_inv in Hs as [_ Hh]. subst q. apply Forall_cons in Hf as [Hf0 Hf].
    constructor; [lia|]. apply Forall_forall. intros r Hr.
    pose proof (proj1 (Forall_forall _ _) Hh r Hr). pose proof (proj1 (Forall_forall _ _) Hf r Hr).
    simpl in *. lia. }
  clearbody q. clear Hf Hlt head rest. unfold skipped_to. revert i.
  assert (∀ r, 0 <= admission_skips r < admission_skip_limit config →
    admission_skips (skip_once r) = admission_skips r + 1) as Hone.
  { intros r Hr. simpl. apply u32_small. words. }
  induction Hs as [|r q Hs IH Hr]; intros i; [by rewrite take_nil, drop_nil; split; constructor|].
  apply Forall_cons in Hall as [Hr0 Hall]. specialize (IH Hall).
  destruct i as [|i]; simpl.
  { rewrite drop_0. split; [done|]. eapply Forall_impl; [exact Hall|]. simpl. lia. }
  destruct (IH i) as [Hs' Hf']. split; [|constructor; [rewrite Hone by done; lia|done]].
  constructor; [done|]. rewrite Hone by done. apply Forall_app. split.
  - apply Forall_fmap, Forall_forall. intros x Hx%subseteq_take.
    simpl. pose proof (proj1 (Forall_forall _ _) Hr x Hx). pose proof (proj1 (Forall_forall _ _) Hall x Hx).
    simpl in *. rewrite u32_small by words. lia.
  - apply Forall_forall. intros x Hx%subseteq_drop. pose proof (proj1 (Forall_forall _ _) Hr x Hx).
    simpl in *. lia.
Qed.

Section Admit.
Context {B : Type} `{SwapBackendLaws B}.
Implicit Types m : KVCacheManager B.
Implicit Types s : Scheduler B.

(** What an attempt to admit leaves of the requests that are active. *)
Record attempted (keep new : list Request) s (keep' : list Request) s' : Prop := {
  att_config : sched_config s' = sched_config s;
  att_pending : pending_ s' = pending_ s;
  att_active : active_ s' = keep' ++ new;
  att_preempted : ∃ victims, keep = keep' ++ victims ∧
    preempted_ s' = preempted_ s ++ (set_rq_state Preempted <$> reverse victims);
  att_contents sid bs : contents (cache_manager_ s) !! sid = Some bs →
    contents (cache_manager_ s') !! sid = Some bs;
  att_pool : same_pool (sched_allocator s) (sched_allocator s')
}.

Lemma reclaimed_attempted keep new s keep' s' :
  reclaimed keep new s keep' s' → attempted keep new s keep' s'.
Proof.
  intros (? & ? & ? & [_ Hc _ [Hp _]] & ?). split; try done. by rewrite Hc.
Qed.

Lemma needed_range_lifetime m r : 0 <= lifetime_blocks_for m r < W32.
Proof.
  unfold lifetime_blocks_for, blocks_for_tokens. destruct (block _ _); [|words].
  destruct (_ =? 0); [words|]. apply u32_range.
Qed.

(** ** The admitted request moves to the active queue *)

Definition admitted_state s m' (c' : Request) (q' : list Request) (needed : Z) : Scheduler B :=
  mkScheduler (sched_config s) m' q' (active_ s ++ [c']) (preempted_ s) (preemption_info_ s)
    (lifetime_held_ s + needed).

Definition started (c : Request) (needed : Z) : Request :=
  set_progress Prefill (prompt_tokens c) (admission_skips c) needed c.

Lemma admitted_queues s m' c q' needed :
  queues_wf s → waiting c (pending_ s) q' → skips_ok (sched_config s) q' →
  0 <= needed → lifetime_held_ s + needed < W32 → 
  queues_wf (admitted_state s m' (started c needed) q' needed).
Proof.
  intros [Hn Hp Ha Hpr Hs Hh Hmax Hinfo] Hw Hs' Hn0 Hmax'.
  assert (∀ r, pending_ok r → pending_ok (skip_once r)) as Hskip.
  { intros r (? & ? & ? & ?). split_and!; [by apply request_typed_progress|done..]. }
  destruct (waiting_Forall pending_ok c _ _ Hskip Hw Hp) as [Hc Hp'].
  split; simpl; try done.
  - rewrite (waiting_ids _ _ _ Hw) in Hn. rewrite fmap_app. simpl.
    assert (∀ p a k : list Z, p ++ (a ++ [request_id c]) ++ k ≡ₚ (request_id c :: p) ++ a ++ k)
      as Hmove.
    { intros p a k. rewrite <-(assoc_L (++) a). simpl. rewrite (assoc_L (++)).
      rewrite <-Permutation_middle. by rewrite <-(assoc_L (++)). }
    by rewrite Hmove.
  - apply Forall_app. split; [done|]. constructor; [|constructor].
    destruct Hc as (Ht & _ & _ & _). pose proof (typed_prompt _ Ht).
    split_and!; [by apply request_typed_progress|unfold progress_ok; simpl; lia|done|].
    left. simpl. by split; [|lia].
  - unfold lifetime_of in *. rewrite zsum_app. simpl. lia.
Qed.

Lemma stage_stored m c st m' :
  mgr_wf m → stage m c st m' →
  Z.of_nat (seq_blocks st) = blocks_needed (prompt_tokens c) (tpb_of m) →
  stored m' = stored m + admission_blocks m c ∧ pinned m' = pinned m ∧
  sequence_count m' = sequence_count m + 1.
Proof.
  intros Hwf Hst Hb. pose proof Hst as [Hwf' Hfr Hs _ _ _ _ _ Hc Hp].
  destruct (stage_tpb _ _ _ _ Hst) as [_ Hcnt].
  assert (contents m !! root_sequence_id c = None) as Hnone
    by (unfold contents; by rewrite lookup_fmap, Hfr).
  unfold stored, pinned, sequence_count. rewrite Hp, Hc, !map_zsum_insert by done.
  split_and!; [|done|lia]. rewrite blocks_of_entries. unfold admission_blocks. rewrite <-Hb.
  pose proof (stage_lookup _ _ _ _ Hst) as Hl. pose proof (mgr_seq _ Hwf' _ _ Hl) as Hsw.
  rewrite (all_entries_length _ _ _ _ (seq_dense _ _ _ _ Hsw)), Nat2Z.inj_mul.
  pose proof (seq_tables _ _ _ _ Hsw). rewrite Hcnt in *. lia.
Qed.

Lemma admitted_wf s m' c q' st needed :
  sched_wf s → stage (cache_manager_ s) c st m' →
  Z.of_nat (seq_blocks st) = blocks_needed (prompt_tokens c) (tpb_of (cache_manager_ s)) →
  waiting c (pending_ s) q' → skips_ok (sched_config s) q' →
  0 <= needed → lifetime_held_ s + needed < W32 →
  sched_wf (admitted_state s m' (started c needed) q' needed).
Proof.
  intros Hwf Hst Hb Hw Hs Hn Hmax. pose proof Hwf as [Hcf Hq Hm Ho Hba Hr].
  pose proof Hst as [Hwf' Hfr Hseq Hmd Hres _ _ _ _ _].
  destruct (stage_tpb _ _ _ _ Hst) as [Htpb _].
  assert (request_id c ∉ ids (active_ s)) as Hnew.
  { pose proof (q_ids _ Hq) as Hnd. rewrite (waiting_ids _ _ _ Hw) in Hnd.
    intros Hin. apply NoDup_app in Hnd as (_ & Hnd & _). apply (Hnd (request_id c)); [by left|].
    apply elem_of_app. by left. }
  split; simpl; [done|by apply admitted_queues|done| | |].
  - intros sid st'. rewrite Hseq. intros [[<- <-]|[_ Hst']]%lookup_insert_Some.
    + rewrite Hmd, fmap_app. simpl. rewrite !elem_of_app. left. right. by left.
    + specialize (Ho _ _ Hst'). rewrite fmap_app. rewrite elem_of_app in Ho.
      rewrite !elem_of_app. tauto.
  - assert (∀ r, backs (cache_manager_ s) r → backs m' r) as Hkeep.
    { intros r (st' & Hs' & ? & ?). exists st'. rewrite Htpb, Hseq. split_and!; try done.
      rewrite lookup_insert_ne; [done|]. intros He. congruence. }
    rewrite <-(assoc_L (++)). apply Forall_app in Hba as [Ha Hp].
    apply Forall_app. split; [by eapply Forall_impl|]. constructor; [|by eapply Forall_impl].
    exists st. rewrite Hseq, Htpb, lookup_insert_eq, Hmd. simpl. split_and!; [done..|lia].
  - assert (∀ id, id ≠ request_id c → resident_request (cache_manager_ s) id → resident_request m' id)
      as Hkeep.
    { intros id Hne Hid sid st'. rewrite Hseq. intros [[<- <-]|[_ Hst']]%lookup_insert_Some.
      - rewrite Hmd. by intros.
      - by eapply Hid. }
    rewrite fmap_app. apply Forall_app. split.
    + apply Forall_forall. intros id Hid. apply Hkeep; [by intros ->|].
      by apply (proj1 (Forall_forall _ _) Hr).
    + constructor; [|constructor]. intros sid st'. rewrite Hseq.
      intros [[<- <-]|[_ Hst']]%lookup_insert_Some; [done|]. simpl. intros He.
      specialize (Ho _ _ Hst'). rewrite He in Ho. pose proof (q_ids _ Hq) as Hnd.
      rewrite (waiting_ids _ _ _ Hw) in Hnd. apply NoDup_app in Hnd as (_ & Hnd & _).
      exfalso. apply (Hnd (request_id c)); [by left|done].
Qed.

Lemma admitted_room cap v s m' c q' st needed :
  sched_wf s → sched_room cap v s → stage (cache_manager_ s) c st m' →
  Z.of_nat (seq_blocks st) = blocks_needed (prompt_tokens c) (tpb_of (cache_manager_ s)) →
  waiting c (pending_ s) q' →
  lifetime_held_ s + needed <= max_blocks (config_ (sched_allocator s)) →
  sched_room cap v (admitted_state s m' (started c needed) q' needed).
Proof.
  intros Hwf [H1 H2 H3 H4 H5 H6 H7] Hst Hb Hw Hheld.
  destruct (stage_stored _ c st m' (s_cache _ Hwf) Hst Hb) as (E1 & E2 & E3).
  destruct (stage_tpb _ _ _ _ Hst) as [E4 E5]. pose proof (stage_untouched _ _ _ _ Hst) as Hu.
  pose proof (waiting_zsum (admission_blocks (cache_manager_ s)) _ _ _ (λ _, eq_refl) Hw) as Hz.
  pose proof (waiting_zsum (λ _, 1) _ _ _ (λ _, eq_refl) Hw) as Hl.
  assert (∀ q : list Request, zsum (λ _, 1) q = Z.of_nat (length q)) as Hlen.
  { induction q; cbn [zsum length]; lia. }
  rewrite !Hlen in Hl.
  split; simpl; rewrite ?E1, ?E2, ?E3, ?E4; try done.
  - assert (∀ q, zsum (admission_blocks m') q = zsum (admission_blocks (cache_manager_ s)) q) as ->; [|lia].
    intros q. apply zsum_ext. intros x _. unfold admission_blocks. by rewrite E4, E5.
  - lia.
  - by apply (waiting_Forall (λ r, prompt_tokens r + tpb_of (cache_manager_ s) < W32) c _ _ (λ _ Hx, Hx) Hw).
  - by eapply untouched_room.
  - unfold sched_allocator in *. simpl. rewrite (same_pool_config _ _ (proj1 Hu)). lia.
Qed.

(** ** The cache after a refusal *)

Lemma refused_wf cap v s m' c :
  sched_wf s → sched_room cap v s → admission_outcome (cache_manager_ s) c false m' →
  sched_wf (with_cache s m') ∧ sched_room cap v (with_cache s m').
Proof.
  intros Hwf Hroom (Hwf' & Hu & Hs & Hx & Hc & _). pose proof Hwf as [Hcf Hq Hm Ho Hb Hr].
  assert (tpb_of m' = tpb_of (cache_manager_ s)) as Htpb by apply (same_pool_tpb _ _ (proj1 Hu)).
  assert (count_of m' = count_of (cache_manager_ s)) as Hcnt by apply (same_pool_count _ _ (proj1 Hu)).
  split.
  - split; simpl; try done.
    + destruct Hq. by split.
    + unfold owned in *. by rewrite Hs.
    + eapply Forall_impl; [exact Hb|]. intros r. unfold backs. by rewrite Hs, Htpb.
    + eapply Forall_impl; [exact Hr|]. intros id. unfold resident_request. by rewrite Hs.
  - destruct Hroom as [H1 H2 H3 H4 H5 H6 H7].
    assert (stored m' = stored (cache_manager_ s)) as E1 by (unfold stored; by rewrite Hc).
    assert (pinned m' = pinned (cache_manager_ s)) as E2 by (by rewrite !pinned_ids, Hx).
    assert (sequence_count m' = sequence_count (cache_manager_ s)) as E3
      by (unfold sequence_count; by rewrite Hc).
    split; simpl; rewrite ?E1, ?E2, ?E3, ?Htpb; try done.
    + assert (∀ q, zsum (admission_blocks m') q = zsum (admission_blocks (cache_manager_ s)) q) as ->; [|done].
      intros q. apply zsum_ext. intros x _. unfold admission_blocks. by rewrite Htpb, Hcnt.
    + by eapply untouched_room.
    + unfold sched_allocator in *. simpl. by rewrite (same_pool_config _ _ (proj1 Hu)).
Qed.

(** ** One attempt *)

Lemma room_admission cap v s c :
  sched_wf s → sched_room cap v s → c ∈ pending_ s → admission_room (cache_manager_ s) c.
Proof.
  intros Hwf [H1 H2 H3 H4 H5 H6 H7] Hc.
  pose proof (q_pending _ (s_queues _ Hwf)) as Hp.
  destruct (proj1 (Forall_forall _ _) Hp c Hc) as ([Hpt _] & _).
  pose proof (proj1 (Forall_forall _ _) H5 c Hc) as Hsum. simpl in Hsum.
  assert (admission_blocks (cache_manager_ s) c <= zsum (admission_blocks (cache_manager_ s)) (pending_ s)).
  { apply zsum_elem; [|done]. intros r Hr. apply admission_blocks_nonneg; [apply Hwf|].
    destruct (proj1 (Forall_forall _ _) Hp r Hr) as ([Hpr _] & _). lia. }
  assert (0 < length (pending_ s))%nat by (destruct (pending_ s); [by apply not_elem_of_nil in Hc|simpl; lia]).
  split; lia.
Qed.

Lemma pending_unowned s c :
  sched_wf s → c ∈ pending_ s → sequences_for (cache_manager_ s) (request_id c) = [].
Proof.
  intros Hwf Hc. destruct (sequences_for_spec (cache_manager_ s) (request_id c) (s_cache _ Hwf)) as [_ Hm].
  destruct (sequences_for _ _) as [|sid l]; [done|]. exfalso.
  destruct (proj1 (Hm sid) ltac:(by left)) as (st & Hs & Hid).
  pose proof (s_owned _ Hwf sid st Hs) as Ho. rewrite Hid in Ho.
  pose proof (q_ids _ (s_queues _ Hwf)) as Hn. apply NoDup_app in Hn as (_ & Hn & _).
  apply (Hn (request_id c)); [by apply list_elem_of_fmap_2|done].
Qed.

(** What an attempt leaves of the cache: one more sequence, or none, and the sizes.
    Without a watermark nothing is preempted for it. *)
Record att_cache s (c : Request) (ok : bool) s' : Prop := {
  att_count : sequence_count (cache_manager_ s') =
    sequence_count (cache_manager_ s) + if ok then 1 else 0;
  att_sized limit : sized limit (cache_manager_ s) →
    admission_blocks (cache_manager_ s) c <= limit → sized limit (cache_manager_ s');
  att_plain : preemption_watermark_blocks (sched_config s) = 0 →
    preempted_ s' = preempted_ s ∧ admission_outcome (cache_manager_ s) c ok (cache_manager_ s')
}.

Lemma outcome_refl m c : mgr_wf m → admission_outcome m c false m.
Proof. intros Hwf. by split_and!. Qed.

Lemma att_cache_same s c s' :
  contents (cache_manager_ s') = contents (cache_manager_ s) →
  prefix_index_ (cache_manager_ s') = prefix_index_ (cache_manager_ s) →
  (preemption_watermark_blocks (sched_config s) = 0 →
    preempted_ s' = preempted_ s ∧
    admission_outcome (cache_manager_ s) c false (cache_manager_ s')) → att_cache s c false s'.
Proof.
  intros Hc Hp. split; [..|done].
  - unfold sequence_count. rewrite Hc. lia.
  - intros limit Hs _. by eapply sized_same.
Qed.

Lemma stage_sized limit m c st m' :
  mgr_wf m → stage m c st m' →
  Z.of_nat (seq_blocks st) = blocks_needed (prompt_tokens c) (tpb_of m) →
  sized limit m → admission_blocks m c <= limit → sized limit m'.
Proof.
  intros Hwf Hst Hb Hs Hle. destruct (stage_stored _ _ _ _ Hwf Hst Hb) as (Hstored & _ & _).
  apply (sized_from limit m); [done|..].
  - intros sid bs. rewrite (stage_contents _ _ _ _ Hst).
    intros [[<- <-]|[_ ?]]%lookup_insert_Some; [right|by left].
    unfold stored in Hstored. rewrite (stage_contents _ _ _ _ Hst), map_zsum_insert in Hstored; [lia|].
    unfold contents. by rewrite lookup_fmap, (stage_fresh _ _ _ _ Hst).
  - intros key r' Hr'. left.
    destruct (stage_joined _ _ _ _ Hst) as [[_ Hpi]|(r & _ & _ & Hrec & _ & _ & Hpi)];
      rewrite Hpi in Hr'; [by exists r'|].
    unfold records_of, set_records in Hr'. destruct (decide (key = prefix_key st)) as [->|Hne].
    + rewrite lookup_insert_eq in Hr'. simpl in Hr'. apply list_elem_of_singleton in Hr' as ->.
      exists r. unfold records_of. rewrite Hrec. split; [by left|done].
    + rewrite lookup_insert_ne in Hr' by done. by exists r'.
Qed.

Lemma att_cache_admitted s s1 c st m' s' :
  same_store (cache_manager_ s) (cache_manager_ s1) → mgr_wf (cache_manager_ s1) →
  stage (cache_manager_ s1) c st m' →
  Z.of_nat (seq_blocks st) = blocks_needed (prompt_tokens c) (tpb_of (cache_manager_ s1)) →
  cache_manager_ s' = m' → preempted_ s' = preempted_ s1 →
  (preemption_watermark_blocks (sched_config s) = 0 → s1 = s) → att_cache s c true s'.
Proof.
  intros Hsame Hwf Hst Hb <- Hpre Hplain.
  destruct (same_store_sizes _ _ Hsame) as (_ & _ & E3 & E4 & E5).
  destruct (stage_stored _ _ _ _ Hwf Hst Hb) as (_ & _ & Ec). split; [lia| |].
  2:{ intros ->%Hplain. split; [done|by exists st]. }
  intros limit Hs Hle. eapply stage_sized; [exact Hwf|exact Hst|done| |].
  - eapply sized_same; [apply Hsame|apply (store_index _ _ Hsame)|done].
  - unfold admission_blocks in *. by rewrite E4, E5.
Qed.

(** A request that was just admitted, with its first chunk in the plan. *)
Definition attempt_ok slack cap (keep new : list Request) s (c : Request) (plan : BatchPlan)
    (ok : bool) (c' : Request) (plan' : BatchPlan) s' : Prop :=
  ∃ keep', attempted keep new s keep' s' ∧ att_cache s c ok s' ∧
  if ok then
    scheduled_tokens plan < max_batch_tokens (sched_config s) ∧
    (∃ needed, c' = started c needed ∧
       0 <= needed <= max_blocks (config_ (sched_allocator s))) ∧
    plan' = schedule_prefill_chunk (sched_config s) c' plan ∧
    lifetime_held_ s' <= max_blocks (config_ (sched_allocator s)) ∧
    ∀ q', waiting c (pending_ s) q' → skips_ok (sched_config s) q' →
      let s'' := with_pending (with_active s' (active_ s' ++ [c'])) q' in
      sched_wf s'' ∧ sched_room cap (slack + length keep') s''
  else c' = c ∧ plan' = plan ∧ sched_wf s' ∧ sched_room cap (slack + length keep') s' ∧
    lifetime_held_ s' <= lifetime_held_ s.

Lemma lifetime_prefix s s' keep keep' new victims :
  queues_wf s → queues_wf s' → active_ s = keep ++ new → active_ s' = keep' ++ new →
  keep = keep' ++ victims → lifetime_held_ s' <= lifetime_held_ s.
Proof.
  intros Hq Hq' Ha Ha' ->. rewrite (q_held _ Hq), (q_held _ Hq'), Ha, Ha'. unfold lifetime_of.
  rewrite !zsum_app.
  assert (0 <= zsum lifetime_blocks victims); [|lia]. apply zsum_nonneg. intros r Hr.
  assert (r ∈ active_ s) as Hin by (rewrite Ha, !elem_of_app; by auto).
  by destruct (proj1 (Forall_forall _ _) (q_active _ Hq) r Hin) as (_ & _ & ? & _).
Qed.

(** What an attempt does once it made room: [s1] is the state after the reclamation. *)
Section Attempt.
Context (slack : nat) (cap : Z) (keep keep' new : list Request) (s s1 : Scheduler B) (c : Request)
  (plan : BatchPlan).
Context (Hwf1 : sched_wf s1) (Hroom1 : sched_room cap (slack + length keep') s1).
Context (Hrec : reclaimed keep new s keep' s1) (Hc1 : c ∈ pending_ s1).
Context (Hplain : preemption_watermark_blocks (sched_config s) = 0 → s1 = s).
Context (Hheld : lifetime_held_ s1 <= lifetime_held_ s).

(** The candidate would not fit beside what the active requests may still take. *)
Lemma attempt_refused : attempt_ok slack cap keep new s c plan false c plan s1.
Proof.
  pose proof Hrec as (_ & _ & _ & Hsame & _). exists keep'.
  split; [by apply reclaimed_attempted|]. split; [|by split_and!].
  apply att_cache_same; [apply Hsame|apply (store_index _ _ Hsame)|].
  intros ->%Hplain. split; [done|]. by apply outcome_refl, s_cache.
Qed.

(** The cache has no blocks for it after all. *)
Lemma attempt_declined m' :
  admission_outcome (cache_manager_ s1) c false m' →
  attempt_ok slack cap keep new s c plan false c plan (with_cache s1 m').
Proof.
  intros Hout. pose proof (reclaimed_attempted _ _ _ _ _ Hrec) as Hatt.
  pose proof Hrec as (_ & _ & _ & Hsame & _).
  exists keep'. destruct (refused_wf _ _ _ _ c Hwf1 Hroom1 Hout) as [Hwf' Hroom'].
  pose proof Hout as (_ & Hu & Hsq & Hpx & Hct & _).
  split; [|split; [|by split_and!]].
  2:{ apply att_cache_same; cbn [cache_manager_ with_cache].
      - rewrite Hct. apply Hsame.
      - rewrite Hpx. apply (store_index _ _ Hsame).
      - intros ->%Hplain. by split. }
  split; simpl; try by apply Hatt.
  - intros sid bs Hs. rewrite Hct. by apply (att_contents _ _ _ _ _ Hatt).
  - unfold sched_allocator in *. simpl. unfold same_pool in *. rewrite (proj1 Hu). apply Hatt.
Qed.

(** It gets its blocks. *)
Lemma attempt_admitted m' st needed :
  stage (cache_manager_ s1) c st m' →
  Z.of_nat (seq_blocks st) = blocks_needed (prompt_tokens c) (tpb_of (cache_manager_ s1)) →
  scheduled_tokens plan < max_batch_tokens (sched_config s) →
  max_blocks (config_ (sched_allocator s)) < W32 →
  0 <= needed <= max_blocks (config_ (sched_allocator s)) →
  lifetime_held_ s1 + needed <= max_blocks (config_ (sched_allocator s)) →
  attempt_ok slack cap keep new s c plan true (started c needed)
    (schedule_prefill_chunk (sched_config s1) (started c needed) plan)
    (mkScheduler (sched_config s1) m' (pending_ s1) (active_ s1) (preempted_ s1)
       (preemption_info_ s1) (lifetime_held_ s1 + needed)).
Proof.
  intros Hst Hblk Hbudget Hmax Hneed Hfits.
  pose proof (reclaimed_attempted _ _ _ _ _ Hrec) as Hatt.
  pose proof Hrec as (Hcfg & Hpend & _ & Hsame & _).
  pose proof (same_pool_config _ _ (att_pool _ _ _ _ _ Hatt)) as Hconf. exists keep'. split.
  { split; simpl; try by apply Hatt.
    - intros sid bs Hs. rewrite (stage_contents _ _ _ _ Hst), lookup_insert_ne.
      + by apply (att_contents _ _ _ _ _ Hatt).
      + intros <-. apply (att_contents _ _ _ _ _ Hatt) in Hs. unfold contents in Hs.
        by rewrite lookup_fmap, (stage_fresh _ _ _ _ Hst) in Hs.
    - unfold sched_allocator in *. simpl. unfold same_pool in *.
      rewrite (proj1 (stage_untouched _ _ _ _ Hst)). apply Hatt. }
  split; [by eapply (att_cache_admitted s s1 c st m' _ Hsame (s_cache _ Hwf1) Hst Hblk)|].
  split_and!; [done|by exists needed|by rewrite Hcfg|done|].
  intros q' Hw Hsk. rewrite <-Hpend in Hw. rewrite <-Hcfg in Hsk.
  change (sched_wf (admitted_state s1 m' (started c needed) q' needed) ∧
    sched_room cap (slack + length keep') (admitted_state s1 m' (started c needed) q' needed)). split.
  - eapply admitted_wf; try done; [lia|]. words.
  - eapply admitted_room; try done. by rewrite Hconf.
Qed.
End Attempt.

Lemma try_admit_spec slack cap s c plan keep new :
  sched_wf s → sched_room cap (slack + length keep) s → active_ s = keep ++ new → c ∈ pending_ s →
  runs (try_admit s c plan (Z.of_nat (length new))) (λ '(ok, c', plan', s'),
    attempt_ok slack cap keep new s c plan ok c' plan' s').
Proof.
  intros Hwf Hroom Ha Hc. unfold try_admit.
  assert (attempt_ok slack cap keep new s c plan false c plan s) as Hrefuse
    by (apply attempt_refused with keep; try done; by apply reclaimed_refl).
  destruct (Z.leb_spec (max_batch_tokens (sched_config s)) (scheduled_tokens plan)) as [|Hbudget];
    [done|].
  set (needed := lifetime_blocks_for _ _).
  destruct (stats_spec (sched_allocator s) (proj1 (mgr_alloc _ (s_cache _ Hwf)))) as (_ & _ & _ & Htot0).
  rewrite Htot0. destruct (Z.ltb_spec (max_blocks (config_ (sched_allocator s))) needed) as [|Hle]; [done|].
  pose proof (needed_range_lifetime (cache_manager_ s) c) as Hneed. fold needed in Hneed.
  pose proof (reclaim_spec slack cap (prompt_tokens c) (max_decode_tokens (sampling c)) keep new s
    Hwf Hroom Ha) as Hreclaim.
  apply runs_inv in Hreclaim as (s1 & Hreclaim & Hwf1 & keep' & Hrec & Hroom1). rewrite Hreclaim.
  cbn [mbind option_bind].
  assert (preemption_watermark_blocks (sched_config s) = 0 → s1 = s) as Hplain.
  { intros Hz. unfold reclaim_for_admission in Hreclaim. rewrite Hz in Hreclaim. by injection Hreclaim. }
  pose proof Hrec as (_ & Hpend & Ha1 & _ & victims & Hkeep & _).
  pose proof (lifetime_prefix s s1 keep keep' new victims (s_queues _ Hwf) (s_queues _ Hwf1)
    Ha Ha1 Hkeep) as Hheld.
  destruct (stats_spec (sched_allocator s1) (proj1 (mgr_alloc _ (s_cache _ Hwf1)))) as (_ & _ & _ & Htot).
  rewrite Htot, (same_pool_config _ _ (att_pool _ _ _ _ _ (reclaimed_attempted _ _ _ _ _ Hrec))).
  assert (0 <= lifetime_held_ s1) as Hh0.
  { rewrite (q_held _ (s_queues _ Hwf1)). apply zsum_nonneg. intros r Hr.
    by destruct (proj1 (Forall_forall _ _) (q_active _ (s_queues _ Hwf1)) r Hr) as (_ & _ & ? & _). }
  pose proof (room_held _ _ _ Hroom) as Hmax.
  rewrite (u32_small (lifetime_held_ s1 + needed)) by words.
  assert (c ∈ pending_ s1) as Hc1 by by rewrite Hpend.
  destruct (Z.ltb_spec (max_blocks (config_ (sched_allocator s))) (lifetime_held_ s1 + needed))
    as [|Hfits]; [by apply (attempt_refused slack cap keep keep')|].
  destruct (proj1 (Forall_forall _ _) (q_pending _ (s_queues _ Hwf1)) c Hc1) as (Htc & _ & Hrem & _).
  pose proof (typed_prompt _ Htc) as Hprompt.
  run_step (admit_sequence_spec (cache_manager_ s1) c (s_cache _ Hwf1)
    (room_admission _ _ _ _ Hwf1 Hroom1 Hc1)); [lia|by apply pending_unowned|].
  intros [[] m'] Hout; cbn [negb runs]; [|by apply (attempt_declined slack cap keep keep')].
  destruct Hout as (st & Hst & Hblk). rewrite Hrem, (proj2 (Z.eqb_neq (prompt_tokens c) 0)) by lia.
  apply (attempt_admitted slack cap keep keep' new s s1 c plan) with (st := st); try done; [lia|words].
Qed.

(** ** The admission loop *)

(** A property of requests that admission and preemption leave. *)
Definition carried (total : Z) (P : Request → Prop) : Prop :=
  (∀ r, P r → P (skip_once r)) ∧ (∀ r, P r → P (set_rq_state Preempted r)) ∧
  (∀ r needed, pending_ok r → P r → 0 <= needed <= total → P (started r needed)).

(** A property of the cache that admission leaves, for requests with [P]. *)
Definition admits (P : Request → Prop) (Q : KVCacheManager B → Prop) : Prop :=
  (∀ r, P r → P (skip_once r)) ∧
  ∀ m c ok m', mgr_wf m → Q m → P c → sequences_for m (request_id c) = [] →
    admission_outcome m c ok m' → Q m'.

(** The state of the loop of a call that began in [s0]: requests of [s0] still
    active, requests admitted by this call, and the plan for the latter. *)
Record admitting slack cap s0 (keep new : list Request) (plan : BatchPlan) s : Prop := {
  ad_wf : sched_wf s;
  ad_room : sched_room cap (slack + length keep) s;
  ad_config : sched_config s = sched_config s0;
  ad_active : active_ s = keep ++ new;
  ad_preempted : ∃ dropped, active_ s0 = keep ++ dropped ∧
    preempted_ s = preempted_ s0 ++ (set_rq_state Preempted <$> reverse dropped);
  ad_plan : plan_wf (sched_config s0) plan;
  ad_serves : serves (sched_config s0) new plan;
  ad_prefill : prefill_requests plan = ids new;
  ad_decode : decode_requests plan = [];
  ad_pending : ids (pending_ s0) ≡ₚ ids new ++ ids (pending_ s);
  ad_fifo : size_aware_admission (sched_config s0) = false →
    ids (pending_ s0) = ids new ++ ids (pending_ s);
  ad_size : Z.of_nat (length (active_ s)) <=
    Z.max (max_active_requests (sched_config s0)) (Z.of_nat (length (active_ s0)));
  ad_contents sid bs : contents (cache_manager_ s0) !! sid = Some bs →
    contents (cache_manager_ s) !! sid = Some bs;
  ad_held : lifetime_held_ s <=
    Z.max (lifetime_held_ s0) (max_blocks (config_ (sched_allocator s0)));
  ad_pool : same_pool (sched_allocator s0) (sched_allocator s);
  ad_count : sequence_count (cache_manager_ s) =
    sequence_count (cache_manager_ s0) + Z.of_nat (length new);
  ad_carried P : carried (max_blocks (config_ (sched_allocator s0))) P →
    Forall P (pending_ s0 ++ active_ s0 ++ preempted_ s0) →
    Forall P (pending_ s ++ active_ s ++ preempted_ s);
  ad_sized limit : sized limit (cache_manager_ s0) →
    Forall (λ r, admission_blocks (cache_manager_ s0) r <= limit) (pending_ s0) →
    sized limit (cache_manager_ s) ∧
    Forall (λ r, admission_blocks (cache_manager_ s) r <= limit) (pending_ s);
  ad_admits P Q : preemption_watermark_blocks (sched_config s0) = 0 → admits P Q →
    Forall P (pending_ s0) → Q (cache_manager_ s0) →
    Forall P (pending_ s) ∧ Q (cache_manager_ s) ∧ preempted_ s = preempted_ s0
}.

Lemma attempted_preempted s0 s s' keep keep' new :
  attempted keep new s keep' s' →
  (∃ dropped, active_ s0 = keep ++ dropped ∧
    preempted_ s = preempted_ s0 ++ (set_rq_state Preempted <$> reverse dropped)) →
  ∃ dropped, active_ s0 = keep' ++ dropped ∧
    preempted_ s' = preempted_ s0 ++ (set_rq_state Preempted <$> reverse dropped).
Proof.
  intros Hatt (dropped & Ha & Hp). destruct (att_preempted _ _ _ _ _ Hatt) as (vs & Hk & Hp').
  exists (vs ++ dropped). split; [by rewrite Ha, Hk, (assoc_L (++))|].
  by rewrite Hp', Hp, reverse_app, fmap_app, (assoc_L (++)).
Qed.

Lemma attempted_length s s' keep keep' new :
  attempted keep new s keep' s' → active_ s = keep ++ new →
  (length (active_ s') ≤ length (active_ s))%nat.
Proof.
  intros Hatt Ha. destruct (att_preempted _ _ _ _ _ Hatt) as (vs & Hk & _).
  rewrite (att_active _ _ _ _ _ Hatt), Ha, Hk, !length_app. lia.
Qed.

Lemma attempted_carried total P keep keep' new s s' :
  carried total P → attempted keep new s keep' s' → active_ s = keep ++ new →
  Forall P (pending_ s ++ active_ s ++ preempted_ s) →
  Forall P (pending_ s' ++ active_ s' ++ preempted_ s').
Proof.
  intros (_ & Hpre & _) Hatt Ha Hall. destruct (att_preempted _ _ _ _ _ Hatt) as (vs & Hk & Hp).
  rewrite (att_pending _ _ _ _ _ Hatt), (att_active _ _ _ _ _ Hatt), Hp.
  rewrite Ha, Hk in Hall. rewrite !Forall_app in *.
  destruct Hall as (? & ((? & Hv) & ?) & ?). split_and!; try done.
  apply Forall_fmap. apply Forall_forall. intros r Hr. rewrite elem_of_reverse in Hr.
  simpl. apply Hpre. by apply (proj1 (Forall_forall _ _) Hv).
Qed.

Lemma attempted_blocks keep keep' new s s' limit :
  attempted keep new s keep' s' →
  Forall (λ r, admission_blocks (cache_manager_ s) r <= limit) (pending_ s) →
  Forall (λ r, admission_blocks (cache_manager_ s') r <= limit) (pending_ s').
Proof.
  intros Hatt Hall. rewrite (att_pending _ _ _ _ _ Hatt).
  eapply Forall_impl; [exact Hall|]. intros r Hr.
  pose proof (att_pool _ _ _ _ _ Hatt) as Hp. unfold sched_allocator in Hp.
  unfold admission_blocks, tpb_of, count_of in *. rewrite (same_pool_tpb _ _ Hp), (same_pool_count _ _ Hp). done.
Qed.

Lemma admitting_refused slack cap s0 keep new plan s c c' plan' s' :
  admitting slack cap s0 keep new plan s → c ∈ pending_ s →
  attempt_ok slack cap keep new s c plan false c' plan' s' →
  ∃ keep', admitting slack cap s0 keep' new plan' s' ∧ pending_ s' = pending_ s ∧
    (length (active_ s') ≤ length (active_ s))%nat.
Proof.
  intros [W R C A P Pl Sv Pf D Pe F Sz Ct He Po Cn Ca Si Ad] Hc (keep' & Hatt & Hcache & -> & -> & Hwf & Hroom & Hheld).
  exists keep'. pose proof (attempted_length _ _ _ _ _ Hatt A). split; [|by split; [apply Hatt|]].
  split; try done; rewrite ?(att_config _ _ _ _ _ Hatt), ?(att_pending _ _ _ _ _ Hatt); try done.
  - apply Hatt.
  - by eapply attempted_preempted.
  - lia.
  - intros sid bs Hs. apply (att_contents _ _ _ _ _ Hatt). by apply Ct.
  - lia.
  - pose proof (att_pool _ _ _ _ _ Hatt). unfold same_pool in *. congruence.
  - rewrite (att_count _ _ _ _ Hcache). lia.
  - intros Q HQ Hq0. specialize (Ca Q HQ Hq0).
    rewrite <-(att_pending _ _ _ _ _ Hatt). by eapply attempted_carried.
  - intros limit Hs Hp. destruct (Si limit Hs Hp) as [Hs' Hp'].
    split.
    + apply (att_sized _ _ _ _ Hcache); [done|]. by apply (proj1 (Forall_forall _ _) Hp').
    + rewrite <-(att_pending _ _ _ _ _ Hatt). by eapply attempted_blocks.
  - intros Q Z Hz HQ Hq0 HZ. destruct (Ad Q Z Hz HQ Hq0 HZ) as (Hq & Hc0 & Hpre).
    rewrite <-C in Hz. destruct (att_plain _ _ _ _ Hcache Hz) as [Hpre' Hout].
    split_and!; [done| |congruence]. eapply HQ; [|exact Hc0| | |exact Hout].
    + by apply s_cache.
    + by apply (proj1 (Forall_forall _ _) Hq).
    + by apply pending_unowned.
Qed.

Lemma admitting_admitted slack cap s0 keep new plan s c c' plan' s' q' :
  admitting slack cap s0 keep new plan s → c ∈ pending_ s →
  attempt_ok slack cap keep new s c plan true c' plan' s' →
  waiting c (pending_ s) q' → skips_ok (sched_config s) q' →
  (size_aware_admission (sched_config s0) = false → pending_ s = c :: q') →
  Z.of_nat (length (active_ s)) < max_active_requests (sched_config s) →
  ∃ keep', admitting slack cap s0 keep' (new ++ [c']) plan'
    (with_pending (with_active s' (active_ s' ++ [c'])) q').
Proof.
  intros Had Hc (keep' & Hatt & Hcache & Hbudget & (needed & -> & Hneed) & -> & Hheld & Hmove) Hw Hsk Hfifo Hlt.
  destruct (Hmove q' Hw Hsk) as [Hwf Hroom]. clear Hmove.
  pose proof Had as [W R C A P Pl Sv Pf D Pe F Sz Ct He Po Cn Ca Si Ad].
  pose proof (attempted_length _ _ _ _ _ Hatt A) as Hlen.
  pose proof (s_config _ W) as Hcf. rewrite C in Hcf, Hbudget, Hlt.
  pose proof (q_pending _ (s_queues _ W)) as Hp.
  destruct (proj1 (Forall_forall _ _) Hp c Hc) as (Ht & _).
  pose proof (typed_prompt _ Ht) as Hpt.
  assert (request_id (started c needed) ∉ prefill_requests plan) as Hnew.
  { rewrite Pf. intros Hin. pose proof (q_ids _ (s_queues _ W)) as Hn.
    apply NoDup_app in Hn as (_ & Hn & _). apply (Hn (request_id c)); [by apply list_elem_of_fmap_2|].
    rewrite A, fmap_app, !elem_of_app. by auto. }
  assert (serves (sched_config s0) (new ++ [started c needed]) plan) as Sv'.
  { eapply serves_mono; [exact Sv|]. intros r Hr. apply elem_of_app. by left. }
  destruct (serves_chunk (sched_config s0) (new ++ [started c needed]) plan (started c needed)
    Hcf Pl Sv') as (Sv2 & Pl2 & _ & D2 & _ & _); [apply elem_of_app; right; by left|done|simpl; lia|done|].
  exists keep'. rewrite C in *.
  split; cbn [sched_config with_pending with_active cache_manager_ pending_ active_ preempted_ lifetime_held_];
    try done.
  - by rewrite (att_config _ _ _ _ _ Hatt).
  - by rewrite (att_active _ _ _ _ _ Hatt), (assoc_L (++)).
  - by eapply attempted_preempted.
  - rewrite prefill_chunk_run by (done || simpl; lia). cbn zeta.
    rewrite (proj2 (Z.ltb_lt _ _)) by (simpl; lia). simpl. by rewrite Pf, fmap_app.
  - by rewrite D2.
  - rewrite Pe, (waiting_ids _ _ _ Hw), fmap_app, <-(assoc_L (++)). done.
  - intros Hsa. rewrite (F Hsa), (Hfifo Hsa), fmap_app, <-(assoc_L (++)). done.
  - rewrite length_app. simpl. lia.
  - intros sid bs Hs. apply (att_contents _ _ _ _ _ Hatt). by apply Ct.
  - rewrite (same_pool_config _ _ Po) in Hheld. lia.
  - pose proof (att_pool _ _ _ _ _ Hatt). unfold same_pool, sched_allocator in *. simpl. congruence.
  - rewrite (att_count _ _ _ _ Hcache), Cn, length_app. simpl. lia.
  - intros Q HQ Hq0. specialize (Ca Q HQ Hq0).
    rewrite (same_pool_config _ _ Po) in Hneed.
    pose proof (attempted_carried _ _ _ _ _ _ _ HQ Hatt A Ca) as Hall.
    rewrite (att_pending _ _ _ _ _ Hatt) in Hall. destruct HQ as (HQ1 & _ & HQ3).
    apply Forall_app in Hall as [Hq Hall]. apply Forall_app in Hall as [Ha Hb].
    destruct (waiting_Forall Q c _ _ HQ1 Hw Hq) as [HQc Hq'].
    repeat (apply Forall_app; split); try done. constructor; [|constructor].
    apply HQ3; [by apply (proj1 (Forall_forall _ _) Hp)|done|done].
  - intros limit Hs Hpb. destruct (Si limit Hs Hpb) as [Hs' Hp'].
    pose proof (attempted_blocks _ _ _ _ _ limit Hatt Hp') as Hb.
    rewrite (att_pending _ _ _ _ _ Hatt) in Hb.
    destruct (waiting_Forall (λ r, admission_blocks (cache_manager_ s') r <= limit) c _ _
      (λ _ Hx, Hx) Hw Hb) as [_ Hb'].
    split; [|done]. eapply (att_sized _ _ _ _ Hcache); [done|].
    by apply (proj1 (Forall_forall _ _) Hp').
  - intros Q Z Hz HQ Hq0 HZ. destruct (Ad Q Z Hz HQ Hq0 HZ) as (Hq & Hc0 & Hpre).
    rewrite <-C in Hz. destruct (att_plain _ _ _ _ Hcache Hz) as [Hpre' Hout].
    destruct (waiting_Forall Q c _ _ (proj1 HQ) Hw Hq) as [HQc Hq'].
    split_and!; [done| |congruence]. eapply HQ; [|exact Hc0|done| |exact Hout].
    + by apply s_cache.
    + by apply pending_unowned.
Qed.

Lemma admitting_so_far slack cap s0 keep new plan s :
  admitting slack cap s0 keep new plan s → admitted_so_far plan = Z.of_nat (length new).
Proof. intros Had. unfold admitted_so_far. by rewrite (ad_prefill _ _ _ _ _ _ _ Had), length_fmap. Qed.

Lemma scan_spec slack cap s0 rest i keep new plan s head tl :
  admitting slack cap s0 keep new plan s → drop i (pending_ s) = rest →
  size_aware_admission (sched_config s0) = true → pending_ s = head :: tl →
  admission_skips head < admission_skip_limit (sched_config s0) →
  Z.of_nat (length (active_ s)) < max_active_requests (sched_config s0) →
  runs (scan_pending rest i plan s) (λ '(ok, plan', s'), ∃ keep' new',
    admitting slack cap s0 keep' new' plan' s' ∧
    (ok = true → (length (pending_ s') < length (pending_ s))%nat)).
Proof.
  revert i keep plan s. induction rest as [|c rest IH];
    intros i keep plan s Had Hrest Hsa Hhead Hskip Hlt; cbn [scan_pending runs];
    [by exists keep, new|].
  assert (pending_ s !! i = Some c) as Hi
    by (rewrite <-(Nat.add_0_r i), <-lookup_drop, Hrest; done).
  assert (c ∈ pending_ s) as Hc by by eapply list_elem_of_lookup_2.
  pose proof (ad_config _ _ _ _ _ _ _ Had) as Hcfg. rewrite (admitting_so_far _ _ _ _ _ _ _ Had).
  run_step (try_admit_spec slack cap s c plan keep new (ad_wf _ _ _ _ _ _ _ Had) (ad_room _ _ _ _ _ _ _ Had)
    (ad_active _ _ _ _ _ _ _ Had) Hc).
  intros [[[ok c'] plan'] s'] Hout. destruct ok; cbn [negb runs].
  - destruct (admitting_admitted slack cap s0 keep new plan s c c' plan' s' (skipped_to i (pending_ s))
      Had Hc Hout) as (keep' & Had'); [by apply waiting_skipped| |congruence|by rewrite Hcfg|].
    { pose proof (q_skips _ (s_queues _ (ad_wf _ _ _ _ _ _ _ Had))) as Hsk.
      pose proof (s_config _ (ad_wf _ _ _ _ _ _ _ Had)) as (_ & _ & _ & Hlim).
      rewrite Hhead in *. rewrite Hcfg in *. by apply skips_skipped. }
    destruct Hout as (k & Hatt & _). rewrite (att_pending _ _ _ _ _ Hatt).
    exists keep', (new ++ [c']). split; [exact Had'|]. intros _. simpl.
    rewrite length_app, length_fmap, length_take, length_drop.
    apply lookup_lt_Some in Hi. lia.
  - destruct (admitting_refused _ _ _ _ _ _ _ _ _ _ _ Had Hc Hout) as (keep' & Had' & Hp & Hl).
    eapply runs_mono; [apply (IH (S i) keep' plan' s' Had')|].
    + by rewrite Hp, <-Nat.add_1_r, <-drop_drop, Hrest.
    + done.
    + by rewrite Hp.
    + done.
    + lia.
    + intros [[ok2 p2] s2]. by rewrite Hp.
Qed.

Lemma admit_loop_spec slack cap s0 fuel keep new plan s :
  admitting slack cap s0 keep new plan s → (length (pending_ s) ≤ fuel)%nat →
  runs (admit_loop fuel plan s) (λ '(plan', s'), ∃ keep' new',
    admitting slack cap s0 keep' new' plan' s').
Proof.
  revert keep new plan s. induction fuel as [|fuel IH]; intros keep new plan s Had Hf;
    cbn [admit_loop]; destruct (pending_ s) as [|head tl] eqn:Hp; try (by exists keep, new);
    [simpl in Hf; lia|].
  pose proof (ad_config _ _ _ _ _ _ _ Had) as Hcfg. pose proof (ad_wf _ _ _ _ _ _ _ Had) as Hwf.
  destruct (Z.leb_spec (max_active_requests (sched_config s)) (Z.of_nat (length (active_ s)))) as [|Hlt];
    [by exists keep, new|].
  assert (head ∈ pending_ s) as Hin by (rewrite Hp; by left).
  destruct (must_take_head (sched_config s) head) eqn:Htake.
  - rewrite (admitting_so_far _ _ _ _ _ _ _ Had).
    run_step (try_admit_spec slack cap s head plan keep new Hwf (ad_room _ _ _ _ _ _ _ Had)
      (ad_active _ _ _ _ _ _ _ Had) Hin).
    intros [[[ok c'] plan'] s'] Hout. destruct ok; cbn [negb runs].
    + destruct (admitting_admitted slack cap s0 keep new plan s head c' plan' s' tl Had Hin Hout)
        as (keep' & Had'); [rewrite Hp; apply waiting_tail| |done|done|].
      { eapply skips_tail. rewrite <-Hp. apply (s_queues _ Hwf). }
      destruct Hout as (k & Hatt & _). rewrite (att_pending _ _ _ _ _ Hatt), Hp.
      eapply IH; [exact Had'|]. simpl in *. lia.
    + destruct (admitting_refused _ _ _ _ _ _ _ _ _ _ _ Had Hin Hout) as (keep' & Had' & _).
      by exists keep', new.
  - unfold must_take_head in Htake. apply orb_false_iff in Htake as [Hsa Hsk].
    apply negb_false_iff in Hsa. apply Z.leb_gt in Hsk. rewrite Hcfg in Hsa, Hsk, Hlt.
    run_step (scan_spec slack cap s0 (head :: tl) 0 keep new plan s head tl Had); try done.
    intros [[ok plan'] s'] (keep' & new' & Had' & Hdec). destruct ok; cbn [negb runs];
      [|by exists keep', new'].
    eapply IH; [exact Had'|]. specialize (Hdec eq_refl). rewrite Hp in Hdec. simpl in *. lia.
Qed.

(** The call starts with an empty plan. *)
Lemma admitting_start slack cap s :
  sched_wf s → sched_room cap (slack + length (active_ s)) s →
  admitting slack cap s (active_ s) [] BatchPlan_empty s.
Proof.
  intros Hwf Hroom. split; try done.
  - by rewrite app_nil_r.
  - exists []. by rewrite !app_nil_r.
  - apply empty_plan_wf, Hwf.
  - apply serves_empty.
  - lia.
  - lia.
  - simpl. lia.
Qed.

(** What [schedule_next] leaves. *)
Lemma schedule_next_spec slack cap s :
  sched_wf s → sched_room cap (slack + length (active_ s)) s →
  runs (schedule_next s) (λ '(plan, s'),
    plan_ok (sched_config s) (active_ s') plan ∧
    ∃ keep new p, admitting slack cap s keep new p s').
Proof.
  intros Hwf Hroom. unfold schedule_next.
  run_step (admit_loop_spec slack cap s (length (pending_ s)) (active_ s) [] BatchPlan_empty s
    (admitting_start slack cap s Hwf Hroom)); [done|].
  intros [plan s'] (keep & new & Had). cbn [runs]. split; [|by exists keep, new, plan].
  pose proof Had as [W R C A P Pl Sv Pf D Pe F Sz Ct He Po Cn Ca Si Ad]. rewrite C.
  pose proof (s_queues _ W) as Hq.
  apply finish_plan; try done; [apply Hwf| | |].
  - eapply serves_mono; [exact Sv|]. intros r Hr. rewrite A, elem_of_app. by right.
  - pose proof (q_ids _ Hq) as Hn. apply NoDup_app in Hn as (_ & _ & Hn).
    by apply NoDup_app in Hn as (Hn & _).
  - eapply Forall_impl; [apply (q_active _ Hq)|]. by intros r (_ & [? _] & _).
Qed.
End Admit.
