(* ===== verification/SchedulerSteps.v ===== *)
(** The other operations of the scheduler keep its invariant: enqueueing, progress,
    preemption and resumption by the caller, cancellation. *)
From stdpp Require Import sorting.
From S2P Require Import Prelude.
From S2P Require Import Block.
From S2P Require Import SwapBackend.
From S2P Require Import BlockTable.
From S2P Require Import MemoryAllocator.
From S2P Require Import AllocatorSpec.
From S2P Require Import AllocatorProps.
From S2P Require Import KVCacheManager.
From S2P Require Import CacheAccounting.
From S2P Require Import AllocatorMoves.
From S2P Require Import CacheInvariant.
From S2P Require Import CacheLemmas.
From S2P Require Import CacheLifecycle.
From S2P Require Import CacheGrowth.
From S2P Require Import CacheWrite.
From S2P Require Import CacheSwap.
From S2P Require Import CacheRecords.
From S2P Require Import CacheRelease.
From S2P Require Import CachePrefix.
From S2P Require Import Scheduler.
From S2P Require Import SchedulerPlan.
From S2P Require Import SchedulerInvariant.
From S2P Require Import SchedulerAdmission.
From S2P Require Import SchedulerPreemption.
From S2P Require Import SchedulerLoops.

Lemma sorted_delete {A} (R : A → A → Prop) l i :
  StronglySorted R l → StronglySorted R (delete i l).
Proof.
  intros Hl. revert i. induction Hl as [|x l Hl IH Hx]; intros [|i]; simpl; [constructor..|done|].
  constructor; [done|]. by apply Forall_delete.
Qed.

Section Steps.
Context {B : Type} `{SwapBackendLaws B}.
Implicit Types m : KVCacheManager B.
Implicit Types s : Scheduler B.

Lemma active_nodup s : queues_wf s → NoDup (ids (active_ s)).
Proof.
  intros Hq. pose proof (q_ids _ Hq) as Hn. apply NoDup_app in Hn as (_ & _ & Hn).
  by apply NoDup_app in Hn as (Hn & _).
Qed.

Lemma preempted_nodup s : queues_wf s → NoDup (ids (preempted_ s)).
Proof.
  intros Hq. pose proof (q_ids _ Hq) as Hn. apply NoDup_app in Hn as (_ & _ & Hn).
  by apply NoDup_app in Hn as (_ & _ & Hn).
Qed.

(** *** [enqueue] *)

Lemma enqueue_wf s r :
  sched_wf s → request_typed r →
  request_id r ∉ ids (pending_ s) ++ ids (active_ s) ++ ids (preempted_ s) →
  sched_wf (enqueue s r).
Proof.
  intros [Hcf [Hn Hp Ha Hpr [Hs1 Hs2] Hh Hmax Hinfo] Hm Ho Hb Hr] Ht Hnew.
  split; try done. split; simpl; try done.
  - rewrite fmap_app. simpl.
    assert (∀ p k : list Z, (p ++ [request_id r]) ++ k ≡ₚ request_id r :: p ++ k) as ->.
    { intros p k. rewrite <-(assoc_L (++)). simpl. by rewrite <-Permutation_middle. }
    by constructor.
  - apply Forall_app. split; [done|]. constructor; [|constructor].
    split; [by apply request_typed_progress|]. done.
  - pose proof Hcf as (_ & _ & _ & [Hlim _]). split.
    + apply StronglySorted_app_2; [|done|repeat constructor].
      intros x y Hx ->%list_elem_of_singleton. simpl.
      pose proof (proj1 (Forall_forall _ _) Hs2 x Hx) as Hx2. simpl in Hx2. lia.
    + apply Forall_app. split; [done|]. constructor; [simpl; lia|constructor].
Qed.

(** *** [complete_step] *)

Lemma step_request_id n r : request_id (step_request n r) = request_id r.
Proof. unfold step_request. by repeat case_match. Qed.

Lemma step_request_lifetime n r : lifetime_blocks (step_request n r) = lifetime_blocks r.
Proof. unfold step_request. by repeat case_match. Qed.

Lemma step_request_ok n r : 0 <= n → active_ok r → active_ok (step_request n r).
Proof.
  intros Hn (Ht & [Hp1 Hp2] & Hl & Hst). unfold step_request.
  destruct (decide (rq_state r = Prefill)) as [He|]; [|by split_and!].
  destruct (Z.leb_spec (remaining_prefill_tokens r) n).
  - split_and!; [by repeat apply request_typed_progress|split; simpl; lia|done|by right].
  - split_and!; [by apply request_typed_progress|split; simpl; lia|done|]. left. simpl.
    split; [done|lia].
Qed.

Lemma alter_fmap_same {A} (g : Request → A) f (i : nat) (q : list Request) :
  (∀ r, g (f r) = g r) → g <$> alter f i q = g <$> q.
Proof.
  intros Hg. apply list_eq. intros j. rewrite !list_lookup_fmap.
  destruct (decide (i = j)) as [->|]; [|by rewrite list_lookup_alter_ne].
  rewrite list_lookup_alter_eq. destruct (q !! j); [simpl; by rewrite Hg|done].
Qed.

Lemma complete_step_wf s id n : sched_wf s → 0 <= n → sched_wf (complete_step s id n).
Proof.
  intros [Hcf [Hn Hp Ha Hpr Hs Hh Hmax Hinfo] Hm Ho Hb Hr] Hpos. unfold complete_step.
  destruct (find_request (active_ s) id) as [[i r]|] eqn:Hf; [|by split].
  apply find_request_Some in Hf as [Hi _].
  pose proof (alter_fmap_same request_id (step_request n) i (active_ s) (step_request_id n)) as Hids.
  split; simpl; rewrite ?Hids; try done.
  - split; simpl; rewrite ?Hids; try done.
    + apply Forall_alter; [done|]. intros x Hx Hok. by apply step_request_ok.
    + rewrite Hh. unfold lifetime_of. clear - Hi. revert i Hi.
      induction (active_ s) as [|x q IH]; intros [|i] Hi; simpl in *; [done..| |].
      * by rewrite step_request_lifetime.
      * by rewrite (IH i).
  - apply Forall_app in Hb as [Hba Hbp]. apply Forall_app. split; [|done].
    apply Forall_alter; [done|]. intros x Hx (st & ? & ? & ?). exists st.
    unfold step_request. repeat case_match; by split_and!.
Qed.

(** *** [preempt] *)

Lemma preempt_step s id why :
  sched_wf s → can_store (sched_allocator s) (stored (cache_manager_ s)) →
  runs (preempt s id why) (λ '(ok, s'), sched_wf s' ∧
    (if ok then ∃ i r n m', active_ s !! i = Some r ∧ request_id r = id ∧
       s' = preempted_at s i r why n m' ∧ same_store (cache_manager_ s) m' ∧
       n = u32 (nfree (allocator_ m') - nfree (sched_allocator s)) ∧
       nfree (allocator_ m') - zsum (needed m') (sequences_for (cache_manager_ s) id) =
         nfree (sched_allocator s) -
           zsum (needed (cache_manager_ s)) (sequences_for (cache_manager_ s) id)
     else s' = s ∧ id ∉ ids (active_ s))).
Proof.
  intros Hwf Hc. unfold preempt.
  destruct (find_request (active_ s) id) as [[i r]|] eqn:Hf;
    [|by apply find_request_None in Hf].
  apply find_request_Some in Hf as [Hi <-].
  run_step (swap_out_request_store (cache_manager_ s) (request_id r) 0);
    [apply Hwf|lia|by rewrite Z.add_0_r|].
  intros [n m'] (Hsame & _ & Hn & Hoth & Hfree). cbn [runs].
  rewrite (proj1 (held_without_active s i r (s_queues _ Hwf) Hi)).
  fold (preempted_at s i r why n m'). split; [by apply preempted_wf|]. by exists i, r, n, m'.
Qed.

(** *** [resume] *)

(** The request at position [i] of the preempted queue back among the active. *)
Definition resumed_at s (i : nat) (r : Request) m' : Scheduler B :=
  let st := if 0 <? remaining_prefill_tokens r then Prefill else Decode in
  mkScheduler (sched_config s) m' (pending_ s) (active_ s ++ [set_rq_state st r])
    (delete i (preempted_ s)) (delete (request_id r) (preemption_info_ s))
    (lifetime_held_ s + lifetime_blocks r).

Lemma resumed_queues s i r m' :
  queues_wf s → preempted_ s !! i = Some r → lifetime_held_ s + lifetime_blocks r < W32 →
  queues_wf (resumed_at s i r m').
Proof.
  intros Hq Hi Hmax'. pose proof (preempted_nodup s Hq) as Hnp.
  pose proof Hq as [Hn Hp Ha Hpr Hs Hh Hmax Hinfo].
  pose proof (delete_ids _ _ _ Hi) as Hperm.
  destruct (proj1 (Forall_lookup _ _) Hpr _ _ Hi) as (Ht & Hprog & Hl & _).
  split; simpl; try done.
  - rewrite Hperm in Hn. rewrite fmap_app. simpl. rewrite <-(assoc_L (++) (ids (active_ s))). exact Hn.
  - apply Forall_app. split; [done|]. constructor; [|constructor].
    split; [by apply request_typed_progress|]. split; [done|]. split; [done|]. simpl.
    destruct Hprog as [Hr0 _].
    destruct (Z.ltb_spec 0 (remaining_prefill_tokens r)); [by left|right; split; [done|lia]].
  - apply Forall_forall. intros x Hx. apply (proj1 (Forall_forall _ _) Hpr).
    rewrite (delete_Permutation _ _ _ Hi). by right.
  - rewrite Hh. unfold lifetime_of. rewrite zsum_app. simpl. lia.
  - intros id. rewrite Hperm in Hnp. apply NoDup_cons in Hnp as [Hnew _].
    destruct (decide (id = request_id r)) as [->|Hne].
    + rewrite lookup_delete_eq. split; [by intros []|done].
    + rewrite lookup_delete_ne, Hinfo, Hperm, elem_of_cons by done.
      split; [by intros [?|?]|by right].
Qed.

Lemma resumed_wf s i r m' :
  sched_wf s → preempted_ s !! i = Some r → lifetime_held_ s + lifetime_blocks r < W32 →
  same_store (cache_manager_ s) m' →
  (∀ sid, sid ∈ sequences_for (cache_manager_ s) (request_id r) → needed m' sid = 0) →
  (∀ sid, sid ∉ sequences_for (cache_manager_ s) (request_id r) →
     sequences_ m' !! sid = sequences_ (cache_manager_ s) !! sid) →
  sched_wf (resumed_at s i r m').
Proof.
  intros Hwf Hi Hmax Hsame Hback Hoth. pose proof Hwf as [Hcf Hq Hm Ho Hb Hr].
  pose proof (delete_ids _ _ _ Hi) as Hperm.
  destruct (sequences_for_spec (cache_manager_ s) (request_id r) Hm) as [_ Hmem].
  split; simpl; [done|by apply resumed_queues|apply Hsame| | |].
  - eapply same_store_owned; [done|exact Hsame|]. intros sid st Hs. specialize (Ho sid st Hs).
    rewrite Hperm in Ho. rewrite fmap_app. simpl.
    rewrite elem_of_app, elem_of_cons in Ho. rewrite !elem_of_app, list_elem_of_singleton. tauto.
  - eapply Forall_impl; [|intros x; apply same_store_backs; done].
    apply Forall_app in Hb as [Hba Hbp].
    rewrite (delete_Permutation _ _ _ Hi) in Hbp. apply Forall_cons in Hbp as [Hbr Hbp].
    rewrite <-(assoc_L (++)). apply Forall_app. split; [done|]. by constructor.
  - rewrite fmap_app. apply Forall_app. split.
    + apply Forall_forall. intros id Hid.
      eapply same_store_resident; [done|exact Hsame| |by apply (proj1 (Forall_forall _ _) Hr)].
      intros sid st Hs He. apply Hoth. intros (st' & Hs' & He')%Hmem. simplify_eq.
      pose proof (q_ids _ Hq) as Hn. apply NoDup_app in Hn as (_ & _ & Hn).
      apply NoDup_app in Hn as (_ & Hn & _). apply (Hn _ Hid).
      apply list_elem_of_fmap. exists r. split; [congruence|by eapply list_elem_of_lookup_2].
    + constructor; [|constructor]. simpl. intros sid st' Hs' He.
      pose proof (same_store_sym _ _ Hm Hsame) as Hsym.
      destruct (same_store_sequence m' _ sid st' (store_wf _ _ Hsame) Hsym Hs') as (st & Hs & Hid & _).
      assert (needed m' sid = 0) as Hz by (apply Hback, Hmem; exists st; split; congruence).
      unfold needed in Hz. rewrite Hs' in Hz. apply all_resident_spec. by apply swapped_in_zero.
Qed.

Lemma resume_step s id :
  sched_wf s → stored (cache_manager_ s) < W32 →
  (∀ r, r ∈ preempted_ s → lifetime_held_ s + lifetime_blocks r < W32) →
  runs (resume s id) (λ '(ok, s'), sched_wf s' ∧
    (if ok then ∃ i r m', preempted_ s !! i = Some r ∧ request_id r = id ∧
       s' = resumed_at s i r m' ∧ same_store (cache_manager_ s) m'
     else s' = s ∧ (id ∈ ids (preempted_ s) →
       nfree (sched_allocator s) <
         zsum (needed (cache_manager_ s)) (sequences_for (cache_manager_ s) id)))).
Proof.
  intros Hwf Hst Hmax. unfold resume. pose proof (s_cache _ Hwf) as Hm.
  destruct (find_request (preempted_ s) id) as [[i r]|] eqn:Hf;
    [|by apply find_request_None in Hf].
  apply find_request_Some in Hf as [Hi <-].
  assert (zsum (needed (cache_manager_ s)) (sequences_for (cache_manager_ s) (request_id r)) < W32).
  { destruct (sequences_for_spec (cache_manager_ s) (request_id r) Hm) as [Hnd _].
    pose proof (stored_sum (cache_manager_ s) _ Hnd) as Hsum.
    assert (∀ l, zsum (needed (cache_manager_ s)) l <= zsum (block_count (cache_manager_ s)) l) as Hle.
    { induction l as [|x l IH]; [done|]. cbn [zsum].
      pose proof (needed_block_count (cache_manager_ s) x). lia. }
    specialize (Hle (sequences_for (cache_manager_ s) (request_id r))). lia. }
  run_step (swap_in_request_spec (cache_manager_ s) (request_id r)); [done|done|].
  intros [ok m'] (Hwf' & Hc & Hp & -> & Hr).
  destruct (Z.leb_spec (zsum (needed (cache_manager_ s)) (sequences_for (cache_manager_ s) (request_id r)))
    (nfree (allocator_ (cache_manager_ s)))); cbn [negb runs].
  - destruct Hr as (_ & Hz & Hoth & Hix).
    assert (same_store (cache_manager_ s) m') as Hsame by by split.
    assert (r ∈ preempted_ s) as Hin by by eapply list_elem_of_lookup_2.
    pose proof (Hmax r Hin) as Hh.
    assert (0 <= lifetime_held_ s + lifetime_blocks r) as Hh0.
    { destruct (proj1 (Forall_forall _ _) (q_preempted _ (s_queues _ Hwf)) r Hin) as (_ & _ & ? & _).
      assert (0 <= lifetime_held_ s); [|lia]. rewrite (q_held _ (s_queues _ Hwf)).
      apply zsum_nonneg. intros x Hx.
      by destruct (proj1 (Forall_forall _ _) (q_active _ (s_queues _ Hwf)) x Hx) as (_ & _ & ? & _). }
    rewrite u32_small by words. fold (resumed_at s i r m').
    split; [by apply resumed_wf|]. by exists i, r, m'.
  - subst m'. assert (with_cache s (cache_manager_ s) = s) as -> by by destruct s. done.
Qed.

(** *** [cancel] *)

Lemma foldl_delete_lookup {V} (l : list Z) (q : gmap Z V) k x :
  (foldl (λ q id, delete id q) q l) !! k = Some x ↔ (k ∉ l) ∧ q !! k = Some x.
Proof.
  revert q. induction l as [|y l IH]; intros q; simpl; [|rewrite IH, lookup_delete_Some, not_elem_of_cons].
  - split; [by split; [apply not_elem_of_nil|]|by intros [_ ?]].
  - intuition.
Qed.

(** What releasing a request leaves of the cache. *)
Lemma release_request_spec m rid :
  mgr_wf m → let m' := release_request m rid in
  mgr_wf m' ∧ same_pool (allocator_ m) (allocator_ m') ∧
  (∀ sid st, sequences_ m' !! sid = Some st ↔
     sequences_ m !! sid = Some st ∧ sm_request_id (metadata st) ≠ rid) ∧
  (∀ sid bs, contents m' !! sid = Some bs → contents m !! sid = Some bs).
Proof.
  intros Hwf m'. destruct (release_all_spec m (sequences_for m rid) Hwf) as (Hwf' & Hs & Hp & Hc).
  destruct (sequences_for_spec m rid Hwf) as [_ Hmem].
  split_and!; [done|done| |].
  - intros sid st. unfold m', release_request. rewrite Hs, foldl_delete_lookup. split.
    + intros [Hni Hst]. split; [done|]. intros He. apply Hni, Hmem. eauto.
    + intros [Hst Hne]. split; [|done]. intros (st' & ? & ?)%Hmem. by simplify_eq.
  - intros sid bs. unfold m', release_request. rewrite Hc, foldl_delete_lookup. by intros [_ ?].
Qed.

(** The state without a request, its sequences released. *)
Definition released_at s (pending active preempted : list Request) (id rid held : Z) : Scheduler B :=
  mkScheduler (sched_config s) (release_request (cache_manager_ s) rid) pending active preempted
    (delete id (preemption_info_ s)) held.

(** The cache without a request keeps the sequences of the others. *)
Lemma release_keeps s rid q :
  sched_wf s → rid ∉ ids q → (∀ r, r ∈ q → r ∈ active_ s ++ preempted_ s) →
  let m' := release_request (cache_manager_ s) rid in
  mgr_wf m' ∧ Forall (backs m') q ∧
  (∀ id, id ≠ rid → resident_request (cache_manager_ s) id → resident_request m' id) ∧
  (∀ owners, owned (cache_manager_ s) (rid :: owners) → owned m' owners).
Proof.
  intros Hwf Hrid Hq m'. pose proof (release_request_spec _ rid (s_cache _ Hwf)) as (Hwf' & Hp & Hs & _).
  fold m' in Hwf', Hp, Hs. split_and!; [done| | |].
  - apply Forall_forall. intros r Hr.
    destruct (proj1 (Forall_forall _ _) (s_backs _ Hwf) r (Hq r Hr)) as (st & Hst & Hid & Hb).
    exists st. unfold tpb_of in *. rewrite (same_pool_tpb _ _ Hp). split_and!; try done.
    apply Hs. split; [done|]. rewrite Hid. intros <-. apply Hrid. by apply list_elem_of_fmap_2.
  - intros id _ Hres sid st [Hst _]%Hs. by eapply Hres.
  - intros owners Ho sid st [Hst Hne]%Hs. specialize (Ho sid st Hst).
    by apply elem_of_cons in Ho as [?|?].
Qed.

Lemma cancel_pending s i r :
  sched_wf s → pending_ s !! i = Some r →
  sched_wf (released_at s (delete i (pending_ s)) (active_ s) (preempted_ s) (request_id r)
    (request_id r) (lifetime_held_ s)).
Proof.
  intros Hwf Hi. pose proof Hwf as [Hcf [Hn Hp Ha Hpr [Hs1 Hs2] Hh Hmax Hinfo] Hm Ho Hb Hr].
  pose proof (delete_ids _ _ _ Hi) as Hperm.
  assert (r ∈ pending_ s) as Hin by by eapply list_elem_of_lookup_2.
  assert (release_request (cache_manager_ s) (request_id r) = cache_manager_ s) as Hrel
    by (unfold release_request; by rewrite (pending_unowned s r Hwf Hin)).
  unfold released_at. rewrite Hrel. rewrite Hperm in Hn. apply NoDup_cons in Hn as [Hnew Hn].
  split; simpl; try done. split; simpl; try done.
  - eapply Forall_impl; [apply Forall_delete; exact Hp|done].
  - split.
    + by apply sorted_delete.
    + by apply Forall_delete.
  - intros id. destruct (decide (id = request_id r)) as [->|Hne].
    + rewrite lookup_delete_eq. split; [by intros []|]. intros Hx. exfalso. apply Hnew.
      rewrite !elem_of_app. auto.
    + by rewrite lookup_delete_ne.
Qed.

Lemma cancel_active s i r :
  sched_wf s → active_ s !! i = Some r →
  sched_wf (released_at s (pending_ s) (delete i (active_ s)) (preempted_ s) (request_id r)
    (request_id r) (held_without (lifetime_held_ s) r)).
Proof.
  intros Hwf Hi. pose proof Hwf as [Hcf Hq Hm Ho Hb Hr].
  pose proof (held_without_active s i r Hq Hi) as [-> Hd].
  pose proof Hq as [Hn Hp Ha Hpr Hs Hh Hmax Hinfo].
  pose proof (delete_ids _ _ _ Hi) as Hperm.
  assert (NoDup (request_id r :: ids (pending_ s) ++ ids (delete i (active_ s)) ++ ids (preempted_ s))) as Hn'.
  { rewrite Hperm in Hn. simpl in Hn. by rewrite <-Permutation_middle in Hn. }
  apply NoDup_cons in Hn' as [Hnew Hn']. rewrite !elem_of_app in Hnew.
  destruct (release_keeps s (request_id r) (delete i (active_ s) ++ preempted_ s) Hwf)
    as (Hwf' & Hb' & Hr' & Ho').
  { rewrite fmap_app, elem_of_app. tauto. }
  { intros x. rewrite !elem_of_app. intros [Hx|?]; [left|by right].
    rewrite (delete_Permutation _ _ _ Hi). by right. }
  split; simpl; try done.
  - split; simpl; try done.
    + by apply Forall_delete.
    + lia.
    + intros id. destruct (decide (id = request_id r)) as [->|Hne].
      * rewrite lookup_delete_eq. split; [by intros []|tauto].
      * by rewrite lookup_delete_ne.
  - apply Ho'. intros sid st Hst. specialize (Ho sid st Hst). by rewrite Hperm in Ho.
  - apply Forall_forall. intros id Hid. apply Hr'; [intros ->; tauto|].
    apply (proj1 (Forall_forall _ _) Hr). rewrite Hperm. by right.
Qed.

Lemma cancel_step s id :
  sched_wf s → id ∉ ids (preempted_ s) → sched_wf (cancel s id).
Proof.
  intros Hwf Hid. unfold cancel.
  destruct (find_request (pending_ s) id) as [[i r]|] eqn:Hf.
  { apply find_request_Some in Hf as [Hi <-].
    destruct (proj1 (Forall_lookup _ _) (q_pending _ (s_queues _ Hwf)) _ _ Hi) as (_ & _ & _ & Hl).
    pose proof (cancel_pending s i r Hwf Hi) as Hc. unfold cancel_in, held_without. by rewrite Hl. }
  destruct (find_request (active_ s) id) as [[i r]|] eqn:Hf2.
  { apply find_request_Some in Hf2 as [Hi <-]. by apply cancel_active. }
  destruct (find_request (preempted_ s) id) as [[i r]|] eqn:Hf3; [|done].
  apply find_request_Some in Hf3 as [Hi <-]. exfalso. apply Hid, list_elem_of_fmap_2.
  by eapply list_elem_of_lookup_2.
Qed.
(** *** After a cancellation *)

Lemma no_state s id :
  id ∉ ids (pending_ s) ++ ids (active_ s) ++ ids (preempted_ s) → state s id = None.
Proof.
  rewrite !elem_of_app. intros Hn. unfold state.
  assert (∀ q, id ∉ ids q → find_request q id = None) as Hf.
  { intros q Hni. destruct (find_request q id) as [[i r]|] eqn:Hf; [|done].
    apply find_request_Some in Hf as [Hi <-]. exfalso. apply Hni, list_elem_of_fmap_2.
    by eapply list_elem_of_lookup_2. }
  rewrite !Hf by tauto. done.
Qed.

(** A queue with distinct ids no longer has the one deleted from it. *)
Lemma deleted_id (q : list Request) i r :
  NoDup (ids q) → q !! i = Some r → request_id r ∉ ids (delete i q).
Proof. intros Hn Hi. rewrite (delete_ids _ _ _ Hi) in Hn. by apply NoDup_cons in Hn as [? _]. Qed.

Lemma cancel_gone s id :
  sched_wf s →
  id ∉ ids (pending_ (cancel s id)) ++ ids (active_ (cancel s id)) ++ ids (preempted_ (cancel s id)).
Proof.
  intros Hwf. pose proof (q_ids _ (s_queues _ Hwf)) as Hn.
  apply NoDup_app in Hn as (Hnp & Hd1 & Hn). apply NoDup_app in Hn as (Hna & Hd2 & Hnr).
  unfold cancel. rewrite !elem_of_app.
  destruct (find_request (pending_ s) id) as [[i r]|] eqn:Hf1.
  { apply find_request_Some in Hf1 as [Hi <-]. simpl.
    assert (request_id r ∈ ids (pending_ s)) as Hin
      by (by eapply list_elem_of_fmap_2, list_elem_of_lookup_2).
    specialize (Hd1 _ Hin). rewrite elem_of_app in Hd1. pose proof (deleted_id _ _ _ Hnp Hi). tauto. }
  apply find_request_None in Hf1.
  destruct (find_request (active_ s) id) as [[i r]|] eqn:Hf2.
  { apply find_request_Some in Hf2 as [Hi <-]. simpl.
    assert (request_id r ∈ ids (active_ s)) as Hin
      by (by eapply list_elem_of_fmap_2, list_elem_of_lookup_2).
    specialize (Hd2 _ Hin). pose proof (deleted_id _ _ _ Hna Hi). tauto. }
  apply find_request_None in Hf2.
  destruct (find_request (preempted_ s) id) as [[i r]|] eqn:Hf3.
  { apply find_request_Some in Hf3 as [Hi <-]. simpl. pose proof (deleted_id _ _ _ Hnr Hi). tauto. }
  apply find_request_None in Hf3. tauto.
Qed.

(** The cache after a cancellation, with the request's sequences released. *)
Lemma cancel_cache s id :
  sched_wf s → cache_manager_ (cancel s id) = release_request (cache_manager_ s) id.
Proof.
  intros Hwf. unfold cancel.
  destruct (find_request (pending_ s) id) as [[i r]|] eqn:Hf1.
  { by apply find_request_Some in Hf1 as [_ <-]. }
  destruct (find_request (active_ s) id) as [[i r]|] eqn:Hf2.
  { by apply find_request_Some in Hf2 as [_ <-]. }
  destruct (find_request (preempted_ s) id) as [[i r]|] eqn:Hf3.
  { by apply find_request_Some in Hf3 as [_ <-]. }
  apply find_request_None in Hf2, Hf3. unfold release_request.
  assert (sequences_for (cache_manager_ s) id = []) as ->; [|done].
  destruct (sequences_for (cache_manager_ s) id) as [|sid l] eqn:Hl; [done|]. exfalso.
  destruct (proj1 (proj2 (sequences_for_spec (cache_manager_ s) id (s_cache _ Hwf)) sid))
    as (st & Hst & Hid); [rewrite Hl; by left|].
  pose proof (s_owned _ Hwf sid st Hst) as Ho. rewrite Hid, elem_of_app in Ho. tauto.
Qed.

Lemma cancel_sequences s id :
  sched_wf s →
  (∀ sid st, sequences_ (cache_manager_ (cancel s id)) !! sid = Some st ↔
     sequences_ (cache_manager_ s) !! sid = Some st ∧ sm_request_id (metadata st) ≠ id) ∧
  (∀ sid bs, contents (cache_manager_ (cancel s id)) !! sid = Some bs →
     contents (cache_manager_ s) !! sid = Some bs).
Proof.
  intros Hwf. rewrite (cancel_cache s id Hwf).
  by destruct (release_request_spec (cache_manager_ s) id (s_cache _ Hwf)) as (_ & _ & ? & ?).
Qed.

(** Cancelling a preempted request finds it in the last queue. *)
Lemma cancel_preempted_at s r :
  sched_wf s → r ∈ preempted_ s →
  ∃ i, cancel s (request_id r) =
    cancel_in s (request_id r) r (pending_ s) (active_ s) (delete i (preempted_ s)).
Proof.
  intros Hwf Hin. pose proof (q_ids _ (s_queues _ Hwf)) as Hn.
  apply NoDup_app in Hn as (_ & Hd1 & Hn). apply NoDup_app in Hn as (_ & Hd2 & Hnr).
  assert (request_id r ∈ ids (preempted_ s)) as Hid by by apply list_elem_of_fmap_2.
  unfold cancel.
  destruct (find_request (pending_ s) (request_id r)) as [[i x]|] eqn:Hf1.
  { apply find_request_Some in Hf1 as [Hi Hx]. exfalso. apply (Hd1 (request_id r)).
    - rewrite <-Hx. by eapply list_elem_of_fmap_2, list_elem_of_lookup_2.
    - rewrite elem_of_app. by right. }
  destruct (find_request (active_ s) (request_id r)) as [[i x]|] eqn:Hf2.
  { apply find_request_Some in Hf2 as [Hi Hx]. exfalso. apply (Hd2 (request_id r)); [|done].
    rewrite <-Hx. by eapply list_elem_of_fmap_2, list_elem_of_lookup_2. }
  destruct (find_request (preempted_ s) (request_id r)) as [[i x]|] eqn:Hf3;
    [|by apply find_request_None in Hf3].
  apply find_request_Some in Hf3 as [Hi Hx]. exists i.
  by rewrite (ids_unique _ x r Hnr (list_elem_of_lookup_2 _ _ _ Hi) Hin Hx).
Qed.
End Steps.
