(* ===== verification/SchedulerFit.v ===== *)
(** Progress of admission: a batch of requests that fits the pool and the budgets is
    admitted whole, by one call of [schedule_next], and nothing is preempted for it. *)
From S2P Require Import Prelude.
From S2P Require Import Block.
From S2P Require Import SwapBackend.
From S2P Require Import BlockTable.
From S2P Require Import MemoryAllocator.
From S2P Require Import AllocatorSpec.
From S2P Require Import AllocatorProps.
From S2P Require Import KVCacheManager.
From S2P Require Import CacheAccounting.
From S2P Require Import AllocatorMoves.
From S2P Require Import CacheInvariant.
From S2P Require Import CacheLemmas.
From S2P Require Import CacheLifecycle.
From S2P Require Import CacheGrowth.
From S2P Require Import CacheSwap.
From S2P Require Import CacheRecords.
From S2P Require Import CacheRelease.
From S2P Require Import CachePrefix.
From S2P Require Import Scheduler.
From S2P Require Import SchedulerPlan.
From S2P Require Import SchedulerInvariant.
From S2P Require Import SchedulerAdmission.
From S2P Require Import SchedulerPreemption.
From S2P Require Import SchedulerLoops.

Section Fit.
Context {B : Type} `{SwapBackendLaws B}.
Implicit Types a : MemoryAllocator B.
Implicit Types m : KVCacheManager B.
Implicit Types s : Scheduler B.

(** ** One request *)

(** The cache can take the request in: its sequence is new, it shares no prefix, and
    there are free frames for its prompt. *)
Record admissible m (c : Request) : Prop := {
  ok_tokens : tpb_of m ≠ 0;
  ok_plain : rq_prefix_key c = ""%string;
  ok_fresh : sequences_ m !! root_sequence_id c = None;
  ok_frames : admission_blocks m c <= nfree (allocator_ m)
}.

Lemma admit_sequence_fits m c :
  mgr_wf m → admission_room m c → 0 < prompt_tokens c → admissible m c →
  ∃ st m', admit_sequence m c = Some (true, m') ∧ stage m c st m' ∧
    Z.of_nat (seq_blocks st) = blocks_needed (prompt_tokens c) (tpb_of m) ∧
    nfree (allocator_ m') = nfree (allocator_ m) - admission_blocks m c.
Proof.
  intros Hwf Hroom Hpos [Htpb Hkey Hfresh Hfree]. unfold admit_sequence.
  destruct (create_stage m c Hwf Hfresh) as (st & m2 & -> & Hst & Hz & Hpi & Ha). cbn [negb].
  rewrite decide_True by done. cbn [Z.ltb Z.compare andb mbind option_bind].
  rewrite (proj2 (Z.ltb_lt 0 (prompt_tokens c))), Z.sub_0_r, (proj2 (Z.ltb_lt 0 _)) by done.
  destruct (stage_tpb _ _ _ _ Hst) as [Et Ec]. pose proof Hroom as [_ Hsum Hblk _ _].
  pose proof (stage_lookup _ _ _ _ Hst) as Hl. unfold admission_blocks in *.
  pose proof (stored_nonneg m). pose proof (pinned_nonneg m). pose proof (table_count_pos m Hwf).
  pose proof (tpb_u32 m Hwf) as [Ht0 Ht1]. assert (0 < tpb_of m) by (clear -Htpb Ht0; lia).
  destruct (blocks_needed_spec (prompt_tokens c) (tpb_of m)) as [Hbn _]; [lia..|].
  assert (reserve_ok m2 (root_sequence_id c) (prompt_tokens c)) as Hok.
  { split; rewrite ?Et, ?Ec; [lia|lia|lia|]. intros x Hx. assert (x = st) as -> by congruence.
    rewrite Hz. change (Z.of_nat 0) with 0. nia. }
  pose proof (reserve_spec m2 _ _ (stage_wf _ _ _ _ Hst) Hok) as Hrun.
  pose proof (reserve_stage m c st m2 (prompt_tokens c) Hwf Hroom Hst Hpos) as Hrs.
  rewrite Hz in Hrs. specialize (Hrs eq_refl).
  destruct (reserve_tokens m2 _ _) as [[[] m4]|]; cbn [runs mbind option_bind negb orb] in *; [| |done].
  - destruct Hrun as (_ & _ & x & x' & _ & _ & _ & _ & Hn & _). destruct Hrs as (st' & Hst' & Hb).
    rewrite (proj2 (Z.eqb_neq (prompt_tokens c) 0)) by lia. rewrite !andb_false_r.
    exists st', m4. split_and!; [done..|]. rewrite Hn, Et, Ec, Ha. done.
  - exfalso. destruct Hrun as (_ & _ & _ & [Hc|[Hc|Hc]]); rewrite ?Et, ?Ec, ?Ha in Hc.
    + unfold contains in Hc. by rewrite Hl in Hc.
    + done.
    + lia.
Qed.

Lemma lifetime_held_range s : sched_wf s → 0 <= lifetime_held_ s < W32.
Proof.
  intros Hwf. pose proof (s_queues _ Hwf) as Hq. split; [|apply Hq].
  rewrite (q_held _ Hq). apply zsum_nonneg. intros r Hr.
  by destruct (proj1 (Forall_forall _ _) (q_active _ Hq) r Hr) as (_ & _ & ? & _).
Qed.

(** The state after the request was taken in, before it is queued. *)
Lemma try_admit_fits cap v s c plan admitted :
  sched_wf s → sched_room cap v s → c ∈ pending_ s →
  preemption_watermark_blocks (sched_config s) = 0 →
  scheduled_tokens plan < max_batch_tokens (sched_config s) →
  admissible (cache_manager_ s) c →
  let needed := lifetime_blocks_for (cache_manager_ s) c in
  lifetime_held_ s + needed <= max_blocks (config_ (sched_allocator s)) →
  ∃ st m', stage (cache_manager_ s) c st m' ∧
    Z.of_nat (seq_blocks st) = blocks_needed (prompt_tokens c) (tpb_of (cache_manager_ s)) ∧
    nfree (allocator_ m') = nfree (sched_allocator s) - admission_blocks (cache_manager_ s) c ∧
    try_admit s c plan admitted =
      Some (true, started c needed, schedule_prefill_chunk (sched_config s) (started c needed) plan,
            mkScheduler (sched_config s) m' (pending_ s) (active_ s) (preempted_ s)
              (preemption_info_ s) (lifetime_held_ s + needed)).
Proof.
  intros Hwf Hroom Hin Hwm Hbudget Hadm needed Hfit.
  pose proof (s_cache _ Hwf) as Hm. pose proof (s_queues _ Hwf) as Hq.
  destruct (proj1 (Forall_forall _ _) (q_pending _ Hq) c Hin) as ([Hp _] & _ & Hrem & _).
  pose proof (lifetime_held_range s Hwf) as [Hh0 _].
  pose proof (needed_range_lifetime (cache_manager_ s) c) as Hneed. fold needed in Hneed.
  pose proof (room_held _ _ _ Hroom) as Hmax.
  destruct (admit_sequence_fits (cache_manager_ s) c) as (st & m' & Hrun & Hst & Hb & Hn);
    [done|by eapply room_admission|lia|done|].
  exists st, m'. split_and!; [done..|]. unfold try_admit.
  rewrite (proj2 (Z.leb_gt _ _)) by done. fold needed.
  destruct (stats_spec (sched_allocator s) (proj1 (mgr_alloc _ Hm))) as (_ & _ & _ & ->).
  rewrite (proj2 (Z.ltb_ge _ needed)) by lia.
  unfold reclaim_for_admission. rewrite Hwm. cbn [Z.eqb mbind option_bind].
  destruct (stats_spec (sched_allocator s) (proj1 (mgr_alloc _ Hm))) as (_ & _ & _ & ->).
  rewrite (u32_small (lifetime_held_ s + needed)) by words.
  rewrite (proj2 (Z.ltb_ge _ _)) by done. rewrite Hrun. cbn [negb mbind option_bind].
  by rewrite Hrem, (proj2 (Z.eqb_neq (prompt_tokens c) 0)) by lia.
Qed.

(** ** A batch *)

(** The waiting requests fit, all together: the pool has frames for their prompts and
    lifetimes, the batch has tokens and places for them. *)
Record batch_fits s (plan : BatchPlan) : Prop := {
  bf_watermark : preemption_watermark_blocks (sched_config s) = 0;
  bf_tokens : tpb_of (cache_manager_ s) ≠ 0;
  bf_plain : Forall (λ c, rq_prefix_key c = ""%string) (pending_ s);
  bf_roots : NoDup (root_sequence_id <$> pending_ s);
  bf_fresh : Forall (λ c, sequences_ (cache_manager_ s) !! root_sequence_id c = None) (pending_ s);
  bf_places : Z.of_nat (length (active_ s)) + Z.of_nat (length (pending_ s)) <=
    max_active_requests (sched_config s);
  bf_budget : scheduled_tokens plan + zsum prompt_tokens (pending_ s) <=
    max_batch_tokens (sched_config s);
  bf_frames : zsum (admission_blocks (cache_manager_ s)) (pending_ s) <= nfree (sched_allocator s);
  bf_lifetimes : lifetime_held_ s + zsum (lifetime_blocks_for (cache_manager_ s)) (pending_ s) <=
    max_blocks (config_ (sched_allocator s))
}.

(** The plan with whole prompts appended. *)
Definition whole_prompts (plan : BatchPlan) (cs : list Request) : BatchPlan :=
  mkBatchPlan (prefill_requests plan ++ ids cs) (prefill_tokens plan ++ (prompt_tokens <$> cs))
    (decode_requests plan) (scheduled_tokens plan + zsum prompt_tokens cs).

(** [s'] is [s] with the requests [cs] running as well. *)
Record batch_runs s (cs : list Request) s' : Prop := {
  br_config : sched_config s' = sched_config s;
  br_active : active_ s' =
    active_ s ++ ((λ c, started c (lifetime_blocks_for (cache_manager_ s) c)) <$> cs);
  br_preempted : preempted_ s' = preempted_ s;
  br_free : nfree (sched_allocator s') =
    nfree (sched_allocator s) - zsum (admission_blocks (cache_manager_ s)) cs;
  br_untouched : untouched (sched_allocator s) (sched_allocator s')
}.

(** Only the pool's shape matters to a request without a prefix. *)
Lemma lifetime_plain m m' c :
  untouched (allocator_ m) (allocator_ m') → rq_prefix_key c = ""%string →
  lifetime_blocks_for m' c = lifetime_blocks_for m c.
Proof.
  intros [Hp _] Hk. unfold lifetime_blocks_for. rewrite !(decide_True _ _ Hk).
  unfold blocks_for_tokens. unfold same_pool, pool_of in Hp. injection Hp as _ _ _ _ _ Hb _ _.
  unfold block. by rewrite Hb.
Qed.

Lemma admission_blocks_untouched m m' c :
  untouched (allocator_ m) (allocator_ m') → admission_blocks m' c = admission_blocks m c.
Proof.
  intros [Hp _]. unfold admission_blocks, tpb_of, count_of.
  by rewrite (same_pool_tpb _ _ Hp), (same_pool_count _ _ Hp).
Qed.

Lemma prompts_positive s : sched_wf s → Forall (λ c, 0 < prompt_tokens c) (pending_ s).
Proof.
  intros Hwf. eapply Forall_impl; [apply (q_pending _ (s_queues _ Hwf))|]. by intros c ([[? _] _] & _).
Qed.

(** The next request of a batch that fits: it is taken in, and the rest still fits. *)
Lemma batch_step cap v s plan c cs admitted :
  sched_wf s → sched_room cap v s → plan_wf (sched_config s) plan → batch_fits s plan →
  pending_ s = c :: cs →
  ∃ m', let needed := lifetime_blocks_for (cache_manager_ s) c in
    let s1 := admitted_state s m' (started c needed) cs needed in
    try_admit s c plan admitted =
      Some (true, started c needed, whole_prompts plan [c],
            mkScheduler (sched_config s) m' (pending_ s) (active_ s) (preempted_ s)
              (preemption_info_ s) (lifetime_held_ s + needed)) ∧
    sched_wf s1 ∧ sched_room cap v s1 ∧ plan_wf (sched_config s1) (whole_prompts plan [c]) ∧
    batch_fits s1 (whole_prompts plan [c]) ∧ untouched (sched_allocator s) (sched_allocator s1) ∧
    nfree (sched_allocator s1) = nfree (sched_allocator s) - admission_blocks (cache_manager_ s) c.
Proof.
  intros Hwf Hroom Hplan [Hwm Htpb Hkey Hroots Hfresh Hplaces Hbudget Hframes Hlife] Hp.
  pose proof (prompts_positive s Hwf) as Hpos. rewrite Hp in *. cbn [zsum length] in *.
  apply Forall_cons in Hkey as [Hk Hkey], Hfresh as [Hf Hfresh], Hpos as [Hc Hpos].
  apply NoDup_cons in Hroots as [Hroot Hroots].
  assert (0 <= zsum prompt_tokens cs).
  { apply zsum_nonneg. intros x Hx. pose proof (proj1 (Forall_forall _ _) Hpos x Hx). simpl in *. lia. }
  assert (0 <= zsum (admission_blocks (cache_manager_ s)) cs).
  { apply zsum_nonneg. intros x Hx. apply admission_blocks_nonneg; [apply Hwf|].
    pose proof (proj1 (Forall_forall _ _) Hpos x Hx). simpl in *. lia. }
  assert (0 <= zsum (lifetime_blocks_for (cache_manager_ s)) cs).
  { apply zsum_nonneg. intros x _. apply needed_range_lifetime. }
  destruct (try_admit_fits cap v s c plan admitted) as (st & m' & Hst & Hb & Hn & Hrun);
    [done|done|rewrite Hp; by left|done|lia|split; [done..|unfold sched_allocator in *; lia]|lia|].
  exists m'. rewrite Hrun. set (needed := lifetime_blocks_for _ c).
  pose proof (s_config _ Hwf) as Hcfg.
  assert (schedule_prefill_chunk (sched_config s) (started c needed) plan = whole_prompts plan [c]) as ->.
  { rewrite prefill_chunk_run by (done || simpl; lia). cbn zeta.
    change (remaining_prefill_tokens (started c needed)) with (prompt_tokens c).
    rewrite Z.min_l, (proj2 (Z.ltb_lt _ _)) by lia. unfold whole_prompts. cbn [zsum fmap list_fmap].
    by rewrite Z.add_0_r. }
  pose proof (stage_untouched _ _ _ _ Hst) as Hu.
  pose proof (lifetime_held_range s Hwf) as Hheld.
  pose proof (room_held _ _ _ Hroom). pose proof (needed_range_lifetime (cache_manager_ s) c).
  assert (waiting c (pending_ s) cs) as Hw by (rewrite Hp; apply waiting_tail).
  split_and!; [by rewrite Hp| | | | |exact Hu|exact Hn].
  - eapply admitted_wf; try done; [|lia..].
    eapply skips_tail. rewrite <-Hp. apply (q_skips _ (s_queues _ Hwf)).
  - eapply admitted_room; try done. fold needed. lia.
  - change (sched_config _) with (sched_config s). destruct Hplan as [Hl Hps Hsum Hbg].
    split; cbn [whole_prompts prefill_requests prefill_tokens decode_requests scheduled_tokens zsum].
    + rewrite !length_app, Hl. done.
    + apply Forall_app. split; [done|]. by constructor; [|constructor].
    + rewrite zsum_app, Hsum. simpl. lia.
    + lia.
  - assert (∀ x, admission_blocks m' x = admission_blocks (cache_manager_ s) x) as Hab
      by (intros; by apply admission_blocks_untouched).
    split; cbn [admitted_state sched_config cache_manager_ pending_ active_ lifetime_held_
      whole_prompts scheduled_tokens zsum]; try done.
    + by rewrite (proj1 (stage_tpb _ _ _ _ Hst)).
    + rewrite (stage_seqs _ _ _ _ Hst). apply Forall_forall. intros x Hx. simpl.
      rewrite lookup_insert_ne; [by apply (proj1 (Forall_forall _ _) Hfresh)|].
      intros Heq. apply Hroot. rewrite Heq. by apply list_elem_of_fmap_2.
    + rewrite length_app. simpl. lia.
    + lia.
    + rewrite (zsum_ext _ _ _ (λ x _, Hab x)).
      change (sched_allocator _) with (allocator_ m'). lia.
    + rewrite (zsum_ext _ (lifetime_blocks_for (cache_manager_ s))).
      2:{ intros x Hx. apply lifetime_plain; [done|]. by apply (proj1 (Forall_forall _ _) Hkey). }
      change (sched_allocator _) with (allocator_ m'). rewrite (same_pool_config _ _ (proj1 Hu)).
      unfold sched_allocator in *. lia.
Qed.

Lemma batch_runs_refl s : batch_runs s [] s.
Proof. split; simpl; try done; [by rewrite app_nil_r|lia]. Qed.

Lemma batch_runs_trans s1 s2 s3 cs ds :
  Forall (λ c, rq_prefix_key c = ""%string) ds →
  batch_runs s1 cs s2 → batch_runs s2 ds s3 → batch_runs s1 (cs ++ ds) s3.
Proof.
  intros Hkey [C1 A1 P1 F1 U1] [C2 A2 P2 F2 U2].
  split; [congruence| |congruence| |by eapply untouched_trans].
  - rewrite A2, A1, fmap_app, <-(assoc_L (++)). do 2 f_equal. apply list_fmap_ext.
    intros i c Hi. f_equal. apply lifetime_plain; [done|]. by eapply (Forall_lookup_1 _ _ _ _ Hkey).
  - rewrite F2, F1, zsum_app. rewrite (zsum_ext (admission_blocks (cache_manager_ s2))
      (admission_blocks (cache_manager_ s1))); [lia|]. intros. by apply admission_blocks_untouched.
Qed.

Lemma whole_prompts_cons plan c cs :
  whole_prompts (whole_prompts plan [c]) cs = whole_prompts plan (c :: cs).
Proof.
  unfold whole_prompts. cbn [prefill_requests prefill_tokens decode_requests scheduled_tokens zsum].
  rewrite <-!(assoc_L (++)). cbn. f_equal. lia.
Qed.

Lemma whole_prompts_nil plan : whole_prompts plan [] = plan.
Proof. destruct plan. unfold whole_prompts. simpl. by rewrite !app_nil_r, Z.add_0_r. Qed.

(** One iteration of the admission loop, in either order of admission. *)
Lemma batch_iteration cap v s plan c cs fuel :
  sched_wf s → sched_room cap v s → plan_wf (sched_config s) plan → batch_fits s plan →
  pending_ s = c :: cs →
  ∃ s1, let plan1 := whole_prompts plan [c] in
    admit_loop (S fuel) plan s = admit_loop fuel plan1 s1 ∧ batch_runs s [c] s1 ∧
    pending_ s1 = cs ∧ sched_wf s1 ∧ sched_room cap v s1 ∧ plan_wf (sched_config s1) plan1 ∧
    batch_fits s1 plan1.
Proof.
  intros Hwf Hroom Hplan Hfits Hp.
  destruct (batch_step cap v s plan c cs (admitted_so_far plan) Hwf Hroom Hplan Hfits Hp)
    as (m' & Hrun & Hwf' & Hroom' & Hplan' & Hfits' & Hu & Hn).
  eexists. split; [|split; [|split_and!; [..|exact Hwf'|exact Hroom'|exact Hplan'|exact Hfits']]].
  - cbn [admit_loop]. rewrite Hp.
    pose proof (bf_places _ _ Hfits) as Hpl. rewrite Hp in Hpl. cbn [length] in Hpl.
    rewrite (proj2 (Z.leb_gt _ _)) by lia. rewrite Hp in Hrun.
    destruct (must_take_head _ c); cbn [scan_pending]; rewrite Hrun; cbn [mbind option_bind negb];
      by rewrite ?Hp.
  - split; try done. cbn [zsum]. by rewrite Z.add_0_r.
  - done.
Qed.

Lemma batch_loop cap v fuel : ∀ s plan,
  sched_wf s → sched_room cap v s → plan_wf (sched_config s) plan → batch_fits s plan →
  (length (pending_ s) ≤ fuel)%nat →
  ∃ s', admit_loop fuel plan s = Some (whole_prompts plan (pending_ s), s') ∧
    batch_runs s (pending_ s) s' ∧ pending_ s' = [] ∧ sched_wf s' ∧ sched_room cap v s' ∧
    plan_wf (sched_config s') (whole_prompts plan (pending_ s)).
Proof.
  induction fuel as [|fuel IH]; intros s plan Hwf Hroom Hplan Hfits Hlen;
    destruct (pending_ s) as [|c cs] eqn:Hp; simpl in Hlen; try lia.
  1, 2: exists s; cbn [admit_loop]; rewrite Hp, whole_prompts_nil; by split_and!; [|apply batch_runs_refl|..].
  - destruct (batch_iteration cap v s plan c cs fuel) as
      (s1 & -> & Hr & Hp1 & Hwf1 & Hroom1 & Hplan1 & Hfits1); [done..|].
    destruct (IH s1 _ Hwf1 Hroom1 Hplan1 Hfits1) as (s' & Hrun & Hr' & Hp' & Hwf' & Hroom' & Hplan').
    { rewrite Hp1. lia. }
    pose proof (bf_plain _ _ Hfits1) as Hkey. rewrite Hp1 in *. rewrite whole_prompts_cons in *.
    exists s'. split_and!; try done. by eapply (batch_runs_trans s s1 s' [c] cs).
Qed.

(** ** The rest of the plan *)

(** Chunks for requests that were already running come after the plan's own. *)
Lemma continue_prefill_more config l plan :
  ∃ more : list (Z * Z),
    let plan' := foldl (continue_prefill config) plan l in
    prefill_requests plan' = prefill_requests plan ++ more.*1 ∧
    prefill_tokens plan' = prefill_tokens plan ++ more.*2 ∧
    Forall (λ x : Z * Z, x.1 ∈ ids l ∧ x.1 ∉ prefill_requests plan) more.
Proof.
  revert plan. induction l as [|r l IH]; intros plan; simpl.
  { exists []. by rewrite !app_nil_r. }
  destruct (IH (continue_prefill config plan r)) as (more & Hr & Ht & Hm).
  assert (∃ first : list (Z * Z),
    prefill_requests (continue_prefill config plan r) = prefill_requests plan ++ first.*1 ∧
    prefill_tokens (continue_prefill config plan r) = prefill_tokens plan ++ first.*2 ∧
    Forall (λ x : Z * Z, x.1 = request_id r ∧ x.1 ∉ prefill_requests plan) first)
    as (first & Hr1 & Ht1 & Hm1).
  { unfold continue_prefill.
    destruct (decide (rq_state r = Prefill)); [|exists []; by rewrite !app_nil_r].
    destruct (decide (request_id r ∈ prefill_requests plan)); [exists []; by rewrite !app_nil_r|].
    unfold schedule_prefill_chunk. case_match; [exists []; by rewrite !app_nil_r|].
    case_match; [exists []; by rewrite !app_nil_r|]. cbn zeta.
    case_match; [exists []; by rewrite !app_nil_r|].
    eexists [(request_id r, _)]. split_and!; [done..|]. by repeat constructor. }
  exists (first ++ more). rewrite !fmap_app, !(assoc_L (++)), <-Hr1, <-Ht1. split_and!; [done..|].
  apply Forall_app. split.
  - eapply Forall_impl; [exact Hm1|]. intros x [-> ?]. split; [by left|done].
  - eapply Forall_impl; [exact Hm|]. intros x [? Hn]. split; [by right|].
    intros Hin. apply Hn. rewrite Hr1. apply elem_of_app. by left.
Qed.

Lemma decode_tokens_prefill config active plan :
  prefill_requests (schedule_decode_tokens config active plan) = prefill_requests plan ∧
  prefill_tokens (schedule_decode_tokens config active plan) = prefill_tokens plan.
Proof.
  revert plan. induction active as [|r active IH]; intros plan; simpl; [done|].
  destruct (decide _); [|done]. destruct (_ <=? _); [done|].
  by apply (IH (mkBatchPlan _ _ (decode_requests plan ++ [request_id r]) (scheduled_tokens plan ⊞ 1))).
Qed.

(** A call of [schedule_next] on a batch that fits. *)
Lemma schedule_batch cap v s :
  sched_wf s → sched_room cap v s → batch_fits s BatchPlan_empty →
  ∃ plan s' more, schedule_next s = Some (plan, s') ∧
    batch_runs s (pending_ s) s' ∧ pending_ s' = [] ∧ sched_wf s' ∧ sched_room cap v s' ∧
    prefill_requests plan = ids (pending_ s) ++ more.*1 ∧
    prefill_tokens plan = (prompt_tokens <$> pending_ s) ++ more.*2 ∧
    Forall (λ x : Z * Z, x.1 ∈ ids (active_ s)) more.
Proof.
  intros Hwf Hroom Hfits.
  destruct (batch_loop cap v (length (pending_ s)) s BatchPlan_empty)
    as (s' & Hrun & Hr & Hp & Hwf' & Hroom' & Hplan'); [done|done| |done..|].
  { apply empty_plan_wf, Hwf. }
  unfold schedule_next. rewrite Hrun. cbn [mbind option_bind].
  set (plan0 := whole_prompts _ _) in *.
  destruct (continue_prefill_more (sched_config s') (active_ s') plan0) as (more & Hpr & Hpt & Hm).
  eexists _, _, more. split; [done|]. split_and!; try done;
    [by rewrite (proj1 (decode_tokens_prefill _ _ _))|by rewrite (proj2 (decode_tokens_prefill _ _ _))|].
  eapply Forall_impl; [exact Hm|]. intros x [Hin Hn]. rewrite (br_active _ _ _ Hr), fmap_app in Hin.
  apply elem_of_app in Hin as [?|Hin]; [done|]. exfalso. apply Hn. simpl.
  rewrite <-list_fmap_compose in Hin. exact Hin.
Qed.

(** ** A queue that moves *)

(** Without a watermark an attempt leaves the active requests. *)
Lemma try_admit_active s c plan admitted ok c' plan' s' :
  preemption_watermark_blocks (sched_config s) = 0 →
  try_admit s c plan admitted = Some (ok, c', plan', s') →
  active_ s' = active_ s ∧ sched_config s' = sched_config s.
Proof.
  unfold try_admit. intros Hz Ht. case_match; [by injection Ht as _ _ _ <-|].
  case_match; [by injection Ht as _ _ _ <-|]. unfold reclaim_for_admission in Ht. rewrite Hz in Ht.
  cbn [Z.eqb mbind option_bind] in Ht. case_match; [by injection Ht as _ _ _ <-|].
  apply bind_Some in Ht as ([ok' m'] & _ & Ht). case_match; by injection Ht as _ _ _ <-.
Qed.

Lemma scan_active rest i plan s ok plan' s' :
  preemption_watermark_blocks (sched_config s) = 0 →
  scan_pending rest i plan s = Some (ok, plan', s') →
  (length (active_ s) ≤ length (active_ s'))%nat ∧ sched_config s' = sched_config s.
Proof.
  revert i plan s. induction rest as [|r rest IH]; intros i plan s Hz Hr; simpl in Hr;
    [by injection Hr as _ _ <-|].
  apply bind_Some in Hr as ([[[ok1 r1] plan1] s1] & Ht & Hr).
  destruct (try_admit_active _ _ _ _ _ _ _ _ Hz Ht) as [Ha Hc]. destruct ok1; simpl in Hr.
  - injection Hr as _ _ <-. simpl. rewrite Ha, length_app. split; [lia|done].
  - rewrite <-Ha, <-Hc. apply (IH _ _ s1 ltac:(by rewrite Hc) Hr).
Qed.

Lemma admit_loop_active fuel plan s plan' s' :
  preemption_watermark_blocks (sched_config s) = 0 →
  admit_loop fuel plan s = Some (plan', s') → (length (active_ s) ≤ length (active_ s'))%nat.
Proof.
  revert plan s. induction fuel as [|fuel IH]; intros plan s Hz Hr; cbn [admit_loop] in Hr;
    (destruct (pending_ s) as [|head tl]; [by injection Hr as _ <-|]);
    (case_match; [by injection Hr as _ <-|]); [done|]. case_match.
  - apply bind_Some in Hr as ([[[ok c'] plan1] s1] & Ht & Hr).
    destruct (try_admit_active _ _ _ _ _ _ _ _ Hz Ht) as [Ha Hc].
    destruct ok; simpl in Hr; [|injection Hr as _ <-; by rewrite Ha].
    apply IH in Hr; [|by simpl; rewrite Hc]. simpl in Hr. rewrite length_app, Ha in Hr. lia.
  - apply bind_Some in Hr as ([[ok plan1] s1] & Ht & Hr).
    destruct (scan_active _ _ _ _ _ _ _ Hz Ht) as [Ha Hc].
    destruct ok; simpl in Hr; [|by injection Hr as _ <-].
    apply IH in Hr; [lia|by rewrite Hc].
Qed.

(** When nothing runs and the request at the head fits, some request runs afterwards, in
    either order of admission. *)
Lemma schedule_next_starts cap v s c cs plan s' :
  sched_wf s → sched_room cap v s → pending_ s = c :: cs → active_ s = [] →
  preemption_watermark_blocks (sched_config s) = 0 →
  0 < max_batch_tokens (sched_config s) → 0 < max_active_requests (sched_config s) →
  admissible (cache_manager_ s) c →
  lifetime_held_ s + lifetime_blocks_for (cache_manager_ s) c <= max_blocks (config_ (sched_allocator s)) →
  schedule_next s = Some (plan, s') → active_ s' ≠ [].
Proof.
  intros Hwf Hroom Hp Ha Hz Hb Hm Hadm Hfit Hrun. unfold schedule_next in Hrun.
  apply bind_Some in Hrun as ([plan1 s1] & Hloop & [= _ <-]).
  destruct (try_admit_fits cap v s c BatchPlan_empty 0) as (st & m' & _ & _ & _ & Htry);
    [done|done|rewrite Hp; by left|done..|].
  rewrite Hp in Hloop. cbn [length admit_loop] in Hloop. rewrite Hp in Hloop.
  rewrite Ha, (proj2 (Z.leb_gt _ _)) in Hloop by (simpl; lia).
  change (admitted_so_far BatchPlan_empty) with 0 in Hloop.
  enough (0 < length (active_ s1))%nat by (intros Hnil; rewrite Hnil in *; simpl in *; lia).
  destruct (must_take_head _ c); cbn [scan_pending] in Hloop;
    change (admitted_so_far BatchPlan_empty) with 0 in Hloop;
    rewrite Htry in Hloop; cbn [mbind option_bind negb] in Hloop;
    apply admit_loop_active in Hloop; try done; simpl in Hloop; rewrite length_app in Hloop;
    simpl in Hloop; lia.
Qed.

(** C16. Progress. A batch of waiting requests that fits is admitted whole by the next call.
    Without a preemption watermark, when no waiting request has a prefix key, their root
    sequences are distinct and new, the pool has the frames for all their prompts and
    their lifetimes, and the batch the tokens and the places, the queue is empty
    afterwards, every request runs with its whole prompt in the plan, in queue order and
    before any other chunk, and nothing is preempted or taken from the pool but the
    blocks of the prompts. It holds in both orders of admission. *)
Theorem schedule_next_admits cap v s :
  sched_wf s → sched_room cap v s → batch_fits s BatchPlan_empty →
  runs (schedule_next s) (λ '(plan, s'),
    pending_ s' = [] ∧ preempted_ s' = preempted_ s ∧
    active_ s' =
      active_ s ++ ((λ c, started c (lifetime_blocks_for (cache_manager_ s) c)) <$> pending_ s) ∧
    ids (pending_ s) `prefix_of` prefill_requests plan ∧
    (prompt_tokens <$> pending_ s) `prefix_of` prefill_tokens plan ∧
    nfree (sched_allocator s') =
      nfree (sched_allocator s) - zsum (admission_blocks (cache_manager_ s)) (pending_ s)).
Proof.
  intros Hwf Hroom Hfits.
  destruct (schedule_batch cap v s Hwf Hroom Hfits)
    as (plan & s' & more & -> & [_ Ha Hp Hf _] & Hq & _ & _ & Hr & Ht & _). cbn [runs].
  split_and!; [done..|rewrite Hr|rewrite Ht|done]; by apply prefix_app_r.
Qed.
End Fit.
