(* ===== verification/SchedulerProps.v ===== *)
(** Properties of the scheduler: what a batch plan promises, what a call does to the
    queues and to the cache, the invariant of every reachable state, preemption
    and resumption, and where the accounting goes wrong. *)
From S2P Require Import Prelude.
From S2P Require Import Block.
From S2P Require Import SwapBackend.
From S2P Require Import BlockTable.
From S2P Require Import MemoryAllocator.
From S2P Require Import AllocatorSpec.
From S2P Require Import AllocatorProps.
From S2P Require Import KVCacheManager.
From S2P Require Import CacheAccounting.
From S2P Require Import AllocatorMoves.
From S2P Require Import CacheInvariant.
From S2P Require Import CacheLemmas.
From S2P Require Import CacheLifecycle.
From S2P Require Import CacheGrowth.
From S2P Require Import CacheWrite.
From S2P Require Import CacheSwap.
From S2P Require Import CacheRecords.
From S2P Require Import CacheRelease.
From S2P Require Import CachePrefix.
From S2P Require Import Scheduler.
From S2P Require Import SchedulerPlan.
From S2P Require Import SchedulerInvariant.
From S2P Require Import SchedulerAdmission.
From S2P Require Import SchedulerPreemption.
From S2P Require Import SchedulerLoops.
From S2P Require Import SchedulerSteps.

(** ** Operations *)

Inductive sched_op :=
  | Enqueue (r : Request)
  | ScheduleNext
  | CompleteStep (id produced : Z)
  | Cancel (id : Z)
  | Preempt (id : Z) (why : string)
  | Resume (id : Z).

Section Reachability.
Context {B : Type} `{SwapBackendLaws B}.
Implicit Types m : KVCacheManager B.
Implicit Types s : Scheduler B.

Definition sched_run s (op : sched_op) : option (Scheduler B) :=
  match op with
  | Enqueue r => Some (enqueue s r)
  | ScheduleNext => '(_, s') ← schedule_next s; Some s'
  | CompleteStep id n => Some (complete_step s id n)
  | Cancel id => Some (cancel s id)
  | Preempt id why => '(_, s') ← preempt s id why; Some s'
  | Resume id => '(_, s') ← resume s id; Some s'
  end.

(** Requests with a prompt and a new id, counters that have room, and no
    cancellation of a preempted request. *)
Definition sched_op_ok s (op : sched_op) : Prop :=
  match op with
  | Enqueue r => request_typed r ∧
      request_id r ∉ ids (pending_ s) ++ ids (active_ s) ++ ids (preempted_ s)
  | ScheduleNext => ∃ cap, sched_room cap (length (active_ s)) s
  | CompleteStep _ n => 0 <= n
  | Cancel id => id ∉ ids (preempted_ s)
  | Preempt _ _ => can_store (sched_allocator s) (stored (cache_manager_ s))
  | Resume _ => stored (cache_manager_ s) < W32 ∧
      ∀ r, r ∈ preempted_ s → lifetime_held_ s + lifetime_blocks r < W32
  end.

Lemma sched_run_wf s op : sched_wf s → sched_op_ok s op → runs (sched_run s op) sched_wf.
Proof.
  intros Hwf Hok. destruct op as [r| |id n|id|id why|id]; simpl in *.
  - destruct Hok. by apply enqueue_wf.
  - destruct Hok as [cap Hroom]. run_step (schedule_next_spec 0 cap s Hwf Hroom).
    intros [plan s'] (_ & keep & new & p & Had). apply Had.
  - by apply complete_step_wf.
  - by apply cancel_step.
  - run_step (preempt_step s id why Hwf Hok). by intros [ok s'] [? _].
  - destruct Hok. run_step (resume_step s id Hwf); [done..|]. by intros [ok s'] [? _].
Qed.

(** The states that operations lead to, when a new request has an id of its own and a
    prompt, a request that is cancelled is not preempted, and counters and the backend's
    slots suffice ([sched_op_ok]). *)
Inductive sched_reachable s0 : Scheduler B → Prop :=
  | sreach_start : sched_reachable s0 s0
  | sreach_step s op s' :
    sched_reachable s0 s → sched_op_ok s op → sched_run s op = Some s' → sched_reachable s0 s'.

Lemma sched_reachable_wf s0 s : sched_wf s0 → sched_reachable s0 s → sched_wf s.
Proof.
  intros Hwf. induction 1 as [|s op s' _ IH Hok Hrun]; [done|].
  pose proof (sched_run_wf s op IH Hok) as Hr. by rewrite Hrun in Hr.
Qed.

Lemma new_scheduler_wf config m :
  config_wf config → mgr_wf m → sequences_ m = ∅ → sched_wf (Scheduler_new config m).
Proof.
  intros Hc Hm Hs. split; simpl; try done.
  - split; simpl; try apply NoDup_nil_2; try apply Forall_nil_2; try done; [by repeat constructor|].
    intros id. rewrite lookup_empty. split; [by intros []|by intros ?%not_elem_of_nil].
  - intros sid st. by rewrite Hs.
Qed.

(** ** Fuel *)

(** More fuel than a run needs changes nothing. *)
Lemma reclaim_loop_more fuel k required needed total admitted s s' :
  reclaim_loop fuel required needed total admitted s = Some s' →
  reclaim_loop (fuel + k) required needed total admitted s = Some s'.
Proof.
  revert s. induction fuel as [|fuel IH]; intros s; simpl.
  - destruct k; simpl; [done|]. by destruct (_ && _).
  - destruct (_ && _); [|done]. intros (victim & -> & Hrest)%bind_Some. cbn [mbind option_bind].
    apply bind_Some in Hrest as ([ok s1] & -> & Hrest). cbn [mbind option_bind].
    destruct (negb ok); [done|]. destruct (_ <=? _); [done|]. by apply IH.
Qed.

Lemma admit_loop_more fuel k plan s r :
  admit_loop fuel plan s = Some r → admit_loop (fuel + k) plan s = Some r.
Proof.
  revert plan s. induction fuel as [|fuel IH]; intros plan s; simpl.
  - destruct (pending_ s) as [|h q] eqn:Hp; [by destruct k; simpl; rewrite Hp|].
    destruct (_ <=? _) eqn:Hle; [|done]. by destruct k; simpl; rewrite Hp, Hle.
  - destruct (pending_ s) as [|h q]; [done|]. destruct (_ <=? _); [done|].
    destruct (must_take_head _ h).
    + intros ([[[ok c] p] s1] & -> & Hrest)%bind_Some. cbn [mbind option_bind].
      destruct (negb ok); [done|]. by apply IH.
    + intros ([[ok p] s1] & -> & Hrest)%bind_Some. cbn [mbind option_bind].
      destruct (negb ok); [done|]. by apply IH.
Qed.

(** ** Properties *)

(** C2. A batch plan keeps its promises. [schedule_next] always returns; the plan
    never exceeds [max_batch_tokens], its total is the sum of its chunks and one
    token per decoding request, every chunk is positive and for a request that is
    active and in prefill, at most what that has left, every decode entry is for an
    active request in decode, no request appears twice, and the budget is used up
    unless every active request is served in full. In particular the plan has no
    request the same call preempted. *)
Theorem schedule_next_plan cap s :
  sched_wf s → sched_room cap (length (active_ s)) s →
  runs (schedule_next s) (λ '(plan, s'),
    scheduled_tokens plan =
      zsum (λ c, c) (prefill_tokens plan) + Z.of_nat (length (decode_requests plan)) ∧
    scheduled_tokens plan <= max_batch_tokens (sched_config s) ∧
    NoDup (prefill_requests plan ++ decode_requests plan) ∧
    Forall2 (λ id c, ∃ r, r ∈ active_ s' ∧ request_id r = id ∧ rq_state r = Prefill ∧
      0 < c <= remaining_prefill_tokens r) (prefill_requests plan) (prefill_tokens plan) ∧
    Forall (λ id, ∃ r, r ∈ active_ s' ∧ request_id r = id ∧ rq_state r = Decode)
      (decode_requests plan) ∧
    (scheduled_tokens plan < max_batch_tokens (sched_config s) →
     ∀ r, r ∈ active_ s' →
       (rq_state r = Prefill →
          (request_id r, remaining_prefill_tokens r) ∈
            zip (prefill_requests plan) (prefill_tokens plan)) ∧
       (rq_state r = Decode → request_id r ∈ decode_requests plan))).
Proof.
  intros Hwf Hroom. eapply runs_mono; [by apply (schedule_next_spec 0 cap)|].
  intros [plan s'] ([Hp [Hch _] Hd Hn Hg] & keep & new & p & Had).
  split_and!; [apply Hp|apply Hp|done| |done|].
  - eapply Forall2_impl; [exact Hch|]. intros id c (r & ? & ? & ? & ? & _). by exists r.
  - intros Hlt r Hr. destruct Hg as [Hg|Hg]; [unfold spent in Hg; lia|].
    destruct (Hg r Hr) as [Hg1 Hg2]. split; [|done]. intros Hst.
    pose proof (ad_wf _ _ _ _ _ _ _ Had) as Hwf'. pose proof (s_queues _ Hwf') as Hq.
    destruct (proj1 (Forall_forall _ _) (q_active _ Hq) r Hr) as (_ & _ & _ & Hor).
    assert (0 < remaining_prefill_tokens r) as Hpos by (destruct Hor as [[_ ?]|[? _]]; congruence).
    specialize (Hg1 Hst Hpos). apply list_elem_of_lookup_1 in Hg1 as [i Hi].
    destruct (Forall2_lookup_l _ _ _ _ _ Hch Hi) as (c & Hc & r' & Hr' & Hid & _ & _ & Hfull).
    pose proof (ids_unique (active_ s') r' r (active_nodup _ Hq) Hr' Hr Hid) as E.
    destruct Hfull as [Hf|Hf]; [|lia].
    apply (list_elem_of_lookup_2 _ i). rewrite lookup_zip_with, Hi, Hc. simpl. by rewrite Hf, E.
Qed.

(** C15. No request is lost or invented. The requests of a call split into those that
    stay active, those it preempts and those it admits: the preempted ones are the
    newest of the old, preempted newest first; the admitted ones come from the
    pending queue, in order unless admission is size-aware; and the active queue
    does not outgrow [max_active_requests]. *)
Theorem schedule_next_queues cap s :
  sched_wf s → sched_room cap (length (active_ s)) s →
  runs (schedule_next s) (λ '(plan, s'), ∃ kept dropped admitted,
    active_ s = kept ++ dropped ∧ active_ s' = kept ++ admitted ∧
    preempted_ s' = preempted_ s ++ (set_rq_state Preempted <$> reverse dropped) ∧
    ids (pending_ s) ≡ₚ ids admitted ++ ids (pending_ s') ∧
    (size_aware_admission (sched_config s) = false →
       ids (pending_ s) = ids admitted ++ ids (pending_ s')) ∧
    Z.of_nat (length (active_ s')) <=
      Z.max (max_active_requests (sched_config s)) (Z.of_nat (length (active_ s)))).
Proof.
  intros Hwf Hroom. eapply runs_mono; [by apply (schedule_next_spec 0 cap)|].
  intros [plan s'] (_ & keep & new & p & [W R C A (dropped & A0 & P) Pl Sv Pf D Pe F Sz Ct He Po Cn Ca Si]).
  by exists keep, dropped, new.
Qed.

(** Scheduling moves blocks and adds sequences; it never changes what a sequence
    already stores, and admission never promises more lifetime blocks than the pool
    has. *)
Theorem schedule_next_cache cap s :
  sched_wf s → sched_room cap (length (active_ s)) s →
  runs (schedule_next s) (λ '(plan, s'),
    sched_wf s' ∧
    (∀ sid bs, contents (cache_manager_ s) !! sid = Some bs →
       contents (cache_manager_ s') !! sid = Some bs) ∧
    lifetime_held_ s' <= Z.max (lifetime_held_ s) (max_blocks (config_ (sched_allocator s)))).
Proof.
  intros Hwf Hroom. eapply runs_mono; [by apply (schedule_next_spec 0 cap)|].
  intros [plan s'] (_ & keep & new & p & [W R C A P Pl Sv Pf D Pe F Sz Ct He Po Cn Ca Si]).
  by split_and!.
Qed.

(** C26. Termination: the fuel of the admission loop, one unit per pending request, is
    always enough, and more makes no difference. *)
Theorem admit_loop_terminates cap s :
  sched_wf s → sched_room cap (length (active_ s)) s →
  ∃ r, ∀ k, admit_loop (length (pending_ s) + k) BatchPlan_empty s = Some r.
Proof.
  intros Hwf Hroom.
  pose proof (admit_loop_spec 0 cap s (length (pending_ s)) (active_ s) [] BatchPlan_empty s
    (admitting_start 0 cap s Hwf Hroom) (le_n _)) as Hr.
  destruct (admit_loop _ _ _) as [r|] eqn:Hrun; [|done]. exists r. intros k.
  by apply admit_loop_more.
Qed.

(** C3. The invariant of every state the operations lead to, as long as requests come with
    new ids and prompts that are not empty and none is cancelled while it is preempted:
    cancelling a preempted request is what makes [lifetime_held_] fall short
    ([cancel_preempted_undercounts]). In these states request ids are unique
    across the queues; a sequence in the cache belongs to an admitted request; an
    admitted request has the blocks of its whole prompt, and an active one has every
    block resident; [lifetime_held_] is exactly what the active requests hold; no
    waiting request has been skipped more often than the limit. *)
Theorem scheduler_invariant config m s :
  config_wf config → mgr_wf m → sequences_ m = ∅ →
  sched_reachable (Scheduler_new config m) s →
  NoDup (ids (pending_ s) ++ ids (active_ s) ++ ids (preempted_ s)) ∧
  owned (cache_manager_ s) (ids (active_ s) ++ ids (preempted_ s)) ∧
  Forall (backs (cache_manager_ s)) (active_ s ++ preempted_ s) ∧
  Forall (resident_request (cache_manager_ s)) (ids (active_ s)) ∧
  lifetime_held_ s = lifetime_of (active_ s) ∧
  Forall (λ r, admission_skips r <= admission_skip_limit (sched_config s)) (pending_ s).
Proof.
  intros Hc Hm Hs Hr.
  pose proof (sched_reachable_wf _ _ (new_scheduler_wf config m Hc Hm Hs) Hr) as [_ Hq _ Ho Hb Hres].
  split_and!; try done; [apply Hq|apply Hq|]. eapply Forall_impl; [apply (q_skips _ Hq)|].
  by intros r [_ ?].
Qed.

(** C36. Admitting a request creates its sequence with exactly the blocks of its prompt,
    the published prefix among them, and all of them resident; or it leaves no
    trace: no sequence, no user of a prefix, no frame. *)
Theorem admit_sequence_exact m c :
  mgr_wf m → admission_room m c → 0 < prompt_tokens c → sequences_for m (request_id c) = [] →
  runs (admit_sequence m c) (λ '(ok, m'),
    mgr_wf m' ∧
    (ok = true → ∃ st, sequences_ m' = <[root_sequence_id c := st]> (sequences_ m) ∧
       metadata st = metadata_from c ∧ all_resident (tables st) = true ∧
       Z.of_nat (seq_blocks st) = blocks_needed (prompt_tokens c) (tpb_of m) ∧
       contents m' = <[root_sequence_id c := seq_bytes (allocator_ m') st]> (contents m)) ∧
    (ok = false → sequences_ m' = sequences_ m ∧ prefix_index_ m' = prefix_index_ m ∧
       contents m' = contents m ∧ nfree (allocator_ m') = nfree (allocator_ m))).
Proof.
  intros Hwf Hroom Hpos Hnone. eapply runs_mono; [by apply admit_sequence_spec|].
  intros [[|] m']; simpl.
  - intros (st & [Hwf' _ Hs Hmd Hres _ _ _ Hc _] & Hb). split_and!; [done| |done].
    intros _. by exists st.
  - by intros (? & _ & ? & ? & ? & ?).
Qed.

(** Reclaiming for an admission preempts requests from the newest on, never one
    admitted by the current call, and leaves every sequence's blocks as they were. *)
Theorem reclaim_newest_first cap prompt decode keep prot s :
  sched_wf s → sched_room cap (length keep) s → active_ s = keep ++ prot →
  runs (reclaim_for_admission s prompt decode (Z.of_nat (length prot))) (λ s',
    sched_wf s' ∧ pending_ s' = pending_ s ∧
    contents (cache_manager_ s') = contents (cache_manager_ s) ∧
    ∃ keep' victims, keep = keep' ++ victims ∧ active_ s' = keep' ++ prot ∧
      preempted_ s' = preempted_ s ++ (set_rq_state Preempted <$> reverse victims)).
Proof.
  intros Hwf Hroom Ha. eapply runs_mono; [by apply (reclaim_spec 0 cap)|].
  intros s' (Hwf' & keep' & (_ & Hp & Ha' & [_ Hc _ _] & victims & Hk & Hpre) & _).
  split_and!; [done..|]. by exists keep', victims.
Qed.

(** A resident request needs no frames. *)
Lemma resident_needs m id :
  mgr_wf m → resident_request m id → zsum (needed m) (sequences_for m id) = 0.
Proof.
  intros Hwf Hres. pose proof (proj2 (sequences_for_spec m id Hwf)) as Hseq.
  assert (∀ sid, sid ∈ sequences_for m id → needed m sid = 0) as Hz.
  { intros sid (st & Hs & Hid)%Hseq. unfold needed. rewrite Hs.
    pose proof (proj1 (all_resident_spec _) (Hres _ _ Hs Hid)) as He.
    revert He. generalize (all_entries (tables st)). intros es He.
    induction es as [|e es IH]; [done|]. rewrite swapped_in_cons.
    unfold resident. rewrite (He e) by by left. rewrite IH; [done|]. intros; apply He; by right. }
  revert Hz. generalize (sequences_for m id). intros l Hz. induction l as [|x l IH]; [done|].
  cbn [zsum]. rewrite (Hz x), IH; [done| |by left]. intros; apply Hz; by right.
Qed.

(** Resuming gives an active request the state it had. *)
Lemma phase_restored r :
  active_ok r →
  set_rq_state (if 0 <? remaining_prefill_tokens r then Prefill else Decode)
    (set_rq_state Preempted r) = r.
Proof.
  intros (_ & _ & _ & [[Hs Hr]|[Hs Hr]]).
  - rewrite (proj2 (Z.ltb_lt 0 (remaining_prefill_tokens r))) by done. rewrite <-Hs. by destruct r.
  - rewrite (proj2 (Z.ltb_ge 0 (remaining_prefill_tokens r))) by lia. rewrite <-Hs. by destruct r.
Qed.

(** The request just preempted is found at the end of its queue. *)
Lemma preempted_last s i r why n m' j r' :
  queues_wf (preempted_at s i r why n m') →
  preempted_ (preempted_at s i r why n m') !! j = Some r' → request_id r' = request_id r →
  r' = set_rq_state Preempted r.
Proof.
  intros Hq Hj Hid. eapply (ids_unique (preempted_ (preempted_at s i r why n m'))).
  - by apply preempted_nodup.
  - by eapply list_elem_of_lookup_2.
  - simpl. apply elem_of_app. right. by left.
  - done.
Qed.

(** C17. Preempting a request and resuming it restores it: it is active again, in the
    phase its remaining tokens call for, at the back of the queue, with its
    lifetime blocks accounted again, and no sequence stores anything else. The
    resumption always succeeds: the preemption freed the frames it needs. *)
Theorem preempt_resume_restores s i r why :
  sched_wf s → active_ s !! i = Some r →
  can_store (sched_allocator s) (stored (cache_manager_ s)) →
  stored (cache_manager_ s) < W32 →
  runs (preempt s (request_id r) why) (λ '(ok, s1), ok = true ∧ sched_wf s1 ∧
    request_id r ∈ ids (preempted_ s1) ∧
    lifetime_held_ s1 = lifetime_held_ s - lifetime_blocks r ∧
    contents (cache_manager_ s1) = contents (cache_manager_ s) ∧
    ((∀ r', r' ∈ preempted_ s1 → lifetime_held_ s1 + lifetime_blocks r' < W32) →
     runs (resume s1 (request_id r)) (λ '(ok, s2), ok = true ∧ sched_wf s2 ∧
       active_ s2 = delete i (active_ s) ++ [r] ∧ lifetime_held_ s2 = lifetime_held_ s ∧
       contents (cache_manager_ s2) = contents (cache_manager_ s)))).
Proof.
  intros Hwf Hi Hc Hmax. pose proof (s_queues _ Hwf) as Hq.
  eapply runs_mono; [by apply preempt_step|]. intros [ok s1] [Hwf1 Hr].
  assert (request_id r ∈ ids (active_ s)) as Hin
    by (by eapply list_elem_of_fmap_2, list_elem_of_lookup_2).
  destruct ok; [|by destruct Hr].
  destruct Hr as (i' & r' & n & m1 & Hi' & Hid & -> & Hsame & _ & Hfree).
  assert (i' = i) as ->.
  { eapply (NoDup_lookup (ids (active_ s))); [by apply active_nodup|by rewrite list_lookup_fmap, Hi'|].
    rewrite list_lookup_fmap, Hi. simpl. by rewrite Hid. }
  assert (r' = r) as -> by congruence. clear Hi' Hid.
  assert (lifetime_held_ s = lifetime_blocks r + lifetime_of (delete i (active_ s))) as Hheld.
  { rewrite (q_held _ Hq). unfold lifetime_of. by rewrite (delete_Permutation _ _ _ Hi) at 1. }
  split_and!; try done.
  - simpl. rewrite fmap_app, elem_of_app. right. by left.
  - simpl. lia.
  - apply Hsame.
  - intros Hroom. destruct (same_store_sizes _ _ Hsame) as (E1 & _).
    pose proof (proj1 (Forall_lookup _ _) (q_active _ Hq) _ _ Hi) as Hact.
    eapply runs_mono; [apply resume_step; [done|simpl; by rewrite E1|done]|].
    intros [ok s2] [Hwf2 Hr2]. destruct ok.
    + destruct Hr2 as (j & r' & m2 & Hj & Hid & -> & Hsame2). split_and!; [done..| | |].
      * simpl. rewrite (preempted_last _ _ _ _ _ _ _ _ (s_queues _ Hwf1) Hj Hid).
        simpl. by rewrite phase_restored.
      * simpl. rewrite (preempted_last _ _ _ _ _ _ _ _ (s_queues _ Hwf1) Hj Hid). simpl. lia.
      * simpl. destruct Hsame2 as [_ -> _ _]. apply Hsame.
    + exfalso. destruct Hr2 as [-> Hlt]. specialize (Hlt).
      assert (request_id r ∈ ids (preempted_ (preempted_at s i r why n m1))) as Hin1.
      { simpl. rewrite fmap_app, elem_of_app. right. by left. }
      specialize (Hlt Hin1). simpl in Hlt.
      assert (sequences_for m1 (request_id r) = sequences_for (cache_manager_ s) (request_id r)) as Eq.
      { unfold sequences_for. destruct (store_index _ _ Hsame) as (_ & -> & _). done. }
      rewrite Eq in Hlt. rewrite (resident_needs (cache_manager_ s)) in Hfree.
      * unfold sched_allocator in *. simpl in *. unfold nfree in *. lia.
      * apply Hwf.
      * by apply (proj1 (Forall_forall _ _) (s_resident _ Hwf)).
Qed.
(** Completing a step moves a request in prefill towards decode by what was
    produced, and into decode when nothing is left; nothing else changes, and a
    request that is not active or already decodes is left alone. *)
Theorem complete_step_progress s id n :
  sched_wf s → 0 <= n →
  sched_wf (complete_step s id n) ∧
  cache_manager_ (complete_step s id n) = cache_manager_ s ∧
  pending_ (complete_step s id n) = pending_ s ∧
  preempted_ (complete_step s id n) = preempted_ s ∧
  lifetime_held_ (complete_step s id n) = lifetime_held_ s ∧
  ∀ i r, active_ s !! i = Some r → ∃ r', active_ (complete_step s id n) !! i = Some r' ∧
    request_id r' = request_id r ∧
    (request_id r ≠ id ∨ rq_state r = Decode → r' = r) ∧
    (request_id r = id → rq_state r = Prefill →
       remaining_prefill_tokens r' = Z.max 0 (remaining_prefill_tokens r - n) ∧
       rq_state r' = if remaining_prefill_tokens r <=? n then Decode else Prefill).
Proof.
  intros Hwf Hn. split; [by apply complete_step_wf|]. unfold complete_step.
  destruct (find_request (active_ s) id) as [[j x]|] eqn:Hf.
  2:{ apply find_request_None in Hf. split_and!; [done..|]. intros i r Hi. exists r.
      split_and!; [done..|]. intros <-. exfalso. apply Hf, list_elem_of_fmap_2.
      by eapply list_elem_of_lookup_2. }
  apply find_request_Some in Hf as [Hj <-]. simpl. split_and!; [done..|]. intros i r Hi.
  pose proof (active_nodup _ (s_queues _ Hwf)) as Hnd.
  destruct (decide (i = j)) as [->|Hij].
  - assert (x = r) as -> by congruence. exists (step_request n r). rewrite list_lookup_alter_eq, Hi.
    split_and!; [done|apply step_request_id| |].
    + intros [?|Hd]; [done|]. unfold step_request. rewrite decide_False; [done|]. by rewrite Hd.
    + intros _ Hp. unfold step_request. rewrite decide_True by done.
      destruct (Z.leb_spec (remaining_prefill_tokens r) n); simpl; [|split; [lia|done]].
      split; [lia|done].
  - exists r. rewrite list_lookup_alter_ne by done. split_and!; [done..|].
    intros He. exfalso. apply Hij. eapply (NoDup_lookup (ids (active_ s))); [done| |].
    + by rewrite list_lookup_fmap, Hi.
    + rewrite list_lookup_fmap, Hj. simpl. by rewrite He.
Qed.

(** Cancelling a request that is not preempted removes it: it has no state, no
    preemption record and no sequence, its lifetime blocks are no longer accounted,
    and the sequences of other requests keep what they store. *)
Theorem cancel_removes s id :
  sched_wf s → id ∉ ids (preempted_ s) →
  sched_wf (cancel s id) ∧ state (cancel s id) id = None ∧
  preemption_info (cancel s id) id = None ∧
  lifetime_held_ (cancel s id) = lifetime_of (active_ (cancel s id)) ∧
  (∀ sid st, sequences_ (cache_manager_ (cancel s id)) !! sid = Some st ↔
     sequences_ (cache_manager_ s) !! sid = Some st ∧ sm_request_id (metadata st) ≠ id) ∧
  (∀ sid bs, contents (cache_manager_ (cancel s id)) !! sid = Some bs →
     contents (cache_manager_ s) !! sid = Some bs).
Proof.
  intros Hwf Hid. pose proof (cancel_step s id Hwf Hid) as Hwf'.
  pose proof (cancel_gone s id Hwf) as Hgone.
  split_and!; [done|by apply no_state| |by apply s_queues| |].
  - unfold preemption_info. pose proof (q_info _ (s_queues _ Hwf') id) as Hinfo.
    destruct (preemption_info_ (cancel s id) !! id) eqn:Hl; [|done].
    exfalso. apply Hgone. rewrite !elem_of_app. right. right. by apply Hinfo.
  - intros sid st. by apply cancel_sequences.
  - apply cancel_sequences; done.
Qed.

(** C37. Cancelling a preempted request takes its lifetime blocks off
    [lifetime_held_] a second time: the total falls short of what the active
    requests hold, so admission can promise the same blocks twice. *)
Theorem cancel_preempted_undercounts s r :
  sched_wf s → r ∈ preempted_ s → 0 < lifetime_blocks r <= lifetime_held_ s →
  active_ (cancel s (request_id r)) = active_ s ∧
  lifetime_held_ (cancel s (request_id r)) = lifetime_of (active_ s) - lifetime_blocks r.
Proof.
  intros Hwf Hin Hl. pose proof (s_queues _ Hwf) as Hq.
  destruct (cancel_preempted_at s r Hwf Hin) as (i & ->). simpl. split; [done|].
  unfold held_without. rewrite <-(q_held _ Hq).
  pose proof (q_held_max _ Hq).
  rewrite (proj2 (Z.ltb_lt 0 (lifetime_blocks r))) by lia.
  rewrite (proj2 (Z.leb_le (lifetime_blocks r) (lifetime_held_ s))) by lia. simpl.
  rewrite u32_small by words. lia.
Qed.
End Reachability.
