(* ===== verification/SchedulerDemo.v ===== *)
(** A scheduler over the four-frame demo cache the scheduler's properties are
    instantiated at: two requests running, a third that displaces both. *)
From S2P Require Import Prelude.
From S2P Require Import Block.
From S2P Require Import SwapBackend.
From S2P Require Import BlockTable.
From S2P Require Import MemoryAllocator.
From S2P Require Import AllocatorSpec.
From S2P Require Import AllocatorProps.
From S2P Require Import KVCacheManager.
From S2P Require Import CacheAccounting.
From S2P Require Import AllocatorMoves.
From S2P Require Import CacheInvariant.
From S2P Require Import CacheLemmas.
From S2P Require Import CacheLifecycle.
From S2P Require Import CacheGrowth.
From S2P Require Import CacheWrite.
From S2P Require Import CacheSwap.
From S2P Require Import CacheRecords.
From S2P Require Import CacheRelease.
From S2P Require Import CachePrefix.
From S2P Require Import CacheProps.
From S2P Require Import CacheSharing.
From S2P Require Import CacheDemo.
From S2P Require Import Scheduler.
From S2P Require Import SchedulerPlan.
From S2P Require Import SchedulerInvariant.
From S2P Require Import SchedulerAdmission.
From S2P Require Import SchedulerPreemption.
From S2P Require Import SchedulerLoops.
From S2P Require Import SchedulerSteps.
From S2P Require Import SchedulerFit.
From S2P Require Import SchedulerProps.

(** ** Discharging side conditions on concrete states *)

(** [sched_room] as a computation, but for the backend's slots. *)
Definition room_check (cap : Z) (s : Scheduler HostSwapBackend) : bool :=
  (cap <? W32) &&
  (stored (cache_manager_ s) + pinned (cache_manager_ s)
    + zsum (admission_blocks (cache_manager_ s)) (pending_ s) <=? cap) &&
  (sequence_count (cache_manager_ s) + Z.of_nat (length (pending_ s)) <? W32) &&
  (pinned (cache_manager_ s) * tpb_of (cache_manager_ s) <? W32) &&
  forallb (λ r, prompt_tokens r + tpb_of (cache_manager_ s) <? W32) (pending_ s) &&
  (Z.max (lifetime_held_ s) (max_blocks (config_ (sched_allocator s)))
    + max_blocks (config_ (sched_allocator s)) <? W32).

Lemma room_checked cap victims s :
  room_check cap s = true → Z.of_nat victims * cap <= budget (sched_allocator s) →
  sched_room cap victims s.
Proof.
  unfold room_check. intros Hc Hs. rewrite !andb_true_iff in Hc.
  destruct Hc as (((((? & ?) & ?) & ?) & Hall) & ?). rewrite forallb_forall in Hall.
  split; [by apply Z.ltb_lt|by apply Z.leb_le|by apply Z.ltb_lt|by apply Z.ltb_lt| | |by apply Z.ltb_lt].
  - apply Forall_forall. intros r Hr. by apply Z.ltb_lt, Hall, list_elem_of_In.
  - by right.
Qed.

(** The state after an operation. *)
Definition then_ (s : Scheduler HostSwapBackend) (op : sched_op) : Scheduler HostSwapBackend :=
  default s (sched_run s op).

Lemma then_reachable s0 s op :
  sched_reachable s0 s → sched_op_ok s op → sched_reachable s0 (then_ s op).
Proof.
  intros Hr Hok. unfold then_. destruct (sched_run s op) as [s'|] eqn:He; [|done].
  by eapply sreach_step.
Qed.

(** ** The states *)

Definition demo_request (id prompt decode : Z) : Request :=
  mkRequest id (id + 100) prompt (mkSamplingConfig 1 decode) [] (mkPositionalEncodingMetadata [])
    "" Pending 0 0 0.
Definition demo_sched_config : SchedulerConfig := mkSchedulerConfig 4 5 1 false 2.

Definition sched_start := Scheduler_new demo_sched_config demo_new.
(** Two requests of two blocks wait. *)
Definition sched_queued :=
  then_ (then_ sched_start (Enqueue (demo_request 1 3 1))) (Enqueue (demo_request 2 3 1)).
(** Both run. *)
Definition sched_running := then_ sched_queued ScheduleNext.
(** A third arrives, and displaces them. *)
Definition sched_waiting := then_ sched_running (Enqueue (demo_request 3 3 1)).
Definition sched_displaced := then_ sched_waiting ScheduleNext.

Ltac reach prev := apply then_reachable; [exact prev|].
Ltac fresh_request :=
  split; [split; [split; by vm_compute|by vm_compute]|];
  let Hx := fresh in
  intros Hx; vm_compute in Hx; repeat (apply elem_of_cons in Hx as [Hx|Hx]; [done|]);
  by apply not_elem_of_nil in Hx.
Ltac has_room := exists 16; by apply room_checked; vm_compute.

Lemma sched_queued_reachable : sched_reachable sched_start sched_queued.
Proof.
  assert (sched_reachable sched_start (then_ sched_start (Enqueue (demo_request 1 3 1)))) as H1
    by (reach (sreach_start sched_start); fresh_request).
  reach H1. fresh_request.
Qed.

Lemma sched_queued_room : sched_room 16 (length (active_ sched_queued)) sched_queued.
Proof. by apply room_checked; vm_compute. Qed.

Lemma sched_running_reachable : sched_reachable sched_start sched_running.
Proof. reach sched_queued_reachable. exists 16. exact sched_queued_room. Qed.

Lemma sched_waiting_reachable : sched_reachable sched_start sched_waiting.
Proof. reach sched_running_reachable. fresh_request. Qed.

Lemma sched_waiting_room : sched_room 16 (length (active_ sched_waiting)) sched_waiting.
Proof. by apply room_checked; vm_compute. Qed.

Lemma sched_displaced_reachable : sched_reachable sched_start sched_displaced.
Proof. reach sched_waiting_reachable. exists 16. exact sched_waiting_room. Qed.

Lemma demo_sched_config_wf : config_wf demo_sched_config.
Proof. by split_and!; split; vm_compute. Qed.

Lemma sched_start_wf : sched_wf sched_start.
Proof. by apply new_scheduler_wf; [apply demo_sched_config_wf|apply demo_new_wf|]. Qed.

Lemma demo_sched_wf s : sched_reachable sched_start s → sched_wf s.
Proof. apply sched_reachable_wf, sched_start_wf. Qed.

Lemma sched_running_store :
  can_store (sched_allocator sched_running) (stored (cache_manager_ sched_running)).
Proof. right. vm_compute. discriminate. Qed.

(** ** Witnesses *)

Lemma schedule_next_plan_witness :
  runs (schedule_next sched_waiting) (λ '(plan, _), scheduled_tokens plan <= 5).
Proof.
  eapply runs_mono; [apply (schedule_next_plan 16 sched_waiting)|].
  - by apply demo_sched_wf, sched_waiting_reachable.
  - exact sched_waiting_room.
  - intros [plan s'] (_ & Hle & _). etransitivity; [exact Hle|]. by vm_compute.
Defined.

Lemma schedule_next_queues_witness :
  runs (schedule_next sched_waiting) (λ '(_, s'), Z.of_nat (length (active_ s')) <= 4).
Proof.
  eapply runs_mono; [apply (schedule_next_queues 16 sched_waiting)|].
  - by apply demo_sched_wf, sched_waiting_reachable.
  - exact sched_waiting_room.
  - intros [plan s'] (k & d & a & _ & _ & _ & _ & _ & Hle). etransitivity; [exact Hle|].
    by vm_compute.
Defined.

Lemma schedule_next_cache_witness :
  runs (schedule_next sched_waiting) (λ '(_, s'), sched_wf s').
Proof.
  eapply runs_mono; [apply (schedule_next_cache 16 sched_waiting)|].
  - by apply demo_sched_wf, sched_waiting_reachable.
  - exact sched_waiting_room.
  - by intros [plan s'] (? & _).
Defined.

(** Two requests that fit the pool of four frames exactly. *)
Definition sched_fitting : Scheduler HostSwapBackend :=
  then_ (then_ (Scheduler_new (mkSchedulerConfig 4 8 0 false 2) demo_new)
    (Enqueue (demo_request 1 3 1))) (Enqueue (demo_request 2 3 1)).

Lemma sched_fitting_wf : sched_wf sched_fitting.
Proof.
  assert (sched_wf (Scheduler_new (mkSchedulerConfig 4 8 0 false 2) demo_new)) as Hwf.
  { apply new_scheduler_wf; [by split_and!; split; vm_compute|apply demo_new_wf|done]. }
  eapply sched_reachable_wf; [exact Hwf|]. apply then_reachable; [apply then_reachable|];
    [apply sreach_start|fresh_request..].
Qed.

Lemma sched_fitting_fits : batch_fits sched_fitting BatchPlan_empty.
Proof.
  split; try (vm_compute; intuition discriminate).
  - by repeat constructor.
  - by apply (bool_decide_unpack _).
  - by repeat constructor.
Qed.

Lemma schedule_next_admits_witness :
  runs (schedule_next sched_fitting) (λ '(plan, s'),
    pending_ s' = [] ∧ [3; 3] `prefix_of` prefill_tokens plan ∧ nfree (sched_allocator s') = 0).
Proof.
  eapply runs_mono; [apply (schedule_next_admits 16 0 sched_fitting sched_fitting_wf)|].
  - by apply room_checked; vm_compute.
  - exact sched_fitting_fits.
  - intros [plan s'] (Hq & _ & _ & _ & Ht & Hn). split_and!; [exact Hq|exact Ht|].
    rewrite Hn. by vm_compute.
Defined.

Lemma admit_loop_terminates_witness :
  ∃ r, ∀ k, admit_loop (length (pending_ sched_queued) + k) BatchPlan_empty sched_queued = Some r.
Proof.
  apply (admit_loop_terminates 16 sched_queued); [|exact sched_queued_room].
  by apply demo_sched_wf, sched_queued_reachable.
Defined.

Lemma scheduler_invariant_witness :
  lifetime_held_ sched_displaced = lifetime_of (active_ sched_displaced).
Proof.
  destruct (scheduler_invariant demo_sched_config demo_new sched_displaced demo_sched_config_wf
    demo_new_wf eq_refl sched_displaced_reachable) as (_ & _ & _ & _ & Hh & _). exact Hh.
Defined.

Lemma admit_sequence_exact_witness :
  runs (admit_sequence demo_new (demo_request 1 3 1)) (λ '(_, m'), mgr_wf m').
Proof.
  eapply runs_mono; [apply (admit_sequence_exact demo_new (demo_request 1 3 1) demo_new_wf)|].
  - by split; vm_compute.
  - reflexivity.
  - reflexivity.
  - by intros [ok m'] (? & _).
Defined.

Lemma reclaim_newest_first_witness :
  runs (reclaim_for_admission sched_running 3 1 0) (λ s', pending_ s' = pending_ sched_running).
Proof.
  eapply runs_mono;
    [apply (reclaim_newest_first 16 3 1 (active_ sched_running) [] sched_running)|].
  - by apply demo_sched_wf, sched_running_reachable.
  - by apply room_checked; vm_compute.
  - by rewrite app_nil_r.
  - by intros s' (_ & ? & _).
Defined.

Lemma sched_running_first : ∃ r, active_ sched_running !! 0%nat = Some r ∧ request_id r = 1.
Proof. eexists. split; vm_compute; reflexivity. Qed.

Lemma preempt_resume_restores_witness :
  runs (preempt sched_running 1 "why") (λ '(ok, _), ok = true).
Proof.
  destruct sched_running_first as (r & Hi & Hid). rewrite <-Hid.
  eapply runs_mono; [apply (preempt_resume_restores sched_running 0 r "why")|].
  - by apply demo_sched_wf, sched_running_reachable.
  - exact Hi.
  - exact sched_running_store.
  - by vm_compute.
  - by intros [ok s1] (? & _).
Defined.

Lemma complete_step_progress_witness :
  pending_ (complete_step sched_running 1 2) = pending_ sched_running.
Proof.
  destruct (complete_step_progress sched_running 1 2) as (_ & _ & Hp & _).
  - by apply demo_sched_wf, sched_running_reachable.
  - lia.
  - exact Hp.
Defined.

Lemma cancel_removes_witness : state (cancel sched_running 1) 1 = None.
Proof.
  destruct (cancel_removes sched_running 1) as (_ & Hs & _).
  - by apply demo_sched_wf, sched_running_reachable.
  - vm_compute. by intros ?%not_elem_of_nil.
  - exact Hs.
Defined.

Lemma sched_displaced_first :
  ∃ r, r ∈ preempted_ sched_displaced ∧ request_id r = 1 ∧
    0 < lifetime_blocks r <= lifetime_held_ sched_displaced.
Proof.
  assert (∃ i r, preempted_ sched_displaced !! i = Some r ∧ request_id r = 1 ∧
    0 < lifetime_blocks r <= lifetime_held_ sched_displaced) as (i & r & Hi & Hr)
    by (exists 1%nat; eexists; split; [vm_compute; reflexivity|by vm_compute]).
  exists r. split; [by eapply list_elem_of_lookup_2|exact Hr].
Qed.

Lemma cancel_preempted_undercounts_witness :
  active_ (cancel sched_displaced 1) = active_ sched_displaced ∧
  lifetime_held_ (cancel sched_displaced 1) < lifetime_of (active_ (cancel sched_displaced 1)).
Proof.
  destruct sched_displaced_first as (r & Hin & <- & Hl).
  destruct (cancel_preempted_undercounts sched_displaced r
    (demo_sched_wf _ sched_displaced_reachable) Hin Hl) as [Ha Hh].
  split; [exact Ha|]. rewrite Ha, Hh. lia.
Defined.

(** A request without a prompt is admitted without an entry in the plan, so the
    count of requests the call admitted, taken from the plan, is one short: here
    the third admission preempts the first one's request, and the plan still has it. *)
Theorem planned_request_preempted :
  let s := then_ (then_ (then_ sched_start (Enqueue (demo_request 1 3 1)))
    (Enqueue (demo_request 2 0 1))) (Enqueue (demo_request 3 3 1)) in
  (λ '(plan, s'), (prefill_requests plan, state s' 1)) <$> schedule_next s =
    Some ([1; 3], Some Preempted).
Proof. by vm_compute. Qed.
