(* ===== verification/PagedAttention.v ===== *)
(** Attention over a paged cache ([include/qwenvl_paged/PagedAttention.h]): the
    reference decode step, its blocked form, and the optimised one with fused
    query groups and the online softmax.

    The arithmetic is a class: the float operations the code uses, and the element
    type [T] of the cache. [binary32] below is the instance the program runs at,
    with IEEE single precision from the Standard Library's specification and the
    library's [std::exp] a parameter. The code is modelled as built without
    AVX-512, where [kAvx] makes no difference. *)
From Stdlib Require Import Floats.SpecFloat.
From S2P Require Import Prelude.
From S2P Require Import Block.
From S2P Require Import CacheLayout.
From S2P Require Import BlockTable.
From S2P Require Import MemoryAllocator.
From S2P Require Import KVCacheManager.

(** ** Arithmetic *)

Class FloatOps (F : Type) := mkFloatOps {
  f_zero : F;
  f_one : F;
  f_neg_inf : F;
  f_add : F → F → F;
  f_sub : F → F → F;
  f_mul : F → F → F;
  f_div : F → F → F;
  f_ltb : F → F → bool;
  f_eqb : F → F → bool;
  f_exp : F → F
}.

(** [std::max]. *)
Definition f_max `{FloatOps F} (a b : F) : F := if f_ltb a b then b else a.

(** The element type: its size, the value of its bytes, the conversions. *)
Class Element (T F : Type) := mkElement {
  sizeof_T : Z;
  from_bytes : list byte → T;
  as_float : T → F;
  of_float : F → T
}.

(** IEEE single precision. *)
Definition binary32 (exp : spec_float → spec_float) : FloatOps spec_float :=
  mkFloatOps spec_float (S754_zero false) (SFone 24 128) (S754_infinity true)
    (SFadd 24 128) (SFsub 24 128) (SFmul 24 128) (SFdiv 24 128) SFltb SFeqb exp.

(** The value of a little-endian word and of the bits of a [float]. *)
Definition word_of_bytes (bytes : list byte) : Z :=
  foldr (λ b w, Z.of_N (Byte.to_N b) + 256 * w) 0 bytes.
Definition float_of_bits (w : Z) : spec_float :=
  let sign := Z.testbit w 31 in
  let exponent := Z.land (Z.shiftr w 23) 255 in
  let fraction := Z.land w 8388607 in
  if exponent =? 255 then
    if fraction =? 0 then S754_infinity sign else S754_nan
  else if exponent =? 0 then
    match fraction with
    | Z.pos m => S754_finite sign m (-149)
    | _ => S754_zero sign
    end
  else
    match fraction + 8388608 with
    | Z.pos m => S754_finite sign m (exponent - 150)
    | _ => S754_zero sign
    end.

(** [T = float]. *)
#[export] Instance Element_float : Element spec_float spec_float :=
  mkElement _ _ 4 (λ bytes, float_of_bits (word_of_bytes bytes)) (λ x, x) (λ x, x).

(** ** Parameters *)

Record PagedAttentionParams (F : Type) := mkParams {
  pa_layer : Z;
  num_query_heads : Z;
  context_len : Z;
  pa_scale : F
}.
Arguments mkParams {F}.
Arguments pa_layer {F}.
Arguments num_query_heads {F}.
Arguments context_len {F}.
Arguments pa_scale {F}.

Section Attention.
Context {B T F : Type} `{FloatOps F} `{Element T F}.
Implicit Types a : MemoryAllocator B.
Implicit Types v : CacheView B.
Implicit Types p : PagedAttentionParams F.

(** The element [dim] places after an address. *)
Definition load a (ptr dim : Z) : option T :=
  from_bytes <$> read_mem a (Some (ptr + dim * sizeof_T)) sizeof_T.

(** The two checks every variant starts with. *)
Definition accepts v (query out : option (list T)) p : bool :=
  let s := shape (view_layout v) in
  match query, out with
  | Some _, Some _ =>
    view_valid v &&
    negb (negb (sizeof_T =? bytes_per_element s) || (context_len p =? 0)
          || (num_layers s <=? pa_layer p) || (num_query_heads p =? 0)
          || negb (num_query_heads p mod num_kv_heads s =? 0))
  | _, _ => false
  end.

(** ** Vectors of one head ([detail]) *)

Definition dot_head a (query : list T) (q key head_dim : Z) : option F :=
  foldM (λ dot dim,
    x ← vec_get query (q + dim); y ← load a key dim;
    Some (f_add dot (f_mul (as_float x) (as_float y)))) f_zero (seqZ 0 head_dim).

(** [accumulator] is a range of a vector that starts at [acc]. *)
Definition axpy_head a (accumulator : list F) (acc value : Z) (weight : F) (head_dim : Z)
    : option (list F) :=
  foldM (λ l dim,
    x ← vec_get l (acc + dim); y ← load a value dim;
    vec_set l (acc + dim) (f_add x (f_mul weight (as_float y))))
    accumulator (seqZ 0 head_dim).

Definition scale_head (accumulator : list F) (acc : Z) (scale : F) (head_dim : Z)
    : option (list F) :=
  foldM (λ l dim, x ← vec_get l (acc + dim); vec_set l (acc + dim) (f_mul x scale))
    accumulator (seqZ 0 head_dim).

(** ** Two passes over the tokens of one head *)

(** The body of the first loop: the score of a token. *)
Definition score_token a (query : list T) (q head_dim : Z) (scale : F)
    (s : list F * F) (token key : Z) : option (list F * F) :=
  dot ← dot_head a query q key head_dim;
  scores ← vec_set (fst s) token (f_mul dot scale);
  Some (scores, f_max (snd s) (f_mul dot scale)).

(** The body of the second: the token's weight and its share of the result. *)
Definition weigh_token a (scores : list F) (max_score : F) (head_dim : Z)
    (s : F * list F) (token value : Z) : option (F * list F) :=
  score ← vec_get scores token;
  let weight := f_exp (f_sub score max_score) in
  accumulator ← axpy_head a (snd s) 0 value weight head_dim;
  Some (f_add (fst s) weight, accumulator).

Definition write_head (out : list T) (destination : Z) (accumulator : list F)
    (denominator : F) (head_dim : Z) : option (list T) :=
  foldM (λ o dim,
    x ← vec_get accumulator dim; vec_set o (destination + dim) (of_float (f_div x denominator)))
    out (seqZ 0 head_dim).

(** ** The reference *)

(** The positions the first loops resolve, in their order. *)
Definition resolved_positions (kv_heads context : Z) : list (Z * Z) :=
  kv_head ← seqZ 0 kv_heads; (λ token, (kv_head, token)) <$> seqZ 0 context.

Definition resolve v p (position : Z * Z) : option (Z * Z) :=
  let '(kv_head, token) := position in
  key ← slot sizeof_T v Key (pa_layer p) token kv_head;
  value ← slot sizeof_T v Value (pa_layer p) token kv_head;
  Some (key, value).

(** One query head; the state is the [scores] vector and the output. *)
Definition decode_head a (query : list T) (resolved : list (Z * Z)) p (head_dim group_size : Z)
    (s : list F * list T) (q_head : Z) : option (list F * list T) :=
  let base := q_head / group_size * context_len p in
  let q := q_head * head_dim in
  '(scores, max_score) ←
    foldM (λ s token,
      r ← vec_get resolved (base + token);
      score_token a query q head_dim (pa_scale p) s token (fst r))
      (fst s, f_neg_inf) (seqZ 0 (context_len p));
  '(denominator, accumulator) ←
    foldM (λ s token,
      r ← vec_get resolved (base + token);
      weigh_token a scores max_score head_dim s token (snd r))
      (f_zero, replicate (Z.to_nat head_dim) f_zero) (seqZ 0 (context_len p));
  out ← write_head (snd s) (q_head * head_dim) accumulator denominator head_dim;
  Some (scores, out).

Definition paged_attention_decode v (query : option (list T)) p (out : option (list T))
    : option (bool * option (list T)) :=
  match query, out, view_allocator v, accepts v query out p with
  | Some q, Some o, Some a, true =>
    let s := shape (view_layout v) in
    match mapM (resolve v p) (resolved_positions (num_kv_heads s) (context_len p)) with
    | None => Some (false, out)
    | Some resolved =>
      '(_, o') ←
        foldM (decode_head a q resolved p (head_dim s) (num_query_heads p / num_kv_heads s))
          (replicate (Z.to_nat (context_len p)) f_zero, o) (seqZ 0 (num_query_heads p));
      Some (true, Some o')
    end
  | _, _, _, _ => Some (false, out)
  end.

(** ** Block by block *)

Definition logical_blocks v p : Z := ceil_blocks (context_len p) (tokens_per_block (shape (view_layout v))).
Definition offset_layer v p : Z := if per_layer_frames (shape (view_layout v)) then 0 else pa_layer p.

(** The frames of the context, unless one is missing. *)
Definition frames_of_context v p : option (list Z) :=
  mapM (λ logical,
    block_bytes v logical (if per_layer_frames (shape (view_layout v)) then pa_layer p else 0))
    (seqZ 0 (logical_blocks v p)).

(** The address of a token's vector in its frame. *)
Definition vector_ptr v p (stream : KVStream) (base token_in_block kv_head : Z) : option Z :=
  offset ← element_offset (view_layout v) (offset_layer v p) stream token_in_block kv_head;
  Some (base + offset * sizeof_T).

(** The two loops, over the blocks and the tokens of each: the body gets the frame,
    the token and its place in the block, and leaves the function with [false]. *)
Definition over_blocks {S : Type} v p (frames : list Z)
    (body : S → Z → Z → Z → option (bool * S)) (s : S) : option (bool * S) :=
  let tpb := tokens_per_block (shape (view_layout v)) in
  loop (λ s logical,
    base ← vec_get frames logical;
    let first := logical ⊠ tpb in
    let last := Z.min (first ⊞ tpb) (context_len p) in
    loop (λ s token, body s base token (token ⊟ first)) s (seqZ first (last - first)))
    s (seqZ 0 (logical_blocks v p)).

Definition blocked_head v a (query : list T) (frames : list Z) p (head_dim group_size : Z)
    (s : list F * list T) (q_head : Z) : option (bool * (list F * list T)) :=
  let kv_head := q_head / group_size in
  '(go, (scores, max_score)) ←
    over_blocks v p frames (λ s base token token_in_block,
      match vector_ptr v p Key base token_in_block kv_head with
      | None => Some (false, s)
      | Some key =>
        s' ← score_token a query (q_head * head_dim) head_dim (pa_scale p) s token key;
        Some (true, s')
      end) (fst s, f_neg_inf);
  if negb go then Some (false, (scores, snd s))
  else
    '(go, (denominator, accumulator)) ←
      over_blocks v p frames (λ s base token token_in_block,
        match vector_ptr v p Value base token_in_block kv_head with
        | None => Some (false, s)
        | Some value =>
          s' ← weigh_token a scores max_score head_dim s token value;
          Some (true, s')
        end) (f_zero, replicate (Z.to_nat head_dim) f_zero);
    if negb go then Some (false, (scores, snd s))
    else
      out ← write_head (snd s) (q_head * head_dim) accumulator denominator head_dim;
      Some (true, (scores, out)).

Definition paged_attention_decode_blocked v (query : option (list T)) p (out : option (list T))
    : option (bool * option (list T)) :=
  match query, out, view_allocator v, accepts v query out p with
  | Some q, Some o, Some a, true =>
    let s := shape (view_layout v) in
    match frames_of_context v p with
    | None => Some (false, out)
    | Some frames =>
      '(go, (_, o')) ←
        loop (blocked_head v a q frames p (head_dim s) (num_query_heads p / num_kv_heads s))
          (replicate (Z.to_nat (context_len p)) f_zero, o) (seqZ 0 (num_query_heads p));
      Some (go, Some o')
    end
  | _, _, _, _ => Some (false, out)
  end.

(** ** Fused query groups *)

(** The scores of a token for every query of the group, and their maxima. *)
Definition score_group a (query : list T) p (head_dim group_size kv_head : Z)
    (s : list F * list F) (token key : Z) : option (list F * list F) :=
  foldM (λ s g,
    dot ← dot_head a query ((kv_head ⊠ group_size ⊞ g) * head_dim) key head_dim;
    let score := f_mul (pa_scale p) dot in
    scores ← vec_set (fst s) (g * context_len p + token) score;
    m ← vec_get (snd s) g;
    max_score ← vec_set (snd s) g (f_max m score);
    Some (scores, max_score)) s (seqZ 0 group_size).

(** The token's weight for every query of the group. *)
Definition weigh_group a (scores max_score : list F) p (head_dim group_size : Z)
    (s : list F * list F) (token value : Z) : option (list F * list F) :=
  foldM (λ s g,
    score ← vec_get scores (g * context_len p + token);
    m ← vec_get max_score g;
    let weight := f_exp (f_sub score m) in
    d ← vec_get (fst s) g;
    denom ← vec_set (fst s) g (f_add d weight);
    accumulator ← axpy_head a (snd s) (g * head_dim) value weight head_dim;
    Some (denom, accumulator)) s (seqZ 0 group_size).

(** The online softmax: maximum, denominator and result move together. *)
Definition online_step a (query : list T) p (head_dim group_size kv_head : Z)
    (key value : Z) (s : list F * list F * list F) (g : Z) : option (list F * list F * list F) :=
  let '(max_score, denom, accumulator) := s in
  dot ← dot_head a query ((kv_head ⊠ group_size ⊞ g) * head_dim) key head_dim;
  let score := f_mul (pa_scale p) dot in
  m ← vec_get max_score g;
  d ← vec_get denom g;
  let new_max := f_max m score in
  let rescale := f_exp (f_sub m new_max) in
  let weight := f_exp (f_sub score new_max) in
  accumulator ←
    (if negb (f_eqb m new_max) && negb (f_eqb d f_zero)
     then scale_head accumulator (g * head_dim) rescale head_dim else Some accumulator);
  denom ← vec_set denom g (f_add (f_mul d rescale) weight);
  max_score ← vec_set max_score g new_max;
  accumulator ← axpy_head a accumulator (g * head_dim) value weight head_dim;
  Some (max_score, denom, accumulator).

(** The end of a kv head: the results of the group, through the reciprocal. *)
Definition write_group (out : list T) (accumulator denom : list F)
    (head_dim group_size kv_head : Z) : option (list T) :=
  foldM (λ o g,
    d ← vec_get denom g;
    let inv := f_div f_one d in
    foldM (λ o dim,
      x ← vec_get accumulator (g * head_dim + dim);
      vec_set o ((kv_head ⊠ group_size ⊞ g) * head_dim + dim) (of_float (f_mul x inv)))
      o (seqZ 0 head_dim)) out (seqZ 0 group_size).

(** One kv head; the state is the [scores] vector and the output. *)
Definition opt_head (online : bool) v a (query : list T) (frames : list Z) p
    (head_dim group_size : Z) (s : list F * list T) (kv_head : Z)
    : option (bool * (list F * list T)) :=
  let max0 := replicate (Z.to_nat group_size) f_neg_inf in
  let denom0 := replicate (Z.to_nat group_size) f_zero in
  let acc0 := replicate (Z.to_nat (group_size * head_dim)) f_zero in
  '(go, scores, denom, accumulator) ←
    (if online then
       '(go, (_, denom, accumulator)) ←
         over_blocks v p frames (λ s base token token_in_block,
           match vector_ptr v p Key base token_in_block kv_head,
                 vector_ptr v p Value base token_in_block kv_head with
           | Some key, Some value =>
             s' ← foldM (online_step a query p head_dim group_size kv_head key value) s
                    (seqZ 0 group_size);
             Some (true, s')
           | _, _ => Some (false, s)
           end) (max0, denom0, acc0);
       Some (go, fst s, denom, accumulator)
     else
       '(go, (scores, max_score)) ←
         over_blocks v p frames (λ s base token token_in_block,
           match vector_ptr v p Key base token_in_block kv_head with
           | None => Some (false, s)
           | Some key =>
             s' ← score_group a query p head_dim group_size kv_head s token key;
             Some (true, s')
           end) (fst s, max0);
       if negb go then Some (false, scores, denom0, acc0)
       else
         '(go, (denom, accumulator)) ←
           over_blocks v p frames (λ s base token token_in_block,
             match vector_ptr v p Value base token_in_block kv_head with
             | None => Some (false, s)
             | Some value =>
               s' ← weigh_group a scores max_score p head_dim group_size s token value;
               Some (true, s')
             end) (denom0, acc0);
         Some (go, scores, denom, accumulator));
  if negb go then Some (false, (scores, snd s))
  else
    out ← write_group (snd s) accumulator denom head_dim group_size kv_head;
    Some (true, (scores, out)).

Definition paged_attention_decode_opt (fuse_gqa online : bool) v (query : option (list T)) p
    (out : option (list T)) : option (bool * option (list T)) :=
  match query, out, view_allocator v, accepts v query out p with
  | Some q, Some o, Some a, true =>
    let s := shape (view_layout v) in
    let group_size := num_query_heads p / num_kv_heads s in
    match frames_of_context v p with
    | None => Some (false, out)
    | Some frames =>
      if negb fuse_gqa then paged_attention_decode_blocked v query p out
      else
        '(go, (_, o')) ←
          loop (opt_head online v a q frames p (head_dim s) group_size)
            (if online then [] else replicate (Z.to_nat (group_size * context_len p)) f_zero, o)
            (seqZ 0 (num_kv_heads s));
        Some (go, Some o')
    end
  | _, _, _, _ => Some (false, out)
  end.

Definition paged_attention_decode_fused := paged_attention_decode_opt true false.
Definition paged_attention_decode_fast := paged_attention_decode_opt true true.
End Attention.
