(* ===== verification/AttentionLoops.v ===== *)
(** Attention as functions on vectors, and the loops that compute them: the flat
    loops over tokens, the blocked ones, the vectors updated in place. *)
From S2P Require Import Prelude.
From S2P Require Import Block.
From S2P Require Import CacheLayout.
From S2P Require Import BlockTable.
From S2P Require Import MemoryAllocator.
From S2P Require Import KVCacheManager.
From S2P Require Import PagedAttention.

(** ** Loops over indices *)

Lemma foldM_indexed {S X} (f : S → Z → option S) (g : S → X → S) (xs : list X) k s :
  (∀ s i x, xs !! i = Some x → f s (k + Z.of_nat i) = Some (g s x)) →
  foldM f s (seqZ k (Z.of_nat (length xs))) = Some (foldl g s xs).
Proof.
  revert k s. induction xs as [|x xs IH]; intros k s Hf; [done|].
  cbn [length]. rewrite Nat2Z.inj_succ, seqZ_cons by lia. cbn [foldM].
  pose proof (Hf s 0%nat x eq_refl) as H0. rewrite Z.add_0_r in H0. rewrite H0.
  cbn [mbind option_bind foldl]. rewrite Z.pred_succ. apply IH. intros s' i y Hy.
  rewrite <-(Hf s' (Datatypes.S i) y) by done. f_equal. lia.
Qed.

Lemma foldM_ext {S X} (f g : S → X → option S) s l :
  (∀ s x, x ∈ l → f s x = g s x) → foldM f s l = foldM g s l.
Proof.
  revert s. induction l as [|x l IH]; intros s Hf; [done|]. cbn [foldM].
  rewrite Hf by by left. destruct (g s x); [|done]. apply IH. intros. apply Hf. by right.
Qed.

(** A loop that never leaves the function. *)
Lemma loop_foldM {S X} (f : S → X → option (bool * S)) (g : S → X → option S) s l :
  (∀ s x, x ∈ l → f s x = (s' ← g s x; Some (true, s'))) →
  loop f s l = (s' ← foldM g s l; Some (true, s')).
Proof.
  revert s. induction l as [|x l IH]; intros s Hf; [done|]. cbn [loop foldM].
  rewrite Hf by by left. destruct (g s x); [|done]. cbn [mbind option_bind]. apply IH.
  intros. apply Hf. by right.
Qed.

(** A loop that rewrites the elements of a range from a list of operands. *)
Lemma update_segment {A Y} (f : list A → Z → option (list A)) (h : A → Y → A)
    (pre seg post : list A) (ys : list Y) :
  length seg = length ys →
  (∀ l i x y, l !! (length pre + i)%nat = Some x → ys !! i = Some y →
     f l (Z.of_nat i) = Some (<[(length pre + i)%nat := h x y]> l)) →
  foldM f (pre ++ seg ++ post) (seqZ 0 (Z.of_nat (length ys))) =
    Some (pre ++ zip_with h seg ys ++ post).
Proof.
  intros Hlen Hf.
  assert (∀ don seg ys' k, length seg = length ys' → k = length don →
    (∀ i y, ys' !! i = Some y → ys !! (k + i)%nat = Some y) →
    foldM f (pre ++ don ++ seg ++ post) (seqZ (Z.of_nat k) (Z.of_nat (length ys'))) =
      Some (pre ++ don ++ zip_with h seg ys' ++ post)) as Hgen.
  { intros don seg' ys'. revert don seg'. induction ys' as [|y ys' IH]; intros don seg' k Hl -> Hy.
    { by apply nil_length_inv in Hl as ->. }
    destruct seg' as [|x seg']; [done|]. injection Hl as Hl. cbn [length].
    rewrite Nat2Z.inj_succ, seqZ_cons by lia. cbn [foldM]. rewrite Z.pred_succ.
    rewrite (Hf _ (length don) x y).
    2:{ rewrite lookup_app_r by lia. replace (_ - _)%nat with (length don) by lia.
        rewrite lookup_app_r by lia. by rewrite Nat.sub_diag. }
    2:{ rewrite <-(Nat.add_0_r (length don)). by apply Hy. }
    cbn [mbind option_bind]. rewrite insert_app_r, insert_app_r_alt by lia.
    rewrite Nat.sub_diag. cbn [app insert list_insert].
    specialize (IH (don ++ [h x y]) seg' (length (don ++ [h x y])) Hl eq_refl).
    rewrite length_app in IH. cbn [length] in IH.
    replace (Z.succ (Z.of_nat (length don))) with (Z.of_nat (length don + 1)) by lia.
    rewrite <-!(assoc_L (++)) in IH. cbn [app] in IH. apply IH. intros i z Hz.
    rewrite <-Nat.add_assoc. by apply Hy. }
  apply (Hgen [] seg ys 0%nat); [done..|]. by intros.
Qed.

(** ** The specification *)

Section Spec.
Context {T F : Type} `{FloatOps F} `{Element T F}.

Definition dot (q k : list F) : F :=
  foldl (λ d x, f_add d (f_mul (fst x) (snd x))) f_zero (zip q k).
Definition axpy (weight : F) (acc value : list F) : list F :=
  zip_with (λ x y, f_add x (f_mul weight y)) acc value.

(** Softmax-weighted values, in two passes: the maximum, then the sums. *)
Definition scores (scale : F) (q : list F) (keys : list (list F)) : list F :=
  (λ k, f_mul (dot q k) scale) <$> keys.
Definition maximum (ss : list F) : F := foldl f_max f_neg_inf ss.
Definition weigh (m : F) (s : F * list F) (x : F * list F) : F * list F :=
  (f_add (fst s) (f_exp (f_sub (fst x) m)), axpy (f_exp (f_sub (fst x) m)) (snd s) (snd x)).
Definition weighted (ss : list F) (values : list (list F)) (dim : nat) : F * list F :=
  foldl (weigh (maximum ss)) (f_zero, replicate dim f_zero) (zip ss values).
Definition attend (scale : F) (q : list F) (keys values : list (list F)) (dim : nat) : list F :=
  let '(d, acc) := weighted (scores scale q keys) values dim in
  (λ x, f_div x d) <$> acc.

(** The floats of a vector of elements. *)
Definition floats (l : list T) : list F := as_float <$> l.

Lemma axpy_length w acc value : length value = length acc → length (axpy w acc value) = length acc.
Proof. unfold axpy. rewrite length_zip_with. lia. Qed.

Lemma weigh_length m s x :
  length (snd x) = length (snd s) → length (snd (weigh m s x)) = length (snd s).
Proof. apply axpy_length. Qed.

Lemma weighted_length ss values dim :
  Forall (λ v, length v = dim) values → length (snd (weighted ss values dim)) = dim.
Proof.
  unfold weighted. generalize (maximum ss). intros m Hv.
  assert (∀ s, length (snd s) = dim →
    length (snd (foldl (weigh m) s (zip ss values))) = dim) as Hg.
  { revert ss. induction Hv as [|v vs Hv Hvs IH]; intros ss s Hs; [by destruct ss|].
    destruct ss as [|x ss]; [done|]. simpl. apply IH. rewrite weigh_length; simpl; congruence. }
  apply Hg. simpl. apply length_replicate.
Qed.

Lemma weighed_acc ss (values : list (list T)) dim :
  Forall (λ v, length v = dim) values →
  length (snd (weighted ss (floats <$> values) dim)) = dim.
Proof.
  intros Hv. apply weighted_length, Forall_fmap. eapply Forall_impl; [exact Hv|].
  intros v Hl. simpl. unfold floats. by rewrite length_fmap.
Qed.
End Spec.

(** ** Vectors of one head *)

Section Vectors.
Context {B T F : Type} `{FloatOps F} `{Element T F}.
Implicit Types a : MemoryAllocator B.

(** The query holds a vector at an index; memory holds one at an address. *)
Definition at_index (query : list T) (q : Z) (xs : list T) : Prop :=
  ∀ i x, xs !! i = Some x → vec_get query (q + Z.of_nat i) = Some x.
Definition in_memory a (ptr : Z) (ys : list T) : Prop :=
  ∀ i y, ys !! i = Some y → load a ptr (Z.of_nat i) = Some y.

Lemma dot_head_spec a query q key xs ys :
  at_index query q xs → in_memory a key ys → length xs = length ys →
  dot_head a query q key (Z.of_nat (length ys)) = Some (dot (floats xs) (floats ys)).
Proof.
  intros Hx Hy Hlen. unfold dot_head, dot, floats.
  assert (length (zip xs ys) = length ys) as <- by (rewrite length_zip; lia).
  rewrite (foldM_indexed _ (λ d z, f_add d (f_mul (as_float (fst z)) (as_float (snd z)))) (zip xs ys)).
  - f_equal. clear. generalize (f_zero (F := F)) as d. revert ys.
    induction xs as [|x xs IH]; intros [|y ys] d; try done. apply IH.
  - intros d i [x y] Hi. apply lookup_zip_Some in Hi as [Hi1 Hi2]. rewrite Z.add_0_l.
    rewrite (Hx i x Hi1). cbn [mbind option_bind]. by rewrite (Hy i y Hi2).
Qed.

Lemma axpy_head_spec a pre seg post (acc : Z) value weight (ys : list T) :
  in_memory a value ys → length seg = length ys → acc = Z.of_nat (length pre) →
  axpy_head a (pre ++ seg ++ post) acc value weight (Z.of_nat (length ys)) =
    Some (pre ++ axpy weight seg (floats ys) ++ post).
Proof.
  intros Hy Hlen ->. unfold axpy_head, axpy, floats.
  rewrite (update_segment _ (λ x y, f_add x (f_mul weight (as_float y)))); [|done|].
  - by rewrite zip_with_fmap_r.
  - intros l i x y Hl Hi. rewrite <-Nat2Z.inj_add, vec_get_nat, Hl. cbn [mbind option_bind].
    rewrite (Hy i y Hi). cbn [mbind option_bind]. apply vec_set_nat. by eapply lookup_lt_Some.
Qed.

Lemma scale_head_spec pre (seg post : list F) (acc : Z) scale (n : nat) :
  length seg = n → acc = Z.of_nat (length pre) →
  scale_head (pre ++ seg ++ post) acc scale (Z.of_nat n) =
    Some (pre ++ ((λ x, f_mul x scale) <$> seg) ++ post).
Proof.
  intros Hlen ->. unfold scale_head. rewrite <-(length_replicate n tt).
  rewrite (update_segment _ (λ x _, f_mul x scale)); [|by rewrite length_replicate|].
  - do 2 f_equal. f_equal. subst n. clear. by induction seg as [|x seg IH]; [|simpl; rewrite IH].
  - intros l i x y Hl _. rewrite <-Nat2Z.inj_add, vec_get_nat, Hl. cbn [mbind option_bind].
    apply vec_set_nat. by eapply lookup_lt_Some.
Qed.

(** Writing a range of the output from a list of floats. *)
Lemma write_segment (f : list T → Z → option (list T)) (h : F → F) pre seg post (xs : list F) :
  length seg = length xs →
  (∀ l i x, (length pre + i < length l)%nat → xs !! i = Some x →
     f l (Z.of_nat i) = Some (<[(length pre + i)%nat := of_float (h x)]> l)) →
  foldM f (pre ++ seg ++ post) (seqZ 0 (Z.of_nat (length xs))) =
    Some (pre ++ (of_float <$> (h <$> xs)) ++ post).
Proof.
  intros Hlen Hf. rewrite (update_segment f (λ _ x, of_float (h x))); [|done|].
  - do 2 f_equal. f_equal. clear Hf. revert seg Hlen.
    induction xs as [|x xs IH]; intros [|y seg] Hlen; [done..|].
    simpl. f_equal. apply IH. by injection Hlen.
  - intros l i x y Hl Hy. apply Hf; [by eapply lookup_lt_Some|done].
Qed.

Lemma write_head_spec pre seg post (d : Z) (acc : list F) denominator n :
  length seg = n → length acc = n → d = Z.of_nat (length pre) →
  write_head (pre ++ seg ++ post) d acc denominator (Z.of_nat n) =
    Some (pre ++ (of_float <$> ((λ x, f_div x denominator) <$> acc)) ++ post).
Proof.
  intros Hlen <- ->. apply write_segment; [done|]. intros l i x Hl Hx.
  rewrite vec_get_nat, Hx. cbn [mbind option_bind]. rewrite <-Nat2Z.inj_add. by apply vec_set_nat.
Qed.

(** ** The two passes *)

Definition scored a query q hd scale (key : Z → Z) : list F * F → Z → option (list F * F) :=
  λ s token, score_token a query q hd scale s token (key token).
Definition weighed a ss m hd (value : Z → Z) : F * list F → Z → option (F * list F) :=
  λ s token, weigh_token a ss m hd s token (value token).

Lemma score_pass a query (q : Z) hd scale key (xs : list T) (keys : list (list T)) old :
  at_index query q xs → length xs = hd → Forall (λ k, length k = hd) keys →
  (∀ i k, keys !! i = Some k → in_memory a (key (Z.of_nat i)) k) →
  length old = length keys →
  foldM (scored a query q (Z.of_nat hd) scale key) (old, f_neg_inf) (seqZ 0 (Z.of_nat (length keys))) =
    Some (scores scale (floats xs) (floats <$> keys),
          maximum (scores scale (floats xs) (floats <$> keys))).
Proof.
  intros Hq Hxs Hk Hmem Hold. unfold maximum.
  assert (∀ pre old ks m, length old = length ks → Forall (λ k, length k = hd) ks →
    (∀ i k, ks !! i = Some k → in_memory a (key (Z.of_nat (length pre + i))) k) →
    foldM (scored a query q (Z.of_nat hd) scale key) (pre ++ old, m)
      (seqZ (Z.of_nat (length pre)) (Z.of_nat (length ks))) =
    Some (pre ++ scores scale (floats xs) (floats <$> ks),
          foldl f_max m (scores scale (floats xs) (floats <$> ks)))) as Hgen.
  { clear - Hq Hxs. intros pre old ks. revert pre old.
    induction ks as [|k ks IH]; intros pre old m Hl Hks Hin.
    { by apply nil_length_inv in Hl as ->. }
    destruct old as [|o old]; [done|]. injection Hl as Hl.
    apply Forall_cons in Hks as [Hk Hks]. cbn [length].
    rewrite Nat2Z.inj_succ, seqZ_cons by lia. cbn [foldM]. rewrite Z.pred_succ.
    pose proof (Hin 0%nat k eq_refl) as Hk0. rewrite Nat.add_0_r in Hk0.
    unfold scored at 2, score_token. rewrite <-Hk, (dot_head_spec a query q _ xs k) by (try done; congruence).
    cbn [mbind option_bind fst snd].
    rewrite vec_set_nat by (rewrite length_app; simpl; lia). cbn [mbind option_bind].
    rewrite insert_app_r_alt, Nat.sub_diag by lia. cbn [insert list_insert].
    rewrite Hk.
    specialize (IH (pre ++ [f_mul (dot (floats xs) (floats k)) scale]) old).
    rewrite length_app in IH. cbn [length] in IH. rewrite <-!(assoc_L (++)) in IH. cbn [app] in IH.
    replace (Z.succ (Z.of_nat (length pre))) with (Z.of_nat (length pre + 1)) by lia.
    rewrite IH; [|done|done|].
    - done.
    - intros i k' Hi. rewrite <-Nat.add_assoc. by apply (Hin (S i)). }
  apply (Hgen [] old keys f_neg_inf Hold Hk). intros i k Hi. by apply Hmem.
Qed.

Lemma weigh_pass a ss hd value (values : list (list T)) :
  Forall (λ v, length v = hd) values → length ss = length values →
  (∀ i x, values !! i = Some x → in_memory a (value (Z.of_nat i)) x) →
  foldM (weighed a ss (maximum ss) (Z.of_nat hd) value) (f_zero, replicate hd f_zero)
    (seqZ 0 (Z.of_nat (length values))) =
    Some (weighted ss (floats <$> values) hd).
Proof.
  intros Hv Hlen Hmem. unfold weighted. generalize (maximum ss). intros m.
  assert (∀ k st ss' vs, length ss' = length vs → Forall (λ v, length v = hd) vs →
    length (snd st) = hd →
    (∀ i x, ss' !! i = Some x → vec_get ss (Z.of_nat (k + i)) = Some x) →
    (∀ i x, vs !! i = Some x → in_memory a (value (Z.of_nat (k + i))) x) →
    foldM (weighed a ss m (Z.of_nat hd) value) st (seqZ (Z.of_nat k) (Z.of_nat (length vs))) =
      Some (foldl (weigh m) st (zip ss' (floats <$> vs)))) as Hgen.
  { clear. intros k st ss' vs. revert k st ss'.
    induction vs as [|v vs IH]; intros k st ss' Hl Hvs Hst Hs Hin.
    { by apply nil_length_inv in Hl as ->. }
    destruct ss' as [|x ss']; [done|]. injection Hl as Hl. apply Forall_cons in Hvs as [Hv Hvs].
    cbn [length]. rewrite Nat2Z.inj_succ, seqZ_cons by lia. cbn [foldM]. rewrite Z.pred_succ.
    pose proof (Hs 0%nat x eq_refl) as Hs0. pose proof (Hin 0%nat v eq_refl) as Hv0.
    rewrite Nat.add_0_r in Hs0, Hv0.
    unfold weighed at 2, weigh_token. rewrite Hs0. cbn [mbind option_bind].
    rewrite <-Hv, <-(app_nil_r (snd st)), <-(app_nil_l (snd st ++ [])).
    rewrite (axpy_head_spec a [] (snd st) [] 0 _ _ v) by (try done; congruence).
    cbn [mbind option_bind app]. rewrite fmap_cons. cbn [zip zip_with foldl].
    replace (Z.succ (Z.of_nat k)) with (Z.of_nat (k + 1)) by lia. rewrite app_nil_r, Hv.
    apply IH; [done|done| | |].
    - simpl. rewrite axpy_length; [done|]. unfold floats. rewrite length_fmap. congruence.
    - intros i y Hy. rewrite <-Nat.add_assoc. by apply (Hs (S i)).
    - intros i y Hy. rewrite <-Nat.add_assoc. by apply (Hin (S i)). }
  apply (Hgen 0%nat); try done.
  - simpl. apply length_replicate.
  - intros i x Hi. by rewrite vec_get_nat.
Qed.
End Vectors.
