(* ===== verification/AttentionCache.v ===== *)
(** The vectors attention reads: what a sequence stores for a token, the addresses
    a view resolves for it, one by one and block by block. *)
From S2P Require Import Prelude.
From S2P Require Import Block.
From S2P Require Import CacheLayout.
From S2P Require Import SwapBackend.
From S2P Require Import BlockTable.
From S2P Require Import MemoryAllocator.
From S2P Require Import AllocatorSpec.
From S2P Require Import AllocatorProps.
From S2P Require Import KVCacheManager.
From S2P Require Import CacheAccounting.
From S2P Require Import AllocatorMoves.
From S2P Require Import CacheInvariant.
From S2P Require Import CacheLemmas.
From S2P Require Import CacheViews.
From S2P Require Import PagedAttention.
From S2P Require Import AttentionLoops.

(** ** The loops over physical blocks cover the context token by token *)

Section Blocks.
Context {B T F : Type} `{FloatOps F} `{Element T F}.
Implicit Types v : CacheView B.
Implicit Types p : PagedAttentionParams F.

Abbreviation tpb_of_view v := (tokens_per_block (shape (view_layout v))).

(** A context the 32-bit block arithmetic handles. *)
Record context_fits v p : Prop := {
  fit_tpb : 0 < tpb_of_view v;
  fit_context : 0 < context_len p;
  fit_sum : context_len p + tpb_of_view v <= W32
}.

Lemma blocks_count v p :
  context_fits v p →
  0 < logical_blocks v p ∧ (logical_blocks v p - 1) * tpb_of_view v < context_len p ∧
  context_len p <= logical_blocks v p * tpb_of_view v.
Proof.
  intros [Ht Hc Hs]. unfold logical_blocks, ceil_blocks.
  set (c := context_len p) in *. set (t := tpb_of_view v) in *.
  assert (u32 (u32 (c + t) - 1) = c + t - 1) as ->.
  { destruct (decide (c + t = W32)) as [He|Hne].
    - rewrite He. reflexivity.
    - rewrite (u32_small (c + t)) by words. apply u32_small. words. }
  pose proof (Z.div_mod (c + t - 1) t ltac:(lia)). pose proof (Z.mod_pos_bound (c + t - 1) t Ht).
  nia.
Qed.

Lemma blocks_of_token v p token :
  context_fits v p → 0 <= token < context_len p →
  0 <= token / tpb_of_view v < logical_blocks v p.
Proof.
  intros Hf Htk. destruct (blocks_count v p Hf) as (_ & _ & Hle). destruct Hf as [Ht _ _].
  split; [by apply Z.div_pos; lia|]. apply Z.div_lt_upper_bound; lia.
Qed.

Lemma frames_of_context_spec v p frames :
  frames_of_context v p = Some frames → 0 <= logical_blocks v p →
  Z.of_nat (length frames) = logical_blocks v p ∧
  ∀ logical, 0 <= logical < logical_blocks v p → ∃ base,
    vec_get frames logical = Some base ∧
    block_bytes v logical (if per_layer_frames (shape (view_layout v)) then pa_layer p else 0)
      = Some base.
Proof.
  unfold frames_of_context. intros Hm Hn. apply mapM_Some in Hm.
  pose proof (Forall2_length _ _ _ Hm) as Hlen. rewrite length_seqZ in Hlen.
  split; [lia|]. intros logical Hl.
  destruct (Forall2_lookup_l _ _ _ (Z.to_nat logical) logical Hm) as (base & Hb & Hbb).
  { apply lookup_seqZ. lia. }
  exists base. split; [|done]. unfold vec_get. by rewrite (proj2 (Z.leb_le 0 logical)) by lia.
Qed.

Lemma frames_of_context_None v p :
  frames_of_context v p = None →
  ∃ logical, 0 <= logical < logical_blocks v p ∧
    block_bytes v logical (if per_layer_frames (shape (view_layout v)) then pa_layer p else 0)
      = None.
Proof.
  unfold frames_of_context. intros Hm. apply mapM_None, Exists_exists in Hm as (l & Hl & Hn).
  apply elem_of_seqZ in Hl. exists l. split; [lia|done].
Qed.

(** Blocks of tokens, one after the other, are the tokens in order. *)
Lemma foldM_by_blocks {S} (step : S → Z → option S) (n : nat) (t c : Z) s :
  0 < t → 0 <= c →
  foldM (λ s logical, foldM step s (seqZ (logical * t) (Z.min (logical * t + t) c - logical * t)))
    s (seqZ 0 (Z.of_nat n)) =
  foldM step s (seqZ 0 (Z.min (Z.of_nat n * t) c)).
Proof.
  intros Ht Hc. induction n as [|n IH].
  - rewrite Z.min_l by lia. done.
  - rewrite Nat2Z.inj_succ. unfold Z.succ. rewrite seqZ_app, foldM_app, IH by lia.
    rewrite Z.add_0_l. replace (seqZ (Z.of_nat n) 1) with [Z.of_nat n] by
      (rewrite seqZ_cons by lia; by replace (Z.pred 1) with 0 by lia).
    destruct (Z.le_ge_cases c (Z.of_nat n * t)) as [Hle|Hge].
    + rewrite !Z.min_r by lia. destruct (foldM step s (seqZ 0 c)) as [s'|]; [|done].
      cbn [mbind option_bind foldM]. rewrite seqZ_nil by lia. done.
    + rewrite Z.min_l by lia.
      replace (Z.min ((Z.of_nat n + 1) * t) c) with
        (Z.of_nat n * t + (Z.min (Z.of_nat n * t + t) c - Z.of_nat n * t)) by lia.
      rewrite (seqZ_app 0 (Z.of_nat n * t)) by lia. rewrite foldM_app, Z.add_0_l.
      destruct (foldM step s (seqZ 0 (Z.of_nat n * t))) as [s'|]; [|done].
      cbn [mbind option_bind foldM]. by destruct (foldM step s' _).
Qed.

Lemma over_blocks_flat {S} v p frames body (step : S → Z → option S) s :
  context_fits v p → Z.of_nat (length frames) = logical_blocks v p →
  (∀ s base token, 0 <= token < context_len p →
     vec_get frames (token / tpb_of_view v) = Some base →
     body s base token (token mod tpb_of_view v) = (s' ← step s token; Some (true, s'))) →
  over_blocks v p frames body s = (s' ← foldM step s (seqZ 0 (context_len p)); Some (true, s')).
Proof.
  intros Hf Hlen Hbody. destruct (blocks_count v p Hf) as (Hn & Hlast & Hall).
  pose proof Hf as [Ht Hc Hs]. unfold over_blocks.
  set (t := tpb_of_view v) in *. set (c := context_len p) in *. set (n := logical_blocks v p) in *.
  rewrite (loop_foldM _ (λ s logical,
    foldM step s (seqZ (logical * t) (Z.min (logical * t + t) c - logical * t)))).
  - replace n with (Z.of_nat (Z.to_nat n)) by lia. rewrite foldM_by_blocks by lia.
    by rewrite Z.min_r by lia.
  - intros s' logical [Hl1 Hl2]%elem_of_seqZ. rewrite Z.add_0_l in Hl2.
    assert (is_Some (vec_get frames logical)) as [base Hb].
    { unfold vec_get. rewrite (proj2 (Z.leb_le 0 logical)) by lia. apply lookup_lt_is_Some. lia. }
    rewrite Hb. cbn [mbind option_bind].
    assert (logical * t < c) by nia. assert (0 <= logical * t) by nia.
    rewrite (u32_small (logical * t)) by words.
    assert (Z.min (u32 (logical * t + t)) c = Z.min (logical * t + t) c) as ->.
    { destruct (decide (logical * t + t < W32)); [by rewrite u32_small by words|]. exfalso. lia. }
    apply loop_foldM. intros s'' token [Hk1 Hk2]%elem_of_seqZ.
    assert (token / t = logical) as Hdiv.
    { symmetry. apply (Z.div_unique _ _ _ (token - logical * t)); lia. }
    assert (token mod t = token - logical * t) as Hmod by (rewrite Z.mod_eq by lia; rewrite Hdiv; lia).
    rewrite u32_small by words. rewrite <-Hmod. apply Hbody; [lia|by rewrite Hdiv].
Qed.

(** A body that refuses the first token leaves everything as it was. *)
Lemma over_blocks_refused {S} v p frames body (s : S) :
  context_fits v p → Z.of_nat (length frames) = logical_blocks v p →
  (∀ base token token_in_block, body s base token token_in_block = Some (false, s)) →
  over_blocks v p frames body s = Some (false, s).
Proof.
  intros Hf Hlen Hbody. destruct (blocks_count v p Hf) as (Hn & _). pose proof Hf as [Ht Hc Hs].
  unfold over_blocks. rewrite (seqZ_cons 0) by done. cbn [loop].
  assert (is_Some (vec_get frames 0)) as [base ->].
  { destruct frames; [simpl in Hlen; lia|by eexists]. }
  cbn [mbind option_bind]. rewrite Z.mul_0_l. change (u32 0) with 0. rewrite Z.add_0_l.
  rewrite (u32_small (tpb_of_view v)) by words. rewrite (seqZ_cons 0) by lia. cbn [loop].
  by rewrite Hbody.
Qed.
End Blocks.

(** ** The vectors *)

Section Cache.
Context {B T F : Type} `{SwapBackendLaws B} `{FloatOps F} `{Element T F}.
Implicit Types a : MemoryAllocator B.
Implicit Types m : KVCacheManager B.
Implicit Types v : CacheView B.
Implicit Types p : PagedAttentionParams F.

(** The elements of a vector's bytes. *)
Definition elements (n : nat) (bytes : list byte) : list T :=
  (λ i, from_bytes (slice (i * Z.to_nat sizeof_T) (Z.to_nat sizeof_T) bytes)) <$> seq 0 n.

Lemma elements_length n bytes : length (elements n bytes) = n.
Proof. unfold elements. by rewrite length_fmap, length_seq. Qed.

(** The vector a sequence stores at a position. *)
Definition cached_vector m (sid layer : Z) (stream : KVStream) (token head : Z)
    : option (list T) :=
  let a := allocator_ m in
  let s := pool_shape a in
  tables ← contents m !! sid;
  blocks ← tables !! Z.to_nat (layer_table a layer);
  block ← blocks !! Z.to_nat (token / tpb_of m);
  bytes ← block;
  off ← element_offset (mkKVBlockLayout s) (frame_layer a layer) stream (token mod tpb_of m) head;
  Some (elements (Z.to_nat (head_dim s))
          (slice (Z.to_nat (off * sizeof_T)) (Z.to_nat (head_dim s * sizeof_T)) bytes)).

Lemma read_mem_inside a ptr n bytes i k :
  read_mem a (Some ptr) n = Some bytes → 0 <= i → 0 <= k → i + k <= n →
  read_mem a (Some (ptr + i)) k = Some (slice (Z.to_nat i) (Z.to_nat k) bytes).
Proof.
  unfold read_mem. cbn [mbind option_bind]. destruct (pool_base_ a) as [base|]; [|done].
  cbn [mbind option_bind]. intros Hr Hi Hk Hle.
  destruct ((0 <=? ptr - base) && (0 <=? n) &&
    (ptr - base + n <=? Z.of_nat (length (slab_ a)))) eqn:Hc; [|done]. injection Hr as <-.
  apply andb_true_iff in Hc as [[Hc1%Z.leb_le Hc2%Z.leb_le]%andb_true_iff Hc3%Z.leb_le].
  rewrite !(proj2 (Z.leb_le _ _)) by lia. cbn [andb]. f_equal.
  unfold slice. rewrite skipn_firstn_comm, take_take, drop_drop. f_equal; [lia|]. f_equal. lia.
Qed.

Lemma in_memory_elements a ptr n bytes :
  0 < sizeof_T (T := T) → 0 <= n →
  read_mem a (Some ptr) (n * sizeof_T) = Some bytes →
  in_memory a ptr (elements (Z.to_nat n) bytes).
Proof.
  intros Hs Hn Hr i y Hy. unfold elements in Hy.
  apply list_lookup_fmap_Some in Hy as (j & -> & Hj). apply lookup_seq in Hj as [-> Hj].
  unfold load. rewrite (read_mem_inside _ _ _ _ _ _ Hr) by nia. simpl. do 2 f_equal. f_equal. lia.
Qed.

(** An address [slot] returns holds the vector stored there. *)
Lemma slot_vector m sid kind v stream layer token head addr :
  mgr_wf m → view_pool (allocator_ m) → cache_view m sid kind = Some (Some v) →
  0 <= layer → 0 <= token → 0 <= head →
  sizeof_T (T := T) = bytes_per_element (pool_shape (allocator_ m)) →
  slot (sizeof_T (T := T)) v stream layer token head = Some addr →
  ∃ xs, cached_vector m sid layer stream token head = Some xs ∧
    length xs = Z.to_nat (head_dim (pool_shape (allocator_ m))) ∧ in_memory (allocator_ m) addr xs.
Proof.
  intros Hwf Hvp Hview Hl Htk Hh Hsz Hslot. rewrite Hsz in Hslot.
  destruct (slot_reads _ _ _ _ _ _ _ _ _ Hwf Hvp Hview Hl Htk Hh Hslot)
    as (block & off & Hb & Hoff & Hr).
  assert (view_layout v = mkKVBlockLayout (pool_shape (allocator_ m))) as Hlay.
  { rewrite cache_view_run in Hview by done. destruct (sequences_ m !! sid) as [st|]; [|done].
    destruct (tables st); [done|]. by injection Hview as <-. }
  rewrite Hlay in Hoff. rewrite <-Hsz in Hr.
  destruct (pool_shape_config _ (proj1 (mgr_alloc _ Hwf)) (view_frames _ Hvp)) as [Hps _].
  assert (0 < sizeof_T (T := T)) by (rewrite Hsz, Hps; apply Hvp).
  assert (0 < head_dim (pool_shape (allocator_ m))) as Hd.
  { rewrite Hps. destruct (exact_elements_pos (block_shape (config_ (allocator_ m)))); [apply Hwf| |tauto].
    pose proof (view_elements _ Hvp). lia. }
  exists (elements (Z.to_nat (head_dim (pool_shape (allocator_ m))))
    (slice (Z.to_nat (off * sizeof_T (T := T)))
       (Z.to_nat (head_dim (pool_shape (allocator_ m)) * sizeof_T (T := T))) block)).
  split_and!; [|apply elements_length|].
  - unfold cached_vector. destruct (contents m !! sid) as [tbs|]; [|done].
    cbn [mbind option_bind] in *. destruct (tbs !! _) as [bs|]; [|done].
    cbn [mbind option_bind] in *. rewrite Hb. cbn [mbind option_bind]. by rewrite Hoff.
  - apply in_memory_elements; [done|lia|exact Hr].
Qed.

(** A vector inside the block shape has an offset exactly when the frame stores
    its layer. *)
Lemma element_offset_layer l layer stream token head :
  token < tokens_per_block (shape l) → head < num_kv_heads (shape l) →
  is_Some (element_offset l layer stream token head) ↔ layer < frame_layers (shape l).
Proof.
  intros Ht Hh. unfold element_offset.
  rewrite (proj2 (Z.leb_gt (tokens_per_block (shape l)) token)) by done.
  rewrite (proj2 (Z.leb_gt (num_kv_heads (shape l)) head)) by done. rewrite !orb_false_r.
  destruct (Z.leb_spec (frame_layers (shape l)) layer).
  - split; [by intros []|lia].
  - split; [done|]. intros _. by eexists.
Qed.

(** [slot] in two steps: the frame of the token's block, the vector in it. *)
Lemma slot_by_block m sid kind v p stream token head :
  mgr_wf m → view_pool (allocator_ m) → cache_view m sid kind = Some (Some v) →
  sizeof_T (T := T) = bytes_per_element (shape (view_layout v)) →
  slot (sizeof_T (T := T)) v stream (pa_layer p) token head =
    (base ← block_bytes v (token / tokens_per_block (shape (view_layout v)))
       (if per_layer_frames (shape (view_layout v)) then pa_layer p else 0);
     vector_ptr (T := T) v p stream base (token mod tokens_per_block (shape (view_layout v))) head).
Proof.
  intros Hwf Hvp Hview Hsz. rewrite cache_view_run in Hview by done.
  destruct (sequences_ m !! sid) as [st|] eqn:Hs; [|done].
  destruct (tables st) as [|t0 ts] eqn:Hts; [done|]. injection Hview as <-.
  pose proof (view_of_valid m sid kind st t0 Hwf Hvp) as Hval.
  unfold slot, vector_ptr, offset_layer. rewrite Hval, Hsz, Z.eqb_refl. cbn [negb orb].
  set (v := view_of m sid kind st t0) in *.
  destruct (per_layer_frames (shape (view_layout v))) eqn:Hpl; cbn [andb].
  - change (view_layer_tables v) with (Some (tables st)). cbv beta iota.
    destruct (Z.leb_spec (Z.of_nat (length (tables st))) (pa_layer p)) as [Hle|Hlt].
    + unfold block_bytes. rewrite Hval. change (view_layer_tables v) with (Some (tables st)).
      cbn [negb]. rewrite (proj2 (Z.ltb_ge (pa_layer p) _)) by done.
      rewrite Hts in Hle. cbn [length] in Hle. rewrite (proj2 (Z.eqb_neq (pa_layer p) 0)) by lia.
      done.
    + destruct (block_bytes v _ _); destruct (element_offset _ _ _ _ _); done.
  - destruct (block_bytes v _ _); destruct (element_offset _ _ _ _ _); done.
Qed.
End Cache.
