(* ===== verification/AttentionGroups.v ===== *)
(** The query heads that share a kv head, as the optimised kernels keep them: flat
    vectors indexed by head and position. A loop over the heads of a group is a map
    over the list of their states. *)
From S2P Require Import Prelude.
From S2P Require Import PagedAttention.
From S2P Require Import AttentionLoops.

(** ** Flat vectors *)

Section Segments.
Context {A : Type}.
Implicit Types (pre seg post : list A) (x y : A).

Lemma vec_get_middle pre x post n :
  n = Z.of_nat (length pre) → vec_get (pre ++ x :: post) n = Some x.
Proof. intros ->. by rewrite vec_get_nat, list_lookup_middle. Qed.

Lemma vec_set_middle pre x y post n :
  n = Z.of_nat (length pre) → vec_set (pre ++ x :: post) n y = Some (pre ++ y :: post).
Proof.
  intros ->. rewrite vec_set_nat by (rewrite length_app; simpl; lia).
  by rewrite insert_app_r_alt, Nat.sub_diag by lia.
Qed.

Lemma vec_get_segment pre seg post n (i : nat) x :
  n = Z.of_nat (length pre + i) → seg !! i = Some x →
  vec_get (pre ++ seg ++ post) n = Some x.
Proof.
  intros -> Hi. rewrite vec_get_nat, lookup_app_r, lookup_app_l by
    (try apply lookup_lt_Some in Hi; lia). by replace (_ - _)%nat with i by lia.
Qed.

Lemma vec_set_segment pre seg post n (i : nat) x :
  n = Z.of_nat (length pre + i) → (i < length seg)%nat →
  vec_set (pre ++ seg ++ post) n x = Some (pre ++ <[i := x]> seg ++ post).
Proof.
  intros -> Hi. rewrite vec_set_nat by (rewrite !length_app; lia).
  by rewrite insert_app_r, insert_app_l.
Qed.

(** The pieces of a flat vector. *)
Lemma pieces_exist (n w : nat) (l : list A) :
  length l = (n * w)%nat →
  ∃ pieces, length pieces = n ∧ Forall (λ k, length k = w) pieces ∧ l = concat pieces.
Proof.
  revert l. induction n as [|n IH]; intros l Hl.
  { exists []. apply nil_length_inv in Hl as ->. done. }
  destruct (IH (drop w l)) as (ps & Hn & Hf & Hc); [rewrite length_drop; lia|].
  exists (take w l :: ps). split_and!; [simpl; lia| |].
  - constructor; [rewrite length_take; lia|done].
  - simpl. by rewrite <-Hc, take_drop.
Qed.

Lemma concat_length (w : nat) (pieces : list (list A)) :
  Forall (λ k, length k = w) pieces → length (concat pieces) = (length pieces * w)%nat.
Proof.
  induction 1 as [|k ps Hk _ IH]; [done|]. simpl. rewrite length_app, IH. lia.
Qed.

Lemma concat_middle {X} (φ : X → list A) (L1 L2 : list X) (x : X) :
  concat (φ <$> (L1 ++ x :: L2)) = concat (φ <$> L1) ++ φ x ++ concat (φ <$> L2).
Proof. by rewrite fmap_app, concat_app, fmap_cons. Qed.

Lemma replicate_pieces (n w : nat) x : replicate (n * w) x = concat (replicate n (replicate w x)).
Proof. induction n as [|n IH]; [done|]. simpl. by rewrite replicate_add, IH. Qed.

Lemma concat_front {X} (φ : X → list A) (w : nat) (L1 L2 : list X) :
  Forall (λ z : X, length (φ z) = w) (L1 ++ L2) →
  length (concat (φ <$> L1)) = (length L1 * w)%nat.
Proof.
  intros [H1 _]%Forall_app. rewrite (concat_length w), length_fmap; [done|].
  by apply Forall_fmap.
Qed.

(** Ranges of ranges, in order. *)
Lemma concat_grouped (res : nat → list A) (m n : nat) :
  concat ((λ k, concat ((λ g, res (k * n + g)%nat) <$> seq 0 n)) <$> seq 0 m) =
  concat (res <$> seq 0 (m * n)).
Proof.
  induction m as [|m IH]; [done|].
  rewrite seq_S, fmap_app, concat_app, IH. simpl. rewrite app_nil_r.
  rewrite (Nat.add_comm n), seq_app, fmap_app, concat_app. do 2 f_equal.
  rewrite Nat.add_0_l. replace (seq (m * n) n) with (Nat.add (m * n) <$> seq 0 n)
    by (by rewrite fmap_add_seq, Nat.add_0_r).
  by rewrite <-list_fmap_compose.
Qed.
End Segments.

Lemma foldl_zip_fmap {S X Y X' Y'} (f : S → X' * Y' → S) (g : X → X') (h : Y → Y') s l k :
  foldl f s (zip (g <$> l) (h <$> k)) = foldl (λ s y, f s (g (fst y), h (snd y))) s (zip l k).
Proof. revert s k. induction l as [|x l IH]; intros s [|y k]; [done..|]. apply IH. Qed.

(** A loop that rewrites a part of a vector range by range. *)
Lemma foldM_ranges {A} (f : list A → Z → option (list A)) (res : nat → list A) (w n : nat)
    pre mid post :
  length mid = (n * w)%nat → (∀ g, (g < n)%nat → length (res g) = w) →
  (∀ g pre' seg post', (g < n)%nat → length pre' = (length pre + g * w)%nat →
     length seg = w → f (pre' ++ seg ++ post') (Z.of_nat g) = Some (pre' ++ res g ++ post')) →
  foldM f (pre ++ mid ++ post) (seqZ 0 (Z.of_nat n)) =
    Some (pre ++ concat (res <$> seq 0 n) ++ post).
Proof.
  revert mid post. induction n as [|n IH]; intros mid post Hlen Hres Hf.
  { apply nil_length_inv in Hlen as ->. done. }
  rewrite Nat2Z.inj_succ. unfold Z.succ. rewrite seqZ_app, foldM_app by lia.
  rewrite <-(take_drop (n * w) mid), <-(assoc_L (++)).
  rewrite IH; [|rewrite length_take; lia|intros; apply Hres; lia|intros; apply Hf; try done; lia].
  cbn [mbind option_bind]. rewrite Z.add_0_l.
  replace (seqZ (Z.of_nat n) 1) with [Z.of_nat n] by
    (rewrite seqZ_cons by lia; by replace (Z.pred 1) with 0 by lia).
  cbn [foldM]. rewrite (assoc_L (++) pre). rewrite Hf.
  - cbn [mbind option_bind]. rewrite seq_S, fmap_app, concat_app. simpl.
    by rewrite app_nil_r, <-!(assoc_L (++)).
  - lia.
  - rewrite length_app, (concat_length w), length_fmap, length_seq; [done|].
    apply Forall_fmap, Forall_seq. intros g Hg. apply Hres. lia.
  - rewrite length_drop. lia.
Qed.

(** A loop none of whose iterations leaves the function. *)
Lemma loop_stays {S X} (f : S → X → option (bool * S)) s l s' :
  foldM (λ s x, '(go, s1) ← f s x; if go : bool then Some s1 else None) s l = Some s' →
  loop f s l = Some (true, s').
Proof.
  revert s. induction l as [|x l IH]; intros s; [by intros [= ->]|]. cbn [foldM loop].
  destruct (f s x) as [[[] s1]|]; [|done..]. apply IH.
Qed.

(** ** The heads of a group *)

Section Components.
Context {X S : Type} (enc : list X → S) (P : X → Prop).

Lemma imap_imap (f g : nat → X → X) (L : list X) :
  imap f (imap g L) = imap (λ i x, f i (g i x)) L.
Proof.
  apply list_eq. intros i. rewrite !list_lookup_imap. by destruct (L !! i).
Qed.

(** A loop over the heads whose body updates the state of one. *)
Lemma foldM_components (f : S → Z → option S) (h : nat → X → X) (L : list X) n :
  length L = n → Forall P L → (∀ g x, P x → P (h g x)) →
  (∀ pre x post, length (pre ++ x :: post) = n → Forall P (pre ++ x :: post) →
     f (enc (pre ++ x :: post)) (Z.of_nat (length pre)) =
       Some (enc (pre ++ h (length pre) x :: post))) →
  foldM f (enc L) (seqZ 0 (Z.of_nat n)) = Some (enc (imap h L)).
Proof.
  intros <- HL Hh Hf.
  assert (∀ todo don, length (don ++ todo) = length L → Forall P (don ++ todo) →
    foldM f (enc (don ++ todo)) (seqZ (Z.of_nat (length don)) (Z.of_nat (length todo))) =
      Some (enc (don ++ imap (λ i, h (length don + i)%nat) todo))) as Hgen.
  { induction todo as [|x todo IH]; intros don Hlen HP; [done|]. cbn [length].
    rewrite Nat2Z.inj_succ, seqZ_cons by lia. cbn [foldM]. rewrite Z.pred_succ, Hf by done.
    cbn [mbind option_bind imap].
    specialize (IH (don ++ [h (length don) x])).
    rewrite !length_app, <-!(assoc_L (++)) in IH. cbn [length app] in IH.
    replace (Z.succ (Z.of_nat (length don))) with (Z.of_nat (length don + 1)) by lia.
    rewrite IH.
    - rewrite Nat.add_0_r. do 4 f_equal. apply imap_ext. intros i y _. simpl. f_equal. lia.
    - rewrite <-Hlen, !length_app. simpl. lia.
    - apply Forall_app in HP as [H1 H2]. apply Forall_cons in H2 as [H2 H3].
      apply Forall_app. split; [done|]. constructor; [by apply Hh|done]. }
  by apply (Hgen L []).
Qed.

(** Such a loop for every token. *)
Lemma foldM_rounds {Y} (f : S → Z → option S) (h : Y → nat → X → X) (ys : list Y) (L : list X) :
  Forall P L → (∀ y g x, y ∈ ys → P x → P (h y g x)) →
  (∀ L' i y, length L' = length L → Forall P L' → ys !! i = Some y →
     f (enc L') (Z.of_nat i) = Some (enc (imap (h y) L'))) →
  foldM f (enc L) (seqZ 0 (Z.of_nat (length ys))) =
    Some (enc (imap (λ g x, foldl (λ x y, h y g x) x ys) L)).
Proof.
  intros HL Hh Hf.
  assert (∀ todo k L', length L' = length L → Forall P L' →
    (∀ i y, todo !! i = Some y → ys !! (k + i)%nat = Some y) →
    foldM f (enc L') (seqZ (Z.of_nat k) (Z.of_nat (length todo))) =
      Some (enc (imap (λ g x, foldl (λ x y, h y g x) x todo) L'))) as Hgen.
  { induction todo as [|y todo IH]; intros k L' Hlen HP Hy.
    { simpl. do 2 f_equal. apply list_eq. intros i. rewrite list_lookup_imap. by destruct (L' !! i). }
    cbn [length]. rewrite Nat2Z.inj_succ, seqZ_cons by lia. cbn [foldM]. rewrite Z.pred_succ.
    pose proof (Hy 0%nat y eq_refl) as H0. rewrite Nat.add_0_r in H0. rewrite (Hf _ k y) by done.
    cbn [mbind option_bind]. replace (Z.succ (Z.of_nat k)) with (Z.of_nat (k + 1)) by lia.
    rewrite IH, imap_imap.
    - done.
    - by rewrite length_imap.
    - apply Forall_lookup. intros i x Hi. rewrite list_lookup_imap in Hi.
      destruct (L' !! i) as [x'|] eqn:Hx; [|done]. injection Hi as <-.
      apply Hh; [by eapply list_elem_of_lookup_2|]. by eapply Forall_lookup_1.
    - intros i z Hz. rewrite <-Nat.add_assoc. by apply (Hy (Datatypes.S i)). }
  by apply (Hgen ys 0%nat L).
Qed.
End Components.
