(* ===== verification/AttentionProps.v ===== *)
(** What attention computes: the reference decode step is the attention of the
    vectors the sequence stores, and the blocked one is the same function. *)
From S2P Require Import Prelude.
From S2P Require Import Block.
From S2P Require Import CacheLayout.
From S2P Require Import SwapBackend.
From S2P Require Import BlockTable.
From S2P Require Import MemoryAllocator.
From S2P Require Import AllocatorSpec.
From S2P Require Import AllocatorProps.
From S2P Require Import KVCacheManager.
From S2P Require Import CacheAccounting.
From S2P Require Import AllocatorMoves.
From S2P Require Import CacheInvariant.
From S2P Require Import CacheLemmas.
From S2P Require Import CacheViews.
From S2P Require Import PagedAttention.
From S2P Require Import AttentionLoops.
From S2P Require Import AttentionCache.
From S2P Require Import AttentionGroups.

(** ** One head *)

Section Heads.
Context {B T F : Type} `{FloatOps F} `{Element T F}.
Implicit Types a : MemoryAllocator B.

(** The two passes and the write, over the tokens in order. *)
Definition flat_head a (query : list T) (q hd : Z) (scale : F) (ctx : Z) (key value : Z → Z)
    (s : list F * list T) : option (list F * list T) :=
  '(ss, m) ← foldM (scored a query q hd scale key) (fst s, f_neg_inf) (seqZ 0 ctx);
  '(d, acc) ← foldM (weighed a ss m hd value) (f_zero, replicate (Z.to_nat hd) f_zero) (seqZ 0 ctx);
  out ← write_head (snd s) q acc d hd;
  Some (ss, out).

Lemma at_index_slice (query : list T) (off n : nat) :
  (off + n <= length query)%nat →
  at_index query (Z.of_nat off) (slice off n query) ∧ length (slice off n query) = n.
Proof.
  intros Hle. unfold slice. split.
  - intros i x Hx. rewrite <-Nat2Z.inj_add, vec_get_nat.
    apply lookup_take_Some in Hx as [Hx _]. by rewrite lookup_drop in Hx.
  - rewrite length_take, length_drop. lia.
Qed.

Lemma flat_head_spec a query (h hd : nat) scale key value xs (keys values : list (list T))
    old pre seg post :
  at_index query (Z.of_nat (h * hd)) xs → length xs = hd →
  Forall (λ k, length k = hd) keys → Forall (λ k, length k = hd) values →
  length keys = length values → length old = length keys →
  (∀ i k, keys !! i = Some k → in_memory a (key (Z.of_nat i)) k) →
  (∀ i k, values !! i = Some k → in_memory a (value (Z.of_nat i)) k) →
  length pre = (h * hd)%nat → length seg = hd →
  ∃ ss, length ss = length keys ∧
    flat_head a query (Z.of_nat (h * hd)) (Z.of_nat hd) scale (Z.of_nat (length keys)) key value
      (old, pre ++ seg ++ post) =
    Some (ss, pre ++ (of_float <$> attend scale (floats xs) (floats <$> keys) (floats <$> values) hd)
                ++ post).
Proof.
  intros Hq Hxs Hk Hv Hlen Hold Hmk Hmv Hpre Hseg. unfold flat_head, attend. cbn [fst snd].
  rewrite (score_pass a query _ hd scale key xs keys old) by done. cbn [mbind option_bind].
  set (ss := scores scale (floats xs) (floats <$> keys)).
  assert (length ss = length keys) as Hss by (unfold ss, scores; by rewrite !length_fmap).
  exists ss. split; [done|]. rewrite Nat2Z.id. rewrite Hlen.
  rewrite (weigh_pass a ss hd value values) by (try done; congruence). cbn [mbind option_bind].
  pose proof (weighed_acc ss values hd Hv) as Hacc.
  destruct (weighted ss (floats <$> values) hd) as [d acc]. simpl in Hacc.
  by rewrite write_head_spec by (try done; congruence).
Qed.
End Heads.

(** ** The heads of the output *)

(** A loop that rewrites the output range by range. *)
Lemma foldM_chunks {X T} (f : list X * list T → Z → option (list X * list T))
    (I : list X → Prop) (res : nat → list T) (w n : nat) ss out :
  I ss → (n * w <= length out)%nat → (∀ h, (h < n)%nat → length (res h) = w) →
  (∀ h ss pre seg post, (h < n)%nat → I ss → length pre = (h * w)%nat → length seg = w →
     ∃ ss', I ss' ∧ f (ss, pre ++ seg ++ post) (Z.of_nat h) = Some (ss', pre ++ res h ++ post)) →
  ∃ ss', I ss' ∧ foldM f (ss, out) (seqZ 0 (Z.of_nat n)) =
    Some (ss', concat (res <$> seq 0 n) ++ drop (n * w) out).
Proof.
  intros Hss Hlen Hres Hf.
  assert (∀ k, (k <= n)%nat → ∃ ss', I ss' ∧ foldM f (ss, out) (seqZ 0 (Z.of_nat k)) =
    Some (ss', concat (res <$> seq 0 k) ++ drop (k * w) out)) as Hgen; [|by apply Hgen].
  induction k as [|k IH]; intros Hk; [by exists ss|].
  destruct IH as (ss1 & H1 & Hrun); [lia|].
  rewrite Nat2Z.inj_succ. unfold Z.succ. rewrite seqZ_app, foldM_app, Hrun by lia.
  cbn [mbind option_bind]. rewrite Z.add_0_l.
  replace (seqZ (Z.of_nat k) 1) with [Z.of_nat k] by
    (rewrite seqZ_cons by lia; by replace (Z.pred 1) with 0 by lia).
  assert (length (concat (res <$> seq 0 k)) = (k * w)%nat) as Hpre.
  { rewrite (concat_length w), length_fmap, length_seq; [done|].
    apply Forall_fmap, Forall_seq. intros h Hh. apply Hres. lia. }
  assert (S k * w <= n * w)%nat by (apply Nat.mul_le_mono_r; lia).
  destruct (Hf k ss1 (concat (res <$> seq 0 k)) (take w (drop (k * w) out)) (drop (S k * w) out))
    as (ss2 & H2 & Hstep); [lia|done|done|rewrite length_take, length_drop; lia|].
  exists ss2. split; [done|]. cbn [foldM].
  replace (drop (k * w) out) with (take w (drop (k * w) out) ++ drop (S k * w) out).
  2:{ replace (S k * w)%nat with (k * w + w)%nat by lia. rewrite <-drop_drop. apply take_drop. }
  rewrite Hstep. cbn [mbind option_bind]. rewrite seq_S, fmap_app, concat_app. simpl.
  by rewrite app_nil_r, <-(assoc_L (++)).
Qed.

(** ** The reference *)

Lemma lookup_bind_uniform {X Y} (f : X → list Y) (l : list X) (n i j : nat) :
  (∀ x, length (f x) = n) → (j < n)%nat →
  (l ≫= f) !! (i * n + j)%nat = x ← l !! i; f x !! j.
Proof.
  intros Hn Hj. revert i. induction l as [|x l IH]; intros i.
  - by rewrite lookup_nil.
  - rewrite bind_cons. destruct i as [|i]; simpl.
    + by rewrite lookup_app_l by (rewrite Hn; lia).
    + rewrite lookup_app_r by (rewrite Hn; lia). rewrite Hn, <-IH. f_equal. lia.
Qed.

Lemma resolved_positions_lookup kv_heads ctx kv_head token :
  0 <= kv_head < kv_heads → 0 <= token < ctx →
  resolved_positions kv_heads ctx !! Z.to_nat (kv_head * ctx + token) = Some (kv_head, token).
Proof.
  intros Hk Ht. unfold resolved_positions.
  replace (Z.to_nat (kv_head * ctx + token)) with (Z.to_nat kv_head * Z.to_nat ctx + Z.to_nat token)%nat
    by nia.
  rewrite lookup_bind_uniform; [|intros; by rewrite length_fmap, length_seqZ|lia].
  rewrite lookup_seqZ_lt by lia. cbn [mbind option_bind].
  rewrite list_lookup_fmap, lookup_seqZ_lt by lia. simpl. do 2 f_equal; lia.
Qed.

Lemma resolved_positions_elem kv_heads ctx kv_head token :
  (kv_head, token) ∈ resolved_positions kv_heads ctx ↔
  0 <= kv_head < kv_heads ∧ 0 <= token < ctx.
Proof.
  unfold resolved_positions. rewrite list_elem_of_bind. setoid_rewrite elem_of_seqZ. split.
  - intros (k & Hx & Hk). apply list_elem_of_fmap in Hx as (t & Heq & Ht%elem_of_seqZ).
    injection Heq as -> ->. lia.
  - intros [Hk Ht]. exists kv_head. split; [|lia]. apply list_elem_of_fmap. exists token.
    split; [done|]. apply elem_of_seqZ. lia.
Qed.

Section View.
Context {B T F : Type} `{SwapBackendLaws B} `{FloatOps F} `{Element T F}.

(** Parameters of the types the code gives them. *)
Definition params_typed (p : PagedAttentionParams F) : Prop :=
  is_u32 (pa_layer p) ∧ is_u32 (num_query_heads p) ∧ is_u32 (context_len p).

(** Every vector of the context has an address. *)
Definition resolves (v : CacheView B) (p : PagedAttentionParams F) : Prop :=
  ∀ kv_head token, 0 <= kv_head < num_kv_heads (shape (view_layout v)) →
    0 <= token < context_len p →
    is_Some (slot (sizeof_T (T := T)) v Key (pa_layer p) token kv_head) ∧
    is_Some (slot (sizeof_T (T := T)) v Value (pa_layer p) token kv_head).

(** The vectors a sequence stores for a kv head, and the attention of a query over
    them. *)
Definition cached (m : KVCacheManager B) (sid : Z) (p : PagedAttentionParams F)
    (stream : KVStream) (kv_head : Z) : list (list T) :=
  (λ token, default [] (cached_vector m sid (pa_layer p) stream token kv_head))
    <$> seqZ 0 (context_len p).
Definition attention_head (m : KVCacheManager B) (sid : Z) (p : PagedAttentionParams F)
    (query : list T) (h : nat) : list T :=
  let s := pool_shape (allocator_ m) in
  let hd := Z.to_nat (head_dim s) in
  let kv_head := Z.of_nat h / (num_query_heads p / num_kv_heads s) in
  of_float <$> attend (pa_scale p) (floats (slice (h * hd) hd query))
    (floats <$> cached m sid p Key kv_head) (floats <$> cached m sid p Value kv_head) hd.
Definition attention m sid p query : list T :=
  concat (attention_head m sid p query <$> seq 0 (Z.to_nat (num_query_heads p))).

Context (m : KVCacheManager B) (sid : Z) (kind : CacheKind) (v : CacheView B).
Context (Hwf : mgr_wf m) (Hvp : view_pool (allocator_ m)).
Context (Hview : cache_view m sid kind = Some (Some v)).

Abbreviation pool := (allocator_ m).
Abbreviation pshape := (pool_shape pool).

Lemma view_parts :
  view_layout v = mkKVBlockLayout pshape ∧ view_allocator v = Some pool ∧ view_valid v = true.
Proof.
  pose proof Hview as Hv. rewrite cache_view_run in Hv by done.
  destruct (sequences_ m !! sid) as [st|]; [|done]. destruct (tables st) as [|t0 ts]; [done|].
  injection Hv as <-. split_and!; [done..|]. by apply view_of_valid.
Qed.

Context (p : PagedAttentionParams F) (q o : list T).
Context (Htyped : params_typed p) (Hacc : accepts v (Some q) (Some o) p = true).

Abbreviation gs := (num_query_heads p / num_kv_heads pshape).
Abbreviation hd := (head_dim pshape).

Lemma shape_facts :
  0 < num_kv_heads pshape ∧ 0 < hd ∧ 0 < tokens_per_block pshape ∧
  tokens_per_block pshape = tpb_of m ∧ sizeof_T (T := T) = bytes_per_element pshape.
Proof.
  destruct (pool_shape_config _ (proj1 (mgr_alloc _ Hwf)) (view_frames _ Hvp)) as [Hps Htp].
  destruct (exact_elements_pos (block_shape (config_ pool))) as (_ & _ & Ht & Hk & Hd);
    [apply Hwf|pose proof (view_elements _ Hvp); lia|].
  destruct view_parts as (Hl & _ & Hval). unfold accepts in Hacc.
  rewrite Hl, Hval in Hacc. cbn [shape andb] in Hacc.
  apply negb_true_iff in Hacc. apply orb_false_iff in Hacc as [Hacc' _].
  repeat apply orb_false_iff in Hacc' as [Hacc' _]. apply negb_false_iff, Z.eqb_eq in Hacc'.
  rewrite Hps in *. by unfold tpb_of.
Qed.

Lemma params_facts :
  0 < context_len p ∧ 0 <= pa_layer p ∧ 0 < num_query_heads p ∧
  0 < gs ∧ num_query_heads p = num_kv_heads pshape * gs ∧
  ∀ h, 0 <= h < num_query_heads p → 0 <= h / gs < num_kv_heads pshape.
Proof.
  destruct shape_facts as (Hk & _). destruct view_parts as (Hl & _ & Hval).
  destruct Htyped as ([Hl0 _] & [Hq0 _] & [Hc0 _]).
  pose proof Hacc as Ha. unfold accepts in Ha. rewrite Hl, Hval in Ha. cbn [shape andb] in Ha.
  apply negb_true_iff in Ha. apply orb_false_iff in Ha as [Ha Hm%negb_false_iff%Z.eqb_eq].
  apply orb_false_iff in Ha as [Ha Hq%Z.eqb_neq]. apply orb_false_iff in Ha as [Ha _].
  apply orb_false_iff in Ha as [_ Hc%Z.eqb_neq].
  pose proof (Z.div_mod (num_query_heads p) (num_kv_heads pshape) ltac:(lia)) as Hdm.
  assert (0 < gs) as Hgs by nia. split_and!; [lia..|done|lia|].
  intros h Hh. split; [apply Z.div_pos; lia|]. apply Z.div_lt_upper_bound; nia.
Qed.

(** The addresses of the context. *)
Abbreviation address stream kv_head :=
  (λ token, default 0 (slot (sizeof_T (T := T)) v stream (pa_layer p) token kv_head)).

Lemma resolve_cases :
  match mapM (resolve (T := T) v p) (resolved_positions (num_kv_heads pshape) (context_len p)) with
  | Some resolved => resolves v p ∧
      ∀ kv_head token, 0 <= kv_head < num_kv_heads pshape → 0 <= token < context_len p →
        vec_get resolved (kv_head * context_len p + token) =
          Some (address Key kv_head token, address Value kv_head token)
  | None => ¬ resolves v p
  end.
Proof.
  destruct view_parts as (Hl & _ & _).
  destruct (mapM _ _) as [resolved|] eqn:Hm.
  - apply mapM_Some in Hm.
    assert (∀ kv_head token, 0 <= kv_head < num_kv_heads pshape → 0 <= token < context_len p →
      ∃ k w, slot (sizeof_T (T := T)) v Key (pa_layer p) token kv_head = Some k ∧
        slot (sizeof_T (T := T)) v Value (pa_layer p) token kv_head = Some w ∧
        vec_get resolved (kv_head * context_len p + token) = Some (k, w)) as Hall.
    { intros kv_head token Hk Ht.
      pose proof (resolved_positions_lookup _ _ kv_head token Hk Ht) as Hp.
      destruct (Forall2_lookup_l _ _ _ _ _ Hm Hp) as ([k w] & Hr & Hres).
      unfold resolve in Hres. apply bind_Some in Hres as (k' & Hk' & Hres).
      apply bind_Some in Hres as (w' & Hw' & Hres). injection Hres as -> ->.
      exists k, w. split_and!; [done..|]. unfold vec_get.
      by rewrite (proj2 (Z.leb_le 0 (kv_head * context_len p + token))) by nia. }
    split.
    + intros kv_head token Hk Ht. rewrite Hl in Hk.
      destruct (Hall kv_head token Hk Ht) as (k & w & -> & -> & _). done.
    + intros kv_head token Hk Ht. by destruct (Hall kv_head token Hk Ht) as (k & w & -> & -> & ->).
  - apply mapM_None, Exists_exists in Hm as ([kv_head token] & Hin & Hn).
    apply resolved_positions_elem in Hin as [Hk Ht]. intros Hr.
    assert (0 <= kv_head < num_kv_heads (shape (view_layout v))) as Hk' by (rewrite Hl; exact Hk).
    destruct (Hr kv_head token Hk' Ht) as [[k Hk1] [w Hw1]].
    unfold resolve in Hn. by rewrite Hk1, Hw1 in Hn.
Qed.

Lemma decode_head_flat resolved h st :
  (∀ kv_head token, 0 <= kv_head < num_kv_heads pshape → 0 <= token < context_len p →
     vec_get resolved (kv_head * context_len p + token) =
       Some (address Key kv_head token, address Value kv_head token)) →
  0 <= h < num_query_heads p →
  decode_head pool q resolved p hd gs st h =
    flat_head pool q (h * hd) hd (pa_scale p) (context_len p) (address Key (h / gs))
      (address Value (h / gs)) st.
Proof.
  intros Hres Hh. destruct params_facts as (_ & _ & _ & _ & _ & Hkv). specialize (Hkv h Hh).
  unfold decode_head, flat_head.
  rewrite (foldM_ext _ (scored pool q (h * hd) hd (pa_scale p) (address Key (h / gs)))).
  2:{ intros s token Ht%elem_of_seqZ. by rewrite Hres by lia. }
  destruct (foldM (scored _ _ _ _ _ _) _ _) as [[ss mx]|]; [|done]. cbn [mbind option_bind].
  rewrite (foldM_ext _ (weighed pool ss mx hd (address Value (h / gs)))); [done|].
  intros s token Ht%elem_of_seqZ. by rewrite Hres by lia.
Qed.

(** The heads of a context that resolves. *)
Lemma cached_in_memory stream kv_head i xs :
  resolves v p → 0 <= kv_head < num_kv_heads pshape →
  cached m sid p stream kv_head !! i = Some xs →
  length xs = Z.to_nat hd ∧ in_memory pool (address stream kv_head (Z.of_nat i)) xs.
Proof.
  intros Hr Hk Hx. destruct view_parts as (Hl & _ & _).
  destruct shape_facts as (_ & _ & _ & _ & Hsz). destruct params_facts as (_ & Hly & _).
  unfold cached in Hx. apply list_lookup_fmap_Some in Hx as (token & -> & Ht).
  apply lookup_seqZ in Ht as [-> Ht]. rewrite Z.add_0_l.
  assert (0 <= kv_head < num_kv_heads (shape (view_layout v))) as Hk' by (by rewrite Hl).
  assert (is_Some (slot (sizeof_T (T := T)) v stream (pa_layer p) (Z.of_nat i) kv_head)) as [addr Ha].
  { destruct (Hr kv_head (Z.of_nat i) Hk' ltac:(lia)). by destruct stream. }
  destruct (slot_vector (T := T) m sid kind v stream (pa_layer p) (Z.of_nat i) kv_head addr)
    as (ys & Hys & Hlen & Hmem); try done; [lia|lia|]. rewrite Ha, Hys. done.
Qed.

Lemma cached_length stream kv_head :
  length (cached m sid p stream kv_head) = Z.to_nat (context_len p).
Proof. unfold cached. by rewrite length_fmap, length_seqZ. Qed.

Lemma cached_uniform stream kv_head :
  resolves v p → 0 <= kv_head < num_kv_heads pshape →
  Forall (λ k, length k = Z.to_nat hd) (cached m sid p stream kv_head).
Proof.
  intros Hr Hk. apply Forall_lookup. intros i xs Hi.
  by destruct (cached_in_memory stream kv_head i xs Hr Hk Hi).
Qed.

Lemma attention_head_length h :
  resolves v p → (Z.of_nat h < num_query_heads p) →
  length (attention_head m sid p q h) = Z.to_nat hd.
Proof.
  intros Hr Hh. destruct params_facts as (_ & _ & _ & _ & _ & Hkv).
  specialize (Hkv (Z.of_nat h) ltac:(lia)). unfold attention_head, attend.
  pose proof (weighed_acc (scores (pa_scale p) (floats (slice (h * Z.to_nat hd) (Z.to_nat hd) q))
    (floats <$> cached m sid p Key (Z.of_nat h / gs))) (cached m sid p Value (Z.of_nat h / gs))
    (Z.to_nat hd) (cached_uniform Value _ Hr Hkv)) as Hw.
  destruct (weighted _ _ _) as [d acc]. rewrite !length_fmap. exact Hw.
Qed.

Lemma flat_head_cached (h : nat) old pre seg post :
  resolves v p → Z.of_nat h < num_query_heads p →
  (Z.to_nat (num_query_heads p) * Z.to_nat hd <= length q)%nat →
  length old = Z.to_nat (context_len p) →
  length pre = (h * Z.to_nat hd)%nat → length seg = Z.to_nat hd →
  ∃ ss, length ss = Z.to_nat (context_len p) ∧
    flat_head pool q (Z.of_nat h * hd) hd (pa_scale p) (context_len p)
      (address Key (Z.of_nat h / gs)) (address Value (Z.of_nat h / gs)) (old, pre ++ seg ++ post) =
    Some (ss, pre ++ attention_head m sid p q h ++ post).
Proof.
  intros Hr Hh Hq Hold Hpre Hseg. destruct params_facts as (Hc & _ & _ & _ & _ & Hkv).
  specialize (Hkv (Z.of_nat h) ltac:(lia)). destruct shape_facts as (_ & Hd & _).
  destruct (at_index_slice q (h * Z.to_nat hd) (Z.to_nat hd)) as [Hat Hlen].
  { assert (S h * Z.to_nat hd <= Z.to_nat (num_query_heads p) * Z.to_nat hd)%nat
      by (apply Nat.mul_le_mono_r; lia). lia. }
  destruct (flat_head_spec pool q h (Z.to_nat hd) (pa_scale p) (address Key (Z.of_nat h / gs))
    (address Value (Z.of_nat h / gs)) (slice (h * Z.to_nat hd) (Z.to_nat hd) q)
    (cached m sid p Key (Z.of_nat h / gs)) (cached m sid p Value (Z.of_nat h / gs)) old pre seg post)
    as (ss & Hss & Hrun); try done.
  - by apply cached_uniform.
  - by apply cached_uniform.
  - by rewrite !cached_length.
  - by rewrite cached_length.
  - intros i k Hi. by destruct (cached_in_memory Key _ i k Hr Hkv Hi).
  - intros i k Hi. by destruct (cached_in_memory Value _ i k Hr Hkv Hi).
  - exists ss. rewrite cached_length in Hss, Hrun. split; [done|].
    rewrite Nat2Z.inj_mul, !Z2Nat.id in Hrun by lia. exact Hrun.
Qed.

(** The reference on a context that resolves, and on one that does not. *)
Lemma decode_run :
  (Z.to_nat (num_query_heads p) * Z.to_nat hd <= length q)%nat →
  (Z.to_nat (num_query_heads p) * Z.to_nat hd <= length o)%nat →
  (resolves v p ∧ paged_attention_decode v (Some q) p (Some o) =
     Some (true, Some (attention m sid p q ++
                         drop (Z.to_nat (num_query_heads p) * Z.to_nat hd) o))) ∨
  (¬ resolves v p ∧ paged_attention_decode v (Some q) p (Some o) = Some (false, Some o)).
Proof.
  intros Hq Ho. destruct view_parts as (Hl & Ha & _).
  destruct params_facts as (Hc & _ & Hnq & _). destruct shape_facts as (_ & Hd & _).
  unfold paged_attention_decode. rewrite Hacc, Ha, Hl. cbn [shape].
  pose proof resolve_cases as Hcases. destruct (mapM _ _) as [resolved|]; [|by right].
  destruct Hcases as [Hr Hget]. left. split; [done|].
  destruct (foldM_chunks (decode_head pool q resolved p hd gs)
    (λ ss, length ss = Z.to_nat (context_len p))
    (attention_head m sid p q) (Z.to_nat hd) (Z.to_nat (num_query_heads p))
    (replicate (Z.to_nat (context_len p)) f_zero) o) as (ss & Hss & Hrun).
  - by rewrite length_replicate.
  - done.
  - intros h Hh. apply attention_head_length; [done|lia].
  - intros h old pre seg post Hh Hold Hpre Hseg. rewrite decode_head_flat by (try done; lia).
    apply flat_head_cached; try done. lia.
  - rewrite Z2Nat.id in Hrun by lia. rewrite Hrun. cbn [mbind option_bind].
    done.
Qed.

(** ** Block by block *)

Context (Hfits : context_len p + tokens_per_block pshape <= W32).

Lemma view_fits_context : context_fits v p.
Proof.
  destruct view_parts as (Hl & _). destruct shape_facts as (_ & _ & Ht & _).
  destruct params_facts as (Hc & _). split; rewrite ?Hl; done.
Qed.

Lemma slot_at_block stream token kv_head :
  slot (sizeof_T (T := T)) v stream (pa_layer p) token kv_head =
    (base ← block_bytes v (token / tokens_per_block pshape)
       (if per_layer_frames pshape then pa_layer p else 0);
     vector_ptr (T := T) v p stream base (token mod tokens_per_block pshape) kv_head).
Proof.
  destruct view_parts as (Hl & _). destruct shape_facts as (_ & _ & _ & _ & Hsz).
  rewrite (slot_by_block m sid kind) by (try done; by rewrite Hl). by rewrite Hl.
Qed.

Lemma vector_ptr_layer stream base token kv_head :
  0 <= token < tokens_per_block pshape → 0 <= kv_head < num_kv_heads pshape →
  is_Some (vector_ptr (T := T) v p stream base token kv_head) ↔
    offset_layer v p < frame_layers pshape.
Proof.
  destruct view_parts as (Hl & _). intros Ht Hk.
  transitivity (is_Some (element_offset (view_layout v) (offset_layer v p) stream token kv_head)).
  - unfold vector_ptr. destruct (element_offset _ _ _ _ _); split; intros [? ?]; done || by eexists.
  - rewrite element_offset_layer by (rewrite Hl; simpl; lia). by rewrite Hl.
Qed.

Lemma vector_ptr_refused stream base token kv_head :
  frame_layers pshape <= offset_layer v p →
  vector_ptr (T := T) v p stream base token kv_head = None.
Proof.
  destruct view_parts as (Hl & _). intros Hle. unfold vector_ptr, element_offset. rewrite Hl.
  cbn [shape]. by rewrite (proj2 (Z.leb_le _ _) Hle).
Qed.

Lemma frames_cases :
  match frames_of_context v p with
  | None => ¬ resolves v p
  | Some frames =>
    Z.of_nat (length frames) = logical_blocks v p ∧
    ((resolves v p ∧ ∀ stream kv_head token base,
        0 <= kv_head < num_kv_heads pshape → 0 <= token < context_len p →
        vec_get frames (token / tokens_per_block pshape) = Some base →
        vector_ptr (T := T) v p stream base (token mod tokens_per_block pshape) kv_head =
          Some (address stream kv_head token)) ∨
     (¬ resolves v p ∧ frame_layers pshape <= offset_layer v p))
  end.
Proof.
  destruct view_parts as (Hl & _). destruct shape_facts as (Hk & _ & Ht & _).
  pose proof view_fits_context as Hf. destruct (blocks_count v p Hf) as (Hn & Hlast & _).
  rewrite Hl in Hlast. cbn [shape] in Hlast. destruct params_facts as (Hc & _).
  destruct (frames_of_context v p) as [frames|] eqn:Hfr.
  - destruct (frames_of_context_spec v p frames Hfr) as [Hlen Hget]; [lia|]. split; [done|].
    rewrite Hl in Hget. cbn [shape] in Hget.
    assert (∀ token base, 0 <= token < context_len p →
      vec_get frames (token / tokens_per_block pshape) = Some base →
      block_bytes v (token / tokens_per_block pshape)
        (if per_layer_frames pshape then pa_layer p else 0) = Some base) as Hbase.
    { intros token base Htk Hb. pose proof (blocks_of_token v p token Hf Htk) as Hbt.
      rewrite Hl in Hbt. cbn [shape] in Hbt. destruct (Hget _ Hbt) as (b & Hb1 & Hb2). congruence. }
    assert (∀ token, 0 <= token < context_len p →
      is_Some (vec_get frames (token / tokens_per_block pshape))) as Hsome.
    { intros token Htk. pose proof (blocks_of_token v p token Hf Htk) as Hbt.
      rewrite Hl in Hbt. cbn [shape] in Hbt. destruct (Hget _ Hbt) as (b & -> & _). done. }
    destruct (Z.lt_ge_cases (offset_layer v p) (frame_layers pshape)) as [Hlt|Hge].
    + left. split.
      * intros kv_head token Hkv Htk. rewrite Hl in Hkv. destruct (Hsome token Htk) as [base Hb].
        rewrite !slot_at_block, (Hbase token base Htk Hb). cbn [mbind option_bind].
        pose proof (Z.mod_pos_bound token (tokens_per_block pshape) Ht).
        split; by apply vector_ptr_layer.
      * intros stream kv_head token base Hkv Htk Hb.
        rewrite slot_at_block, (Hbase token base Htk Hb). cbn [mbind option_bind].
        pose proof (Z.mod_pos_bound token (tokens_per_block pshape) Ht).
        destruct (proj2 (vector_ptr_layer stream base (token mod tokens_per_block pshape) kv_head
          ltac:(lia) Hkv) Hlt) as [addr ->]. done.
    + right. split; [|done]. intros Hr.
      destruct (Hr 0 0) as [[addr Ha] _]; [rewrite Hl; cbn [shape]; lia|lia|].
      rewrite slot_at_block in Ha. apply bind_Some in Ha as (base & _ & Ha).
      by rewrite vector_ptr_refused in Ha.
  - apply frames_of_context_None in Hfr as (l & Hlr & Hb). intros Hr.
    rewrite Hl in Hb. cbn [shape] in Hb.
    assert (0 <= l * tokens_per_block pshape < context_len p) as Htk by nia.
    destruct (Hr 0 (l * tokens_per_block pshape)) as [[addr Ha] _];
      [rewrite Hl; cbn [shape]; lia|done|].
    rewrite slot_at_block, Z.div_mul, Hb in Ha by lia. done.
Qed.

Lemma blocked_head_flat frames h st :
  Z.of_nat (length frames) = logical_blocks v p →
  (∀ stream kv_head token base,
     0 <= kv_head < num_kv_heads pshape → 0 <= token < context_len p →
     vec_get frames (token / tokens_per_block pshape) = Some base →
     vector_ptr (T := T) v p stream base (token mod tokens_per_block pshape) kv_head =
       Some (address stream kv_head token)) →
  0 <= h < num_query_heads p →
  blocked_head v pool q frames p hd gs st h =
    (s' ← flat_head pool q (h * hd) hd (pa_scale p) (context_len p) (address Key (h / gs))
       (address Value (h / gs)) st; Some (true, s')).
Proof.
  intros Hlen Hptr Hh. destruct view_parts as (Hl & _).
  destruct params_facts as (_ & _ & _ & _ & _ & Hkv). specialize (Hkv h Hh).
  pose proof view_fits_context as Hf. unfold blocked_head, flat_head.
  rewrite (over_blocks_flat v p frames _ (scored pool q (h * hd) hd (pa_scale p)
    (address Key (h / gs)))); [|done..|].
  2:{ intros s base token Htk Hb. rewrite Hl in *. cbn [shape] in *.
      rewrite (Hptr Key (h / gs) token base) by done. done. }
  destruct (foldM (scored _ _ _ _ _ _) _ _) as [[ss mx]|]; [|done]. cbn [mbind option_bind negb].
  rewrite (over_blocks_flat v p frames _ (weighed pool ss mx hd (address Value (h / gs))));
    [|done..|].
  2:{ intros s base token Htk Hb. rewrite Hl in *. cbn [shape] in *.
      rewrite (Hptr Value (h / gs) token base) by done. done. }
  destruct (foldM (weighed _ _ _ _ _) _ _) as [[d acc]|]; [|done]. cbn [mbind option_bind negb].
  by destruct (write_head _ _ _ _ _).
Qed.

Lemma blocked_decode :
  paged_attention_decode_blocked v (Some q) p (Some o) =
    paged_attention_decode v (Some q) p (Some o).
Proof.
  destruct view_parts as (Hl & Ha & _). destruct params_facts as (Hc & _ & Hnq & _).
  unfold paged_attention_decode_blocked, paged_attention_decode. rewrite Hacc, Ha, Hl. cbn [shape].
  pose proof resolve_cases as Hcases. pose proof frames_cases as Hfr.
  destruct (frames_of_context v p) as [frames|].
  - destruct Hfr as [Hlen [[Hr Hptr]|[Hr Hge]]].
    + destruct (mapM _ _) as [resolved|]; [|done]. destruct Hcases as [_ Hget].
      rewrite (loop_foldM _ (decode_head pool q resolved p hd gs)).
      * by destruct (foldM _ _ _) as [[ss o']|].
      * intros st h Hh%elem_of_seqZ. rewrite (blocked_head_flat frames h st) by (try done; lia).
        by rewrite decode_head_flat by (try done; lia).
    + destruct (mapM _ _) as [resolved|]; [by destruct Hcases|].
      rewrite (seqZ_cons 0) by done. cbn [loop]. unfold blocked_head.
      rewrite over_blocks_refused; [done|apply view_fits_context|done|].
      intros. by rewrite vector_ptr_refused.
  - destruct (mapM _ _) as [resolved|]; [by destruct Hcases|done].
Qed.
End View.

(** ** Properties *)

Section Properties.
Context {B T F : Type} `{SwapBackendLaws B} `{FloatOps F} `{Element T F}.
Implicit Types m : KVCacheManager B.
Implicit Types v : CacheView B.
Implicit Types p : PagedAttentionParams F.
Implicit Types q o : list T.

(** C7. The reference decode step reads the cache through its page table and nothing
    else: when every vector of the context resolves, the output is the attention of
    the vectors the sequence stores, head after head, and what follows in the buffer
    is untouched; when one does not, the call refuses and the buffer is as it was. *)
Theorem decode_reads_cache m sid kind v p q o :
  mgr_wf m → view_pool (allocator_ m) → cache_view m sid kind = Some (Some v) →
  params_typed p → accepts v (Some q) (Some o) p = true →
  let n := (Z.to_nat (num_query_heads p) * Z.to_nat (head_dim (pool_shape (allocator_ m))))%nat in
  (n <= length q)%nat → (n <= length o)%nat →
  (resolves (T := T) v p ∧ paged_attention_decode v (Some q) p (Some o) =
     Some (true, Some (attention m sid p q ++ drop n o))) ∨
  (¬ resolves (T := T) v p ∧ paged_attention_decode v (Some q) p (Some o) = Some (false, Some o)).
Proof. intros ? ? ? ? ? n ? ?. by eapply decode_run. Qed.

(** Where the blocks lie makes no difference: two sequences that store the same
    blocks, whatever their frames, pools and sharing, give the same attention. *)
Theorem decode_placement_independent m m' sid sid' kind kind' v v' p q o :
  mgr_wf m → view_pool (allocator_ m) → cache_view m sid kind = Some (Some v) →
  mgr_wf m' → view_pool (allocator_ m') → cache_view m' sid' kind' = Some (Some v') →
  params_typed p → accepts v (Some q) (Some o) p = true →
  let n := (Z.to_nat (num_query_heads p) * Z.to_nat (head_dim (pool_shape (allocator_ m))))%nat in
  (n <= length q)%nat → (n <= length o)%nat →
  pool_shape (allocator_ m') = pool_shape (allocator_ m) →
  contents m' !! sid' = contents m !! sid →
  resolves (T := T) v p → resolves (T := T) v' p →
  paged_attention_decode v' (Some q) p (Some o) = paged_attention_decode v (Some q) p (Some o).
Proof.
  intros Hwf Hvp Hv Hwf' Hvp' Hv' Hp Hacc n Hq Ho Hshape Hc Hr Hr'.
  pose proof (view_parts m sid kind v Hwf Hvp Hv) as (Hl & _ & Hval).
  pose proof (view_parts m' sid' kind' v' Hwf' Hvp' Hv') as (Hl' & _ & Hval').
  assert (accepts v' (Some q) (Some o) p = true) as Hacc'.
  { unfold accepts in *. rewrite Hl', Hshape, <-Hl, Hval'. rewrite Hval in Hacc. exact Hacc. }
  destruct (decode_run m sid kind v Hwf Hvp Hv p q o Hp Hacc Hq Ho) as [[_ ->]|[? _]]; [|done].
  destruct (decode_run m' sid' kind' v' Hwf' Hvp' Hv' p q o Hp Hacc') as [[_ ->]|[? _]];
    [by rewrite Hshape..| |done].
  assert (tpb_of m' = tpb_of m) as Htpb.
  { destruct (shape_facts m sid kind v Hwf Hvp Hv p q o Hacc) as (_ & _ & _ & <- & _).
    destruct (shape_facts m' sid' kind' v' Hwf' Hvp' Hv' p q o Hacc') as (_ & _ & _ & <- & _).
    by rewrite Hshape. }
  assert (∀ stream token head, cached_vector (T := T) m' sid' (pa_layer p) stream token head =
    cached_vector m sid (pa_layer p) stream token head) as Hcv.
  { intros. unfold cached_vector, layer_table, frame_layer. by rewrite Hshape, Hc, Htpb. }
  rewrite Hshape. do 4 f_equal. unfold attention, attention_head, cached. rewrite Hshape.
  f_equal. apply list_fmap_ext. intros i h _. by setoid_rewrite Hcv.
Qed.

(** C8. The blocked form is the reference, result and output bit for bit, for any
    arithmetic: one page-table walk per block finds the same vectors, and the sums
    are formed in the same order. Only the contexts within a block of the end of the
    32-bit range are excluded, where its block arithmetic wraps. *)
Theorem blocked_equals_reference m sid kind v p (query out : option (list T)) :
  mgr_wf m → view_pool (allocator_ m) → cache_view m sid kind = Some (Some v) →
  params_typed p →
  context_len p + tokens_per_block (pool_shape (allocator_ m)) <= W32 →
  paged_attention_decode_blocked v query p out = paged_attention_decode v query p out.
Proof.
  intros Hwf Hvp Hv Hp Hfit. destruct (accepts v query out p) eqn:Hacc.
  - destruct query as [q|], out as [o|]; [|done..]. by eapply blocked_decode.
  - unfold paged_attention_decode_blocked, paged_attention_decode.
    destruct query as [q|], out as [o|]; [|done..]. rewrite Hacc. by destruct (view_allocator v).
Qed.
End Properties.
