(* ===== verification/AttentionFused.v ===== *)
(** The optimised kernels, one kv head at a time: what each loop over the query heads
    of a group does to the state of every head. *)
From S2P Require Import Prelude.
From S2P Require Import Block.
From S2P Require Import CacheLayout.
From S2P Require Import BlockTable.
From S2P Require Import MemoryAllocator.
From S2P Require Import KVCacheManager.
From S2P Require Import PagedAttention.
From S2P Require Import AttentionLoops.
From S2P Require Import AttentionGroups.

(** ** Pure steps *)

Section Steps.
Context {T F : Type} `{FloatOps F} `{Element T F}.

(** A token seen by one query head: its score noted and the maximum raised. *)
Definition score_one (score : list T → F) (y : nat * list T) (x : list F * F) : list F * F :=
  (<[fst y := score (snd y)]> (fst x), f_max (snd x) (score (snd y))).

(** A token weighed by one query head, by the scores noted before. *)
Definition weigh_one (ss : list F) (m : F) (y : nat * list T) (x : F * list F) : F * list F :=
  weigh m x (default f_zero (ss !! fst y), floats (snd y)).

(** The online softmax of one query head. *)
Definition online_one (s : F) (v : list F) (x : F * F * list F) : F * F * list F :=
  let '(m, d, acc) := x in
  let new_max := f_max m s in
  let rescale := f_exp (f_sub m new_max) in
  let weight := f_exp (f_sub s new_max) in
  let acc := if negb (f_eqb m new_max) && negb (f_eqb d f_zero)
             then (λ x, f_mul x rescale) <$> acc else acc in
  (new_max, f_add (f_mul d rescale) weight, axpy weight acc v).

(** The online softmax over all tokens. *)
Definition online_run (ss : list F) (values : list (list F)) (dim : nat) : F * F * list F :=
  foldl (λ x y, online_one (fst y) (snd y) x) (f_neg_inf, f_zero, replicate dim f_zero)
    (zip ss values).

Lemma online_one_length s v x :
  length v = length (snd x) → length (snd (online_one s v x)) = length (snd x).
Proof.
  destruct x as [[m d] acc]. simpl. intros Hv.
  rewrite axpy_length; destruct (negb _ && negb _); rewrite ?length_fmap; done.
Qed.

Lemma online_run_length ss values dim :
  Forall (λ v, length v = dim) values → length (snd (online_run ss values dim)) = dim.
Proof.
  intros Hv. unfold online_run.
  assert (∀ x, length (snd x) = dim →
    length (snd (foldl (λ x y, online_one (fst y) (snd y) x) x (zip ss values))) = dim) as Hg.
  { revert ss. induction Hv as [|v vs Hv Hvs IH]; intros ss x Hx; [by destruct ss|].
    destruct ss as [|s ss]; [done|]. apply IH. rewrite online_one_length; simpl; congruence. }
  apply Hg, length_replicate.
Qed.

Lemma score_one_rounds (score : list T → F) (keys : list (list T)) old m :
  length old = length keys →
  foldl (λ x y, score_one score y x) (old, m) (imap pair keys) =
    (score <$> keys, foldl f_max m (score <$> keys)).
Proof.
  assert (∀ ks pre old m, length old = length ks →
    foldl (λ x y, score_one score y x) (pre ++ old, m) (imap (λ i k, ((length pre + i)%nat, k)) ks)
      = (pre ++ (score <$> ks), foldl f_max m (score <$> ks))) as Hgen.
  { clear. induction ks as [|k ks IH]; intros pre old m Hl.
    { by apply nil_length_inv in Hl as ->. }
    destruct old as [|o old]; [done|]. injection Hl as Hl. cbn [imap foldl].
    unfold score_one at 2. cbn [fst snd]. rewrite Nat.add_0_r, insert_app_r_alt, Nat.sub_diag by lia.
    cbn [insert list_insert]. specialize (IH (pre ++ [score k]) old (f_max m (score k)) Hl).
    rewrite length_app, <-!(assoc_L (++)) in IH. cbn [length app] in IH.
    rewrite fmap_cons. cbn [foldl]. rewrite <-IH. f_equal. apply imap_ext. intros i z _. simpl.
    f_equal. lia. }
  intros Hl. apply (Hgen keys [] old m Hl).
Qed.

Lemma weigh_one_rounds (ss : list F) m (values : list (list T)) x :
  length ss = length values →
  foldl (λ x y, weigh_one ss m y x) x (imap pair values) =
    foldl (weigh m) x (zip ss (floats <$> values)).
Proof.
  assert (∀ vs k ss' x, length ss' = length vs →
    (∀ i s, ss' !! i = Some s → ss !! (k + i)%nat = Some s) →
    foldl (λ x y, weigh_one ss m y x) x (imap (λ i v, ((k + i)%nat, v)) vs) =
      foldl (weigh m) x (zip ss' (floats <$> vs))) as Hgen.
  { clear. induction vs as [|v vs IH]; intros k ss' x Hl Hs.
    { by apply nil_length_inv in Hl as ->. }
    destruct ss' as [|s ss']; [done|]. injection Hl as Hl. cbn [imap foldl]. rewrite fmap_cons.
    cbn [zip zip_with foldl]. unfold weigh_one at 2. cbn [fst snd].
    rewrite (Hs 0%nat s eq_refl). cbn [default].
    rewrite <-(IH (Datatypes.S k) ss'); [|done|].
    - f_equal. apply imap_ext. intros i z _. simpl. f_equal. lia.
    - intros i z Hz. rewrite <-(Hs (Datatypes.S i) z Hz). f_equal. lia. }
  intros Hl. apply (Hgen values 0%nat ss x Hl). by intros.
Qed.
End Steps.

(** ** The loops over a group *)

Section Group.
Context {B T F : Type} `{FloatOps F} `{Element T F}.
Context (a : MemoryAllocator B) (query : list T) (p : PagedAttentionParams F).
Context (hd gs ctx : nat) (kv_head : Z) (xs : nat → list T).
Context (Hctx : context_len p = Z.of_nat ctx).
Context (Hxs : ∀ g, (g < gs)%nat → length (xs g) = hd ∧
  at_index query ((kv_head ⊠ Z.of_nat gs ⊞ Z.of_nat g) * Z.of_nat hd) (xs g)).

(** The score of a key for a query head of the group. *)
Definition group_score (g : nat) (k : list T) : F :=
  f_mul (pa_scale p) (dot (floats (xs g)) (floats k)).

Definition score_state (L : list (list F * F)) : list F * list F :=
  (concat (fst <$> L), snd <$> L).
Definition weigh_state (L : list (F * list F)) : list F * list F :=
  (fst <$> L, concat (snd <$> L)).
Definition online_state (L : list (F * F * list F)) : list F * list F * list F :=
  (fst ∘ fst <$> L, snd ∘ fst <$> L, concat (snd <$> L)).

Lemma dot_head_group g key k :
  (g < gs)%nat → in_memory a key k → length k = hd →
  dot_head a query ((kv_head ⊠ Z.of_nat gs ⊞ Z.of_nat g) * Z.of_nat hd) key (Z.of_nat hd) =
    Some (dot (floats (xs g)) (floats k)).
Proof.
  intros Hg Hk Hlen. destruct (Hxs g Hg) as [Hl Hat]. rewrite <-Hlen at 2.
  apply dot_head_spec; [done..|congruence].
Qed.

Lemma score_group_spec L i key k :
  length L = gs → Forall (λ x, length (fst x) = ctx) L → (i < ctx)%nat →
  in_memory a key k → length k = hd →
  score_group a query p (Z.of_nat hd) (Z.of_nat gs) kv_head (score_state L) (Z.of_nat i) key =
    Some (score_state (imap (λ g, score_one (group_score g) (i, k)) L)).
Proof.
  intros HL HP Hi Hk Hlen. unfold score_group.
  apply (foldM_components score_state (λ x, length (fst x) = ctx)
    _ (λ g, score_one (group_score g) (i, k))); [done..| |].
  { intros g x Hx. simpl. by rewrite length_insert. }
  intros pre x post Hl Hf.
  assert (length pre < gs)%nat as Hg by (rewrite <-Hl, length_app; simpl; lia).
  rewrite (dot_head_group _ _ k) by done. cbn [mbind option_bind].
  unfold score_state. rewrite !concat_middle. cbn [fst snd]. rewrite !fmap_app, !fmap_cons.
  pose proof (concat_front fst ctx pre (x :: post) Hf) as Hpre.
  assert (length (fst x) = ctx) as Hx by (apply Forall_app in Hf as [_ Hf]; by inversion Hf).
  rewrite (vec_set_segment _ _ _ _ i) by (rewrite ?Hpre, ?Hx, ?Hctx; lia). cbn [mbind option_bind].
  rewrite vec_get_middle by (by rewrite length_fmap). cbn [mbind option_bind].
  by rewrite vec_set_middle by (by rewrite length_fmap).
Qed.

Lemma weigh_group_spec ss ms L i value v :
  length L = gs → Forall (λ x, length (snd x) = hd) L → (i < ctx)%nat →
  (∀ g, (g < gs)%nat → length (ss g) = ctx) →
  in_memory a value v → length v = hd →
  weigh_group a (concat (ss <$> seq 0 gs)) (ms <$> seq 0 gs) p (Z.of_nat hd) (Z.of_nat gs)
    (weigh_state L) (Z.of_nat i) value =
    Some (weigh_state (imap (λ g, weigh_one (ss g) (ms g) (i, v)) L)).
Proof.
  intros HL HP Hi Hss Hv Hlen. unfold weigh_group.
  apply (foldM_components weigh_state (λ x, length (snd x) = hd)
    _ (λ g, weigh_one (ss g) (ms g) (i, v))); [done..| |].
  { intros g x Hx. unfold weigh_one. rewrite weigh_length; [done|]. simpl. unfold floats.
    rewrite length_fmap. congruence. }
  intros pre x post Hl Hf. set (g := length pre) in *.
  assert (g < gs)%nat as Hg by (rewrite <-Hl, length_app; simpl; lia).
  assert (seq 0 gs = seq 0 g ++ g :: seq (S g) (gs - S g)) as Hseq.
  { replace gs with (g + S (gs - S g))%nat at 1 by lia. by rewrite seq_app. }
  destruct (lookup_lt_is_Some_2 (ss g) i) as [s Hs]; [by rewrite Hss|].
  rewrite Hseq, concat_middle, fmap_app, fmap_cons.
  rewrite (vec_get_segment _ (ss g) _ _ i s); [|rewrite Hctx|done].
  2:{ rewrite (concat_length ctx), length_fmap, length_seq; [lia|].
      apply Forall_fmap, Forall_seq. intros j Hj. apply Hss. lia. }
  cbn [mbind option_bind]. rewrite vec_get_middle by (by rewrite length_fmap, length_seq).
  cbn [mbind option_bind]. unfold weigh_state. rewrite !concat_middle. cbn [fst snd].
  rewrite !fmap_app, !fmap_cons.
  rewrite vec_get_middle by (by rewrite length_fmap). cbn [mbind option_bind].
  rewrite vec_set_middle by (by rewrite length_fmap). cbn [mbind option_bind].
  assert (length (snd x) = hd) as Hx by (apply Forall_app in Hf as [_ Hf]; by inversion Hf).
  rewrite <-Hlen at 2. rewrite (axpy_head_spec a _ _ _ _ _ _ v); [|done|congruence|].
  2:{ rewrite (concat_front snd hd pre (x :: post)) by done. lia. }
  cbn [mbind option_bind]. unfold weigh_one, weigh. cbn [fst snd]. by rewrite Hs.
Qed.

Lemma online_group_spec L key k value v :
  length L = gs → Forall (λ x, length (snd x) = hd) L →
  in_memory a key k → length k = hd → in_memory a value v → length v = hd →
  foldM (online_step a query p (Z.of_nat hd) (Z.of_nat gs) kv_head key value) (online_state L)
    (seqZ 0 (Z.of_nat gs)) =
    Some (online_state (imap (λ g, online_one (group_score g k) (floats v)) L)).
Proof.
  clear Hctx ctx. intros HL HP Hk Hlk Hv Hlv.
  apply (foldM_components online_state (λ x, length (snd x) = hd)
    _ (λ g, online_one (group_score g k) (floats v))); [done..| |].
  { intros g x Hx. rewrite online_one_length; [done|]. unfold floats. rewrite length_fmap. congruence. }
  intros pre [[m d] acc] post Hl Hf. set (g := length pre) in *.
  assert (g < gs)%nat as Hg by (rewrite <-Hl, length_app; simpl; lia).
  unfold online_step, online_state. rewrite !concat_middle, !fmap_app, !fmap_cons.
  rewrite (dot_head_group _ _ k) by done. cbn [mbind option_bind compose fst snd].
  rewrite !vec_get_middle by (by rewrite length_fmap). cbn [mbind option_bind].
  assert (length acc = hd) as Hx by (apply Forall_app in Hf as [_ Hf]; by inversion Hf).
  pose proof (concat_front snd hd pre (_ :: post) Hf) as Hpre.
  unfold online_one. fold (group_score g k).
  set (new := f_max m (group_score g k)).
  assert (∀ acc', length acc' = hd →
    axpy_head a (concat (snd <$> pre) ++ acc' ++ concat (snd <$> post))
      (Z.of_nat g * Z.of_nat hd) value (f_exp (f_sub (group_score g k) new)) (Z.of_nat hd) =
    Some (concat (snd <$> pre) ++ axpy (f_exp (f_sub (group_score g k) new)) acc' (floats v)
            ++ concat (snd <$> post))) as Haxpy.
  { intros acc' Ha. rewrite <-Hlv at 2. apply axpy_head_spec; [done|congruence|].
    rewrite Hpre. subst g. lia. }
  destruct (negb (f_eqb m new) && negb (f_eqb d f_zero)).
  - rewrite scale_head_spec by (try done; rewrite Hpre; subst g; lia). cbn [mbind option_bind].
    rewrite !vec_set_middle by (by rewrite length_fmap). cbn [mbind option_bind].
    by rewrite Haxpy by (by rewrite length_fmap).
  - cbn [mbind option_bind].
    rewrite !vec_set_middle by (by rewrite length_fmap). cbn [mbind option_bind].
    by rewrite Haxpy.
Qed.

(** The results of a group, head after head. *)
Definition scaled_head (x : F * list F) : list T :=
  of_float <$> ((λ y, f_mul y (f_div f_one (fst x))) <$> snd x).

Lemma write_group_spec (L : list (F * list F)) pre mid post :
  length L = gs → Forall (λ x, length (snd x) = hd) L →
  0 <= kv_head → kv_head * Z.of_nat gs + Z.of_nat gs <= W32 →
  Z.of_nat (length pre) = kv_head * Z.of_nat gs * Z.of_nat hd → length mid = (gs * hd)%nat →
  write_group (pre ++ mid ++ post) (concat (snd <$> L)) (fst <$> L) (Z.of_nat hd) (Z.of_nat gs)
    kv_head = Some (pre ++ concat (scaled_head <$> L) ++ post).
Proof.
  clear Hxs xs Hctx ctx. intros HL HP Hk0 Hk Hpre Hmid. unfold write_group.
  set (res := λ g, default [] (scaled_head <$> L !! g)).
  assert (scaled_head <$> L = res <$> seq 0 gs) as ->.
  { apply list_eq. intros i. rewrite !list_lookup_fmap. unfold res.
    destruct (decide (i < gs)%nat).
    - rewrite lookup_seq_lt by done. simpl.
      by destruct (lookup_lt_is_Some_2 L i ltac:(lia)) as [x ->].
    - rewrite !lookup_ge_None_2; [done|rewrite length_seq; lia|lia]. }
  apply (foldM_ranges _ res hd gs); [done| |].
  - intros g Hg. unfold res. destruct (lookup_lt_is_Some_2 L g ltac:(lia)) as [x Hx].
    rewrite Hx. simpl. unfold scaled_head. rewrite !length_fmap. exact (Forall_lookup_1 _ _ _ _ HP Hx).
  - intros g pre' seg post' Hg Hpre' Hseg.
    destruct (lookup_lt_is_Some_2 L g ltac:(lia)) as [x Hx]. unfold res. rewrite Hx. simpl.
    assert (length (snd x) = hd) as Hxl by exact (Forall_lookup_1 _ _ _ _ HP Hx).
    rewrite vec_get_nat, list_lookup_fmap, Hx. cbn [fmap option_fmap option_map mbind option_bind].
    rewrite <-Hxl at 1. unfold scaled_head.
    apply (write_segment _ (λ y, f_mul y (f_div f_one (fst x)))); [congruence|].
    intros l i y Hl Hy. rewrite <-(take_drop_middle L g x Hx), concat_middle.
    rewrite (vec_get_segment _ (snd x) _ _ i y); [|rewrite (concat_front snd hd _ (drop g L))|done].
    + cbn [mbind option_bind]. rewrite (u32_small (kv_head * Z.of_nat gs)) by words.
      rewrite u32_small by words.
      replace ((kv_head * Z.of_nat gs + Z.of_nat g) * Z.of_nat hd + Z.of_nat i) with
        (Z.of_nat (length pre' + i)); [by apply vec_set_nat|]. rewrite Hpre'. lia.
    + rewrite length_take. lia.
    + by rewrite take_drop.
Qed.
End Group.
