(* ===== verification/AttentionOptimized.v ===== *)
(** The optimised kernels over a cache view: what the fused and the online forms
    compute for each query head, from the vectors the sequence stores. *)
From S2P Require Import Prelude.
From S2P Require Import Block.
From S2P Require Import CacheLayout.
From S2P Require Import SwapBackend.
From S2P Require Import BlockTable.
From S2P Require Import MemoryAllocator.
From S2P Require Import AllocatorProps.
From S2P Require Import KVCacheManager.
From S2P Require Import CacheInvariant.
From S2P Require Import CacheViews.
From S2P Require Import PagedAttention.
From S2P Require Import AttentionLoops.
From S2P Require Import AttentionCache.
From S2P Require Import AttentionGroups.
From S2P Require Import AttentionProps.
From S2P Require Import AttentionFused.

Section View.
Context {B T F : Type} `{SwapBackendLaws B} `{FloatOps F} `{Element T F}.
Context (m : KVCacheManager B) (sid : Z) (kind : CacheKind) (v : CacheView B).
Context (Hwf : mgr_wf m) (Hvp : view_pool (allocator_ m)).
Context (Hview : cache_view m sid kind = Some (Some v)).
Context (p : PagedAttentionParams F) (q o : list T).
Context (Htyped : params_typed p) (Hacc : accepts v (Some q) (Some o) p = true).
Context (Hfits : context_len p + tokens_per_block (pool_shape (allocator_ m)) <= W32).

Abbreviation pool := (allocator_ m).
Abbreviation pshape := (pool_shape pool).
Abbreviation kvs := (Z.to_nat (num_kv_heads pshape)).
Abbreviation gs := (Z.to_nat (num_query_heads p / num_kv_heads pshape)).
Abbreviation hd := (Z.to_nat (head_dim pshape)).
Abbreviation ctx := (Z.to_nat (context_len p)).

(** The query of a head of a group, the keys and the values it attends to. *)
Definition group_query (kv g : nat) : list T := slice ((kv * gs + g) * hd) hd q.
Definition group_scores (kv g : nat) : list F :=
  group_score p (group_query kv) g <$> cached m sid p Key (Z.of_nat kv).
Abbreviation group_values kv := (floats <$> cached (T := T) m sid p Value (Z.of_nat kv)).

Lemma group_sizes :
  Z.of_nat kvs = num_kv_heads pshape ∧
  Z.of_nat gs = num_query_heads p / num_kv_heads pshape ∧ Z.of_nat hd = head_dim pshape ∧
  Z.of_nat ctx = context_len p ∧ Z.to_nat (num_query_heads p) = (kvs * gs)%nat ∧
  Z.of_nat (kvs * gs) < W32 ∧ (0 < gs)%nat ∧ (0 < hd)%nat ∧ (0 < kvs)%nat.
Proof.
  destruct (shape_facts m sid kind v Hwf Hvp Hview p q o Hacc) as (Hk & Hd & _).
  destruct (params_facts m sid kind v Hwf Hvp Hview p q o Htyped Hacc) as (Hc & _ & Hn & Hg & He & _).
  destruct Htyped as (_ & Hqt & _).
  assert (Z.of_nat (kvs * gs) = num_query_heads p) by (rewrite Nat2Z.inj_mul, !Z2Nat.id by lia; lia).
  split_and!; words || lia.
Qed.

Context (Hq : (Z.to_nat (num_query_heads p) * hd <= length q)%nat).

Lemma group_query_at kv g :
  (kv < kvs)%nat → (g < gs)%nat →
  length (group_query kv g) = hd ∧
  at_index q ((Z.of_nat kv ⊠ Z.of_nat gs ⊞ Z.of_nat g) * Z.of_nat hd) (group_query kv g).
Proof.
  intros Hkv Hg. destruct group_sizes as (_ & _ & _ & _ & Hn & Hb & _).
  assert (kv * gs + g < kvs * gs)%nat as Hlt.
  { assert (S kv * gs <= kvs * gs)%nat by (apply Nat.mul_le_mono_r; lia). lia. }
  rewrite (u32_small (Z.of_nat kv * Z.of_nat gs)) by words. rewrite u32_small by words.
  destruct (at_index_slice q ((kv * gs + g) * hd) hd) as [Hat Hlen].
  { assert (S (kv * gs + g) * hd <= kvs * gs * hd)%nat by (apply Nat.mul_le_mono_r; lia). lia. }
  split; [done|].
  by replace ((Z.of_nat kv * Z.of_nat gs + Z.of_nat g) * Z.of_nat hd) with
    (Z.of_nat ((kv * gs + g) * hd)) by lia.
Qed.

(** What the addresses of a context hold. *)
Abbreviation address stream kv :=
  (λ token, default 0 (slot (sizeof_T (T := T)) v stream (pa_layer p) token (Z.of_nat kv))).

Lemma cached_at stream kv i xs :
  resolves (T := T) v p → (kv < kvs)%nat → cached m sid p stream (Z.of_nat kv) !! i = Some xs →
  (i < ctx)%nat ∧ length xs = hd ∧ in_memory pool (address stream kv (Z.of_nat i)) xs.
Proof.
  intros Hr Hkv Hx. destruct group_sizes as (Hk & _).
  pose proof (lookup_lt_Some _ _ _ Hx) as Hi. rewrite (cached_length m sid p) in Hi.
  split; [done|]. eapply cached_in_memory; try done. lia.
Qed.

Lemma group_scores_length kv g : length (group_scores kv g) = ctx.
Proof. unfold group_scores. by rewrite length_fmap, cached_length. Qed.

(** ** The loops over the tokens *)

Context (frames : list Z) (Hframes : Z.of_nat (length frames) = logical_blocks v p).
Context (Hr : resolves (T := T) v p).
Context (Hptr : ∀ stream kv_head token base,
  0 <= kv_head < num_kv_heads pshape → 0 <= token < context_len p →
  vec_get frames (token / tokens_per_block pshape) = Some base →
  vector_ptr (T := T) v p stream base (token mod tokens_per_block pshape) kv_head =
    Some (default 0 (slot (sizeof_T (T := T)) v stream (pa_layer p) token kv_head))).

(** A pass whose body looks up one vector, as a loop over the tokens. *)
Lemma over_tokens {S} (body : S → Z → Z → Z → option (bool * S)) (step : S → Z → option S) s :
  (∀ s base token, 0 <= token < context_len p →
     vec_get frames (token / tokens_per_block pshape) = Some base →
     body s base token (token mod tokens_per_block pshape) = (s' ← step s token; Some (true, s'))) →
  over_blocks v p frames body s =
    (s' ← foldM step s (seqZ 0 (Z.of_nat ctx)); Some (true, s')).
Proof.
  intros Hb. destruct (view_parts m sid kind v Hwf Hvp Hview) as (Hl & _).
  destruct group_sizes as (_ & _ & _ & -> & _).
  apply over_blocks_flat; [|done|by rewrite Hl].
  exact (view_fits_context m sid kind v Hwf Hvp Hview p q o Htyped Hacc Hfits).
Qed.

Lemma kv_head_range kv : (kv < kvs)%nat → 0 <= Z.of_nat kv < num_kv_heads pshape.
Proof. destruct group_sizes as (<- & _). lia. Qed.

Lemma score_rounds kv old :
  (kv < kvs)%nat → length old = (gs * ctx)%nat →
  over_blocks v p frames (λ s base token token_in_block,
    match vector_ptr (T := T) v p Key base token_in_block (Z.of_nat kv) with
    | None => Some (false, s)
    | Some key =>
      s' ← score_group pool q p (Z.of_nat hd) (Z.of_nat gs) (Z.of_nat kv) s token key;
      Some (true, s')
    end) (old, replicate gs f_neg_inf) =
  Some (true, (concat (group_scores kv <$> seq 0 gs), maximum ∘ group_scores kv <$> seq 0 gs)).
Proof.
  intros Hkv Hold.
  rewrite (over_tokens _ (λ s token, score_group pool q p (Z.of_nat hd) (Z.of_nat gs)
    (Z.of_nat kv) s token (address Key kv token))).
  2:{ intros s base token Ht Hb. by rewrite (Hptr _ _ _ _ (kv_head_range kv Hkv) Ht Hb). }
  destruct (pieces_exist gs ctx old Hold) as (olds & Hn & Hf & ->).
  set (L0 := (λ l, (l, f_neg_inf (F := F))) <$> olds).
  assert ((concat olds, replicate gs f_neg_inf) = score_state L0) as ->.
  { unfold score_state, L0. rewrite <-!list_fmap_compose. f_equal.
    - f_equal. by rewrite <-(list_fmap_id olds) at 1.
    - rewrite <-Hn. symmetry. apply const_fmap. by intros. }
  set (keys := cached m sid p Key (Z.of_nat kv)).
  assert (length (imap pair keys) = ctx) as <- by (by rewrite length_imap; apply cached_length).
  rewrite (foldM_rounds score_state (λ x, length (fst x) = ctx) _
    (λ y g, score_one (group_score p (group_query kv) g) y)).
  - cbn [mbind option_bind]. do 2 f_equal. unfold score_state.
    assert (imap (λ g x, foldl (λ x y, score_one (group_score p (group_query kv) g) y x) x
      (imap pair keys)) L0 = (λ g, (group_scores kv g, maximum (group_scores kv g))) <$> seq 0 gs) as ->.
    { apply list_eq. intros g. unfold L0. rewrite list_lookup_imap, !list_lookup_fmap.
      destruct (decide (g < gs)%nat) as [Hg|Hg].
      - rewrite lookup_seq_lt by done. destruct (lookup_lt_is_Some_2 olds g ltac:(lia)) as [l Hl].
        rewrite Hl. simpl. f_equal. rewrite score_one_rounds; [done|].
        rewrite (Forall_lookup_1 _ _ _ _ Hf Hl). symmetry. apply cached_length.
      - rewrite !lookup_ge_None_2; [done|rewrite length_seq; lia|lia]. }
    by rewrite <-!list_fmap_compose.
  - unfold L0. apply Forall_fmap. exact Hf.
  - intros y g x _ Hx. simpl. by rewrite length_insert.
  - intros L' i y HL HP Hy. apply list_lookup_imap_Some in Hy as (k & Hk & ->).
    destruct (cached_at Key kv i k Hr Hkv Hk) as (Hi & Hlen & Hmem).
    destruct group_sizes as (_ & _ & _ & Hc & _).
    apply (score_group_spec pool q p hd gs ctx (Z.of_nat kv) (group_query kv)); try done.
    + intros g Hg. by apply group_query_at.
    + rewrite HL. unfold L0. by rewrite length_fmap.
Qed.

Lemma weigh_rounds kv :
  (kv < kvs)%nat →
  over_blocks v p frames (λ s base token token_in_block,
    match vector_ptr (T := T) v p Value base token_in_block (Z.of_nat kv) with
    | None => Some (false, s)
    | Some value =>
      s' ← weigh_group pool (concat (group_scores kv <$> seq 0 gs))
             (maximum ∘ group_scores kv <$> seq 0 gs) p (Z.of_nat hd) (Z.of_nat gs) s token value;
      Some (true, s')
    end) (replicate gs f_zero, replicate (gs * hd) f_zero) =
  Some (true, weigh_state ((λ g, weighted (group_scores kv g) (group_values kv) hd) <$> seq 0 gs)).
Proof.
  intros Hkv.
  rewrite (over_tokens _ (λ s token, weigh_group pool (concat (group_scores kv <$> seq 0 gs))
    (maximum ∘ group_scores kv <$> seq 0 gs) p (Z.of_nat hd) (Z.of_nat gs) s token
    (address Value kv token))).
  2:{ intros s base token Ht Hb. by rewrite (Hptr _ _ _ _ (kv_head_range kv Hkv) Ht Hb). }
  set (L0 := replicate gs (f_zero (F := F), replicate hd (f_zero (F := F)))).
  assert ((replicate gs f_zero, replicate (gs * hd) f_zero) = weigh_state L0) as ->.
  { unfold weigh_state, L0. rewrite !fmap_replicate. f_equal. apply replicate_pieces. }
  set (values := cached m sid p Value (Z.of_nat kv)).
  assert (length (imap pair values) = ctx) as <- by (by rewrite length_imap; apply cached_length).
  rewrite (foldM_rounds weigh_state (λ x, length (snd x) = hd) _
    (λ y g, weigh_one (group_scores kv g) (maximum (group_scores kv g)) y)).
  - cbn [mbind option_bind]. do 3 f_equal.
    apply list_eq. intros g. unfold L0. rewrite list_lookup_imap, !list_lookup_fmap.
    destruct (decide (g < gs)%nat) as [Hg|Hg].
    + rewrite lookup_seq_lt, lookup_replicate_2 by done. simpl. f_equal.
      rewrite weigh_one_rounds; [done|]. rewrite group_scores_length. symmetry. apply cached_length.
    + rewrite !lookup_ge_None_2; [done|rewrite length_seq; lia|rewrite length_replicate; lia].
  - apply Forall_replicate, length_replicate.
  - intros y g x Hy Hx. unfold weigh_one. rewrite weigh_length; [done|]. simpl. unfold floats.
    rewrite length_fmap, Hx. apply list_elem_of_lookup in Hy as [i Hy].
    apply list_lookup_imap_Some in Hy as (w & Hw & ->).
    by destruct (cached_at Value kv i w Hr Hkv Hw) as (_ & Hlen & _).
  - intros L' i y HL HP Hy. apply list_lookup_imap_Some in Hy as (w & Hw & ->).
    destruct (cached_at Value kv i w Hr Hkv Hw) as (Hi & Hlen & Hmem).
    destruct group_sizes as (_ & _ & _ & Hc & _).
    apply (weigh_group_spec pool p hd gs ctx); try done.
    + rewrite HL. apply length_replicate.
    + intros g Hg. apply group_scores_length.
Qed.

Lemma online_rounds kv :
  (kv < kvs)%nat →
  over_blocks v p frames (λ s base token token_in_block,
    match vector_ptr (T := T) v p Key base token_in_block (Z.of_nat kv),
          vector_ptr (T := T) v p Value base token_in_block (Z.of_nat kv) with
    | Some key, Some value =>
      s' ← foldM (online_step pool q p (Z.of_nat hd) (Z.of_nat gs) (Z.of_nat kv) key value) s
             (seqZ 0 (Z.of_nat gs));
      Some (true, s')
    | _, _ => Some (false, s)
    end) (replicate gs f_neg_inf, replicate gs f_zero, replicate (gs * hd) f_zero) =
  Some (true, online_state ((λ g, online_run (group_scores kv g) (group_values kv) hd)
                              <$> seq 0 gs)).
Proof.
  intros Hkv.
  rewrite (over_tokens _ (λ s token,
    foldM (online_step pool q p (Z.of_nat hd) (Z.of_nat gs) (Z.of_nat kv) (address Key kv token)
      (address Value kv token)) s (seqZ 0 (Z.of_nat gs)))).
  2:{ intros s base token Ht Hb. by rewrite !(Hptr _ _ _ _ (kv_head_range kv Hkv) Ht Hb). }
  set (L0 := replicate gs (f_neg_inf (F := F), f_zero (F := F), replicate hd (f_zero (F := F)))).
  assert ((replicate gs f_neg_inf, replicate gs f_zero, replicate (gs * hd) f_zero) =
    online_state L0) as ->.
  { unfold online_state, L0. rewrite !fmap_replicate. f_equal. apply replicate_pieces. }
  set (keys := cached m sid p Key (Z.of_nat kv)).
  set (values := cached m sid p Value (Z.of_nat kv)).
  assert (length (zip keys values) = ctx) as <-.
  { rewrite length_zip. unfold keys, values. rewrite !cached_length. lia. }
  rewrite (foldM_rounds online_state (λ x, length (snd x) = hd) _
    (λ y g, online_one (group_score p (group_query kv) g (fst y)) (floats (snd y)))).
  - cbn [mbind option_bind]. do 3 f_equal.
    apply list_eq. intros g. unfold L0. rewrite list_lookup_imap, list_lookup_fmap.
    destruct (decide (g < gs)%nat) as [Hg|Hg].
    + rewrite lookup_seq_lt, lookup_replicate_2 by done. cbn [fmap option_fmap option_map].
      f_equal. unfold online_run, group_scores. by rewrite foldl_zip_fmap.
    + rewrite !lookup_ge_None_2; [done|rewrite length_seq; lia|rewrite length_replicate; lia].
  - apply Forall_replicate, length_replicate.
  - intros y g x Hy Hx. rewrite online_one_length; [done|]. unfold floats.
    rewrite length_fmap, Hx. apply list_elem_of_lookup in Hy as [i Hy].
    destruct y as [k w]. apply lookup_zip_Some in Hy as [_ Hw].
    by destruct (cached_at Value kv i _ Hr Hkv Hw) as (_ & Hlen & _).
  - intros L' i [k w] HL HP [Hk Hw]%lookup_zip_Some.
    destruct (cached_at Key kv i _ Hr Hkv Hk) as (_ & Hlk & Hmk).
    destruct (cached_at Value kv i _ Hr Hkv Hw) as (_ & Hlv & Hmv).
    apply (online_group_spec pool q p hd gs (Z.of_nat kv) (group_query kv)); try done.
    + intros g Hg. by apply group_query_at.
    + rewrite HL. apply length_replicate.
Qed.

(** ** A kv head *)

(** What the write of a group leaves, from the states of its heads. *)
Lemma write_rounds kv (L : list (F * list F)) pre seg post :
  (kv < kvs)%nat → length L = gs → Forall (λ x, length (snd x) = hd) L →
  length pre = (kv * (gs * hd))%nat → length seg = (gs * hd)%nat →
  write_group (pre ++ seg ++ post) (concat (snd <$> L)) (fst <$> L) (Z.of_nat hd) (Z.of_nat gs)
    (Z.of_nat kv) = Some (pre ++ concat (scaled_head <$> L) ++ post).
Proof.
  intros Hkv HL Hf Hpre Hseg. destruct group_sizes as (_ & _ & _ & _ & _ & Hb & _).
  apply (write_group_spec hd gs (Z.of_nat kv)); try done; [lia|nia|]. rewrite Hpre. lia.
Qed.

Definition fused_result kv g : list T :=
  scaled_head (weighted (group_scores kv g) (group_values kv) hd).
Definition online_result kv g : list T :=
  let '(_, d, acc) := online_run (group_scores kv g) (group_values kv) hd in scaled_head (d, acc).

Lemma values_uniform kv :
  (kv < kvs)%nat → Forall (λ w, length w = hd) (group_values kv).
Proof.
  intros Hkv. apply Forall_fmap, Forall_lookup. intros i w Hw. simpl. unfold floats.
  rewrite length_fmap. by destruct (cached_at Value kv i w Hr Hkv Hw) as (_ & Hlen & _).
Qed.

Lemma fused_result_length kv g : (kv < kvs)%nat → length (fused_result kv g) = hd.
Proof.
  intros Hkv. unfold fused_result, scaled_head. rewrite !length_fmap.
  by apply weighted_length, values_uniform.
Qed.

Lemma online_result_length kv g : (kv < kvs)%nat → length (online_result kv g) = hd.
Proof.
  intros Hkv. unfold online_result.
  pose proof (online_run_length (group_scores kv g) (group_values kv) hd (values_uniform kv Hkv)) as Hl.
  destruct (online_run _ _ _) as [[mx d] acc]. unfold scaled_head. by rewrite !length_fmap.
Qed.

Lemma fused_head kv old pre seg post :
  (kv < kvs)%nat → length old = (gs * ctx)%nat →
  length pre = (kv * (gs * hd))%nat → length seg = (gs * hd)%nat →
  ∃ ss, length ss = (gs * ctx)%nat ∧
    opt_head false v pool q frames p (Z.of_nat hd) (Z.of_nat gs) (old, pre ++ seg ++ post)
      (Z.of_nat kv) =
    Some (true, (ss, pre ++ concat (fused_result kv <$> seq 0 gs) ++ post)).
Proof.
  intros Hkv Hold Hpre Hseg. exists (concat (group_scores kv <$> seq 0 gs)). split.
  { rewrite (concat_length ctx), length_fmap, length_seq; [done|].
    apply Forall_fmap, Forall_seq. intros g _. apply group_scores_length. }
  unfold opt_head. rewrite <-Nat2Z.inj_mul, !Nat2Z.id. cbn [fst snd].
  rewrite (score_rounds kv old Hkv Hold). cbn [mbind option_bind negb].
  rewrite (weigh_rounds kv Hkv). unfold weigh_state. cbn [mbind option_bind negb].
  rewrite write_rounds; [|done|by rewrite length_fmap, length_seq| |done..].
  - cbn [mbind option_bind]. by rewrite <-list_fmap_compose.
  - apply Forall_fmap, Forall_seq. intros g _. by apply weighted_length, values_uniform.
Qed.

Lemma online_head kv old pre seg post :
  (kv < kvs)%nat → length pre = (kv * (gs * hd))%nat → length seg = (gs * hd)%nat →
  opt_head true v pool q frames p (Z.of_nat hd) (Z.of_nat gs) (old, pre ++ seg ++ post)
    (Z.of_nat kv) =
  Some (true, (old, pre ++ concat (online_result kv <$> seq 0 gs) ++ post)).
Proof.
  intros Hkv Hpre Hseg. unfold opt_head. rewrite <-Nat2Z.inj_mul, !Nat2Z.id. cbn [fst snd].
  rewrite (online_rounds kv Hkv). unfold online_state. cbn [mbind option_bind negb].
  set (L := (λ g, online_run (group_scores kv g) (group_values kv) hd) <$> seq 0 gs).
  set (L' := (λ x, (snd (fst x), snd x)) <$> L).
  assert (snd <$> L = snd <$> L') as -> by (unfold L'; by rewrite <-list_fmap_compose).
  assert (snd ∘ fst <$> L = fst <$> L') as -> by (unfold L'; by rewrite <-list_fmap_compose).
  rewrite write_rounds; [|done| | |done..].
  - cbn [mbind option_bind]. unfold L', L. rewrite <-!list_fmap_compose. do 6 f_equal.
    apply list_fmap_ext. intros _ g _. unfold online_result. simpl.
    by destruct (online_run _ _ _) as [[mx d] acc].
  - unfold L', L. by rewrite !length_fmap, length_seq.
  - unfold L', L. rewrite <-list_fmap_compose. apply Forall_fmap, Forall_seq. intros g _. simpl.
    by apply online_run_length, values_uniform.
Qed.
End View.
