(* ===== verification/AttentionExact.v ===== *)
(** Exact arithmetic: the laws under which the online softmax, which rescales its sums
    whenever the maximum rises, is the softmax in two passes. *)
From S2P Require Import Prelude.
From S2P Require Import PagedAttention.
From S2P Require Import AttentionLoops.
From S2P Require Import AttentionFused.

(** The laws, on the finite values; [f_neg_inf] is below them all and only the maximum
    and its differences reach it. *)
Class ExactArithmetic (F : Type) `{FloatOps F} (finite positive : F → Prop) := {
  ex_zero : finite f_zero;
  ex_add x y : finite x → finite y → finite (f_add x y);
  ex_sub x y : finite x → finite y → finite (f_sub x y);
  ex_mul x y : finite x → finite y → finite (f_mul x y);
  ex_positive x : positive x → finite x;
  ex_exp x : finite x → positive (f_exp x);
  ex_pos_add x y : positive x → positive y → positive (f_add x y);
  ex_pos_nonzero x : positive x → f_eqb x f_zero = false;
  ex_zero_eqb : f_eqb f_zero f_zero = true;
  ex_eqb x y : finite x → finite y → f_eqb x y = true → x = y;
  ex_add_zero x : finite x → f_add f_zero x = x;
  ex_mul_zero x : finite x → f_mul f_zero x = f_zero;
  ex_mul_one x : finite x → f_mul x f_one = x;
  ex_mul_comm x y : finite x → finite y → f_mul x y = f_mul y x;
  ex_mul_assoc x y z : finite x → finite y → finite z →
    f_mul x (f_mul y z) = f_mul (f_mul x y) z;
  ex_distr x y z : finite x → finite y → finite z →
    f_mul (f_add x y) z = f_add (f_mul x z) (f_mul y z);
  ex_exp_sub x y z : finite x → finite y → finite z →
    f_mul (f_exp (f_sub x y)) (f_exp (f_sub y z)) = f_exp (f_sub x z);
  ex_exp_self x : finite x → f_exp (f_sub x x) = f_one;
  ex_bottom x : finite x → f_ltb f_neg_inf x = true;
  ex_exp_bottom x : finite x → f_exp (f_sub f_neg_inf x) = f_zero;
  ex_div x y : finite x → positive y → f_div x y = f_mul x (f_div f_one y)
}.

Create HintDb exact.

Section Exact.
Context {F : Type} `{FloatOps F} {finite positive : F → Prop}.
Context {Hex : ExactArithmetic F finite positive}.
#[local] Hint Extern 1 (finite _) =>
  first [eassumption | apply ex_zero | apply ex_add | apply ex_sub | apply ex_mul
        | apply ex_positive, ex_exp] : exact.
#[local] Hint Extern 1 (positive _) => first [eassumption | apply ex_exp] : exact.

Lemma max_finite x y : finite x → finite y → finite (f_max x y).
Proof. intros. unfold f_max. by destruct (f_ltb x y). Qed.

Lemma max_bottom x : finite x → f_max f_neg_inf x = x.
Proof. intros Hx. unfold f_max. by rewrite ex_bottom. Qed.

Lemma maximum_snoc ss s : maximum (ss ++ [s]) = f_max (maximum ss) s.
Proof. unfold maximum. by rewrite foldl_app. Qed.

Lemma maximum_finite ss : ss ≠ [] → Forall finite ss → finite (maximum ss).
Proof.
  induction ss as [|s ss IH] using rev_ind; [done|]. intros _ [Hs Hf]%Forall_app.
  apply Forall_inv in Hf. rewrite maximum_snoc.
  destruct (decide (ss = [])) as [->|Hn].
  - unfold maximum. simpl. by rewrite max_bottom.
  - apply max_finite; auto.
Qed.

Lemma dot_finite xs ys : Forall finite xs → Forall finite ys → finite (dot xs ys).
Proof.
  intros Hx Hy. unfold dot.
  assert (∀ d, finite d → finite (foldl (λ d x, f_add d (f_mul (fst x) (snd x))) d (zip xs ys)))
    as Hg; [|apply Hg, ex_zero].
  revert ys Hy. induction Hx as [|x xs Hx _ IH]; intros ys Hy d Hd; [done|].
  destruct Hy as [|y ys Hy Hys]; [done|]. simpl. apply IH; auto with exact.
Qed.

Lemma axpy_finite w acc v :
  finite w → Forall finite acc → Forall finite v → Forall finite (axpy w acc v).
Proof.
  intros Hw Ha. revert v. induction Ha as [|x acc Hx _ IH]; intros v Hv; [by constructor|].
  destruct Hv as [|y v Hy Hv]; [by constructor|].
  unfold axpy. simpl. constructor; [auto with exact|by apply IH].
Qed.

(** A softmax state all of whose numbers are finite. *)
Definition sound (x : F * list F) : Prop := finite (fst x) ∧ Forall finite (snd x).

Lemma weigh_sound m x s v :
  finite m → sound x → finite s → Forall finite v → sound (weigh m x (s, v)).
Proof.
  intros Hm [Hd Ha] Hs Hv. split; simpl; [auto with exact|].
  apply axpy_finite; auto with exact.
Qed.

Lemma zip_finite ss (vs : list (list F)) :
  Forall finite ss → Forall (Forall finite) vs →
  Forall (λ y, finite (fst y) ∧ Forall finite (snd y)) (zip ss vs).
Proof.
  intros Hs. revert vs. induction Hs as [|s ss Hs _ IH]; intros vs Hv; [constructor|].
  destruct Hv; constructor; auto.
Qed.

Lemma weighs_sound m x l :
  finite m → sound x → Forall (λ y, finite (fst y) ∧ Forall finite (snd y)) l →
  sound (foldl (weigh m) x l).
Proof.
  intros Hm Hx Hl. revert x Hx. induction Hl as [|[s v] l [Hs Hv] _ IH]; intros x Hx; [done|].
  simpl. apply IH. by apply weigh_sound.
Qed.

Lemma weighs_positive m l x :
  finite m → l ≠ [] → (finite (fst x) ∧ (fst x = f_zero ∨ positive (fst x))) →
  Forall (λ y, finite (fst y) ∧ Forall finite (snd y)) l →
  positive (fst (foldl (weigh m) x l)).
Proof.
  intros Hm Hn Hx Hl. revert x Hx.
  induction Hl as [|[s v] l [Hs Hv] Hl IH]; intros x [Hf Hx]; [done|].
  assert (positive (f_add (fst x) (f_exp (f_sub s m)))) as Hp.
  { destruct Hx as [->|Hx].
    - rewrite ex_add_zero by auto with exact. auto with exact.
    - apply ex_pos_add; auto with exact. }
  simpl. destruct (decide (l = [])) as [->|Hne]; [done|].
  apply IH; [done|]. simpl. auto with exact.
Qed.

(** Scaling a state from one maximum to another. *)
Definition scaled (r : F) (x : F * list F) : F * list F :=
  (f_mul (fst x) r, (λ y, f_mul y r) <$> snd x).

Lemma weigh_scaled m m' x s v :
  finite m → finite m' → sound x → finite s → Forall finite v →
  weigh m' (scaled (f_exp (f_sub m m')) x) (s, v) =
    scaled (f_exp (f_sub m m')) (weigh m x (s, v)).
Proof.
  intros Hm Hm' [Hd Ha] Hs Hv. set (r := f_exp (f_sub m m')).
  assert (finite r) as Hr by (unfold r; auto with exact).
  assert (finite (f_exp (f_sub s m))) as He by auto with exact.
  assert (f_mul (f_exp (f_sub s m)) r = f_exp (f_sub s m')) as Hw by (by apply ex_exp_sub).
  unfold weigh, scaled. cbn [fst snd]. f_equal.
  - by rewrite ex_distr, Hw by done.
  - unfold axpy. destruct x as [d acc]. simpl in *. clear Hd.
    revert v Hv. induction Ha as [|x acc Hx _ IH]; intros v Hv; [done|].
    destruct Hv as [|y v Hy Hv]; [done|]. simpl. f_equal; [|by apply IH].
    rewrite ex_distr by auto with exact. f_equal. rewrite <-Hw.
    rewrite <-!ex_mul_assoc by done. f_equal. by apply ex_mul_comm.
Qed.

Lemma weighs_scaled m m' l x :
  finite m → finite m' → sound x → Forall (λ y, finite (fst y) ∧ Forall finite (snd y)) l →
  foldl (weigh m') (scaled (f_exp (f_sub m m')) x) l =
    scaled (f_exp (f_sub m m')) (foldl (weigh m) x l).
Proof.
  intros Hm Hm' Hx Hl. revert x Hx. induction Hl as [|[s v] l [Hs Hv] _ IH]; intros x Hx; [done|].
  simpl. rewrite weigh_scaled by done. apply IH. by apply weigh_sound.
Qed.

Lemma start_sound dim : sound (f_zero, replicate dim f_zero).
Proof. split; simpl; [auto with exact|]. apply Forall_replicate. auto with exact. Qed.

Lemma start_scaled r dim :
  finite r → scaled r (f_zero, replicate dim f_zero) = (f_zero, replicate dim f_zero).
Proof. intros Hr. unfold scaled. simpl. by rewrite fmap_replicate, ex_mul_zero. Qed.

Lemma weighted_sound ss vs dim :
  ss ≠ [] → Forall finite ss → Forall (Forall finite) vs → sound (weighted ss vs dim).
Proof.
  intros Hn Hs Hv. apply weighs_sound; [by apply maximum_finite|apply start_sound|].
  by apply zip_finite.
Qed.

Lemma weighted_positive ss vs dim :
  length ss = length vs → ss ≠ [] → Forall finite ss → Forall (Forall finite) vs →
  positive (fst (weighted ss vs dim)).
Proof.
  intros Hl Hn Hs Hv. apply weighs_positive; [by apply maximum_finite| | |by apply zip_finite].
  - destruct ss, vs; done.
  - simpl. auto with exact.
Qed.

(** One more token, for the two-pass softmax. *)
Lemma weighted_snoc ss vs dim s v :
  length ss = length vs → ss ≠ [] → Forall finite ss → Forall (Forall finite) vs →
  finite s → Forall finite v →
  weighted (ss ++ [s]) (vs ++ [v]) dim =
    weigh (f_max (maximum ss) s)
      (scaled (f_exp (f_sub (maximum ss) (f_max (maximum ss) s))) (weighted ss vs dim)) (s, v).
Proof.
  intros Hl Hn Hss Hvs Hs Hv. pose proof (maximum_finite ss Hn Hss) as Hm.
  pose proof (max_finite _ _ Hm Hs) as Hm'. unfold weighted.
  rewrite maximum_snoc, zip_with_app, foldl_app by done. simpl. f_equal.
  rewrite <-(weighs_scaled (maximum ss)), start_scaled; auto using start_sound, zip_finite with exact.
Qed.

(** The online softmax is the softmax. *)
Lemma online_run_exact ss vs dim :
  length ss = length vs → Forall finite ss → Forall (Forall finite) vs →
  online_run ss vs dim = (maximum ss, fst (weighted ss vs dim), snd (weighted ss vs dim)).
Proof.
  revert vs. induction ss as [|s ss IH] using rev_ind; intros vs Hl Hss Hvs.
  { by destruct vs. }
  destruct vs as [|v vs _] using rev_ind; [rewrite length_app in Hl; simpl in Hl; lia|].
  rewrite !length_app in Hl. simpl in Hl. assert (length ss = length vs) as Hl' by lia.
  apply Forall_app in Hss as [Hss Hs%Forall_inv].
  apply Forall_app in Hvs as [Hvs Hv%Forall_inv].
  unfold online_run. rewrite zip_with_app, foldl_app by done. fold (online_run ss vs dim).
  rewrite IH by done. clear IH. cbn [foldl zip_with fst snd]. rewrite maximum_snoc.
  destruct (decide (ss = [])) as [->|Hn].
  - destruct vs; [|done]. unfold weighted, maximum. simpl. unfold online_one.
    rewrite !max_bottom, ex_exp_bottom by done.
    rewrite ex_zero_eqb, andb_false_r. unfold weigh. simpl. rewrite ex_mul_zero; auto with exact.
  - rewrite weighted_snoc by done.
    pose proof (maximum_finite ss Hn Hss) as Hm.
    destruct (weighted_sound ss vs dim Hn Hss Hvs) as [Hd Ha].
    pose proof (weighted_positive ss vs dim Hl' Hn Hss Hvs) as Hp.
    unfold online_one. rewrite (ex_pos_nonzero _ Hp), andb_true_r.
    destruct (f_eqb (maximum ss) (f_max (maximum ss) s)) eqn:He; cbn [negb].
    + apply ex_eqb in He; [|done|by apply max_finite].
      unfold weigh, scaled. cbn [fst snd]. rewrite <-He, ex_exp_self by done.
      f_equal. f_equal. rewrite <-(list_fmap_id (snd (weighted ss vs dim))) at 1.
      apply list_fmap_ext. intros i x Hx. symmetry. apply ex_mul_one.
      exact (Forall_lookup_1 _ _ _ _ Ha Hx).
    + done.
Qed.
End Exact.
