(* ===== verification/AttentionEquiv.v ===== *)
(** The optimised kernels against the reference: the fused form is the reference with
    its divisions done through reciprocals, for any arithmetic whose product commutes;
    the online form is the reference in exact arithmetic. *)
From S2P Require Import Prelude.
From S2P Require Import Block.
From S2P Require Import CacheLayout.
From S2P Require Import SwapBackend.
From S2P Require Import BlockTable.
From S2P Require Import MemoryAllocator.
From S2P Require Import AllocatorProps.
From S2P Require Import KVCacheManager.
From S2P Require Import CacheInvariant.
From S2P Require Import CacheViews.
From S2P Require Import PagedAttention.
From S2P Require Import AttentionLoops.
From S2P Require Import AttentionCache.
From S2P Require Import AttentionGroups.
From S2P Require Import AttentionProps.
From S2P Require Import AttentionFused.
From S2P Require Import AttentionOptimized.
From S2P Require Import AttentionExact.

(** The same arithmetic, dividing through the reciprocal. *)
Definition by_reciprocal {F} (ops : FloatOps F) : FloatOps F :=
  mkFloatOps F f_zero f_one f_neg_inf f_add f_sub f_mul (λ x y, f_mul x (f_div f_one y))
    f_ltb f_eqb f_exp.

(** ** From kv heads to the output *)

Section View.
Context {B T F : Type} `{SwapBackendLaws B} `{FloatOps F} `{Element T F}.
Context (m : KVCacheManager B) (sid : Z) (kind : CacheKind) (v : CacheView B).
Context (Hwf : mgr_wf m) (Hvp : view_pool (allocator_ m)).
Context (Hview : cache_view m sid kind = Some (Some v)).
Context (p : PagedAttentionParams F) (q o : list T).
Context (Htyped : params_typed p) (Hacc : accepts v (Some q) (Some o) p = true).
Context (Hfits : context_len p + tokens_per_block (pool_shape (allocator_ m)) <= W32).

Abbreviation pool := (allocator_ m).
Abbreviation pshape := (pool_shape pool).
Abbreviation kvs := (Z.to_nat (num_kv_heads pshape)).
Abbreviation gs := (Z.to_nat (num_query_heads p / num_kv_heads pshape)).
Abbreviation hd := (Z.to_nat (head_dim pshape)).
Abbreviation ctx := (Z.to_nat (context_len p)).
Context (Hq : (Z.to_nat (num_query_heads p) * hd <= length q)%nat).
Context (Ho : (Z.to_nat (num_query_heads p) * hd <= length o)%nat).

(** The frames the kernels walk hold every vector of the context. *)
Definition frames_ok (frames : list Z) : Prop :=
  Z.of_nat (length frames) = logical_blocks v p ∧
  ∀ stream kv_head token base,
    0 <= kv_head < num_kv_heads pshape → 0 <= token < context_len p →
    vec_get frames (token / tokens_per_block pshape) = Some base →
    vector_ptr (T := T) v p stream base (token mod tokens_per_block pshape) kv_head =
      Some (default 0 (slot (sizeof_T (T := T)) v stream (pa_layer p) token kv_head)).

Lemma opt_head_refused online frames s kv_head :
  Z.of_nat (length frames) = logical_blocks v p → frame_layers pshape <= offset_layer v p →
  opt_head (T := T) online v pool q frames p (head_dim pshape)
    (num_query_heads p / num_kv_heads pshape) s kv_head = Some (false, s).
Proof.
  intros Hlen Hge.
  pose proof (view_fits_context m sid kind v Hwf Hvp Hview p q o Htyped Hacc Hfits) as Hfc.
  assert (∀ stream base t, vector_ptr (T := T) v p stream base t kv_head = None) as Hnone.
  { intros. eapply (vector_ptr_refused m sid kind); done. }
  unfold opt_head. destruct s as [ss out]. destruct online.
  - rewrite over_blocks_refused; [done|done|done|]. intros. by rewrite Hnone.
  - rewrite over_blocks_refused; [done|done|done|]. intros. by rewrite Hnone.
Qed.

Lemma opt_decode (online : bool) (res : nat → list T) :
  let slots := (if online then 0 else gs * ctx)%nat in
  (resolves (T := T) v p → ∀ frames kv old pre seg post, frames_ok frames → (kv < kvs)%nat →
     length old = slots → length pre = (kv * (gs * hd))%nat → length seg = (gs * hd)%nat →
     ∃ ss, length ss = slots ∧
       opt_head online v pool q frames p (Z.of_nat hd) (Z.of_nat gs) (old, pre ++ seg ++ post)
         (Z.of_nat kv) =
       Some (true, (ss, pre ++ concat ((λ g, res (kv * gs + g)%nat) <$> seq 0 gs) ++ post))) →
  (resolves (T := T) v p → ∀ h, (h < kvs * gs)%nat → length (res h) = hd) →
  (resolves (T := T) v p ∧ paged_attention_decode_opt true online v (Some q) p (Some o) =
     Some (true, Some (concat (res <$> seq 0 (Z.to_nat (num_query_heads p)))
       ++ drop (Z.to_nat (num_query_heads p) * hd) o))) ∨
  (¬ resolves (T := T) v p ∧
     paged_attention_decode_opt true online v (Some q) p (Some o) = Some (false, Some o)).
Proof.
  intros slots Hhead Hres. destruct (view_parts m sid kind v Hwf Hvp Hview) as (Hl & Ha & _).
  destruct (group_sizes m sid kind v Hwf Hvp Hview p q o Htyped Hacc)
    as (Hk & Hg & Hd & Hc & Hn & _ & Hg0 & _ & Hk0).
  unfold paged_attention_decode_opt. rewrite Hacc, Ha, Hl. cbn [shape negb].
  pose proof (frames_cases m sid kind v Hwf Hvp Hview p q o Htyped Hacc Hfits) as Hfr.
  destruct (frames_of_context v p) as [frames|]; [|by right].
  destruct Hfr as [Hlen [[Hr Hptr]|[Hr Hge]]].
  - left. split; [done|].
    destruct (foldM_chunks (λ s kv, '(go, s1) ← opt_head online v pool q frames p (head_dim pshape)
        (num_query_heads p / num_kv_heads pshape) s kv; if go : bool then Some s1 else None)
      (λ ss, length ss = slots) (λ kv, concat ((λ g, res (kv * gs + g)%nat) <$> seq 0 gs))
      (gs * hd) kvs (replicate slots f_zero) o) as (ss & _ & Hrun).
    + apply length_replicate.
    + lia.
    + intros kv Hkv. rewrite (concat_length hd), length_fmap, length_seq; [done|].
      apply Forall_fmap, Forall_seq. intros g Hgg. apply Hres; [done|]. nia.
    + intros kv old pre seg post Hkv Hold Hpre Hseg.
      destruct (Hhead Hr frames kv old pre seg post) as (ss & Hss & Hone); try done.
      exists ss. split; [done|]. rewrite Hd, Hg in Hone. by rewrite Hone.
    + rewrite Hk in Hrun. apply loop_stays in Hrun.
      replace (if online then [] else replicate _ f_zero) with (replicate slots (f_zero (F := F))).
      * rewrite Hrun. cbn [mbind option_bind]. rewrite concat_grouped, Hn, Nat.mul_assoc. done.
      * unfold slots. destruct online; [done|]. f_equal. lia.
  - right. split; [done|]. rewrite (seqZ_cons 0) by lia. cbn [loop].
    by rewrite opt_head_refused.
Qed.

Lemma group_member kv g :
  (kv < kvs)%nat → (g < gs)%nat → Z.of_nat (kv * gs + g) / (num_query_heads p / num_kv_heads pshape)
    = Z.of_nat kv.
Proof.
  destruct (group_sizes m sid kind v Hwf Hvp Hview p q o Htyped Hacc) as (_ & Hg & _).
  intros Hkv Hgg. symmetry. apply (Z.div_unique _ _ _ (Z.of_nat g)); lia.
Qed.

(** Whatever the arithmetic, the optimised kernels succeed on a context that resolves. *)
Lemma opt_succeeds (online : bool) :
  resolves (T := T) v p →
  ∃ out, paged_attention_decode_opt true online v (Some q) p (Some o) = Some (true, Some out) ∧
    length out = length o.
Proof.
  intros Hr. destruct (group_sizes m sid kind v Hwf Hvp Hview p q o Htyped Hacc)
    as (Hk & Hg & Hd & Hc & Hn & _ & Hg0 & _ & Hk0).
  set (head kv g := if online then online_result m sid p q kv g else fused_result m sid p q kv g).
  set (res (h : nat) := head (h / gs)%nat (h mod gs)%nat).
  assert (∀ kv g, (g < gs)%nat → res (kv * gs + g)%nat = head kv g) as Hres.
  { intros kv g Hgg. unfold res. f_equal.
    - rewrite Nat.add_comm, Nat.div_add, Nat.div_small by lia. done.
    - rewrite Nat.add_comm, Nat.Div0.mod_add, Nat.mod_small by lia. done. }
  assert (∀ h, (h < kvs * gs)%nat → length (res h) = hd) as Hlen.
  { intros h Hh. assert ((h / gs)%nat < kvs)%nat by (apply Nat.Div0.div_lt_upper_bound; lia).
    unfold res, head. destruct online;
      [by eapply online_result_length|by eapply fused_result_length]. }
  destruct (opt_decode online res) as [[_ ->]|[Hno _]]; [|by intros _| |done].
  - intros _ frames kv old pre seg post [Hfl Hptr] Hkv Hold Hpre Hseg.
    rewrite (list_fmap_ext _ (head kv) (seq 0 gs)) by (intros _ g [_ Hgg]%list_elem_of_lookup_2%elem_of_seq; by apply Hres).
    unfold head. destruct online.
    + exists old. split; [done|]. by eapply online_head.
    + by eapply fused_head.
  - eexists. split; [done|]. rewrite length_app, length_drop.
    rewrite (concat_length hd), length_fmap, length_seq; [lia|].
    apply Forall_fmap, Forall_seq. intros h Hh. apply Hlen. simpl in *. lia.
Qed.

Lemma fused_decode :
  (∀ x y : F, f_mul x y = f_mul y x) →
  paged_attention_decode_fused v (Some q) p (Some o) =
    @paged_attention_decode B T F (by_reciprocal _) _ v (Some q) p (Some o).
Proof.
  intros Hcomm.
  destruct (group_sizes m sid kind v Hwf Hvp Hview p q o Htyped Hacc)
    as (Hk & Hg & Hd & Hc & Hn & _ & Hg0 & _ & Hk0).
  pose proof (@decode_run _ _ _ _ _ (by_reciprocal _) _ m sid kind v Hwf Hvp Hview p q o Htyped
    Hacc Hq Ho) as Href.
  set (res := @attention_head _ _ _ _ _ (by_reciprocal _) _ m sid p q) in Href.
  assert (∀ kv g, (kv < kvs)%nat → (g < gs)%nat →
    fused_result m sid p q kv g = res (kv * gs + g)%nat) as Hhead.
  { intros kv g Hkv Hgg. unfold fused_result, scaled_head, res, attention_head, attend.
    rewrite (group_member kv g Hkv Hgg).
    assert (group_scores m sid p q kv g = scores (pa_scale p)
      (floats (slice ((kv * gs + g) * hd) hd q)) (floats <$> cached m sid p Key (Z.of_nat kv))) as ->.
    { unfold group_scores, scores, group_score, group_query. rewrite <-list_fmap_compose.
      apply list_fmap_ext. intros _ k _. apply Hcomm. }
    change (@weighted F (by_reciprocal _)) with (@weighted F _).
    by destruct (weighted _ _ hd). }
  destruct (opt_decode false res) as [[Hr Hrun]|[Hr Hrun]].
  - intros Hr frames kv old pre seg post [Hlen Hptr] Hkv Hold Hpre Hseg.
    destruct (fused_head m sid kind v Hwf Hvp Hview p q o Htyped Hacc Hfits Hq frames Hlen Hr Hptr
      kv old pre seg post) as (ss & Hss & Hrun); try done.
    exists ss. split; [done|]. rewrite Hrun. do 6 f_equal.
    apply list_fmap_ext. intros _ g [_ Hgg]%list_elem_of_lookup_2%elem_of_seq. by apply Hhead.
  - intros Hr h Hh. unfold res.
    apply (@attention_head_length _ _ _ _ _ (by_reciprocal _) _ m sid kind v Hwf Hvp Hview p q o
      Htyped Hacc); [done|]. lia.
  - destruct Href as [[_ ->]|[Hn' _]]; [exact Hrun|done].
  - destruct Href as [[Hr' _]|[_ ->]]; [done|exact Hrun].
Qed.

(** ** The online form *)

Context {finite positive : F → Prop} {Hex : ExactArithmetic F finite positive}.
Context (Hfin : ∀ x : T, finite (as_float x)) (Hscale : finite (pa_scale p)).

Lemma floats_finite (l : list T) : Forall finite (floats l).
Proof. apply Forall_fmap, Forall_forall. intros x _. apply Hfin. Qed.

Lemma vectors_finite (ls : list (list T)) : Forall (Forall finite) (floats <$> ls).
Proof. apply Forall_fmap, Forall_forall. intros l _. apply floats_finite. Qed.

Lemma online_head_exact kv g :
  (kv < kvs)%nat → (g < gs)%nat →
  online_result m sid p q kv g = attention_head m sid p q (kv * gs + g)%nat.
Proof.
  intros Hkv Hgg.
  destruct (params_facts m sid kind v Hwf Hvp Hview p q o Htyped Hacc) as (Hc & _).
  unfold online_result, attention_head, attend. rewrite (group_member kv g Hkv Hgg).
  set (query := floats (slice ((kv * gs + g) * hd) hd q)).
  set (keys := cached (T := T) m sid p Key (Z.of_nat kv)).
  set (values := cached (T := T) m sid p Value (Z.of_nat kv)).
  assert (Forall finite query) as Hqf by apply floats_finite.
  assert (group_scores m sid p q kv g = scores (pa_scale p) query (floats <$> keys)) as ->.
  { unfold group_scores, scores, group_score, group_query. rewrite <-list_fmap_compose.
    apply list_fmap_ext. intros _ k _. simpl. apply ex_mul_comm; [done|].
    apply dot_finite; [done|apply floats_finite]. }
  set (ss := scores (pa_scale p) query (floats <$> keys)).
  assert (Forall finite ss) as Hss.
  { apply Forall_fmap, Forall_fmap, Forall_forall. intros k _. simpl.
    apply ex_mul; [|done]. apply dot_finite; [done|apply floats_finite]. }
  assert (length ss = length (floats <$> values)) as Hlen.
  { unfold ss, scores, keys, values. by rewrite !length_fmap, !cached_length. }
  assert (ss ≠ []) as Hne.
  { intros Hn%(f_equal length). unfold ss, scores, keys in Hn.
    rewrite !length_fmap, cached_length in Hn. simpl in Hn. lia. }
  pose proof (vectors_finite values) as Hvs.
  rewrite online_run_exact by done.
  destruct (weighted_sound ss (floats <$> values) hd Hne Hss Hvs) as [_ Ha].
  pose proof (weighted_positive ss (floats <$> values) hd Hlen Hne Hss Hvs) as Hp.
  destruct (weighted ss _ hd) as [d acc]. unfold scaled_head. cbn [fst snd] in *. f_equal.
  apply list_fmap_ext. intros i x Hx. symmetry. apply ex_div; [|done].
  exact (Forall_lookup_1 _ _ _ _ Ha Hx).
Qed.

Lemma online_decode :
  paged_attention_decode_fast v (Some q) p (Some o) = paged_attention_decode v (Some q) p (Some o).
Proof.
  destruct (group_sizes m sid kind v Hwf Hvp Hview p q o Htyped Hacc)
    as (Hk & Hg & Hd & Hc & Hn & _ & Hg0 & _ & Hk0).
  pose proof (decode_run m sid kind v Hwf Hvp Hview p q o Htyped Hacc Hq Ho) as Href.
  destruct (opt_decode true (attention_head m sid p q)) as [[Hr Hrun]|[Hr Hrun]].
  - intros Hr frames kv old pre seg post [Hlen Hptr] Hkv Hold Hpre Hseg.
    exists old. split; [done|].
    rewrite (online_head m sid kind v Hwf Hvp Hview p q o Htyped Hacc Hfits Hq frames Hlen Hr Hptr)
      by done. do 6 f_equal.
    apply list_fmap_ext. intros _ g [_ Hgg]%list_elem_of_lookup_2%elem_of_seq.
    by apply online_head_exact.
  - intros Hr h Hh.
    apply (attention_head_length m sid kind v Hwf Hvp Hview p q o Htyped Hacc); [done|]. lia.
  - destruct Href as [[_ ->]|[Hn' _]]; [exact Hrun|done].
  - destruct Href as [[Hr' _]|[_ ->]]; [done|exact Hrun].
Qed.
End View.

(** ** Properties *)

Section Properties.
Context {B T F : Type} `{SwapBackendLaws B} `{FloatOps F} `{Element T F}.
Implicit Types m : KVCacheManager B.
Implicit Types v : CacheView B.
Implicit Types p : PagedAttentionParams F.
Implicit Types q o : list T.

(** C10. The fused kernel, which walks the cache once for all the query heads that share
    a kv head, gives what the reference gives when its divisions go through the
    reciprocal, result and output bit for bit. All it takes of the arithmetic is that
    the product commutes, which floating point satisfies. *)
Theorem fused_equals_reference m sid kind v p q o :
  mgr_wf m → view_pool (allocator_ m) → cache_view m sid kind = Some (Some v) →
  params_typed p → context_len p + tokens_per_block (pool_shape (allocator_ m)) <= W32 →
  let n := (Z.to_nat (num_query_heads p) * Z.to_nat (head_dim (pool_shape (allocator_ m))))%nat in
  (n <= length q)%nat → (n <= length o)%nat →
  (∀ x y : F, f_mul x y = f_mul y x) →
  paged_attention_decode_fused v (Some q) p (Some o) =
    @paged_attention_decode B T F (by_reciprocal _) _ v (Some q) p (Some o).
Proof.
  intros Hwf Hvp Hv Hp Hfit n Hq Ho Hcomm. destruct (accepts v (Some q) (Some o) p) eqn:Hacc.
  - by apply (fused_decode m sid kind).
  - unfold paged_attention_decode_fused, paged_attention_decode_opt, paged_attention_decode.
    rewrite Hacc. by destruct (view_allocator v).
Qed.

(** C9. The fast kernel, which keeps a running maximum and rescales its sums whenever it
    rises, computes the attention of the reference: in exact arithmetic, over finite
    elements and a finite scale, both give the same result and the same output. *)
Theorem fast_equals_reference m sid kind v p q o finite positive :
  ExactArithmetic F finite positive →
  mgr_wf m → view_pool (allocator_ m) → cache_view m sid kind = Some (Some v) →
  params_typed p → context_len p + tokens_per_block (pool_shape (allocator_ m)) <= W32 →
  let n := (Z.to_nat (num_query_heads p) * Z.to_nat (head_dim (pool_shape (allocator_ m))))%nat in
  (n <= length q)%nat → (n <= length o)%nat →
  (∀ x : T, finite (as_float x)) → finite (pa_scale p) →
  paged_attention_decode_fast v (Some q) p (Some o) = paged_attention_decode v (Some q) p (Some o).
Proof.
  intros Hex Hwf Hvp Hv Hp Hfit n Hq Ho Hfin Hsc. destruct (accepts v (Some q) (Some o) p) eqn:Hacc.
  - by eapply (online_decode m sid kind).
  - unfold paged_attention_decode_fast, paged_attention_decode_opt, paged_attention_decode.
    rewrite Hacc. by destruct (view_allocator v).
Qed.
End Properties.
