(* ===== verification/AttentionDemo.v ===== *)
(** Attention on a small cache of floats: four frames of two tokens, every element
    one, a sequence of three tokens in scattered order of allocation. Then the
    arithmetics the theorems about the kernels are used at: the reals with a bottom,
    which are exact, and single precision, whose product commutes. *)
From Stdlib Require Import Floats.SpecFloat.
From Stdlib Require Import Reals Lra.
From S2P Require Import Prelude.
From S2P Require Import Block.
From S2P Require Import CacheLayout.
From S2P Require Import SwapBackend.
From S2P Require Import BlockTable.
From S2P Require Import MemoryAllocator.
From S2P Require Import AllocatorSpec.
From S2P Require Import AllocatorProps.
From S2P Require Import KVCacheManager.
From S2P Require Import CacheAccounting.
From S2P Require Import AllocatorMoves.
From S2P Require Import CacheInvariant.
From S2P Require Import CacheLemmas.
From S2P Require Import CacheProps.
From S2P Require Import CacheViews.
From S2P Require Import CacheDemo.
From S2P Require Import PagedAttention.
From S2P Require Import AttentionLoops.
From S2P Require Import AttentionCache.
From S2P Require Import AttentionProps.
From S2P Require Import AttentionExact.
From S2P Require Import AttentionEquiv.

Definition float_config : AllocatorConfig :=
  mkAllocatorConfig (mkBlockShape 2 1 1 1 4 0) (mkHostMemoryOptions 16 false) 4.
(** [1.0F], and a slab of them. *)
Definition one_bytes : list byte := [Byte.x00; Byte.x00; Byte.x80; Byte.x3f].
Definition float_slab : list byte := concat (replicate 16 one_bytes).
Definition float_pool : MemoryAllocator HostSwapBackend :=
  set_swap_backend (MemoryAllocator_adopt float_config (Some (256, float_slab)))
    (Some (HostSwapBackend_new 4)).

Lemma float_config_ok : config_ok float_config.
Proof. split; [split|..]; vm_compute; intuition discriminate. Qed.

Lemma float_fresh : fresh_pool float_pool.
Proof.
  assert (Z.of_nat (length float_slab) = max_blocks float_config * block_stride_for float_config)
    as Hlen by (vm_compute; done).
  destruct (bind_frames_wf (B:=HostSwapBackend) float_config false 256 _ float_config_ok Hlen)
    as (Hwf & Hr & Hn).
  split.
  - split; [by apply with_backend_wf, host_new_ok|]. intros slot bytes.
    unfold float_pool, swapped. cbn -[lookup]. by rewrite lookup_empty.
  - split; vm_compute; intuition discriminate.
  - exact Hr.
  - done.
Qed.

(** One sequence of two blocks. *)
Definition float_new : KVCacheManager HostSwapBackend := KVCacheManager_new float_pool.
Definition float_one := after (after float_new (CreateSequence (demo_md 1))) (ReserveTokens 1 3).

Lemma float_new_wf : mgr_wf float_new.
Proof. apply new_manager_wf, float_fresh. Qed.

Lemma float_created_wf : mgr_wf (after float_new (CreateSequence (demo_md 1))).
Proof. run_demo float_new_wf. done. Qed.

Lemma float_one_wf : mgr_wf float_one.
Proof.
  unfold float_one. run_demo float_created_wf. split; [done|done|done|].
  intros st Hs. vm_compute in Hs. injection Hs as <-. vm_compute. done.
Qed.

Lemma float_view_pool : view_pool (allocator_ float_one).
Proof. split; by vm_compute. Qed.

(** The same sequence after a swap out and in, in other frames. *)
Definition float_out := after float_one (SwapOutSequence 1).
Definition float_moved := after float_out (SwapInSequence 1).

Lemma float_moved_wf : mgr_wf float_moved.
Proof.
  assert (mgr_wf float_out) as Hout.
  { unfold float_out. run_demo float_one_wf. right. vm_compute. discriminate. }
  unfold float_moved. run_demo Hout. intros st Hs. vm_compute in Hs. injection Hs as <-.
  by vm_compute.
Qed.

Lemma float_moved_pool : view_pool (allocator_ float_moved).
Proof. split; by vm_compute. Qed.

Lemma float_moved_view : ∃ v, cache_view float_moved 1 TextKV = Some (Some v).
Proof. eexists. vm_compute. reflexivity. Qed.

(** Single precision; the constant stands for the library's [std::exp], which the
    scores below, all equal, only use at zero. *)
#[local] Instance float_ops : FloatOps spec_float := binary32 (λ _, SFone 24 128).

Definition float_params : PagedAttentionParams spec_float := mkParams 0 2 3 (SFone 24 128).
Definition float_one_value : spec_float := SFone 24 128.

Lemma float_view : ∃ v, cache_view float_one 1 TextKV = Some (Some v) ∧
  accepts (T := spec_float) v (Some (replicate 2 float_one_value)) (Some (replicate 3 S754_nan)) float_params = true ∧
  pool_shape (allocator_ float_one) = mkBlockShape 2 1 1 1 4 0.
Proof. eexists. split; [vm_compute; reflexivity|]. split; vm_compute; reflexivity. Qed.

Lemma float_params_typed : params_typed float_params.
Proof. by split_and!; split; vm_compute. Qed.

Lemma float_resolves m v :
  m = float_one ∨ m = float_moved →
  cache_view m 1 TextKV = Some (Some v) → resolves (T := spec_float) v float_params.
Proof.
  intros Hm Hv kv_head token Hk Ht.
  assert (kv_head = 0) as ->
    by (destruct Hm as [-> | ->]; vm_compute in Hv; injection Hv as <-; cbn in Hk; lia).
  cbn [context_len float_params] in Ht.
  assert (token = 0 ∨ token = 1 ∨ token = 2) as Htk by lia.
  destruct Hm as [-> | ->]; destruct Htk as [->|[->| ->]]; vm_compute in Hv; injection Hv as <-;
    split; eexists; vm_compute; reflexivity.
Qed.

(** The attention of equal values is the value: the buffer's third element is past
    the end of the result. *)
Example float_decode :
  (v ← cache_view float_one 1 TextKV; v ← v;
   paged_attention_decode v (Some (replicate 2 float_one_value)) float_params
     (Some (replicate 3 S754_nan))) =
  Some (true, Some [float_one_value; float_one_value; S754_nan]).
Proof. vm_compute. reflexivity. Qed.

(** ** Witnesses *)

Lemma decode_reads_cache_witness :
  ∃ v, cache_view float_one 1 TextKV = Some (Some v) ∧
    paged_attention_decode v (Some (replicate 2 float_one_value)) float_params
      (Some (replicate 3 S754_nan)) =
    Some (true, Some (attention float_one 1 float_params (replicate 2 float_one_value)
                        ++ [S754_nan])).
Proof.
  destruct float_view as (v & Hv & Hacc & Hps). exists v. split; [exact Hv|].
  destruct (decode_reads_cache float_one 1 TextKV v float_params (replicate 2 float_one_value)
    (replicate 3 S754_nan) float_one_wf float_view_pool Hv float_params_typed Hacc)
    as [[_ Hrun]|[Hn _]].
  - rewrite Hps. simpl. lia.
  - rewrite Hps. simpl. lia.
  - rewrite Hps in Hrun. exact Hrun.
  - destruct (Hn (float_resolves _ v (or_introl eq_refl) Hv)).
Defined.

Lemma decode_placement_independent_witness :
  ∃ v v', cache_view float_one 1 TextKV = Some (Some v) ∧
    cache_view float_moved 1 TextKV = Some (Some v') ∧
    paged_attention_decode v' (Some (replicate 2 float_one_value)) float_params
      (Some (replicate 3 S754_nan)) =
    paged_attention_decode v (Some (replicate 2 float_one_value)) float_params
      (Some (replicate 3 S754_nan)).
Proof.
  destruct float_view as (v & Hv & Hacc & Hps). destruct float_moved_view as (v' & Hv').
  exists v, v'. split; [exact Hv|]. split; [exact Hv'|].
  apply (decode_placement_independent float_one float_moved 1 1 TextKV TextKV v v' float_params
    (replicate 2 float_one_value) (replicate 3 S754_nan) float_one_wf float_view_pool Hv
    float_moved_wf float_moved_pool Hv' float_params_typed Hacc).
  - rewrite Hps. simpl. lia.
  - rewrite Hps. simpl. lia.
  - vm_compute. reflexivity.
  - vm_compute. reflexivity.
  - exact (float_resolves _ v (or_introl eq_refl) Hv).
  - exact (float_resolves _ v' (or_intror eq_refl) Hv').
Defined.

Lemma blocked_equals_reference_witness :
  ∃ v, cache_view float_one 1 TextKV = Some (Some v) ∧
    paged_attention_decode_blocked v (Some (replicate 2 float_one_value)) float_params
      (Some (replicate 3 S754_nan)) =
    paged_attention_decode v (Some (replicate 2 float_one_value)) float_params
      (Some (replicate 3 S754_nan)).
Proof.
  destruct float_view as (v & Hv & Hacc & Hps). exists v. split; [exact Hv|].
  apply (blocked_equals_reference float_one 1 TextKV v float_params
    (Some (replicate 2 float_one_value)) (Some (replicate 3 S754_nan)) float_one_wf
    float_view_pool Hv float_params_typed).
  rewrite Hps. by vm_compute.
Defined.

(** ** The reals *)

#[export] Instance R_lt_dec (a b : R) : Decision (a < b)%R := Rlt_dec a b.
#[export] Instance R_eq_dec (a b : R) : Decision (a = b) := Req_dec_T a b.

Inductive extended := Bottom | Real (r : R).

(** An operation on reals; the kernels only apply it to the bottom in the difference
    under the exponential. *)
Definition lift2 (f : R → R → R) (x y : extended) : extended :=
  match x, y with Real a, Real b => Real (f a b) | _, _ => Bottom end.

Definition extended_ltb (x y : extended) : bool :=
  match x, y with
  | Bottom, Real _ => true
  | Real a, Real b => bool_decide (a < b)%R
  | _, _ => false
  end.
Definition extended_eqb (x y : extended) : bool :=
  match x, y with
  | Bottom, Bottom => true
  | Real a, Real b => bool_decide (a = b)
  | _, _ => false
  end.

Definition real_exp (x : extended) : extended :=
  match x with Bottom => Real 0 | Real a => Real (exp a) end.

Definition exact_reals : FloatOps extended :=
  mkFloatOps extended (Real 0) (Real 1) Bottom (lift2 Rplus) (lift2 Rminus) (lift2 Rmult)
    (lift2 Rdiv) extended_ltb extended_eqb real_exp.

Definition is_real (x : extended) : Prop := ∃ a, x = Real a.
Definition is_positive (x : extended) : Prop := ∃ a, x = Real a ∧ (0 < a)%R.

(** An equation between reals, under the constructor. *)
Ltac real_law :=
  repeat (let a := fresh "a" in intros [a ->]); cbn; f_equal.

Lemma reals_exact : @ExactArithmetic extended exact_reals is_real is_positive.
Proof.
  split.
  - by exists 0%R.
  - intros x y [a ->] [b ->]. by eexists.
  - intros x y [a ->] [b ->]. by eexists.
  - intros x y [a ->] [b ->]. by eexists.
  - intros x (a & -> & _). by eexists.
  - intros x [a ->]. exists (exp a). split; [done|apply exp_pos].
  - intros x y (a & -> & Ha) (b & -> & Hb). exists (a + b)%R. split; [done|lra].
  - intros x (a & -> & Ha). cbn. apply bool_decide_eq_false. lra.
  - cbn. by apply bool_decide_eq_true.
  - intros x y [a ->] [b ->]. cbn. by intros ->%bool_decide_eq_true.
  - intros x. real_law. lra.
  - intros x. real_law. lra.
  - intros x. real_law. lra.
  - intros x y. real_law. lra.
  - intros x y z. real_law. lra.
  - intros x y z. real_law. lra.
  - intros x y z. real_law. rewrite <-exp_plus. f_equal. lra.
  - intros x. real_law. rewrite <-exp_0. f_equal. lra.
  - by intros x [a ->].
  - by intros x [a ->].
  - intros x y [a ->] (b & -> & Hb). cbn. f_equal. lra.
Qed.

(** Elements that are the integers of their bytes. *)
#[export] Instance Element_real : Element R extended :=
  mkElement _ _ 4 (λ bytes, IZR (word_of_bytes bytes)) Real
    (λ x, match x with Bottom => 0%R | Real a => a end).

Definition real_params : PagedAttentionParams extended := mkParams 0 2 3 (Real (1 / 2)).

Lemma fast_equals_reference_witness :
  ∃ v, cache_view float_one 1 TextKV = Some (Some v) ∧
    accepts v (Some [1; 2]%R) (Some [0; 0]%R) real_params = true ∧
    @paged_attention_decode_fast _ _ _ exact_reals _ v (Some [1; 2]%R) real_params
      (Some [0; 0]%R) =
    @paged_attention_decode _ _ _ exact_reals _ v (Some [1; 2]%R) real_params (Some [0; 0]%R).
Proof.
  destruct float_view as (v & Hv & _ & Hps). exists v. split; [exact Hv|]. split.
  { vm_compute in Hv. injection Hv as <-. reflexivity. }
  apply (@fast_equals_reference _ _ _ _ _ exact_reals _ float_one 1 TextKV v real_params
    [1; 2]%R [0; 0]%R is_real is_positive reals_exact float_one_wf float_view_pool Hv).
  - split_and!; split; vm_compute; intuition discriminate.
  - rewrite Hps. vm_compute. discriminate.
  - rewrite Hps. simpl. lia.
  - rewrite Hps. simpl. lia.
  - intros x. by exists x.
  - by eexists.
Defined.

(** ** Single precision *)

Lemma SFmul_comm prec emax x y : SFmul prec emax x y = SFmul prec emax y x.
Proof.
  destruct x as [sx|sx| |sx mx ex], y as [sy|sy| |sy my ey]; cbn;
    rewrite ?(xorb_comm sx sy), ?(Pos.mul_comm mx my), ?(Z.add_comm ex ey); reflexivity.
Qed.

#[local] Instance single : FloatOps spec_float := binary32 (λ _, SFone 24 128).

Lemma fused_equals_reference_witness :
  ∃ v, cache_view float_one 1 TextKV = Some (Some v) ∧
    paged_attention_decode_fused v (Some (replicate 2 float_one_value)) float_params
      (Some (replicate 3 S754_nan)) =
    @paged_attention_decode _ _ _ (by_reciprocal _) _ v (Some (replicate 2 float_one_value))
      float_params (Some (replicate 3 S754_nan)).
Proof.
  destruct float_view as (v & Hv & _ & Hps). exists v. split; [exact Hv|].
  apply (fused_equals_reference float_one 1 TextKV v float_params (replicate 2 float_one_value)
    (replicate 3 S754_nan) float_one_wf float_view_pool Hv float_params_typed).
  - rewrite Hps. vm_compute. discriminate.
  - rewrite Hps. simpl. lia.
  - rewrite Hps. simpl. lia.
  - apply SFmul_comm.
Defined.
