(* ===== verification/TraceReplay.v ===== *)
(** Replaying a trace ([tools/trace_replay/TraceReplay.h], [TraceReplay.cpp]): the
    trace's data, loading it from JSON lines, the helpers of the paged replay and the
    rows of the report. The JSON library is a parameter: what the loader calls of it,
    each call with the error it may throw. *)
From coqutil Require Import Datatypes.RecordSetters.
From stdpp Require Import pretty.
From Stdlib Require Import Floats.SpecFloat.
From S2P Require Import Prelude.
From S2P Require Import Block.
From S2P Require Import SwapBackend.
From S2P Require Import BlockTable.
From S2P Require Import MemoryAllocator.
From S2P Require Import KVCacheManager.
Import TriangleBracketNotations.
#[local] Open Scope record_set.

(** ** Data *)

Record TraceHeader := mkTraceHeader {
  model : string;
  mix : string;
  dimension_source : string;
  pixel_budget : string;
  seed : Z;
  num_requests : Z;
  hdr_num_layers : Z;
  hdr_num_kv_heads : Z;
  hdr_head_dim : Z;
  hdr_bytes_per_element : Z;
  max_prompt_tokens : Z;
  max_decode_budget : Z;
  visual_tokens_max : Z;
  images_total : Z
}.
Definition TraceHeader_default : TraceHeader :=
  mkTraceHeader "" "" "" "" 0 0 0 0 0 0 0 0 0 0.

Record TraceImage := mkTraceImage { grid_t : Z; grid_h : Z; grid_w : Z; visual_tokens : Z }.

Record TraceRequest := mkTraceRequest {
  tr_request_id : Z;
  arrival_us : Z;
  text_tokens : Z;
  tr_prompt_tokens : Z;
  decode_budget : Z;
  decode_actual : Z;
  tr_parallel_samples : Z;
  tr_prefix_key : string;
  images : list TraceImage;
  tr_multimodal_spans : list MultimodalSpan;
  tr_positional_encoding : PositionalEncodingMetadata
}.

Record Trace := mkTrace { header : TraceHeader; requests : list TraceRequest }.

Record ReplayConfig := mkReplayConfig {
  cfg_tokens_per_block : Z;
  cfg_max_blocks : Z;
  cfg_max_active_requests : Z;
  cfg_max_batch_tokens : Z;
  cfg_preemption_watermark_blocks : Z;
  swap_slots : Z;
  cfg_size_aware_admission : bool;
  cfg_admission_skip_limit : Z;
  prefix_caching : bool;
  baseline_max_context : Z;
  max_steps : Z
}.

Record ReplayMetrics := mkReplayMetrics {
  mode : string;
  steps : Z;
  requests_completed : Z;
  requests_admitted : Z;
  tokens_decoded : Z;
  peak_blocks_in_use : Z;
  peak_bytes_in_use : Z;
  peak_active_requests : Z;
  reserved_token_slots : Z;
  committed_tokens : Z;
  preemptions : Z;
  resumes : Z;
  failed_resumes : Z;
  swapped_blocks_out : Z;
  forks : Z;
  cow_events : Z;
  prefix_hits : Z;
  prefix_blocks_saved : Z;
  p99_ttft_cost : Z;
  head_of_line_stall_steps : Z;
  fragmentation_failures : Z;
  requests_never_admissible : Z;
  max_partial_block_slack : Z;
  completed : bool;
  leak_free : bool
}.
Definition ReplayMetrics_default (name : string) : ReplayMetrics :=
  mkReplayMetrics name 0 0 0 0 0 0 0 0 0 0 0 0 0 0 0 0 0 0 0 0 0 0 false false.

(** The division of two [double]s, with the rounding of the conversions. *)
Definition double_of (n : Z) : spec_float := binary_normalize 53 1024 n 0 false.
Definition utilization (r : ReplayMetrics) : spec_float :=
  if reserved_token_slots r =? 0 then S754_zero false
  else SFdiv 53 1024 (double_of (committed_tokens r)) (double_of (reserved_token_slots r)).

(** ** Results that may be exceptions *)

Inductive result (A : Type) := Value (x : A) | Throw (what : string).
Arguments Value {A}.
Arguments Throw {A}.

#[export] Instance result_ret : MRet result := @Value.
#[export] Instance result_bind : MBind result := λ A B f r,
  match r with Value x => f x | Throw what => Throw what end.

(** A range-based [for] whose body may throw. *)
Fixpoint foldR {A S} (f : S → A → result S) (s : S) (l : list A) : result S :=
  match l with
  | [] => Value s
  | x :: l' => s' ← f s x; foldR f s' l'
  end.

(** ** Loading *)

Definition kSupportedSchemaVersion : Z := 1.

(** What the loader uses of the JSON library. The numbers are those of the type
    asked for; iterating visits the elements of an array. *)
Class Json (J : Type) := {
  json_parse : string → result J;
  json_at : J → string → result J;
  json_index : J → Z → result J;
  json_value : J → string → string → result string;
  json_string : J → result string;
  json_int : J → result Z;
  json_u32 : J → result Z;
  json_u64 : J → result Z;
  json_i64 : J → result Z;
  json_elements : J → list J
}.

Definition ceil_div (value divisor : Z) : Z :=
  if divisor =? 0 then 0 else u32 (value ⊞ divisor - 1) / divisor.

Definition kind_from_string (name : string) : PositionEncodingKind :=
  if String.eqb name "image" then Image2D
  else if String.eqb name "video" then Video3D
  else Text1D.

Section Loading.
Context {J : Type} `{Json J}.

Definition position_from_json (array : J) : result Position3D :=
  t ← json_index array 0; temporal ← json_i64 t;
  h ← json_index array 1; height ← json_i64 h;
  w ← json_index array 2; width ← json_i64 w;
  Value (mkPosition3D temporal height width).

(** [record.at(key).get<T>()] for the types of the fields. *)
Definition field {A} (get : J → result A) (record : J) (key : string) : result A :=
  j ← json_at record key; get j.

Definition header_from_json (record : J) : result TraceHeader :=
  model ← field json_string record "model";
  mix ← field json_string record "mix";
  dimension_source ← field json_string record "dimension_source";
  pixel_budget ← field json_string record "pixel_budget";
  seed ← field json_u64 record "seed";
  num_requests ← field json_u32 record "num_requests";
  num_layers ← field json_u32 record "num_layers";
  num_kv_heads ← field json_u32 record "num_kv_heads";
  head_dim ← field json_u32 record "head_dim";
  bytes_per_element ← field json_u32 record "bytes_per_element";
  max_prompt_tokens ← field json_u32 record "max_prompt_tokens";
  max_decode_budget ← field json_u32 record "max_decode_budget";
  visual_tokens_max ← field json_u32 record "visual_tokens_max";
  images_total ← field json_u32 record "images_total";
  Value (mkTraceHeader model mix dimension_source pixel_budget seed num_requests num_layers
           num_kv_heads head_dim bytes_per_element max_prompt_tokens max_decode_budget
           visual_tokens_max images_total).

Definition image_from_json (image : J) : result TraceImage :=
  t ← field json_u32 image "grid_t";
  h ← field json_u32 image "grid_h";
  w ← field json_u32 image "grid_w";
  v ← field json_u32 image "visual_tokens";
  Value (mkTraceImage t h w v).

Definition span_from_json (span : J) : result PositionalEncodingSpan :=
  start ← field json_u32 span "start_token";
  count ← field json_u32 span "token_count";
  kind ← field json_string span "kind";
  o ← json_at span "origin"; origin ← position_from_json o;
  s ← json_at span "stride"; stride ← position_from_json s;
  Value (mkPositionalEncodingSpan start count (kind_from_string kind) origin stride).

(** One iteration of the loop over the spans: a span that is not text is also a
    feature, with the next index. *)
Definition add_span (s : list PositionalEncodingSpan * list MultimodalSpan * Z) (span : J)
    : result (list PositionalEncodingSpan * list MultimodalSpan * Z) :=
  let '(spans, features, feature_index) := s in
  parsed ← span_from_json span;
  let spans' := spans ++ [parsed] in
  match pe_kind parsed with
  | Text1D => Value (spans', features, feature_index)
  | _ =>
    Value (spans',
           features ++ [mkMultimodalSpan (pe_start_token parsed) (pe_token_count parsed)
                          feature_index],
           feature_index ⊞ 1)
  end.

Definition request_from_json (record : J) : result TraceRequest :=
  request_id ← field json_u64 record "request_id";
  arrival_us ← field json_u64 record "arrival_us";
  text_tokens ← field json_u32 record "text_tokens";
  prompt_tokens ← field json_u32 record "prompt_tokens";
  decode_budget ← field json_u32 record "decode_budget";
  decode_actual ← field json_u32 record "decode_actual";
  num_parallel_samples ← field json_u32 record "num_parallel_samples";
  prefix_key ← field json_string record "prefix_key";
  image_records ← json_at record "images";
  images ← foldR (λ l image, parsed ← image_from_json image; Value (l ++ [parsed])) []
             (json_elements image_records);
  span_records ← json_at record "mrope_spans";
  '(spans, features, _) ← foldR add_span ([], [], 0) (json_elements span_records);
  Value (mkTraceRequest request_id arrival_us text_tokens prompt_tokens decode_budget
           decode_actual num_parallel_samples prefix_key images features
           (mkPositionalEncodingMetadata spans)).

(** [path + ":" + line + ": "]. *)
Definition at_line (path : string) (n : Z) (what : string) : string :=
  path +:+ ":" +:+ pretty n +:+ ": " +:+ what.

(** What a record does to the trace: [inl] is an error returned, a [Throw] the
    exception caught around it. *)
Definition load_record (path : string) (n : Z) (s : Trace * bool) (record : J)
    : result (string + Trace * bool) :=
  let '(trace, saw_header) := s in
  kind ← json_value record "record" "";
  if String.eqb kind "header" then
    version ← field json_int record "schema_version";
    if negb (version =? kSupportedSchemaVersion)
    then Value (inl (path +:+ ": unsupported schema_version " +:+ pretty version))
    else h ← header_from_json record; Value (inr (mkTrace h (requests trace), true))
  else if String.eqb kind "request" then
    r ← request_from_json record;
    Value (inr (mkTrace (header trace) (requests trace ++ [r]), saw_header))
  else Value (inl (at_line path n ("unknown record '" +:+ kind +:+ "'"))).

(** One line: the error to return with, or the trace so far. *)
Definition load_line (path : string) (n : Z) (s : Trace * bool) (line : string)
    : string + Trace * bool :=
  if String.eqb line "" then inr s
  else
    match json_parse line with
    | Throw what => inl (at_line path n what)
    | Value record =>
      match load_record path n s record with
      | Throw what => inl (at_line path n what)
      | Value r => r
      end
    end.

Fixpoint load_lines (path : string) (n : Z) (s : Trace * bool) (lines : list string)
    : string + Trace * bool :=
  match lines with
  | [] => inr s
  | line :: rest =>
    match load_line path n s line with
    | inl error => inl error
    | inr s' => load_lines path (n + 1) s' rest
    end
  end.

(** [lines] are what [std::getline] yields, or nothing when the file does not open;
    the result is the trace or the error. *)
Definition load_trace (path : string) (lines : option (list string)) : string + Trace :=
  match lines with
  | None => inl ("cannot open " +:+ path)
  | Some lines =>
    match load_lines path 1 (mkTrace TraceHeader_default [], false) lines with
    | inl error => inl error
    | inr (trace, saw_header) =>
      if saw_header : bool then inr trace else inl (path +:+ ": missing header record")
    end
  end.
End Loading.

(** ** Helpers of the paged replay *)

Section Helpers.
Context {B : Type} `{SwapBackend B}.
Implicit Types m : KVCacheManager B.

(** The table of a sequence's view, unless there is none. *)
Definition viewed_table m (sequence_id : Z) : option (option BlockTable) :=
  view ← cache_view m sequence_id TextKV;
  Some (v ← view; view_block_table v).

(** A division by [tokens_per_block]: undefined when it is zero. *)
Definition block_of (position tokens_per_block : Z) : option Z :=
  if tokens_per_block =? 0 then None else Some (position / tokens_per_block).

Definition touch_position m (sequence_id position tokens_per_block : Z) (metrics : ReplayMetrics)
    : option (ReplayMetrics * KVCacheManager B) :=
  view ← viewed_table m sequence_id;
  match view with
  | None => Some (metrics, m)
  | Some table =>
    logical ← block_of position tokens_per_block;
    let before := lookup_block table logical in
    '(after, m') ← ensure_token_writable m sequence_id position TextKV 0;
    Some (match before, after with
          | Some b, Some a =>
            if b =? a then metrics else metrics <| cow_events ::= λ n, n ⊕ 1 |>
          | _, _ => metrics
          end, m')
  end.

Definition ensure_capacity m (sequence_id position tokens_per_block : Z)
    : option (bool * KVCacheManager B) :=
  view ← viewed_table m sequence_id;
  match view with
  | None => Some (false, m)
  | Some table =>
    logical ← block_of position tokens_per_block;
    if logical <? table_size table then Some (true, m) else reserve_tokens m sequence_id 1
  end.

Definition reserved_slots m (sequence_id tokens_per_block : Z) : option Z :=
  view ← viewed_table m sequence_id;
  Some (match view with
        | None => 0
        | Some table => u32 (table_size table) ⊠ tokens_per_block
        end).
End Helpers.

(** The smallest pool for the worst requests. *)
Definition request_worst_blocks (config : ReplayConfig) (request : TraceRequest) : Z :=
  let branches := Z.max 1 (tr_parallel_samples request) in
  let prompt_blocks := ceil_div (tr_prompt_tokens request) (cfg_tokens_per_block config) in
  let branch_blocks := ceil_div (decode_budget request) (cfg_tokens_per_block config) ⊞ 2 in
  prompt_blocks ⊞ (branches ⊠ branch_blocks).

Definition suggested_pool_blocks (trace : Trace) (config : ReplayConfig) : Z :=
  foldl (λ worst request, Z.max worst (request_worst_blocks config request)) 0 (requests trace)
    ⊠ Z.max 1 (cfg_max_active_requests config).

(** ** The rows of the report ([csv_header] and [to_csv_row]) *)

Definition csv_header : string :=
  "trace_mix,pixel_budget,dimension_source,mode,pool_blocks,tokens_per_block," +:+
  "baseline_max_context,preemption_watermark,requests,requests_admitted," +:+
  "requests_completed,requests_never_admissible,steps,tokens_decoded," +:+
  "peak_active_requests,peak_blocks_in_use,peak_bytes_in_use,utilization," +:+
  "max_partial_block_slack," +:+
  "preemptions,resumes,failed_resumes,swapped_blocks_out,forks,cow_events," +:+
  "prefix_hits,prefix_blocks_saved,p99_ttft_cost,size_aware,prefix_caching," +:+
  "head_of_line_stall_steps,fragmentation_failures,completed,leak_free".

(** ** [std::fixed] with [std::setprecision(6)] *)

(** [n / d] to the nearest integer, ties to even. *)
Definition div_nearest (n d : Z) : Z :=
  let q := n / d in
  let r := n mod d in
  if (d <? 2 * r) || ((2 * r =? d) && Z.odd q) then q + 1 else q.

(** The six digits after the point. *)
Definition six_digits (n : Z) : string :=
  match pretty (1000000 + n) with String _ digits => digits | EmptyString => "" end.

Definition sign_of (negative : bool) : string := if negative then "-" else "".

Definition fixed6 (x : spec_float) : string :=
  match x with
  | S754_zero s => sign_of s +:+ "0.000000"
  | S754_infinity s => sign_of s +:+ "inf"
  | S754_nan => "nan"
  | S754_finite s m e =>
    let scaled := if 0 <=? e then Zpos m * 2 ^ e * 1000000
                  else div_nearest (Zpos m * 1000000) (2 ^ (- e)) in
    sign_of s +:+ pretty (scaled / 1000000) +:+ "." +:+ six_digits (scaled mod 1000000)
  end.

Definition flag (b : bool) : string := if b then "1" else "0".

(** The fields, separated by commas. *)
Fixpoint joined (fields : list string) : string :=
  match fields with
  | [] => ""
  | [field] => field
  | field :: rest => field +:+ "," +:+ joined rest
  end.

Definition to_csv_row (trace : Trace) (config : ReplayConfig) (metrics : ReplayMetrics) : string :=
  joined
    [mix (header trace); pixel_budget (header trace); dimension_source (header trace);
     mode metrics; pretty (cfg_max_blocks config); pretty (cfg_tokens_per_block config);
     pretty (baseline_max_context config); pretty (cfg_preemption_watermark_blocks config);
     pretty (Z.of_nat (length (requests trace))); pretty (requests_admitted metrics);
     pretty (requests_completed metrics); pretty (requests_never_admissible metrics);
     pretty (steps metrics); pretty (tokens_decoded metrics);
     pretty (peak_active_requests metrics); pretty (peak_blocks_in_use metrics);
     pretty (peak_bytes_in_use metrics); fixed6 (utilization metrics);
     pretty (max_partial_block_slack metrics); pretty (preemptions metrics);
     pretty (resumes metrics); pretty (failed_resumes metrics);
     pretty (swapped_blocks_out metrics); pretty (forks metrics); pretty (cow_events metrics);
     pretty (prefix_hits metrics); pretty (prefix_blocks_saved metrics);
     pretty (p99_ttft_cost metrics); flag (cfg_size_aware_admission config);
     flag (prefix_caching config); pretty (head_of_line_stall_steps metrics);
     pretty (fragmentation_failures metrics); flag (completed metrics);
     flag (leak_free metrics)].
