(* ===== verification/SchedulerKeys.v ===== *)
(** The names of the sequences: which request each belongs to and the key of the prefix
    it uses. What each operation does to them follows from its definition alone,
    whatever state it runs in. *)
From S2P Require Import Prelude.
From S2P Require Import Block.
From S2P Require Import SwapBackend.
From S2P Require Import BlockTable.
From S2P Require Import MemoryAllocator.
From S2P Require Import KVCacheManager.
From S2P Require Import Scheduler.

Section Keys.
Context {B : Type} `{SwapBackend B}.
Implicit Types m : KVCacheManager B.
Implicit Types s : Scheduler B.

(** The request and the prefix key of each sequence. *)
Definition tag (st : SequenceState) : Z * string := (sm_request_id (metadata st), prefix_key st).
Definition tags m : gmap Z (Z * string) := tag <$> sequences_ m.

(** The id, the request and the key of every sequence satisfy [P]. *)
Definition tagged (P : Z → Z → string → Prop) m : Prop :=
  map_Forall (λ sid '(rid, key), P sid rid key) (tags m).

Lemma tagged_same P m m' : tags m' = tags m → tagged P m → tagged P m'.
Proof. unfold tagged. by intros ->. Qed.

Lemma tagged_mono (P Q : Z → Z → string → Prop) m :
  (∀ sid rid key, P sid rid key → Q sid rid key) → tagged P m → tagged Q m.
Proof.
  intros HPQ Hm. eapply map_Forall_impl; [exact Hm|]. intros sid [rid key]. apply HPQ.
Qed.

(** Rewriting the tables of a sequence. *)
Lemma tags_tables m a sid st ts :
  sequences_ m !! sid = Some st →
  tags (with_state m a (<[sid := with_tables st ts]> (sequences_ m))) = tags m.
Proof.
  intros Hs. unfold tags. simpl. rewrite fmap_insert. apply insert_id.
  by rewrite lookup_fmap, Hs.
Qed.

Lemma tags_state m a : tags (with_state m a (sequences_ m)) = tags m.
Proof. done. Qed.

(** ** Operations that leave the tags *)

Lemma reserve_tags m sid n ok m' : reserve_tokens m sid n = Some (ok, m') → tags m' = tags m.
Proof.
  unfold reserve_tokens. destruct (sequences_ m !! sid) as [st|] eqn:Hs; [|by intros [= _ <-]].
  case_match; [by intros [= _ <-]|]. case_match; [by intros [= _ <-]|].
  intros ([[g a'] ts'] & _ & [= _ <-])%bind_Some. by apply tags_tables.
Qed.

Lemma ensure_tags m sid pos kind layer r m' :
  ensure_token_writable m sid pos kind layer = Some (r, m') → tags m' = tags m.
Proof.
  unfold ensure_token_writable.
  destruct (sequences_ m !! sid) as [st|] eqn:Hs; [|by intros [= _ <-]].
  destruct (tables st !! _) as [t|]; [|by intros [= _ <-]].
  destruct (entries_ t) as [|e0 es]; [by intros [= _ <-]|].
  case_match; [by intros [= _ <-]|]. destruct (find_entry t _) as [it|]; [|by intros [= _ <-]].
  intros (e & _ & He)%bind_Some. case_match; [by injection He as _ <-|].
  apply bind_Some in He as ([x a'] & _ & Hx).
  destruct x as [[id e']|]; injection Hx as _ <-; [|done]. by apply tags_tables.
Qed.

Lemma swap_out_tags m sid n m' : swap_out_sequence m sid = Some (n, m') → tags m' = tags m.
Proof.
  unfold swap_out_sequence. destruct (sequences_ m !! sid) as [st|] eqn:Hs; [|by intros [= _ <-]].
  intros ([[g [k a']] ts] & _ & [= _ <-])%bind_Some. by apply tags_tables.
Qed.

Lemma swap_in_tags m sid ok m' : swap_in_sequence m sid = Some (ok, m') → tags m' = tags m.
Proof.
  unfold swap_in_sequence. destruct (sequences_ m !! sid) as [st|] eqn:Hs; [|by intros [= _ <-]].
  case_match; [by intros [= _ <-]|]. case_match; [by intros [= _ <-]|].
  intros ([[g a'] ts] & _ & [= _ <-])%bind_Some. by apply tags_tables.
Qed.

Lemma foldM_tags {X T} (f : T → X → option T) (get : T → KVCacheManager B) l t t' :
  (∀ u x u', f u x = Some u' → tags (get u') = tags (get u)) →
  foldM f t l = Some t' → tags (get t') = tags (get t).
Proof.
  intros Hf. revert t. induction l as [|x l IH]; intros t; simpl; [by intros [= ->]|].
  intros (t1 & Ht & Hl)%bind_Some. rewrite (IH _ Hl). by eapply Hf.
Qed.

Lemma swap_out_request_tags m rid n m' :
  swap_out_request m rid = Some (n, m') → tags m' = tags m.
Proof.
  unfold swap_out_request. intros Hr.
  apply (foldM_tags _ snd) in Hr; [done|]. clear Hr. intros [k m1] sid [k' m2] Hs.
  apply bind_Some in Hs as ([k1 m3] & Hs%swap_out_tags & [= _ <-]). done.
Qed.

Lemma swap_in_request_tags m rid ok m' :
  swap_in_request m rid = Some (ok, m') → tags m' = tags m.
Proof.
  unfold swap_in_request. case_match; [by intros [= _ <-]|]. intros Hr.
  apply (foldM_tags _ snd) in Hr; [done|]. clear Hr. intros [[|] m1] sid [k' m2]; simpl.
  - by intros Hs%swap_in_tags.
  - by intros [= _ <-].
Qed.

Lemma preempt_tags s id why ok s' :
  preempt s id why = Some (ok, s') → tags (cache_manager_ s') = tags (cache_manager_ s).
Proof.
  unfold preempt. destruct (find_request _ _) as [[i r]|]; [|by intros [= _ <-]].
  intros ([n m'] & Hm%swap_out_request_tags & [= _ <-])%bind_Some. done.
Qed.

Lemma resume_tags s id ok s' :
  resume s id = Some (ok, s') → tags (cache_manager_ s') = tags (cache_manager_ s).
Proof.
  unfold resume. destruct (find_request _ _) as [[i r]|]; [|by intros [= _ <-]].
  intros ([ok' m'] & Hm%swap_in_request_tags & Hr)%bind_Some.
  destruct ok'; injection Hr as _ <-; done.
Qed.

(** ** Operations that add or remove sequences *)

Lemma drop_user_tags m st m' st' :
  drop_prefix_user m st = (m', st') → sequences_ m' = sequences_ m.
Proof.
  unfold drop_prefix_user. case_decide; [by intros [= <- _]|].
  destruct (prefix_index_ m !! _) as [recs|]; [|by intros [= <- _]].
  destruct (find_record _ _) as [[i r]|]; [|by intros [= <- _]].
  case_match; by intros [= <- _].
Qed.

Lemma release_tagged P m sid : tagged P m → tagged P (release_sequence m sid).
Proof.
  intros Hk. unfold release_sequence. destruct (sequences_ m !! sid) as [st|]; [|done].
  destruct (drop_prefix_user m st) as [m1 st1] eqn:Hd. apply drop_user_tags in Hd.
  unfold tagged, tags. simpl. rewrite fmap_delete, Hd. by apply map_Forall_delete.
Qed.

Lemma release_request_tagged P m rid : tagged P m → tagged P (release_request m rid).
Proof.
  unfold release_request. generalize (sequences_for m rid) as l.
  intros l. revert m. induction l as [|sid l IH]; intros m Hk; [done|]. simpl.
  apply IH. by apply release_tagged.
Qed.

Lemma cancel_tagged P s id : tagged P (cache_manager_ s) → tagged P (cache_manager_ (cancel s id)).
Proof.
  intros Hk. unfold cancel. repeat case_match; simpl; try done; by apply release_request_tagged.
Qed.

(** A sequence that is new or takes a key. *)
Lemma tagged_insert P m m' sid st rid key :
  sequences_ m' = <[sid := st]> (sequences_ m) → tag st = (rid, key) → P sid rid key →
  tagged P m → tagged P m'.
Proof.
  intros Hs Ht HP Hk. unfold tagged, tags. rewrite Hs, fmap_insert, Ht. by apply map_Forall_insert_2.
Qed.

Lemma create_tagged P m md ok m' :
  create_sequence m md = (ok, m') → P (sm_sequence_id md) (sm_request_id md) ""%string →
  tagged P m → tagged P m'.
Proof.
  unfold create_sequence. destruct (sequences_ m !! _) eqn:Hs; [by intros [= _ <-]|].
  intros [= _ <-] HP. eapply tagged_insert; [by apply map_emplace_new|done|done].
Qed.

Lemma create_sequences m md m' :
  create_sequence m md = (true, m') →
  ∃ st, sequences_ m' !! sm_sequence_id md = Some st ∧ metadata st = md.
Proof.
  unfold create_sequence. destruct (sequences_ m !! _) eqn:Hs; [done|].
  intros [= <-]. simpl. rewrite map_emplace_new, lookup_insert_eq by done. by eexists.
Qed.

Lemma fork_tagged P m parent md ok m' :
  fork_sequence m parent md = (ok, m') →
  (ok = true → P (sm_sequence_id md) (sm_request_id md) ""%string) → tagged P m → tagged P m'.
Proof.
  unfold fork_sequence. destruct (sequences_ m !! parent) as [st|]; [|by intros [= _ <-]].
  destruct (sequences_ m !! sm_sequence_id md) eqn:Hs; [by intros [= _ <-]|].
  case_match; [by intros [= _ <-]|]. case_match. intros [= <- <-] HP.
  eapply tagged_insert; [by apply map_emplace_new|done|by apply HP].
Qed.

Lemma attach_tagged P m sid st key n m' :
  attach_prefix m sid key = Some (n, m') → sequences_ m !! sid = Some st →
  P sid (sm_request_id (metadata st)) key → tagged P m → tagged P m'.
Proof.
  unfold attach_prefix. intros Ha Hs HP Hk. rewrite Hs in Ha.
  case_decide; [by injection Ha as _ <-|].
  apply bind_Some in Ha as (t0 & _ & Ha). case_match; [by injection Ha as _ <-|].
  destruct (prefix_index_ m !! key) as [[|r [|]]|]; try by injection Ha as _ <-.
  case_match; [by injection Ha as _ <-|]. case_match; [by injection Ha as _ <-|].
  apply bind_Some in Ha as ([[g [k a']] ts] & _ & [= _ <-]).
  by eapply tagged_insert.
Qed.

Lemma publish_tagged P m sid key ok m' :
  publish_prefix m sid key = Some (ok, m') →
  (∀ st, sequences_ m !! sid = Some st → P sid (sm_request_id (metadata st)) key) →
  tagged P m → tagged P m'.
Proof.
  unfold publish_prefix. intros Hp HP Hk. case_decide; [by injection Hp as _ <-|].
  destruct (sequences_ m !! sid) as [st|] eqn:Hs; [|by injection Hp as _ <-].
  apply bind_Some in Hp as (t0 & _ & Hp). case_match; [by injection Hp as _ <-|].
  case_decide; [by injection Hp as _ <-|]. case_match; [by injection Hp as _ <-|].
  apply bind_Some in Hp as (hash & _ & Hp). case_match; [by injection Hp as _ <-|].
  destruct (find_record _ _) as [[i existing]|]; injection Hp as _ <-;
    (eapply tagged_insert; [reflexivity|reflexivity|exact (HP st eq_refl)|done]).
Qed.

(** ** Admission *)

Lemma admit_sequence_tagged (P : Z → Z → string → Prop) m c ok m' :
  admit_sequence m c = Some (ok, m') → P (root_sequence_id c) (request_id c) ""%string →
  P (root_sequence_id c) (request_id c) (rq_prefix_key c) → tagged P m → tagged P m'.
Proof.
  unfold admit_sequence. intros Ha Hnone Hkey Hk.
  destruct (create_sequence m (metadata_from c)) as [created m2] eqn:Hc.
  destruct created; [|by injection Ha as _ <-; eapply create_tagged].
  pose proof (create_tagged P _ _ _ _ Hc Hnone Hk) as Hk2.
  apply create_sequences in Hc as (st & Hst & Hmd).
  cbn [negb] in Ha. apply bind_Some in Ha as ([att m3] & Hatt & Ha).
  assert (tagged P m3) as Hk3.
  { destruct (_ && _) in Hatt; [|by injection Hatt as _ <-].
    eapply attach_tagged; [exact Hatt|exact Hst| |done]. by rewrite Hmd. }
  apply bind_Some in Ha as ([res m4] & Hres & Ha).
  assert (tagged P m4) as Hk4.
  { destruct (0 <? _) in Hres; [|by injection Hres as _ <-].
    apply reserve_tags in Hres. by eapply tagged_same. }
  case_match; injection Ha as _ <-; [by apply release_request_tagged|done].
Qed.

Lemma reclaim_loop_tags fuel required needed total admitted s s' :
  reclaim_loop fuel required needed total admitted s = Some s' →
  tags (cache_manager_ s') = tags (cache_manager_ s) ∧ pending_ s' = pending_ s.
Proof.
  revert s. induction fuel as [|fuel IH]; intros s; simpl; (case_match; [|by intros [= <-]]); [done|].
  intros (victim & _ & Hr)%bind_Some. apply bind_Some in Hr as ([ok s1] & Hp & Hr).
  assert (pending_ s1 = pending_ s) as Hq.
  { unfold preempt in Hp. destruct (find_request _ _) as [[i r]|]; [|by injection Hp as _ <-].
    by apply bind_Some in Hp as ([n m'] & _ & [= _ <-]). }
  apply preempt_tags in Hp. case_match; [by injection Hr as <-|].
  case_match; [by injection Hr as <-|]. destruct (IH _ Hr) as [-> ->]. done.
Qed.

Lemma reclaim_tags s prompt decode admitted s' :
  reclaim_for_admission s prompt decode admitted = Some s' →
  tags (cache_manager_ s') = tags (cache_manager_ s) ∧ pending_ s' = pending_ s.
Proof.
  unfold reclaim_for_admission. case_match; [by intros [= <-]|]. case_match; [by intros [= <-]|].
  apply reclaim_loop_tags.
Qed.

(** The names that requests ask for. *)
Definition asks (P : Z → Z → string → Prop) (r : Request) : Prop :=
  P (root_sequence_id r) (request_id r) ""%string ∧
  P (root_sequence_id r) (request_id r) (rq_prefix_key r).

Lemma try_admit_tagged P s c plan admitted ok c' plan' s' :
  try_admit s c plan admitted = Some (ok, c', plan', s') →
  asks P c → tagged P (cache_manager_ s) → tagged P (cache_manager_ s') ∧ pending_ s' = pending_ s.
Proof.
  unfold try_admit. intros Ht Hkey Hk. case_match; [by injection Ht as _ _ _ <-|].
  case_match; [by injection Ht as _ _ _ <-|].
  apply bind_Some in Ht as (s1 & [Hr Hq]%reclaim_tags & Ht).
  pose proof (tagged_same P _ _ Hr Hk) as Hk1.
  case_match; [by injection Ht as _ _ _ <-|].
  apply bind_Some in Ht as ([ok' m'] & Hm & Ht).
  pose proof (admit_sequence_tagged P _ _ _ _ Hm (proj1 Hkey) (proj2 Hkey) Hk1) as Hk'.
  case_match; by injection Ht as _ _ _ <-.
Qed.

Lemma scan_tagged P rest i plan s ok plan' s' :
  scan_pending rest i plan s = Some (ok, plan', s') → Forall (asks P) rest →
  Forall (asks P) (pending_ s) → tagged P (cache_manager_ s) →
  tagged P (cache_manager_ s') ∧ Forall (asks P) (pending_ s').
Proof.
  revert i plan s. induction rest as [|r rest IH]; intros i plan s Hr Hall Hq Hk; simpl in Hr;
    [by injection Hr as _ _ <-|].
  apply Forall_cons in Hall as [Hkey Hall].
  apply bind_Some in Hr as ([[[ok1 r1] plan1] s1] & Ht & Hr).
  destruct (try_admit_tagged P _ _ _ _ _ _ _ _ Ht Hkey Hk) as [Hk1 Hq1].
  rewrite <-Hq1 in Hq. case_match; [by eapply IH|]. injection Hr as _ _ <-. simpl.
  split; [done|]. apply Forall_app. split.
  - apply Forall_fmap. eapply Forall_impl; [by apply Forall_take|]. done.
  - by apply Forall_drop.
Qed.

Lemma admit_loop_tagged P fuel plan s plan' s' :
  admit_loop fuel plan s = Some (plan', s') → Forall (asks P) (pending_ s) →
  tagged P (cache_manager_ s) → tagged P (cache_manager_ s').
Proof.
  revert plan s. induction fuel as [|fuel IH]; intros plan s Hr Hq Hk; cbn [admit_loop] in Hr;
    (destruct (pending_ s) as [|head tl] eqn:Hp; [by injection Hr as _ <-|]);
    (case_match; [by injection Hr as _ <-|]); [done|].
  pose proof Hq as Hq0. apply Forall_cons in Hq as [Hkey Hq]. case_match.
  - apply bind_Some in Hr as ([[[ok c'] plan1] s1] & Ht & Hr).
    destruct (try_admit_tagged P _ _ _ _ _ _ _ _ Ht Hkey Hk) as [Hk1 Hq1].
    case_match; [by injection Hr as _ <-|]. eapply (IH _ _ Hr); [|done]. simpl. by rewrite Hq1, Hp.
  - apply bind_Some in Hr as ([[ok plan1] s1] & Ht & Hr).
    rewrite <-Hp in Hq0 at 1.
    destruct (scan_tagged P _ _ _ _ _ _ _ Ht) as [Hk1 Hq1]; [by rewrite <-Hp|done|done|].
    case_match; [by injection Hr as _ <-|]. by eapply IH.
Qed.

Lemma schedule_next_tagged P s plan s' :
  schedule_next s = Some (plan, s') → Forall (asks P) (pending_ s) →
  tagged P (cache_manager_ s) → tagged P (cache_manager_ s').
Proof.
  unfold schedule_next. intros ([p s1] & Hr & [= _ <-])%bind_Some. by eapply admit_loop_tagged.
Qed.
End Keys.
