(* ===== verification/CacheClient.v ===== *)
(** What a client of the cache does between two calls of the scheduler: writing, growing,
    forking and publishing keep the scheduler's invariant, and the sizes of the
    sequences bound what the cache stores and pins. *)
From S2P Require Import Prelude.
From S2P Require Import Block.
From S2P Require Import SwapBackend.
From S2P Require Import BlockTable.
From S2P Require Import MemoryAllocator.
From S2P Require Import AllocatorSpec.
From S2P Require Import AllocatorProps.
From S2P Require Import KVCacheManager.
From S2P Require Import CacheAccounting.
From S2P Require Import AllocatorMoves.
From S2P Require Import CacheInvariant.
From S2P Require Import CacheLemmas.
From S2P Require Import CacheLifecycle.
From S2P Require Import CacheGrowth.
From S2P Require Import CacheWrite.
From S2P Require Import CacheSwap.
From S2P Require Import CacheRecords.
From S2P Require Import CacheRelease.
From S2P Require Import CachePrefix.
From S2P Require Import Scheduler.
From S2P Require Import SchedulerPlan.
From S2P Require Import SchedulerInvariant.
From S2P Require Import SchedulerAdmission.
From S2P Require Import SchedulerKeys.
From S2P Require Import TraceReplay.

(** ** Counting records *)

Lemma map_zsum_const {K V} `{Countable K} (c : Z) (q : gmap K V) :
  map_zsum (λ _ _, c) q = c * Z.of_nat (size q).
Proof.
  induction q as [|k x q Hk IH] using map_ind; [by rewrite map_zsum_empty, map_size_empty, Z.mul_0_r|].
  rewrite map_zsum_insert, map_size_insert_None, IH by done. lia.
Qed.

Lemma map_zsum_scale {K V} `{Countable K} (c : Z) (f : K → V → Z) (q : gmap K V) :
  map_zsum (λ k x, c * f k x) q = c * map_zsum f q.
Proof.
  induction q as [|k x q Hk IH] using map_ind; [by rewrite !map_zsum_empty, Z.mul_0_r|].
  rewrite !map_zsum_insert, IH by done. lia.
Qed.

Lemma length_map_bind {K V A} `{Countable K} (f : K * V → list A) (q : gmap K V) :
  Z.of_nat (length (map_to_list q ≫= f)) = map_zsum (λ k x, Z.of_nat (length (f (k, x)))) q.
Proof.
  induction q as [|k x q Hk IH] using map_ind; [by rewrite map_to_list_empty|].
  rewrite map_zsum_insert, map_to_list_insert by done. cbn. rewrite length_app. lia.
Qed.

(** The key and the hash of every record. *)
Definition record_names (pidx : gmap string (list PrefixRecord)) : list (string * Z) :=
  map_to_list pidx ≫= λ '(key, recs), (λ r, (key, content_hash r)) <$> recs.

Lemma record_names_spec pidx key h :
  (key, h) ∈ record_names pidx ↔
  ∃ recs r, pidx !! key = Some recs ∧ r ∈ recs ∧ content_hash r = h.
Proof.
  unfold record_names. rewrite list_elem_of_bind. split.
  - intros ([k recs] & Hin & Hk%elem_of_map_to_list).
    apply list_elem_of_fmap in Hin as (r & [= -> ->] & Hr). by exists recs, r.
  - intros (recs & r & Hk & Hr & <-). exists (key, recs). split; [|by apply elem_of_map_to_list].
    apply list_elem_of_fmap. by exists r.
Qed.

(** Every record has a sequence of its own among its users. *)
Lemma records_users tpb count seqs pidx :
  prefix_wf tpb count seqs pidx →
  map_zsum (λ _ recs, Z.of_nat (length recs)) pidx <= Z.of_nat (size seqs).
Proof.
  intros Hp.
  transitivity (Z.of_nat (length (record_names pidx))).
  { unfold record_names. rewrite length_map_bind. apply Z.eq_le_incl, map_zsum_ext.
    intros. by rewrite length_fmap. }
  rewrite <-length_map_to_list. apply inj_le.
  rewrite <-(length_fmap (λ '(_, st), (prefix_key st, prefix_hash st)) (map_to_list seqs)).
  apply submseteq_length, NoDup_submseteq.
  - apply NoDup_bind; [| |apply NoDup_map_to_list].
    + intros [k1 r1] [k2 r2] y Hx1 Hx2 (? & -> & _)%list_elem_of_fmap (? & [= -> _] & _)%list_elem_of_fmap.
      apply elem_of_map_to_list in Hx1, Hx2. by simplify_eq.
    + intros [k recs] Hk%elem_of_map_to_list.
      apply (NoDup_fmap_1 snd). rewrite <-list_fmap_compose. by apply (prefix_hashes _ _ _ _ Hp _ _ Hk).
  - intros [key h] (recs & r & Hk & Hr & <-)%record_names_spec.
    destruct (prefix_records _ _ _ _ Hp _ _ _ Hk Hr) as (_ & Hu & Hpos & _). rewrite Hu in Hpos.
    apply map_zsum_pos in Hpos as (sid & st & Hs & Hd); [|intros; by case_decide].
    case_decide as Heq; [|done]. destruct Heq as [<- <-]. apply list_elem_of_fmap.
    exists (sid, st). split; [done|]. by apply elem_of_map_to_list.
Qed.

Section Client.
Context {B : Type} `{SwapBackendLaws B}.
Implicit Types a : MemoryAllocator B.
Implicit Types m : KVCacheManager B.
Implicit Types s : Scheduler B.

(** ** Caches a client may leave behind *)

(** [m'] has the sequences of [m], not shorter and still of the same requests; every
    other sequence of [m'] belongs to a request that has one in [m]. Sequences are
    resident where those of [m] were. *)
Record carries m m' : Prop := {
  carries_wf : mgr_wf m';
  carries_pool : untouched (allocator_ m) (allocator_ m');
  carries_forth sid st : sequences_ m !! sid = Some st →
    ∃ st', sequences_ m' !! sid = Some st' ∧
      sm_request_id (metadata st') = sm_request_id (metadata st) ∧
      (seq_blocks st ≤ seq_blocks st')%nat;
  carries_back sid st' : sequences_ m' !! sid = Some st' →
    ∃ sid0 st, sequences_ m !! sid0 = Some st ∧
      sm_request_id (metadata st') = sm_request_id (metadata st) ∧
      (all_resident (tables st) = true → all_resident (tables st') = true)
}.

Lemma carries_refl m : mgr_wf m → carries m m.
Proof.
  intros Hwf. split; [done|apply untouched_refl|..].
  - intros sid st Hs. by exists st.
  - intros sid st Hs. by exists sid, st.
Qed.

Lemma carries_trans m1 m2 m3 : carries m1 m2 → carries m2 m3 → carries m1 m3.
Proof.
  intros [H1 H2 H3 H4] [G1 G2 G3 G4]. split; [done|by eapply untouched_trans|..].
  - intros sid st Hs. destruct (H3 _ _ Hs) as (st' & Hs' & ? & ?).
    destruct (G3 _ _ Hs') as (st'' & Hs'' & ? & ?). exists st''. split_and!; [done|congruence|lia].
  - intros sid st'' Hs''. destruct (G4 _ _ Hs'') as (i & st' & Hs' & ? & ?).
    destruct (H4 _ _ Hs') as (j & st & Hs & ? & ?). exists j, st. split_and!; [done|congruence|auto].
Qed.

(** The scheduler does not notice. *)
Lemma carries_sched s m' :
  sched_wf s → carries (cache_manager_ s) m' → sched_wf (with_cache s m').
Proof.
  intros [Hc [Hi Hp Ha Hr Hk Hh Hm Hf] Hwf Ho Hb Hres] [Hwf' Hu Hforth Hback].
  split; simpl; [done|by split|done|..].
  - intros sid st' Hs. destruct (Hback _ _ Hs) as (i & st & Hst & -> & _). by eapply Ho.
  - eapply Forall_impl; [exact Hb|]. intros r (st & Hs & Hid & Hlen).
    destruct (Hforth _ _ Hs) as (st' & Hs' & Hid' & Hle). exists st'. split_and!; [done|congruence|].
    unfold tpb_of in *. rewrite (same_pool_tpb _ _ (proj1 Hu)). lia.
  - eapply Forall_impl; [exact Hres|]. intros id Hid sid st' Hs Hrid.
    destruct (Hback _ _ Hs) as (i & st & Hst & Heq & Himp). apply Himp. eapply Hid; [done|congruence].
Qed.

Lemma carries_tpb m m' : carries m m' → tpb_of m' = tpb_of m ∧ count_of m' = count_of m.
Proof.
  intros Hc. destruct (carries_pool _ _ Hc) as [Hp _]. unfold tpb_of, count_of.
  by rewrite (same_pool_tpb _ _ Hp), (same_pool_count _ _ Hp).
Qed.

(** Another state of one sequence. *)
Lemma carries_update m m' sid st st' :
  mgr_wf m → mgr_wf m' → untouched (allocator_ m) (allocator_ m') →
  sequences_ m !! sid = Some st → sequences_ m' = <[sid := st']> (sequences_ m) →
  metadata st' = metadata st → (seq_blocks st ≤ seq_blocks st')%nat → carries m m'.
Proof.
  intros Hwf Hwf' Hu Hs Hs' Hmd Hlen. split; [done..|rewrite Hs'|rewrite Hs'].
  - intros i x Hx. destruct (decide (i = sid)) as [->|Hne].
    + exists st'. rewrite lookup_insert_eq. simplify_eq. split_and!; [done|congruence|done].
    + exists x. by rewrite lookup_insert_ne.
  - intros i x [[<- <-]|[Hne Hx]]%lookup_insert_Some.
    + exists sid, st. split_and!; [done|congruence|]. by apply (untouched_resident m m' sid st st').
    + by exists i, x.
Qed.

(** The same sequences. *)
Lemma carries_same m m' :
  mgr_wf m' → untouched (allocator_ m) (allocator_ m') → sequences_ m' = sequences_ m →
  carries m m'.
Proof.
  intros Hwf Hu Hs. split; [done..|rewrite Hs|rewrite Hs].
  - intros sid st Hst. by exists st.
  - intros sid st Hst. by exists sid, st.
Qed.

(** ** Writing *)

Lemma write_untouched a ptr bytes a' : write_mem a ptr bytes = Some a' → untouched a a'.
Proof.
  unfold write_mem. intros (p & _ & (base & _ & Hw)%bind_Some)%bind_Some.
  simpl in Hw. destruct (_ && _) in Hw; [|done]. by injection Hw as <-.
Qed.

Lemma copy_untouched a src dst a' : copy_block a src dst = Some a' → untouched a a'.
Proof.
  unfold copy_block. destruct (copy_hook_ a); [by intros [= <-]|].
  destruct (block a src) as [x|], (block a dst) as [y|]; try by intros [= <-].
  unfold memcpy. intros (d & _ & (s & _ & Hc)%bind_Some)%bind_Some.
  destruct (_ || _); [|done]. apply bind_Some in Hc as (bytes & _ & Hw). by eapply write_untouched.
Qed.

Lemma make_exclusive_untouched a e r a' :
  make_exclusive a e = Some (r, a') → untouched a a'.
Proof.
  unfold make_exclusive. destruct (info a _) as [i|]; [|by intros [= _ <-]].
  case_match; [by intros [= _ <-]|]. intros ([[id|] a1] & Ha%allocate_untouched & Hr)%bind_Some.
  - apply bind_Some in Hr as (a2 & Hc & [= _ <-]). eapply untouched_trans; [exact Ha|].
    eapply untouched_trans; [|apply release_untouched]. by eapply copy_untouched.
  - by injection Hr as _ <-.
Qed.

Lemma ensure_carries m sid pos kind layer :
  mgr_wf m → 0 <= pos → 0 <= layer →
  runs (ensure_token_writable m sid pos kind layer) (λ '(_, m'),
    carries m m' ∧ contents m' = contents m ∧ prefix_index_ m' = prefix_index_ m ∧
    tags m' = tags m).
Proof.
  intros Hwf Hpos Hlayer. pose proof (ensure_spec m sid pos kind layer Hwf Hpos Hlayer) as Hrun.
  destruct (ensure_reach m sid pos kind layer Hwf Hpos Hlayer)
    as [[-> _]|(st & t & e & Hs & Ht & He & Hres & Heq)].
  { split_and!; [by apply carries_refl|done..]. }
  apply runs_inv in Hrun as ([r m'] & Hrun & Hwf' & Hc & _). rewrite Hrun. simpl.
  pose proof (ensure_tags _ _ _ _ _ _ _ Hrun) as Htags.
  rewrite Heq in Hrun. apply bind_Some in Hrun as ([r' a'] & Hex%make_exclusive_untouched & Hm).
  destruct r' as [[id e']|]; injection Hm as _ <-; (split; [|by split_and!]); [|by apply carries_same].
  eapply carries_update; [done..|]. unfold seq_blocks. simpl.
  destruct (tables st) as [|t0 ts] eqn:Hts; [done|]. destruct (Z.to_nat layer); [|done].
  simplify_eq/=. by rewrite length_alter.
Qed.

Lemma viewed_table_spec m sid :
  mgr_wf m → ∃ view, viewed_table m sid = Some view ∧
    match sequences_ m !! sid with
    | None => view = None
    | Some st => ∃ t, view = Some t ∧ table_size t = Z.of_nat (seq_blocks st)
    end.
Proof.
  intros Hwf. unfold viewed_table, cache_view. destruct (sequences_ m !! sid) as [st|] eqn:Hs;
    [|by exists None].
  destruct (first_table m sid st Hwf Hs) as (t & ts & Hts & Ht). unfold text_table. rewrite Hts.
  exists (Some t). split; [done|]. exists t. split; [done|]. unfold table_size. by rewrite Ht.
Qed.

(** [touch_position] moves blocks at most. *)
Lemma touch_carries m sid pos tpb metrics :
  mgr_wf m → 0 <= pos → tpb ≠ 0 →
  runs (touch_position m sid pos tpb metrics) (λ '(metrics', m'),
    steps metrics' = steps metrics ∧ carries m m' ∧ contents m' = contents m ∧
    prefix_index_ m' = prefix_index_ m ∧ tags m' = tags m).
Proof.
  intros Hwf Hpos Htpb. unfold touch_position.
  destruct (viewed_table_spec m sid Hwf) as (view & -> & _). cbn [mbind option_bind].
  destruct view as [t|]; [|by split_and!; [|apply carries_refl|..]].
  unfold block_of. rewrite (proj2 (Z.eqb_neq _ _)) by done. cbn [mbind option_bind].
  run_step (ensure_carries m sid pos TextKV 0); [done|done|lia|].
  intros [r m'] Hm. cbn [runs]. split; [|done].
  destruct (lookup_block t _), r; try done. by destruct (_ =? _).
Qed.

Lemma reserved_slots_defined m sid tpb :
  mgr_wf m → is_Some (reserved_slots m sid tpb).
Proof.
  intros Hwf. unfold reserved_slots. destruct (viewed_table_spec m sid Hwf) as (view & -> & _).
  by eexists.
Qed.

(** ** Sizes *)

Lemma sequence_count_size m : sequence_count m = Z.of_nat (size (sequences_ m)).
Proof. unfold sequence_count, contents. rewrite map_zsum_fmap, map_zsum_const. lia. Qed.

Lemma stored_sized limit m : sized limit m → stored m <= limit * sequence_count m.
Proof.
  intros [Hs _]. unfold sequence_count. rewrite <-map_zsum_scale. apply map_zsum_le.
  intros sid bs Hb. rewrite Z.mul_1_r. by eapply Hs.
Qed.

Lemma pinned_sized limit m : mgr_wf m → 0 <= limit → sized limit m →
  pinned m <= limit * sequence_count m.
Proof.
  intros Hwf Hl [_ Hr]. rewrite sequence_count_size, pinned_ids.
  etransitivity; [|apply Z.mul_le_mono_nonneg_l; [done|apply (records_users _ _ _ _ (mgr_prefix _ Hwf))]].
  rewrite <-map_zsum_scale. apply map_zsum_le. intros key recs Hk.
  assert (∀ r, r ∈ recs → Z.of_nat (length (physical_ids r)) <= limit) as Hall.
  { intros r Hin. apply (Hr key). apply records_of_Some. by exists recs. }
  clear Hk. induction recs as [|r recs IH]; [simpl; lia|]. cbn [zsum length].
  pose proof (Hall r (list_elem_of_here _ _)). specialize (IH ltac:(intros; apply Hall; by right)). lia.
Qed.

Lemma blocks_of_seq m sid st :
  mgr_wf m → sequences_ m !! sid = Some st →
  blocks_of (seq_bytes (allocator_ m) st) = count_of m * Z.of_nat (seq_blocks st).
Proof.
  intros Hwf Hs. rewrite blocks_of_entries.
  pose proof (mgr_seq _ Hwf _ _ Hs) as [_ Hcnt Hd _].
  rewrite (all_entries_length _ _ _ _ Hd). lia.
Qed.

(** ** Growing *)

(** [ensure_capacity] makes room for a position; no sequence gets longer than that
    position calls for. *)
Lemma grow_carries m sid pos tpb limit :
  mgr_wf m → tpb_of m = tpb → 0 < tpb → 0 <= pos → 1 + tpb < W32 →
  count_of m * (pos / tpb + 1) <= limit → limit < W32 → sized limit m →
  runs (ensure_capacity m sid pos tpb) (λ '(_, m'),
    carries m m' ∧ sized limit m' ∧ tags m' = tags m).
Proof.
  intros Hwf Htpb Hpos Hp Hsum Hmax Hlim Hsz. unfold ensure_capacity.
  destruct (viewed_table_spec m sid Hwf) as (view & -> & Hview). cbn [mbind option_bind].
  assert (carries m m ∧ sized limit m ∧ tags m = tags m) as Hid
    by (split_and!; [by apply carries_refl|done..]).
  destruct (sequences_ m !! sid) as [st|] eqn:Hs; [|by subst view].
  destruct Hview as (t & -> & ->). unfold block_of.
  rewrite (proj2 (Z.eqb_neq _ _)) by lia. cbn [mbind option_bind].
  destruct (Z.ltb_spec (pos / tpb) (Z.of_nat (seq_blocks st))) as [|Hge]; [done|].
  pose proof (table_count_pos m Hwf) as Hc.
  assert (blocks_needed 1 tpb = 1) as Hone.
  { unfold blocks_needed. replace (1 + tpb - 1) with tpb by lia. apply Z.div_same. lia. }
  pose proof (Z.div_pos pos tpb Hp Hpos). assert (pos / tpb + 1 < W32) by nia.
  assert (reserve_ok m sid 1) as Hok.
  { split; rewrite ?Htpb, ?Hone; [lia|lia|lia|]. intros x Hx. simplify_eq. lia. }
  pose proof (reserve_spec m sid 1 Hwf Hok) as Hrun.
  apply runs_inv in Hrun as ([ok m'] & Hrun & Hwf' & _ & Hres). rewrite Hrun. simpl.
  destruct ok; [|destruct Hres as [-> _]; done].
  destruct Hres as (x & st' & Hx & Hs' & _ & _ & _ & Hblk & Hcont & _). simplify_eq.
  destruct (reserve_tokens_structure _ _ _ _ _ Hrun) as (Hu & _ & Hidx & Htab).
  destruct (Htab st Hs) as [ts Hts]. rewrite Hs', lookup_insert_eq in Hts. injection Hts as Hts.
  assert (carries m m') as Hcar by (eapply carries_update; [done..|by rewrite Hts|lia]).
  split_and!; [done| |by eapply reserve_tags].
  eapply (sized_from limit m); [done| |].
  - intros i bs. rewrite Hcont. intros [[<- <-]|[_ Hi]]%lookup_insert_Some; [right|by left].
    rewrite (blocks_of_seq m' sid st') by (done || by rewrite Hs', lookup_insert_eq).
    destruct (carries_tpb _ _ Hcar) as [_ ->]. rewrite Hblk, Hone. nia.
  - intros key r Hr. left. exists r. by rewrite <-Hidx.
Qed.

(** ** Forking and publishing *)

(** The frames of a sequence can be retained once more. *)
Lemma sequence_room limit m sid st :
  mgr_wf m → sized limit m → stored m + pinned m + limit < W32 → sequences_ m !! sid = Some st →
  room (allocator_ m) (physical_id <$> all_entries (tables st)).
Proof.
  intros Hwf Hsz Hlim Hs id. pose proof (refs_bound m id Hwf).
  pose proof (zcount_length id (physical_id <$> all_entries (tables st))) as Hz.
  rewrite length_fmap in Hz. assert (blocks_of (seq_bytes (allocator_ m) st) <= limit) as Hb.
  { apply (proj1 Hsz sid). unfold contents. by rewrite lookup_fmap, Hs. }
  rewrite blocks_of_entries in Hb. lia.
Qed.

(** The child of a fork: a resident sequence, and nothing but references moved. *)
Lemma fork_structure m parent st md :
  sequences_ m !! parent = Some st → sequences_ m !! sm_sequence_id md = None →
  all_resident (tables st) = true →
  let m' := snd (fork_sequence m parent md) in
  untouched (allocator_ m) (allocator_ m') ∧ prefix_index_ m' = prefix_index_ m ∧
  ∃ child, sequences_ m' = <[sm_sequence_id md := child]> (sequences_ m) ∧
    metadata child = md ∧ all_resident (tables child) = true ∧
    tables child = (λ t, fork_table t (sm_sequence_id md)) <$> tables st.
Proof.
  intros Hp Hc Hres. unfold fork_sequence. rewrite Hp, Hc, Hres. simpl.
  rewrite fork_fold, map_emplace_new by done. simpl.
  split; [apply retain_all_untouched|]. split; [done|]. eexists. split_and!; [done|done| |done].
  simpl. apply all_resident_spec. intros e He. rewrite all_entries_fork in He.
  apply list_elem_of_fmap in He as (e' & -> & He'). simpl. revert He'. by apply all_resident_spec.
Qed.

Lemma fork_carries m parent md limit :
  mgr_wf m → sized limit m → stored m + pinned m + limit < W32 →
  (∀ st, sequences_ m !! parent = Some st → sm_request_id md = sm_request_id (metadata st)) →
  let '(_, m') := fork_sequence m parent md in carries m m' ∧ sized limit m'.
Proof.
  intros Hwf Hsz Hlim Hid.
  assert (carries m m ∧ sized limit m) as Hsame by (split; [by apply carries_refl|done]).
  destruct (sequences_ m !! parent) as [st|] eqn:Hp; [|unfold fork_sequence; by rewrite Hp].
  destruct (sequences_ m !! sm_sequence_id md) as [x|] eqn:Hc;
    [unfold fork_sequence; by rewrite Hp, Hc|].
  destruct (all_resident (tables st)) eqn:Hres; [|unfold fork_sequence; by rewrite Hp, Hc, Hres].
  destruct (fork_success m parent st md Hwf Hp Hc Hres) as (_ & Hwf' & _ & _ & Hcont).
  { intros y Hy. simplify_eq. by eapply sequence_room. }
  destruct (fork_structure m parent st md Hp Hc Hres) as (Hu & Hidx & child & Hs & Hmd & Hr & _).
  destruct (fork_sequence m parent md) as [ok m']. simpl in *. split.
  - split; [done..|rewrite Hs|rewrite Hs].
    + intros i x Hi. exists x. rewrite lookup_insert_ne; [done|]. intros <-. congruence.
    + intros i x [[<- <-]|[_ Hi]]%lookup_insert_Some; [|by exists i, x].
      exists parent, st. split_and!; [done| |done]. rewrite Hmd. by apply Hid.
  - eapply (sized_from limit m); [done| |].
    + intros i bs. rewrite Hcont. intros [[_ <-]|[_ Hi]]%lookup_insert_Some; [right|by left].
      apply (proj1 Hsz parent). unfold contents. by rewrite lookup_fmap, Hp.
    + intros key r Hin. left. exists r. by rewrite <-Hidx.
Qed.

(** [publish_prefix] touches counters and the prefix of one sequence. *)
Lemma publish_structure m sid key ok m' :
  publish_prefix m sid key = Some (ok, m') →
  untouched (allocator_ m) (allocator_ m') ∧
  (m' = m ∨ ∃ st h, sequences_ m !! sid = Some st ∧
     sequences_ m' = <[sid := with_prefix st key h]> (sequences_ m)).
Proof.
  unfold publish_prefix. intros Hp.
  assert (untouched (allocator_ m) (allocator_ m) ∧
    (m = m ∨ ∃ st h, sequences_ m !! sid = Some st ∧
     sequences_ m = <[sid := with_prefix st key h]> (sequences_ m))) as Hid by by split; [|left].
  case_decide; [by injection Hp as _ <-|].
  destruct (sequences_ m !! sid) as [st|] eqn:Hs; [|by injection Hp as _ <-].
  apply bind_Some in Hp as (t0 & _ & Hp). case_match; [by injection Hp as _ <-|].
  case_decide; [by injection Hp as _ <-|]. case_match; [by injection Hp as _ <-|].
  apply bind_Some in Hp as (hash & _ & Hp). case_match; [by injection Hp as _ <-|].
  destruct (find_record _ _) as [[i existing]|]; injection Hp as _ <-;
    (split; [|right; by exists st, hash]); [done|apply retain_all_untouched].
Qed.

Lemma publish_carries m sid key limit :
  mgr_wf m → sized limit m → stored m + pinned m + limit < W32 → sequence_count m + 1 < W32 →
  (∀ st, sequences_ m !! sid = Some st → prefix_key st = ""%string ∨ prefix_key st = key) →
  runs (publish_prefix m sid key) (λ '(_, m'), carries m m' ∧ sized limit m').
Proof.
  intros Hwf Hsz Hlim Hcount Hkey.
  assert (publish_ok m sid key) as Hok.
  { split; [intros st Hs; by eapply sequence_room| |done].
    intros r Hr. pose proof (users_bound m key r Hwf Hr). lia. }
  pose proof (publish_spec m sid key Hwf Hok) as Hrun.
  apply runs_inv in Hrun as ([ok m'] & Hrun & _ & Hres). rewrite Hrun. simpl.
  destruct (publish_structure _ _ _ _ _ Hrun) as [Hu [->|(st & h & Hs & Hs')]].
  { split; [by apply carries_refl|done]. }
  destruct ok; [|subst m'; by split; [apply carries_refl|]].
  destruct Hres as (x & Hx & (Hwf' & Hc & _ & Hrec) & _).
  assert (x = st) as -> by congruence.
  split; [by eapply carries_update|]. eapply (sized_from limit m); [done|rewrite Hc; by left|].
  intros key' r' [Hr|(-> & Hids & _)]%Hrec; [by left|]. right. rewrite Hids, length_fmap.
  rewrite <-(blocks_of_entries (allocator_ m)). apply (proj1 Hsz sid).
  unfold contents. by rewrite lookup_fmap, Hs.
Qed.

(** ** Releasing *)

Lemma drop_prefix_user_untouched m st :
  untouched (allocator_ m) (allocator_ (drop_prefix_user m st).1) ∧
  tables (drop_prefix_user m st).2 = tables st.
Proof.
  unfold drop_prefix_user. case_decide; [done|].
  destruct (prefix_index_ m !! _) as [recs|]; [|done].
  destruct (find_record _ _) as [[i r]|]; [|done]. cbv zeta.
  destruct (0 <? (if 0 <? users r then _ else _)); [done|]. simpl. split; [|done].
  generalize (allocator_ m). induction (physical_ids r) as [|id l IH]; intros a; [done|]. simpl.
  eapply untouched_trans; [apply release_untouched|apply IH].
Qed.

(** A resident request is released without the backend. *)
Lemma release_request_untouched m rid :
  mgr_wf m → resident_request m rid → untouched (allocator_ m) (allocator_ (release_request m rid)).
Proof.
  intros Hwf Hres.
  assert (∀ sid st, sid ∈ sequences_for m rid → sequences_ m !! sid = Some st →
    all_resident (tables st) = true) as Hl.
  { intros sid st (st' & Hs & Hid)%(sequences_for_spec m rid Hwf) Hst. simplify_eq. by eapply Hres. }
  clear Hres. unfold release_request. revert Hl. generalize (sequences_for m rid) as l. intros l.
  revert m Hwf. induction l as [|sid l IH]; intros m Hwf Hl; [done|]. simpl.
  destruct (release_sequence_spec m sid Hwf) as (Hwf' & Hs & _).
  eapply untouched_trans; [|apply IH; [done|]].
  - unfold release_sequence. destruct (sequences_ m !! sid) as [st|] eqn:Hst; [|done].
    destruct (drop_prefix_user_untouched m st) as [Hu Ht].
    destruct (drop_prefix_user m st) as [m1 st1]. simpl in *.
    eapply untouched_trans; [exact Hu|]. rewrite release_tables_entries, Ht.
    apply release_entries_untouched, Forall_forall. intros e He. unfold resident.
    by rewrite (proj1 (all_resident_spec _) (Hl sid st (list_elem_of_here _ _) Hst)).
  - intros i st Hi. rewrite Hs. intros [_ Hst]%lookup_delete_Some. apply (Hl i); [by right|done].
Qed.

(** Releasing leaves no longer sequences or records. *)
Lemma release_request_sized limit m rid :
  mgr_wf m → sized limit m → sized limit (release_request m rid).
Proof.
  unfold release_request. generalize (sequences_for m rid) as l. intros l. revert m.
  induction l as [|sid l IH]; intros m Hwf Hsz; [done|]. simpl.
  destruct (release_sequence_spec m sid Hwf) as (Hwf' & _ & _ & Hc & Hout & _).
  apply IH; [done|]. eapply (sized_from limit m); [done| |].
  - intros i bs. rewrite Hc. intros [_ ?]%lookup_delete_Some. by left.
  - intros key r' (r & ? & ? & _)%Hout. left. by exists r.
Qed.

(** ** Restoring *)

(** The backend, if there is one, can hand out [k] more slot ids. *)
Definition stores a (k : Z) : Prop :=
  match swap_backend_ a with None => True | Some b => backend_ok b ∧ k <= backend_budget b end.

Lemma stores_can_store a k : alloc_inv a → can_store a k ↔ stores a k.
Proof.
  intros Hi. unfold can_store, stores, budget. destruct (swap_backend_ a) as [b|] eqn:Hb.
  - pose proof (wf_backend _ (proj1 Hi) b Hb). split; [by intros [?|?]|]. intros [_ ?]. by right.
  - split; [done|by left].
Qed.

Lemma stores_untouched a a' k : untouched a a' → stores a k → stores a' k.
Proof. intros [_ Hb]. unfold stores. by rewrite Hb. Qed.

Lemma swap_in_stores a slot r a' k : swap_in a slot = Some (r, a') → stores a k → stores a' k.
Proof.
  unfold swap_in. intros Hr Hk. destruct (swap_backend_ a) as [b|] eqn:Hb; [|by injection Hr as _ <-].
  apply bind_Some in Hr as ([id a1] & Ha%allocate_untouched & Hr).
  pose proof (stores_untouched _ _ _ Ha Hk) as Hk1.
  destruct id as [id|]; [|by injection Hr as _ <-].
  destruct (block a1 id) as [fr|]; [|injection Hr as _ <-; by eapply (stores_untouched _ _ _ (release_untouched _ _) Hk1)].
  apply bind_Some in Hr as ([ok view] & _ & Hr). apply bind_Some in Hr as (a2 & Hw & Hr).
  assert (untouched a1 a2) as Hu.
  { unfold write_view in Hw. destruct (bb_data view) as [x|]; [by eapply write_untouched|].
    by injection Hw as <-. }
  pose proof (stores_untouched _ _ _ Hu Hk1) as Hk2.
  destruct ok; injection Hr as _ <-; [|exact (stores_untouched _ _ _ (release_untouched _ _) Hk2)].
  unfold stores in *. rewrite Hb in Hk. destruct Hk as [Hok Hk]. simpl.
  by destruct (backend_discard_spec b slot Hok) as (? & _ & ->).
Qed.

(** Loops whose steps keep a property of the pool they carry. *)
Lemma foldM_keeps {A S} (P : MemoryAllocator B → Prop) (f : S → A → option S)
    (get : S → MemoryAllocator B) u l u' :
  (∀ u x u', f u x = Some u' → P (get u) → P (get u')) →
  foldM f u l = Some u' → P (get u) → P (get u').
Proof.
  intros Hf. revert u. induction l as [|x l IH]; intros u; simpl; [by intros [= ->]|].
  intros (u1 & Hu & Hl)%bind_Some HP. eapply IH; [exact Hl|by eapply Hf].
Qed.

Lemma swap_in_table_stores a t go a' t' k :
  swap_in_table a t = Some (go, a', t') → stores a k → stores a' k.
Proof.
  unfold swap_in_table. intros Hr.
  refine (foldM_keeps (λ a, stores a k) _ (λ u : bool * MemoryAllocator B * BlockTable, u.1.2)
    _ _ _ _ Hr). clear. intros [[g b] u] i [[g' b'] u']. unfold swap_in_block. destruct g; simpl.
  - intros (e & _ & Hr)%bind_Some Hk. case_match; [by injection Hr as _ <- _|].
    destruct (find_entry u _) as [it|]; [|by injection Hr as _ <- _].
    apply bind_Some in Hr as (e' & _ & (s & _ & ([id b1] & Hs & Hr)%bind_Some)%bind_Some).
    apply (swap_in_stores _ _ _ _ k) in Hs; [|done]. by destruct id; injection Hr as _ <- _.
  - by intros [= _ <- _].
Qed.

Lemma swap_in_tables_stores k ts a go a' ts' :
  for_each swap_in_table a ts = Some (go, a', ts') → stores a k → stores a' k.
Proof.
  revert a go a' ts'. induction ts as [|t ts IH]; intros a go a' ts'; simpl.
  { by intros [= _ <- _]. }
  intros ([[g a1] t1] & Ht & Hrest)%bind_Some Hk.
  apply (swap_in_table_stores _ _ _ _ _ k) in Ht; [|done]. destruct g.
  - apply bind_Some in Hrest as ([[g2 a2] ts2] & Hts & [= <- <- <-]). by eapply IH.
  - by injection Hrest as <- <- <-.
Qed.

(** Restoring a request uses up no slot id. *)
Lemma swap_in_request_stores m rid ok m' k :
  swap_in_request m rid = Some (ok, m') → stores (allocator_ m) k → stores (allocator_ m') k.
Proof.
  unfold swap_in_request. case_match; [by intros [= _ <-]|]. intros Hr.
  refine (foldM_keeps (λ a, stores a k) _ (λ u : bool * KVCacheManager B, allocator_ u.2) _ _ _ _ Hr).
  clear. intros [[|] m] sid [ok' m']; simpl; [|by intros [= _ <-]]. unfold swap_in_sequence.
  destruct (sequences_ m !! sid) as [st|]; [|by intros [= _ <-]].
  case_match; [by intros [= _ <-]|]. case_match; [by intros [= _ <-]|].
  intros ([[g a'] ts] & Ht & [= _ <-])%bind_Some. simpl. by eapply swap_in_tables_stores.
Qed.

Lemma resume_stores s id ok s' k :
  resume s id = Some (ok, s') → stores (sched_allocator s) k → stores (sched_allocator s') k.
Proof.
  unfold resume, sched_allocator. destruct (find_request _ _) as [[i r]|]; [|by intros [= _ <-]].
  intros ([ok' m'] & Hm & Hr)%bind_Some Hk. apply (swap_in_request_stores _ _ _ _ k) in Hm; [|done].
  by destruct ok'; injection Hr as _ <-.
Qed.
End Client.
