(* ===== verification/CacheFrames.v ===== *)
(** How many frames the cache uses. The sequences of a request share the frames of the
    prompt they were forked from, up to its last block, and no sequence is longer than
    its request asks for: then the requests that run bound the frames that are taken,
    however the sequences were forked, grown and written to. *)
From S2P Require Import Prelude.
From S2P Require Import Block.
From S2P Require Import SwapBackend.
From S2P Require Import BlockTable.
From S2P Require Import MemoryAllocator.
From S2P Require Import AllocatorSpec.
From S2P Require Import AllocatorProps.
From S2P Require Import KVCacheManager.
From S2P Require Import CacheAccounting.
From S2P Require Import AllocatorMoves.
From S2P Require Import CacheInvariant.
From S2P Require Import CacheLemmas.
From S2P Require Import CacheLifecycle.
From S2P Require Import CacheGrowth.
From S2P Require Import CacheWrite.
From S2P Require Import CacheSwap.
From S2P Require Import CacheRecords.
From S2P Require Import CacheRelease.
From S2P Require Import CachePrefix.
From S2P Require Import Scheduler.
From S2P Require Import SchedulerInvariant.
From S2P Require Import SchedulerAdmission.
From S2P Require Import SchedulerSteps.
From S2P Require Import TraceReplay.
From S2P Require Import CacheClient.

(** The frames a sequence maps, in order, those of its swapped blocks included. *)
Definition frames (st : SequenceState) : list Z := physical_id <$> all_entries (tables st).

Abbreviation rid_of st := (sm_request_id (metadata st)).

Section Frames.
Context {B : Type} `{SwapBackendLaws B}.
Implicit Types a : MemoryAllocator B.
Implicit Types m : KVCacheManager B.

(** The blocks the sequences of a request share, and how many one of them may have. *)
Context (spine reach : Z → nat).

Record laid m : Prop := {
  laid_prefixes key r : r ∉ records_of key (prefix_index_ m);
  laid_length sid st : sequences_ m !! sid = Some st →
    (spine (rid_of st) ≤ length (frames st) ≤ reach (rid_of st))%nat;
  laid_spine sid sid' st st' : sequences_ m !! sid = Some st → sequences_ m !! sid' = Some st' →
    rid_of st = rid_of st' →
    take (spine (rid_of st)) (frames st) = take (spine (rid_of st)) (frames st')
}.

(** No other sequence belongs to the request of [sid]. *)
Definition lone m (sid rid : Z) : Prop :=
  ∀ sid' st', sequences_ m !! sid' = Some st' → rid_of st' = rid → sid' = sid.

(** ** What keeps it *)

Lemma laid_subset m m' :
  laid m → (∀ sid st, sequences_ m' !! sid = Some st → sequences_ m !! sid = Some st) →
  (∀ key r, r ∈ records_of key (prefix_index_ m') →
     ∃ r', r' ∈ records_of key (prefix_index_ m)) → laid m'.
Proof.
  intros [Hp Hl Hs] Hsub Hidx. split; [|eauto..].
  intros key r Hr. destruct (Hidx key r Hr) as [r' Hr']. by apply (Hp key r').
Qed.

Lemma laid_same m m' :
  laid m → sequences_ m' = sequences_ m → prefix_index_ m' = prefix_index_ m → laid m'.
Proof. intros Hm Hs Hp. eapply laid_subset; [exact Hm|by rewrite Hs|rewrite Hp; eauto]. Qed.

(** One sequence is new, or another one. *)
Lemma laid_insert m m' sid st :
  laid m → sequences_ m' = <[sid := st]> (sequences_ m) →
  (∀ key r, r ∉ records_of key (prefix_index_ m')) →
  (spine (rid_of st) ≤ length (frames st) ≤ reach (rid_of st))%nat →
  (∀ sid' st', sid' ≠ sid → sequences_ m !! sid' = Some st' → rid_of st' = rid_of st →
     take (spine (rid_of st)) (frames st') = take (spine (rid_of st)) (frames st)) →
  laid m'.
Proof.
  intros [Hp Hl Hs] Hseq Hidx Hlen Hag. split; [done|rewrite Hseq..].
  - intros i x [[<- <-]|[_ Hx]]%lookup_insert_Some; [done|by eapply Hl].
  - intros i j x y [[<- <-]|[Hni Hx]]%lookup_insert_Some [[<- <-]|[Hnj Hy]]%lookup_insert_Some Heq.
    + done.
    + symmetry. eapply Hag; [by apply not_eq_sym|done|by symmetry].
    + rewrite Heq. eapply Hag; [by apply not_eq_sym|done|done].
    + by eapply Hs.
Qed.

(** *** Writing *)

Lemma frames_alter st t i e ts :
  tables st = t :: ts → (i < length (entries_ t))%nat →
  frames (with_tables st (update_entry t i (λ _, e) :: ts)) = <[i := physical_id e]> (frames st).
Proof.
  intros Ht Hi. unfold frames. rewrite Ht. cbn [tables with_tables].
  rewrite !all_entries_cons, !fmap_app.
  rewrite insert_app_l by by rewrite length_fmap. f_equal. unfold update_entry. simpl.
  apply list_eq. intros j. rewrite list_lookup_fmap. destruct (decide (j = i)) as [->|Hne].
  - rewrite list_lookup_insert_eq by by rewrite length_fmap. rewrite list_lookup_alter_eq.
    by destruct (lookup_lt_is_Some_2 _ _ Hi) as [x ->].
  - by rewrite list_lookup_insert_ne, list_lookup_alter_ne, list_lookup_fmap.
Qed.

Lemma laid_write m sid pos kind r m' :
  mgr_wf m → laid m → 0 <= pos →
  (∀ st, sequences_ m !! sid = Some st →
     Z.of_nat (spine (rid_of st)) <= pos / tpb_of m ∨ lone m sid (rid_of st)) →
  ensure_token_writable m sid pos kind 0 = Some (r, m') → laid m'.
Proof.
  intros Hwf Hm Hpos Hout Hrun.
  destruct (ensure_reach m sid pos kind 0 Hwf Hpos ltac:(done))
    as [[Heq _]|(st & t & e & Hs & Ht & He & _ & Heq)]; rewrite Heq in Hrun; [by simplify_eq|].
  apply bind_Some in Hrun as ([r' a'] & _ & Hr). destruct r' as [[id e']|]; simplify_eq;
    [|by eapply laid_same].
  destruct (tables st) as [|t0 ts] eqn:Hts; [done|]. simpl in Ht. injection Ht as ->.
  set (i := Z.to_nat (pos / tpb_of m)) in *.
  change (<[Z.to_nat 0 := ?x]> (t :: ts)) with (x :: ts).
  pose proof (frames_alter st t i e' ts Hts (lookup_lt_Some _ _ _ He)) as Hfr.
  set (st1 := with_tables st (update_entry t i (λ _, e') :: ts)) in *.
  eapply (laid_insert m _ sid st1); [done|done|apply Hm|..];
    change (rid_of st1) with (rid_of st); rewrite Hfr.
  - rewrite length_insert. by eapply laid_length.
  - intros sid' st' Hne Hs' Hrid. simpl in *. destruct (Hout st Hs) as [Hge|Hlone].
    + rewrite take_insert_ge by lia. rewrite <-Hrid. by eapply laid_spine.
    + destruct Hne. by eapply Hlone.
Qed.

Lemma laid_touch m sid pos tpb metrics metrics' m' :
  mgr_wf m → laid m → 0 <= pos →
  (∀ st, sequences_ m !! sid = Some st →
     Z.of_nat (spine (rid_of st)) <= pos / tpb_of m ∨ lone m sid (rid_of st)) →
  touch_position m sid pos tpb metrics = Some (metrics', m') →
  laid m' ∧ preemptions metrics' = preemptions metrics.
Proof.
  intros Hwf Hm Hpos Hout (view & _ & Hr)%bind_Some. destruct view; [|by simplify_eq].
  apply bind_Some in Hr as (i & _ & ([r m1] & Hw & Hr)%bind_Some). simplify_eq.
  split; [by eapply laid_write|]. repeat case_match; done.
Qed.

(** *** Growing *)

Lemma frames_blocks m sid st :
  mgr_wf m → count_of m = 1 → sequences_ m !! sid = Some st →
  ∃ t, tables st = [t] ∧ length (entries_ t) = seq_blocks st ∧ length (frames st) = seq_blocks st.
Proof.
  intros Hwf Hc Hs. destruct (first_table m sid st Hwf Hs) as (t & ts & Hts & Hlen).
  pose proof (seq_tables _ _ _ _ (mgr_seq _ Hwf _ _ Hs)) as Hn. rewrite Hts, Hc in Hn.
  destruct ts; [|simpl in Hn; lia]. exists t. split_and!; [done..|].
  unfold frames. rewrite Hts, all_entries_cons. simpl. by rewrite app_nil_r, length_fmap.
Qed.

(** A free frame is enough to grow by one position. *)
Lemma laid_grow m sid pos tpb st :
  mgr_wf m → laid m → count_of m = 1 → tpb_of m = tpb → 0 < tpb → 0 <= pos → 1 + tpb < W32 →
  sequences_ m !! sid = Some st → pos / tpb + 1 < W32 → pos / tpb + 1 <= Z.of_nat (reach (rid_of st)) →
  0 < nfree (allocator_ m) →
  runs (ensure_capacity m sid pos tpb) (λ '(ok, m'),
    ok = true ∧ laid m').
Proof.
  intros Hwf Hm Hcnt Htpb Hpt Hpos Hsum Hs Hmax Hreach Hfree. unfold ensure_capacity.
  destruct (viewed_table_spec m sid Hwf) as (view & -> & Hview). rewrite Hs in Hview.
  destruct Hview as (t & -> & Hsz). cbn [mbind option_bind]. unfold block_of.
  rewrite (proj2 (Z.eqb_neq tpb 0)) by lia. cbn [mbind option_bind]. rewrite Hsz.
  destruct (Z.ltb_spec (pos / tpb) (Z.of_nat (seq_blocks st))) as [Hlt|Hge]; [done|].
  assert (blocks_needed 1 (tpb_of m) = 1) as Hone.
  { unfold blocks_needed. rewrite Htpb. replace (1 + tpb - 1) with tpb by lia. apply Z.div_same. lia. }
  pose proof (reserve_spec m sid 1 Hwf) as Hrun. apply runs_inv in Hrun as ([ok m'] & Hrun & Hwf' & _ & Hr).
  2:{ split; rewrite ?Hone, ?Hcnt, ?Htpb; [lia|lia|done|]. intros x Hx. simplify_eq. lia. }
  rewrite Hrun. cbn [runs]. destruct ok.
  2:{ destruct Hr as [-> [Hr|[Hr|Hr]]]; [unfold contains in Hr; by rewrite Hs in Hr|lia|].
      rewrite Hone, Hcnt in Hr. lia. }
  split; [done|]. destruct Hr as (x & st' & Hx & Hs' & _ & _ & _ & Hblk & _ & _ & Hext).
  assert (x = st) as -> by congruence.
  assert (sequences_ m' !! sid = Some st') as Hl by by rewrite Hs', lookup_insert_eq.
  assert (count_of m' = 1) as Hcnt'.
  { pose proof (seq_tables _ _ _ _ (mgr_seq _ Hwf' _ _ Hl)) as Hn. rewrite <-Hn.
    rewrite <-(Forall2_length _ _ _ Hext), <-Hcnt. apply (seq_tables _ _ _ _ (mgr_seq _ Hwf _ _ Hs)). }
  destruct (frames_blocks m sid st Hwf Hcnt Hs) as (t1 & Ht1 & _ & Hf1).
  destruct (frames_blocks m' sid st' Hwf' Hcnt' Hl) as (t2 & Ht2 & _ & Hf2).
  rewrite Ht1, Ht2 in Hext. apply Forall2_cons in Hext as [[new Hnew] _].
  assert (frames st' = frames st ++ (physical_id <$> new)) as Hfr.
  { unfold frames. rewrite Ht1, Ht2, !all_entries_cons, Hnew. simpl. by rewrite !app_nil_r, fmap_app. }
  destruct (reserve_tokens_structure _ _ _ _ _ Hrun) as (_ & _ & Hidx & Htab).
  destruct (Htab st Hs) as [ts Hts]. rewrite Hl in Hts. injection Hts as ->.
  pose proof (laid_length _ Hm _ _ Hs) as [Hlo _]. rewrite Hone in Hblk.
  eapply (laid_insert m m' sid _ Hm Hs'); [rewrite Hidx; apply Hm|..];
    change (rid_of (with_tables st ts)) with (rid_of st).
  - split; [rewrite Hfr, length_app; lia|]. rewrite Hf2, Hblk. lia.
  - intros sid' y Hne Hy Hrid. rewrite Hfr, take_app_le by done. rewrite <-Hrid.
    by eapply laid_spine.
Qed.

(** *** Forking *)

Lemma laid_fork m parent md :
  mgr_wf m → laid m →
  (∀ st, sequences_ m !! parent = Some st → sm_request_id md = rid_of st) →
  laid (fork_sequence m parent md).2.
Proof.
  intros Hwf Hm Hid.
  destruct (sequences_ m !! parent) as [st|] eqn:Hp; [|unfold fork_sequence; by rewrite Hp].
  destruct (sequences_ m !! sm_sequence_id md) as [x|] eqn:Hc;
    [unfold fork_sequence; by rewrite Hp, Hc|].
  destruct (all_resident (tables st)) eqn:Hres; [|unfold fork_sequence; by rewrite Hp, Hc, Hres].
  destruct (fork_structure m parent st md Hp Hc Hres) as (_ & Hidx & child & Hs & Hmd & _ & Ht).
  assert (frames child = frames st) as Hfr.
  { unfold frames. rewrite Ht, all_entries_fork, <-list_fmap_compose. by apply list_fmap_ext. }
  eapply (laid_insert m _ _ child Hm Hs); [rewrite Hidx; apply Hm|..]; rewrite Hfr, Hmd, (Hid st) by done.
  - by eapply laid_length.
  - intros sid' st' _ Hs' Hrid. rewrite <-Hrid. by eapply laid_spine.
Qed.

(** *** Releasing *)

Lemma release_all_records l m key r :
  mgr_wf m → r ∈ records_of key (prefix_index_ (foldl release_sequence m l)) →
  ∃ r', r' ∈ records_of key (prefix_index_ m).
Proof.
  revert m r. induction l as [|sid l IH]; intros m r Hwf; [by exists r|]. simpl.
  destruct (release_sequence_spec m sid Hwf) as (Hwf' & _ & _ & _ & Hout & _).
  intros [r1 Hr1]%IH; [|done]. destruct (Hout _ _ Hr1) as (r' & ? & _). by exists r'.
Qed.

Lemma laid_release m rid : mgr_wf m → laid m → laid (release_request m rid).
Proof.
  intros Hwf Hm. destruct (release_request_spec m rid Hwf) as (_ & _ & Hs & _).
  eapply laid_subset; [exact Hm| |].
  - by intros sid st [? _]%Hs.
  - intros key r Hr. by eapply release_all_records.
Qed.

(** *** Admitting *)

Lemma laid_stage m c st m' :
  mgr_wf m → laid m → count_of m = 1 → stage m c st m' → sequences_for m (request_id c) = [] →
  (spine (request_id c) ≤ seq_blocks st ≤ reach (request_id c))%nat → laid m'.
Proof.
  intros Hwf Hm Hcnt Hst Hnone Hlen. pose proof (stage_lookup _ _ _ _ Hst) as Hl.
  destruct (stage_tpb _ _ _ _ Hst) as [_ Hcnt']. rewrite Hcnt in Hcnt'.
  destruct (frames_blocks m' _ st (stage_wf _ _ _ _ Hst) Hcnt' Hl) as (_ & _ & _ & Hf).
  pose proof (stage_metadata _ _ _ _ Hst) as Hmd.
  eapply (laid_insert m m' _ st Hm (stage_seqs _ _ _ _ Hst)); rewrite ?Hmd, ?Hf; [|done|].
  - intros key r Hr. destruct (stage_joined _ _ _ _ Hst) as [[_ Hj]|(r0 & _ & _ & Hr0 & _)].
    + rewrite Hj in Hr. by eapply (laid_prefixes _ Hm).
    + apply (laid_prefixes _ Hm (prefix_key st) r0). apply records_of_Some. eexists. split; [done|by left].
  - intros sid' st' _ Hs' Hrid. exfalso.
    destruct (sequences_for_spec m (request_id c) Hwf) as [_ Hmem].
    enough (sid' ∈ sequences_for m (request_id c)) as Hin by (rewrite Hnone in Hin; by apply not_elem_of_nil in Hin).
    apply Hmem. by exists st'.
Qed.

(** ** What it bounds *)

Definition states m (rid : Z) : list SequenceState :=
  filter (λ st, rid_of st = rid) ((map_to_list (sequences_ m)).*2).

(** Frames that cover those of the request's sequences: the shared ones once, and the
    rest of each sequence. *)
Definition cover m (rid : Z) : list Z :=
  match states m rid with [] => [] | st :: _ => take (spine rid) (frames st) end
    ++ (states m rid ≫= λ st, drop (spine rid) (frames st)).

Lemma elem_states m rid st :
  st ∈ states m rid ↔ ∃ sid, sequences_ m !! sid = Some st ∧ rid_of st = rid.
Proof.
  unfold states. rewrite list_elem_of_filter, list_elem_of_fmap. split.
  - intros (Hid & [sid st'] & -> & Hs%elem_of_map_to_list). by exists sid.
  - intros (sid & Hs & Hid). split; [done|]. exists (sid, st). by rewrite elem_of_map_to_list.
Qed.

Lemma cover_frames m sid st id :
  laid m → sequences_ m !! sid = Some st → id ∈ frames st → id ∈ cover m (rid_of st).
Proof.
  intros Hm Hs. rewrite <-(take_drop (spine (rid_of st)) (frames st)), elem_of_app. unfold cover.
  assert (st ∈ states m (rid_of st)) as Hin by (apply elem_states; by exists sid).
  rewrite elem_of_app, list_elem_of_bind. intros [Ht|Hd]; [left|by right; eauto].
  destruct (states m (rid_of st)) as [|st0 l] eqn:Hst; [by apply not_elem_of_nil in Hin|].
  assert (st0 ∈ states m (rid_of st)) as (sid0 & Hs0 & Hid)%elem_states by (rewrite Hst; by left).
  by rewrite <-Hid, (laid_spine _ Hm sid0 sid st0 st), Hid by done.
Qed.

Lemma cover_length m rid :
  laid m →
  Z.of_nat (length (cover m rid)) <=
    Z.of_nat (spine rid) + Z.of_nat (length (states m rid)) * Z.of_nat (reach rid - spine rid).
Proof.
  intros Hm. unfold cover. rewrite length_app, Nat2Z.inj_add. apply Z.add_le_mono.
  - destruct (states m rid); [simpl; lia|]. rewrite length_take. lia.
  - assert (∀ st, st ∈ states m rid → length (frames st) ≤ reach rid)%nat as Hall.
    { intros st (sid & Hs & <-)%elem_states. by eapply laid_length. }
    induction (states m rid) as [|st l IH]; [done|]. rewrite bind_cons, length_app, length_drop.
    cbn [length]. pose proof (Hall st (list_elem_of_here _ _)).
    specialize (IH (λ x Hx, Hall x (list_elem_of_further _ _ _ Hx))). lia.
Qed.

(** A taken frame is one of some sequence. *)
Lemma taken_frame m id :
  mgr_wf m → laid m → refs (allocator_ m) id ≠ 0 →
  ∃ sid st, sequences_ m !! sid = Some st ∧ id ∈ frames st.
Proof.
  intros Hwf Hm. rewrite (proj1 (mgr_accounted _ Hwf)).
  assert (pin_refs id (prefix_index_ m) = 0) as ->.
  { unfold pin_refs. rewrite (map_zsum_ext _ (λ _ _, 0)), map_zsum_const; [done|].
    intros key recs Hk. destruct recs as [|r recs]; [done|]. exfalso.
    apply (laid_prefixes _ Hm key r), records_of_Some. eexists. split; [done|by left]. }
  intros Hne. pose proof (map_zsum_pos (λ _ st, zcount id (frames_of (all_entries (tables st))))
    (sequences_ m)) as Hpos. destruct Hpos as (sid & st & Hs & Hz%zcount_pos).
  - intros. apply zcount_nonneg.
  - unfold seq_refs in Hne. pose proof (map_zsum_nonneg
      (λ _ st, zcount id (frames_of (all_entries (tables st)))) (sequences_ m)
      (λ _ _ _, zcount_nonneg _ _)). lia.
  - exists sid, st. split; [done|]. apply list_elem_of_bind in Hz as (e & He & Hin).
    unfold entry_frames in He. destruct (swap_slot e); [by apply not_elem_of_nil in He|].
    apply list_elem_of_singleton in He as ->. by apply list_elem_of_fmap_2.
Qed.

Lemma laid_used m R k :
  mgr_wf m → laid m → NoDup R →
  (∀ sid st, sequences_ m !! sid = Some st → rid_of st ∈ R) →
  (∀ rid, rid ∈ R → Z.of_nat (length (states m rid)) <= k rid) →
  max_blocks (config_ (allocator_ m)) - nfree (allocator_ m) <=
    zsum (λ rid, Z.of_nat (spine rid) + k rid * Z.of_nat (reach rid - spine rid)) R.
Proof.
  intros Hwf Hm Hnd HR Hk. set (a := allocator_ m). set (L := R ≫= cover m).
  assert (Z.of_nat (length L) <=
    zsum (λ rid, Z.of_nat (spine rid) + k rid * Z.of_nat (reach rid - spine rid)) R) as HL.
  { unfold L. clear HR Hnd. induction R as [|rid R IH]; [done|].
    rewrite bind_cons, length_app, Nat2Z.inj_add. cbn [zsum]. apply Z.add_le_mono.
    - etransitivity; [by apply cover_length|]. apply Z.add_le_mono_l, Z.mul_le_mono_nonneg_r; [lia|].
      apply Hk. by left.
    - apply IH. intros. apply Hk. by right. }
  etransitivity; [|exact HL].
  rewrite (nfree_count a (proj1 (mgr_alloc _ Hwf))). set (all := seqZ 0 (max_blocks (config_ a))).
  pose proof (Permutation_length (filter_app_complement (λ id, refs a id = 0) all)) as Hsplit.
  rewrite length_app in Hsplit. unfold all in Hsplit at 3. rewrite length_seqZ in Hsplit.
  enough (length (filter (λ id, refs a id ≠ 0%Z) all) ≤ length L)%nat as Hle by lia.
  apply submseteq_length, NoDup_submseteq; [apply NoDup_filter, NoDup_seqZ|].
  intros id [Hid _]%list_elem_of_filter.
  destruct (taken_frame m id Hwf Hm Hid) as (sid & st & Hs & Hin).
  apply list_elem_of_bind. exists (rid_of st). split; [by eapply cover_frames|by eapply HR].
Qed.
End Frames.
