(* ===== verification/PagedReplay.v ===== *)
(** The paged replay ([run_paged] of [tools/trace_replay/TraceReplay.cpp]): the trace
    driven through the scheduler, the cache manager and the host swap backend.

    [index_of.at] throws when an id is missing; the model returns [None] there, as
    where behaviour is undefined. *)
From coqutil Require Import Datatypes.RecordSetters.
From stdpp Require Import gmap sorting.
From Stdlib Require Import Floats.SpecFloat.
From S2P Require Import Prelude.
From S2P Require Import Block.
From S2P Require Import SwapBackend.
From S2P Require Import BlockTable.
From S2P Require Import MemoryAllocator.
From S2P Require Import KVCacheManager.
From S2P Require Import Scheduler.
From S2P Require Import TraceReplay.
Import TriangleBracketNotations.
#[local] Open Scope record_set.

(** ** State *)

Record RequestProgress := mkRequestProgress {
  request : TraceRequest;
  sequences : list Z;
  committed : Z;
  decoded : Z;
  shared_prompt_tokens : Z;
  admitted : bool;
  finished : bool
}.

(** The local variables the loops share. *)
Record Replay := mkReplay {
  scheduler : Scheduler HostSwapBackend;
  replay_metrics : ReplayMetrics;
  progress : list RequestProgress;
  next_fork_sequence : Z;
  waiting : Z;
  completed_requests : Z;
  live : list Z;
  preempted_ids : gset Z;
  no_progress_steps : Z;
  token_cost : Z;
  ttfts : list Z
}.

Definition cache (s : Replay) : KVCacheManager HostSwapBackend := cache_manager_ (scheduler s).
Definition set_cache (m : KVCacheManager HostSwapBackend) (s : Replay) : Replay :=
  s <| scheduler ::= λ sch, with_cache sch m |>.
Definition replay_stats (s : Replay) : AllocatorStats := stats (allocator_ (cache s)).

(** [progress[i]] rewritten. *)
Definition set_at (i : Z) (p : RequestProgress) (s : Replay) : Replay :=
  s <| progress ::= <[Z.to_nat i := p]> |>.

(** ** Before the loop *)

Definition scheduled_request (config : ReplayConfig) (r : TraceRequest) : Request :=
  mkRequest (tr_request_id r) (tr_request_id r) (tr_prompt_tokens r)
    (mkSamplingConfig (tr_parallel_samples r) (decode_budget r)) (tr_multimodal_spans r)
    (tr_positional_encoding r) (if prefix_caching config then tr_prefix_key r else ""%string)
    Pending 0 0 0.

Definition never_admissible (config : ReplayConfig) (r : TraceRequest) : bool :=
  cfg_max_blocks config <?
  ceil_div (tr_prompt_tokens r ⊞ decode_budget r) (cfg_tokens_per_block config).

(** [index_of], which later requests with an id overwrite. *)
Definition request_index (l : list TraceRequest) : gmap Z Z :=
  foldl (λ m '(i, r), <[tr_request_id r := Z.of_nat i]> m) ∅ (imap pair l).

Section Paged.
Context (aligned_alloc : Z → Z → option (Z * list byte)) (trace : Trace) (config : ReplayConfig).

Abbreviation tpb := (cfg_tokens_per_block config).

Definition allocator_config : AllocatorConfig :=
  let h := header trace in
  mkAllocatorConfig
    (mkBlockShape tpb (hdr_num_layers h) (hdr_num_kv_heads h) (hdr_head_dim h)
       (hdr_bytes_per_element h) 0)
    (mkHostMemoryOptions kDefaultBlockAlignmentBytes false) (cfg_max_blocks config).

Definition replay_allocator : MemoryAllocator HostSwapBackend :=
  let a := MemoryAllocator_new aligned_alloc allocator_config in
  if 0 <? swap_slots config
  then set_swap_backend a (Some (HostSwapBackend_new (swap_slots config))) else a.

Definition replay_scheduler : Scheduler HostSwapBackend :=
  Scheduler_new
    (mkSchedulerConfig (cfg_max_active_requests config) (cfg_max_batch_tokens config)
       (cfg_preemption_watermark_blocks config) (cfg_size_aware_admission config)
       (cfg_admission_skip_limit config))
    (KVCacheManager_new replay_allocator).

(** The loop that enqueues every request. *)
Definition enqueue_request (s : Replay) (r : TraceRequest) : Replay :=
  let s := s <| next_fork_sequence ::= λ n, Z.max n (tr_request_id r ⊕ 1) |> in
  let s := if never_admissible config r
           then s <| replay_metrics ::= λ m, m <| requests_never_admissible ::= λ n, n ⊞ 1 |> |>
           else s in
  s <| scheduler ::= λ sch, enqueue sch (scheduled_request config r) |>.

Definition start_paged : Replay :=
  foldl enqueue_request
    (mkReplay replay_scheduler (ReplayMetrics_default "paged")
       ((λ r, mkRequestProgress r [] 0 0 0 false false) <$> requests trace)
       1 (Z.of_nat (length (requests trace))) 0 [] ∅ 0 0 [])
    (requests trace).

Abbreviation index_of := (request_index (requests trace)).

(** [progress[index_of.at(id)]], with its position. *)
Definition progress_of (s : Replay) (id : Z) : option (Z * RequestProgress) :=
  i ← index_of !! id; p ← vec_get (progress s) i; Some (i, p).

Definition finished_id (s : Replay) (id : Z) : option bool :=
  '(_, p) ← progress_of s id; Some (finished p).

(** ** Prefill *)

(** The first chunk of a request. *)
Definition note_admission (s : Replay) (i id : Z) (p : RequestProgress) : option Replay :=
  let r := request p in
  let p := p <| admitted := true |> <| sequences ::= λ l, l ++ [tr_request_id r] |> in
  let s := s <| replay_metrics ::= λ m, m <| requests_admitted ::= λ n, n ⊞ 1 |> |>
             <| waiting ::= λ n, u64 (n - 1) |> <| live ::= λ l, l ++ [id] |> in
  if prefix_caching config && negb (String.eqb (tr_prefix_key r) "") then
    let cached := prefix_token_count (cache s) (tr_prefix_key r) in
    if 0 <? cached then
      blocks ← block_of cached tpb;
      Some (set_at i (p <| shared_prompt_tokens := cached |>)
              (s <| replay_metrics ::= λ m, m <| prefix_hits ::= λ n, n ⊕ 1 |>
                                              <| prefix_blocks_saved ::= λ n, n ⊕ blocks |> |>))
    else Some (set_at i p s)
  else Some (set_at i p s).

Definition touch (s : Replay) (sequence_id position : Z) : option Replay :=
  '(metrics, m) ← touch_position (cache s) sequence_id position tpb (replay_metrics s);
  Some (set_cache m (s <| replay_metrics := metrics |>)).

(** One position of a chunk: the start of a block of its own is touched. *)
Definition prefill_position (p : RequestProgress) (s : Replay) (offset : Z) : option Replay :=
  let position := committed p ⊞ offset in
  if position <? shared_prompt_tokens p then Some s
  else if tpb =? 0 then None
  else if position mod tpb =? 0 then touch s (tr_request_id (request p)) position
  else Some s.

(** One branch of a prompt with several samples. *)
Definition fork_branch (i : Z) (s : Replay) : option Replay :=
  p ← vec_get (progress s) i;
  let r := request p in
  let child := mkSequenceMetadata (next_fork_sequence s) (tr_request_id r)
                 (tr_multimodal_spans r) (tr_positional_encoding r) in
  let s := s <| next_fork_sequence ::= λ n, n ⊕ 1 |> in
  let '(ok, m) := fork_sequence (cache s) (tr_request_id r) child in
  let s := set_cache m s in
  if ok : bool
  then Some (set_at i (p <| sequences ::= λ l, l ++ [sm_sequence_id child] |>)
               (s <| replay_metrics ::= λ m, m <| forks ::= λ n, n ⊕ 1 |> |>))
  else Some s.

(** What happens when a prompt is complete. *)
Definition begin_decode (i : Z) (s : Replay) : option Replay :=
  p ← vec_get (progress s) i;
  let r := request p in
  s ← (if prefix_caching config && negb (String.eqb (tr_prefix_key r) "")
       then '(_, m) ← publish_prefix (cache s) (tr_request_id r) (tr_prefix_key r);
            Some (set_cache m s)
       else Some s);
  foldM (λ s _, fork_branch i s) s (seqZ 1 (tr_parallel_samples r - 1)).

(** One entry of the plan's prefill list. *)
Definition prefill_one (s : Replay) (entry : Z * Z) : option Replay :=
  let '(id, chunk) := entry in
  '(i, p) ← progress_of s id;
  s ← (if admitted p then Some s else note_admission s i id p);
  p ← vec_get (progress s) i;
  s ← foldM (prefill_position p) s (seqZ 0 chunk);
  let s := set_at i (p <| committed ::= λ n, n ⊞ chunk |>) s in
  let s := s <| scheduler ::= λ sch, complete_step sch id chunk |> in
  if decide (state (scheduler s) id = Some Decode) then begin_decode i s else Some s.

(** ** Decode *)

(** [reclaim_for_decode], over the live requests from the newest on. *)
Fixpoint reclaim_for_decode (in_plan : list Z) (free_before : Z) (newest : list Z) (s : Replay)
    : option (bool * Replay) :=
  match newest with
  | [] => Some (false, s)
  | id :: rest =>
    done ← finished_id s id;
    if (done : bool) || negb (bool_decide (id ∈ in_plan))
    then reclaim_for_decode in_plan free_before rest s
    else
      '(ok, sch) ← preempt (scheduler s) id "decode growth failed";
      let s := s <| scheduler := sch |> in
      if ok : bool then Some (free_before <? free_blocks (replay_stats s), s)
      else reclaim_for_decode in_plan free_before rest s
  end.

(** The flags of the decode loop. *)
Record DecodeFlags := mkDecodeFlags { progress_made : bool; growth_failed : bool }.

Definition grow (s : Replay) (position sequence_id : Z) : option (bool * Replay) :=
  '(ok, m) ← ensure_capacity (cache s) sequence_id position tpb;
  Some (ok, set_cache m s).

(** A token for every sequence of a request, and its end when it was the last. *)
Definition decode_token (plan : BatchPlan) (s : Replay) (i id : Z) (p : RequestProgress)
    : option Replay :=
  s ← foldM (λ s sequence_id, touch s sequence_id (committed p)) s (sequences p);
  let p := p <| committed ::= λ n, n ⊞ 1 |> <| decoded ::= λ n, n ⊞ 1 |> in
  let s := s <| replay_metrics ::= λ m,
               m <| tokens_decoded ::= λ n, n ⊕ Z.of_nat (length (sequences p)) |> |>
             <| scheduler ::= λ sch, complete_step sch id 1 |> in
  let s := if decoded p =? 1
           then s <| ttfts ::= λ l, l ++ [token_cost s ⊕ scheduled_tokens plan] |> else s in
  if decode_actual (request p) <=? decoded p then
    Some (set_at i (p <| finished := true |> <| sequences := [] |>)
            (s <| scheduler ::= λ sch, cancel sch id |>
               <| completed_requests ::= λ n, n ⊕ 1 |>))
  else Some (set_at i p s).

(** One entry of the plan's decode list. *)
Definition decode_one (plan : BatchPlan) (s : DecodeFlags * Replay) (id : Z)
    : option (DecodeFlags * Replay) :=
  let '(flags, s) := s in
  '(i, p) ← progress_of s id;
  match preemption_info (scheduler s) id with
  | Some _ => Some (flags, s)
  | None =>
    '(grew, s) ← loop (λ s sequence_id, grow s (committed p) sequence_id) s (sequences p);
    if negb grew then
      '(reclaimed, s) ←
        reclaim_for_decode (prefill_requests plan ++ decode_requests plan)
          (free_blocks (replay_stats s)) (rev (live s)) s;
      Some (mkDecodeFlags (progress_made flags || reclaimed) true, s)
    else
      s ← decode_token plan s i id p;
      Some (mkDecodeFlags true (growth_failed flags), s)
  end.

(** ** After the plan *)

(** The loop that counts the requests newly parked. *)
Definition note_preemption (s : Replay) (id : Z) : option Replay :=
  done ← finished_id s id;
  if done : bool then Some s
  else
    match preemption_info (scheduler s) id with
    | None => Some (s <| preempted_ids ::= λ ids, ids ∖ {[id]} |>)
    | Some info =>
      if decide (id ∈ preempted_ids s) then Some s
      else
        Some (s <| preempted_ids ::= λ ids, {[id]} ∪ ids |>
                <| replay_metrics ::= λ m, m <| preemptions ::= λ n, n ⊕ 1 |>
                     <| swapped_blocks_out ::= λ n, n ⊕ swapped_blocks info |> |>)
    end.

(** The loop that resumes the parked requests. *)
Definition resume_one (s : Replay) (id : Z) : option Replay :=
  if decide (id ∈ preempted_ids s) then
    '(ok, sch) ← resume (scheduler s) id;
    let s := s <| scheduler := sch |> in
    Some (if ok : bool
          then s <| preempted_ids ::= λ ids, ids ∖ {[id]} |>
                 <| replay_metrics ::= λ m, m <| resumes ::= λ n, n ⊕ 1 |> |>
          else s <| replay_metrics ::= λ m, m <| failed_resumes ::= λ n, n ⊕ 1 |> |>)
  else Some s.

(** The finished requests erased from the live ones. *)
Fixpoint erase_finished (s : Replay) (ids : list Z) : option (list Z) :=
  match ids with
  | [] => Some []
  | id :: rest =>
    done ← finished_id s id;
    rest' ← erase_finished s rest;
    Some (if done : bool then rest' else id :: rest')
  end.

(** The committed tokens of one sequence, and its slack. *)
Definition note_sequence (p : RequestProgress) (s : Replay) (sequence_id : Z) : option Replay :=
  reserved ← reserved_slots (cache s) sequence_id tpb;
  let s := s <| replay_metrics ::= λ m, m <| committed_tokens ::= λ n, n ⊕ committed p |> |> in
  Some (if committed p <? reserved
        then s <| replay_metrics ::= λ m, m <| max_partial_block_slack ::= λ n,
                    Z.max n (reserved ⊟ committed p) |> |>
        else s).

Definition note_live (s : Replay) (id : Z) : option Replay :=
  '(_, p) ← progress_of s id;
  if decide (id ∈ preempted_ids s) then Some s
  else foldM (note_sequence p) s (sequences p).

(** The peaks and sums of a step. *)
Definition account_step (plan : BatchPlan) (s : Replay) : option Replay :=
  let s := s <| token_cost ::= λ n, n ⊕ scheduled_tokens plan |> in
  let st := replay_stats s in
  let in_use := total_blocks st ⊟ free_blocks st in
  let stalled := (0 <? waiting s) && (length (prefill_requests plan) =? 0)%nat in
  let m := replay_metrics s in
  let m := if stalled then m <| head_of_line_stall_steps ::= λ n, n ⊕ 1 |> else m in
  let m := m <| peak_active_requests ::= λ n,
                  Z.max n (u32 (Z.of_nat (length (decode_requests plan)))) |>
             <| peak_blocks_in_use ::= λ n, Z.max n in_use |>
             <| peak_bytes_in_use ::= λ n,
                  Z.max n (in_use ⊗ byte_size (block_shape allocator_config)) |>
             <| reserved_token_slots ::= λ n, n ⊕ (in_use ⊗ tpb) |> in
  foldM note_live (s <| replay_metrics := m |>) (live s).

(** ** The run *)

(** One step of the replay, and whether it made progress. *)
Definition step_paged (s : Replay) : option (bool * Replay) :=
  '(plan, sch) ← schedule_next (scheduler s);
  let s := s <| scheduler := sch |>
             <| replay_metrics ::= λ m, m <| steps ::= λ n, n ⊕ 1 |> |> in
  entries ← mapM (λ '(k, id), chunk ← prefill_tokens plan !! (k : nat); Some (id, chunk))
              (imap pair (prefill_requests plan));
  s ← foldM prefill_one s entries;
  let flags := mkDecodeFlags (negb (length entries =? 0)%nat) false in
  '(flags, s) ← foldM (decode_one plan) (flags, s) (decode_requests plan);
  s ← foldM note_preemption s (live s);
  s ← (if growth_failed flags then Some s else foldM resume_one s (live s));
  left ← erase_finished s (live s);
  s ← account_step plan (s <| live := left |>);
  Some (progress_made flags, s).

Fixpoint run_paged_steps (fuel : nat) (s : Replay) : option Replay :=
  if (completed_requests s <? Z.of_nat (length (requests trace)))
     && (steps (replay_metrics s) <? max_steps config) then
    match fuel with
    | O => None
    | S fuel =>
      '(moved, s) ← step_paged s;
      if moved : bool then run_paged_steps fuel (s <| no_progress_steps := 0 |>)
      else
        let s := s <| no_progress_steps ::= λ n, n ⊞ 1 |> in
        if 2 <=? no_progress_steps s then Some s else run_paged_steps fuel s
    end
  else Some s.

(** The double nearest to 0.99, and the conversion to [std::size_t]. *)
Definition ninety_nine : spec_float := S754_finite false 8917127262193582 (-53).
Definition size_of_double (x : spec_float) : option Z :=
  match x with
  | S754_zero _ => Some 0
  | S754_finite false m e =>
    let n := if 0 <=? e then Zpos m * 2 ^ e else Zpos m / 2 ^ (- e) in
    if n <? W64 then Some n else None
  | _ => None
  end.

(** The 99th percentile of the times to the first token. *)
Definition p99 (times : list Z) : option Z :=
  let sorted := merge_sort Z.le times in
  index ← size_of_double
            (SFmul 53 1024 ninety_nine (double_of (Z.of_nat (length times) - 1)));
  vec_get sorted index.

Definition run_paged : option ReplayMetrics :=
  s ← run_paged_steps (Z.to_nat (max_steps config)) start_paged;
  m ← (if decide (ttfts s = []) then Some (replay_metrics s)
       else p ← p99 (ttfts s); Some ((replay_metrics s) <| p99_ttft_cost := p |>));
  let st := replay_stats s in
  Some (m <| requests_completed := u32 (completed_requests s) |>
          <| completed := (completed_requests s =? Z.of_nat (length (requests trace))) |>
          <| leak_free := (free_blocks st =? total_blocks st) && (active_blocks st =? 0)
                          && (shared_blocks st =? 0) && (MemoryAllocator.swapped_blocks st =? 0) |>).
End Paged.

(** ** Runs on concrete traces *)

(** A pool of zero bytes at some address. *)
Definition zero_pool (alignment bytes : Z) : option (Z * list byte) :=
  Some (4096, replicate (Z.to_nat bytes) Byte.x00).

Definition keyed_request (id prompt budget actual samples : Z) (key : string) : TraceRequest :=
  mkTraceRequest id 0 0 prompt budget actual samples key [] [] (mkPositionalEncodingMetadata []).

Definition tiny_header (count : Z) : TraceHeader :=
  mkTraceHeader "model" "mix" "source" "budget" 0 count 1 1 1 1 8 8 0 0.

Definition paged_config (blocks slots : Z) (prefixes : bool) : ReplayConfig :=
  mkReplayConfig 4 blocks 2 64 0 slots false 8 prefixes 64 40.

(** Two requests with the same one-block prompt, admitted by the same call. *)
Definition twin_trace : Trace :=
  mkTrace (tiny_header 2) [keyed_request 1 4 4 2 1 "k"; keyed_request 2 4 4 2 1 "k"].

(** A prefix hit is counted where nothing is shared. The replay asks whether a prefix is
    published when it sees a request's first chunk, after [schedule_next] has admitted
    the request and after an earlier request of the same plan may have published it. On
    this trace a hit and a saved block are reported, while the run uses as many blocks
    in every step as it does with prefix caching off. *)
Theorem prefix_hit_without_sharing :
  ∃ on off,
    run_paged zero_pool twin_trace (paged_config 6 0 true) = Some on ∧
    run_paged zero_pool twin_trace (paged_config 6 0 false) = Some off ∧
    prefix_hits on = 1 ∧ prefix_blocks_saved on = 1 ∧
    prefix_hits off = 0 ∧ prefix_blocks_saved off = 0 ∧
    reserved_token_slots on = reserved_token_slots off ∧
    peak_blocks_in_use on = peak_blocks_in_use off ∧
    completed on = true ∧ completed off = true.
Proof. do 2 eexists. do 2 (split; [vm_compute; reflexivity|]). by repeat split. Qed.
