(* ===== verification/PagedInvariant.v ===== *)
(** The invariant of the paged replay: every queued request is tracked by the replay's
    record of its progress, every sequence in the cache is one that record names, and
    the sizes the trace allows bound what the cache stores, pins and swaps out. *)
From coqutil Require Import Datatypes.RecordSetters.
From S2P Require Import Prelude.
From S2P Require Import Block.
From S2P Require Import SwapBackend.
From S2P Require Import BlockTable.
From S2P Require Import MemoryAllocator.
From S2P Require Import AllocatorSpec.
From S2P Require Import AllocatorProps.
From S2P Require Import KVCacheManager.
From S2P Require Import CacheInvariant.
From S2P Require Import CacheLemmas.
From S2P Require Import CacheLifecycle.
From S2P Require Import CacheGrowth.
From S2P Require Import CacheSwap.
From S2P Require Import Scheduler.
From S2P Require Import SchedulerPlan.
From S2P Require Import SchedulerInvariant.
From S2P Require Import SchedulerAdmission.
From S2P Require Import SchedulerLoops.
From S2P Require Import SchedulerKeys.
From S2P Require Import TraceReplay.
From S2P Require Import CacheClient.
From S2P Require Import PagedReplay.
Import TriangleBracketNotations.
#[local] Open Scope record_set.

(** ** The index of the requests *)

Lemma request_index_snoc l r :
  request_index (l ++ [r]) = <[tr_request_id r := Z.of_nat (length l)]> (request_index l).
Proof.
  unfold request_index. rewrite imap_app, foldl_app. simpl. by rewrite Nat.add_0_r.
Qed.

(** Distinct ids are found where they stand. *)
Lemma request_index_lookup l i r :
  NoDup (tr_request_id <$> l) → l !! i = Some r →
  request_index l !! tr_request_id r = Some (Z.of_nat i).
Proof.
  induction l as [|x l IH] using rev_ind; [done|].
  rewrite fmap_app, request_index_snoc. intros (Hnd & Hx & _)%NoDup_app Hi.
  destruct (decide (i = length l)) as [->|Hne].
  - rewrite list_lookup_middle in Hi by done. injection Hi as ->. by rewrite lookup_insert_eq.
  - rewrite lookup_app_l in Hi
      by (apply lookup_lt_Some in Hi; rewrite length_app in Hi; simpl in Hi; lia).
    rewrite lookup_insert_ne; [by apply IH|]. intros Heq. apply (Hx (tr_request_id r)).
    + apply list_elem_of_fmap. exists r. split; [done|]. by eapply list_elem_of_lookup_2.
    + rewrite <-Heq. by left.
Qed.

(** ** Counting entries of a vector *)

Definition flagged {A} (f : A → bool) (l : list A) : Z := zsum (λ x, if f x then 1 else 0) l.

Lemma flagged_range {A} (f : A → bool) l : 0 <= flagged f l <= Z.of_nat (length l).
Proof.
  unfold flagged. induction l as [|x l IH]; [done|]. cbn [zsum length]. destruct (f x); lia.
Qed.

Lemma flagged_insert {A} (f : A → bool) l i x y :
  l !! i = Some x →
  flagged f (<[i:=y]> l) =
    flagged f l - (if f x then 1 else 0) + (if f y then 1 else 0).
Proof.
  unfold flagged. revert i. induction l as [|z l IH]; intros [|i] Hi; [done..| |]; simpl in Hi.
  - injection Hi as ->. cbn. lia.
  - change (<[S i:=y]> (z :: l)) with (z :: <[i:=y]> l). cbn [zsum]. rewrite (IH i Hi). lia.
Qed.

Lemma flagged_all {A} (f : A → bool) l :
  flagged f l = Z.of_nat (length l) → ∀ x, x ∈ l → f x = true.
Proof.
  unfold flagged. induction l as [|y l IH]; [by intros _ x ?%not_elem_of_nil|].
  cbn [zsum length]. intros Hsum x. pose proof (flagged_range f l) as Hr. unfold flagged in Hr.
  destruct (f y) eqn:Hy; [|lia]. intros [->|Hx]%elem_of_cons; [done|]. apply IH; [lia|done].
Qed.

Section Paged.
Context (trace : Trace) (config : ReplayConfig).

Abbreviation tpb := (cfg_tokens_per_block config).

(** ** What the trace allows *)

(** Blocks one sequence of a request may reach, branches of a request and what a
    run may hold at once. *)
Definition entry_blocks (r : TraceRequest) : Z :=
  (tr_prompt_tokens r + Z.max 1 (decode_actual r)) / tpb + 1.
Definition branches (r : TraceRequest) : Z := Z.max 1 (tr_parallel_samples r).
Definition block_limit : Z := foldr Z.max 0 (entry_blocks <$> requests trace).
Definition sequence_limit : Z := zsum (λ r, 2 + branches r) (requests trace).
Definition cache_limit : Z := 2 * block_limit * sequence_limit.

(** Preemptions one step may need. *)
Definition victims_per_step : nat := 2 * length (requests trace).

Record request_ok (r : TraceRequest) : Prop := {
  tr_prompt_ok : 0 < tr_prompt_tokens r;
  tr_sum_ok : tr_prompt_tokens r + tpb < W32;
  tr_goal_ok : tr_prompt_tokens r + Z.max 1 (decode_actual r) < W32;
  tr_budget_ok : is_u32 (decode_budget r);
  tr_samples_ok : is_u32 (tr_parallel_samples r)
}.

(** A run that overflows no counter: distinct ids, prompts that are not empty, a pool
    with blocks, and sizes that fit their words. *)
Record replay_ok : Prop := {
  ok_ids : NoDup (tr_request_id <$> requests trace);
  ok_requests : Forall request_ok (requests trace);
  ok_sched : config_wf (mkSchedulerConfig (cfg_max_active_requests config)
    (cfg_max_batch_tokens config) (cfg_preemption_watermark_blocks config)
    (cfg_size_aware_admission config) (cfg_admission_skip_limit config));
  ok_pool : config_ok (allocator_config trace config);
  ok_tpb : 0 < tpb;
  ok_blocks : 0 < cfg_max_blocks config;
  ok_store : cache_limit + block_limit < W32;
  ok_sequences : sequence_limit + 1 < W32;
  ok_tokens : block_limit * sequence_limit * tpb < W32;
  ok_held : (Z.of_nat (length (requests trace)) + 2) * cfg_max_blocks config < W32;
  ok_steps : 0 <= max_steps config < W64;
  ok_slots : Z.of_nat victims_per_step * max_steps config * cache_limit + 2 < W64;
  ok_count : Z.of_nat (length (requests trace)) <= 4096
}.

(** ** Tracking *)

(** The progress [p] follows the request [r] of a queue. *)
Record follows (r : Request) (p : RequestProgress) : Prop := {
  f_id : tr_request_id (request p) = request_id r;
  f_root : root_sequence_id r = request_id r;
  f_prompt : prompt_tokens r = tr_prompt_tokens (request p);
  f_key : rq_prefix_key r = ""%string ∨ rq_prefix_key r = tr_prefix_key (request p);
  f_lifetime : 0 <= lifetime_blocks r <= cfg_max_blocks config;
  f_committed : committed p = prompt_tokens r - remaining_prefill_tokens r + decoded p;
  f_decoded : 0 <= decoded p < Z.max 1 (decode_actual (request p));
  f_prefill : 0 < remaining_prefill_tokens r → decoded p = 0 ∧ (length (sequences p) ≤ 1)%nat;
  f_fresh : admitted p = false → sequences p = [];
  f_unfinished : finished p = false
}.

Definition tracked (prog : list RequestProgress) (r : Request) : Prop :=
  ∃ i p, prog !! i = Some p ∧ follows r p.

(** The sequence [sid] of request [rid] is one the progress names, under no key or the
    key of its request. *)
Definition named (prog : list RequestProgress) (sid rid : Z) (key : string) : Prop :=
  ∃ i p, prog !! i = Some p ∧ tr_request_id (request p) = rid ∧
    (sid = rid ∨ sid ∈ sequences p) ∧
    (key = ""%string ∨ key = tr_prefix_key (request p)).

Definition within (p : RequestProgress) : Prop :=
  Z.of_nat (length (sequences p)) <= branches (request p).

(** The pool of the replay. *)
Record replay_pool (m : KVCacheManager HostSwapBackend) : Prop := {
  pool_blocks : max_blocks (config_ (allocator_ m)) = cfg_max_blocks config;
  pool_tpb : tpb_of m = tpb;
  pool_count : count_of m = 1
}.

Definition queued (s : Replay) : list Request :=
  pending_ (scheduler s) ++ active_ (scheduler s) ++ preempted_ (scheduler s).

Context (taken : Z).

(** [taken] steps were begun, [victims] more requests may be swapped out. *)
Record replay_wf (victims : nat) (s : Replay) : Prop := {
  p_steps : steps (replay_metrics s) = taken;
  p_requests : request <$> progress s = requests trace;
  p_within : Forall within (progress s);
  p_sched : sched_wf (scheduler s);
  p_pool : replay_pool (cache s);
  p_sized : sized block_limit (cache s);
  p_store : stores (allocator_ (cache s)) (Z.of_nat victims * cache_limit);
  p_tracked : Forall (tracked (progress s)) (queued s);
  p_named : tagged (named (progress s)) (cache s);
  p_live : Forall (λ id, id ∈ tr_request_id <$> requests trace) (live s);
  p_done : completed_requests s = flagged finished (progress s);
  p_ttfts : Z.of_nat (length (ttfts s)) <= flagged (λ p, 0 <? decoded p) (progress s)
}.

(** The invariant does not see the metrics and the other counters. *)
Lemma replay_wf_core v s s' :
  scheduler s' = scheduler s → progress s' = progress s → live s' = live s →
  completed_requests s' = completed_requests s → ttfts s' = ttfts s →
  steps (replay_metrics s') = steps (replay_metrics s) →
  replay_wf v s → replay_wf v s'.
Proof.
  intros H1 H2 H3 H4 H5 H6 []. unfold cache, queued in *.
  split; unfold cache, queued; rewrite ?H1, ?H2, ?H3, ?H4, ?H5, ?H6; done.
Qed.

Lemma replay_wf_mono v v' s : (v' ≤ v)%nat → 0 <= cache_limit → replay_wf v s → replay_wf v' s.
Proof.
  intros Hv Hc []. split; try done. unfold stores in *. case_match; [|done].
  destruct p_store0 as [? Hle]. split; [done|]. etransitivity; [|exact Hle].
  apply Z.mul_le_mono_nonneg_r; lia.
Qed.

(** ** What the invariant gives *)

Section Facts.
Context (Hok : replay_ok).

Lemma block_limit_elem r : r ∈ requests trace → entry_blocks r <= block_limit.
Proof.
  unfold block_limit. intros Hr%(list_elem_of_fmap_2 entry_blocks). revert Hr.
  generalize (entry_blocks r). induction (entry_blocks <$> requests trace) as [|x l IH];
    intros z; [by intros ?%not_elem_of_nil|]. simpl. intros [->|Hz]%elem_of_cons; [lia|].
  specialize (IH z Hz). lia.
Qed.

Lemma limits_nonneg : 0 <= block_limit ∧ 0 <= sequence_limit ∧ 0 <= cache_limit.
Proof.
  assert (0 <= block_limit) as Hb.
  { unfold block_limit. induction (entry_blocks <$> requests trace); simpl; lia. }
  assert (0 <= sequence_limit) as Hs by (apply zsum_nonneg; unfold branches; lia).
  unfold cache_limit. nia.
Qed.

Lemma progress_unique v s i j p p' :
  replay_wf v s → progress s !! i = Some p → progress s !! j = Some p' →
  tr_request_id (request p) = tr_request_id (request p') → i = j ∧ p = p'.
Proof.
  intros Hwf Hi Hj Heq. assert (i = j) as ->; [|split; congruence].
  apply (NoDup_lookup (tr_request_id <$> requests trace) i j (tr_request_id (request p)));
    [by apply ok_ids|..]; rewrite <-(p_requests _ _ Hwf), !list_lookup_fmap.
  - by rewrite Hi.
  - by rewrite Hj, Heq.
Qed.

(** The index leads to the progress of a request. *)
Lemma progress_of_at v s i p :
  replay_wf v s → progress s !! i = Some p →
  progress_of trace s (tr_request_id (request p)) = Some (Z.of_nat i, p).
Proof.
  intros Hwf Hi. unfold progress_of.
  rewrite (request_index_lookup (requests trace) i (request p)).
  - cbn [mbind option_bind]. by rewrite vec_get_nat, Hi.
  - by apply ok_ids.
  - by rewrite <-(p_requests _ _ Hwf), list_lookup_fmap, Hi.
Qed.

Lemma known_progress v s id :
  replay_wf v s → id ∈ tr_request_id <$> requests trace →
  ∃ i p, progress s !! i = Some p ∧ tr_request_id (request p) = id.
Proof.
  intros Hwf. rewrite <-(p_requests _ _ Hwf).
  intros (r & -> & (p & -> & [i Hi]%list_elem_of_lookup_1)%list_elem_of_fmap)%list_elem_of_fmap.
  by exists i, p.
Qed.

Lemma progress_known v s i p :
  replay_wf v s → progress s !! i = Some p → request p ∈ requests trace.
Proof.
  intros Hwf Hi. rewrite <-(p_requests _ _ Hwf). apply list_elem_of_fmap. exists p.
  split; [done|]. by eapply list_elem_of_lookup_2.
Qed.

(** The progress of a queued request. *)
Lemma queued_progress v s r :
  replay_wf v s → r ∈ queued s → ∃ i p, progress s !! i = Some p ∧ follows r p.
Proof. intros Hwf Hr. by apply (proj1 (Forall_forall _ _) (p_tracked _ _ Hwf)). Qed.

Lemma queued_follows v s r i p :
  replay_wf v s → r ∈ queued s → progress s !! i = Some p →
  tr_request_id (request p) = request_id r → follows r p.
Proof.
  intros Hwf Hr Hi Hid. destruct (queued_progress _ _ _ Hwf Hr) as (j & p' & Hj & Hf).
  destruct (progress_unique _ _ i j p p' Hwf Hi Hj) as [-> ->]; [|done].
  rewrite Hid. symmetry. apply Hf.
Qed.

(** Queued requests are requests of the trace, each at most once. *)
Lemma queued_length v s : replay_wf v s → (length (queued s) ≤ length (requests trace))%nat.
Proof.
  intros Hwf. rewrite <-(length_fmap request_id (queued s)), <-(length_fmap tr_request_id (requests trace)).
  apply submseteq_length, NoDup_submseteq.
  - unfold queued. rewrite !fmap_app. apply (q_ids _ (s_queues _ (p_sched _ _ Hwf))).
  - intros id (r & -> & Hr)%list_elem_of_fmap.
    destruct (queued_progress _ _ _ Hwf Hr) as (i & p & Hi & Hf). rewrite <-(f_id _ _ Hf).
    apply list_elem_of_fmap_2. by eapply progress_known.
Qed.

(** ** Bounds on the cache *)

Lemma zsum_fmap {A C} (f : C → Z) (g : A → C) l : zsum f (g <$> l) = zsum (λ x, f (g x)) l.
Proof. induction l as [|x l IH]; [done|]. rewrite fmap_cons. cbn [zsum]. by rewrite IH. Qed.

Lemma zsum_mono {A} (f g : A → Z) l : (∀ x, x ∈ l → f x <= g x) → zsum f l <= zsum g l.
Proof.
  induction l as [|x l IH]; intros Hl; [done|]. cbn [zsum].
  apply Z.add_le_mono; [apply Hl; by left|apply IH; intros; apply Hl; by right].
Qed.

Lemma length_bind {A C} (f : A → list C) l :
  Z.of_nat (length (l ≫= f)) = zsum (λ x, Z.of_nat (length (f x))) l.
Proof.
  induction l as [|x l IH]; [done|]. cbn [zsum]. rewrite bind_cons, length_app. lia.
Qed.

(** The cache has only sequences the progress names. *)
Lemma sequences_bound v s :
  replay_wf v s → sequence_count (cache s) + Z.of_nat (length (requests trace)) <= sequence_limit.
Proof.
  intros Hwf. set (L := progress s ≫= λ p, tr_request_id (request p) :: sequences p).
  assert (sequence_count (cache s) <= Z.of_nat (length L)) as Hle.
  { rewrite sequence_count_size, <-length_map_to_list, <-(length_fmap fst). apply inj_le.
    apply submseteq_length, NoDup_submseteq; [apply NoDup_fst_map_to_list|].
    intros sid ([? st] & -> & Hs%elem_of_map_to_list)%list_elem_of_fmap. simpl.
    assert (tags (cache s) !! z = Some (tag st)) as Ht by (unfold tags; by rewrite lookup_fmap, Hs).
    destruct (p_named _ _ Hwf _ _ Ht) as (i & p & Hi & Hid & Hsid & _).
    apply list_elem_of_bind. exists p. split; [|by eapply list_elem_of_lookup_2].
    apply elem_of_cons. destruct Hsid as [->|?]; [left|by right]. by symmetry. }
  unfold L in Hle. rewrite length_bind in Hle.
  assert (zsum (λ p, Z.of_nat (length (tr_request_id (request p) :: sequences p))) (progress s)
    <= zsum (λ r, 1 + branches r) (requests trace)) as Hsum.
  { rewrite <-(p_requests _ _ Hwf), zsum_fmap. apply zsum_mono. intros p Hp.
    pose proof (proj1 (Forall_forall _ _) (p_within _ _ Hwf) p Hp) as Hw. unfold within in Hw.
    cbn [length]. lia. }
  enough (zsum (λ r, 1 + branches r) (requests trace) + Z.of_nat (length (requests trace))
    = sequence_limit) by lia.
  unfold sequence_limit. clear. induction (requests trace) as [|r l IH]; [done|]. cbn [zsum length]. lia.
Qed.

Lemma cache_bounds v s :
  replay_wf v s →
  stored (cache s) + pinned (cache s)
    + block_limit * (2 * Z.of_nat (length (requests trace))) <= cache_limit ∧
  0 <= stored (cache s) ∧ 0 <= pinned (cache s) <= block_limit * sequence_limit ∧
  stored (cache s) + pinned (cache s) + block_limit < W32 ∧
  sequence_count (cache s) + 1 < W32.
Proof.
  intros Hwf. pose proof (sequences_bound _ _ Hwf) as Hs. pose proof limits_nonneg as (Hb & _ & _).
  pose proof (s_cache _ (p_sched _ _ Hwf)) as Hm. fold (cache s) in Hm.
  pose proof (stored_sized _ _ (p_sized _ _ Hwf)). pose proof (stored_nonneg (cache s)).
  pose proof (pinned_sized _ _ Hm Hb (p_sized _ _ Hwf)). pose proof (pinned_nonneg (cache s)).
  pose proof (ok_store Hok). pose proof (ok_sequences Hok).
  assert (block_limit * (sequence_count (cache s) + Z.of_nat (length (requests trace)))
    <= block_limit * sequence_limit) by (apply Z.mul_le_mono_nonneg_l; lia).
  unfold cache_limit in *. split_and!; nia.
Qed.
End Facts.
End Paged.
