(* ===== verification/PagedSteps.v ===== *)
(** The operations of the paged replay keep its invariant: touching, growing, forking,
    publishing, completing steps, and the scheduler's calls in between. *)
From coqutil Require Import Datatypes.RecordSetters.
From S2P Require Import Prelude.
From S2P Require Import Block.
From S2P Require Import SwapBackend.
From S2P Require Import BlockTable.
From S2P Require Import MemoryAllocator.
From S2P Require Import AllocatorSpec.
From S2P Require Import AllocatorProps.
From S2P Require Import KVCacheManager.
From S2P Require Import CacheInvariant.
From S2P Require Import CacheLemmas.
From S2P Require Import CacheLifecycle.
From S2P Require Import CacheGrowth.
From S2P Require Import CacheSwap.
From S2P Require Import CacheRelease.
From S2P Require Import Scheduler.
From S2P Require Import SchedulerPlan.
From S2P Require Import SchedulerInvariant.
From S2P Require Import SchedulerAdmission.
From S2P Require Import SchedulerPreemption.
From S2P Require Import SchedulerLoops.
From S2P Require Import SchedulerSteps.
From S2P Require Import SchedulerKeys.
From S2P Require Import TraceReplay.
From S2P Require Import CacheClient.
From S2P Require Import PagedReplay.
From S2P Require Import PagedInvariant.
Import TriangleBracketNotations.
#[local] Open Scope record_set.

Section Steps.
Context (trace : Trace) (config : ReplayConfig) (taken : Z) (Hok : replay_ok trace config).

Abbreviation tpb := (cfg_tokens_per_block config).
Abbreviation replay_wf := (replay_wf trace config taken).
Abbreviation block_limit := (block_limit trace config).
Abbreviation cache_limit := (cache_limit trace config).

(** ** Room for the scheduler *)

Lemma follows_prompt r p :
  request p ∈ requests trace → follows config r p →
  0 < prompt_tokens r ∧ prompt_tokens r + tpb < W32 ∧
  blocks_needed (prompt_tokens r) tpb <= block_limit.
Proof.
  intros Hin Hf. pose proof (proj1 (Forall_forall _ _) (ok_requests _ _ Hok) _ Hin) as [Hp Hs Hg _ _].
  pose proof (ok_tpb _ _ Hok). rewrite (f_prompt _ _ _ Hf). split_and!; [done..|].
  etransitivity; [|by apply block_limit_elem]. unfold blocks_needed, entry_blocks.
  replace (tr_prompt_tokens (request p) + tpb - 1)
    with (tr_prompt_tokens (request p) - 1 + 1 * tpb) by lia.
  rewrite Z.div_add by lia. apply Z.add_le_mono_r, Z.div_le_mono; lia.
Qed.

Lemma queued_prompt v s r :
  replay_wf v s → r ∈ queued s →
  0 < prompt_tokens r ∧ prompt_tokens r + tpb < W32 ∧
  admission_blocks (cache s) r <= block_limit.
Proof.
  intros Hwf Hr. destruct (queued_progress _ _ _ _ _ _ Hwf Hr) as (i & p & Hi & Hf).
  destruct (follows_prompt r p) as (? & ? & ?); [by eapply progress_known|done|].
  destruct (p_pool _ _ _ _ _ Hwf) as [_ Ht Hc]. unfold admission_blocks. rewrite Ht, Hc. lia.
Qed.

Lemma queued_pending s r : r ∈ pending_ (scheduler s) → r ∈ queued s.
Proof. intros. apply elem_of_app. by left. Qed.
Lemma queued_active s r : r ∈ active_ (scheduler s) → r ∈ queued s.
Proof. intros. apply elem_of_app. right. apply elem_of_app. by left. Qed.
Lemma queued_preempted s r : r ∈ preempted_ (scheduler s) → r ∈ queued s.
Proof. intros. apply elem_of_app. right. apply elem_of_app. by right. Qed.

Lemma zsum_bound {A} (f : A → Z) c l :
  (∀ x, x ∈ l → f x <= c) → zsum f l <= c * Z.of_nat (length l).
Proof.
  induction l as [|x l IH]; intros Hl; [simpl; lia|]. cbn [zsum length].
  pose proof (Hl x (list_elem_of_here _ _)). specialize (IH (λ y Hy, Hl y (list_elem_of_further _ _ _ Hy))).
  lia.
Qed.

Lemma queue_lengths v s :
  replay_wf v s →
  Z.of_nat (length (pending_ (scheduler s))) + Z.of_nat (length (active_ (scheduler s)))
    + Z.of_nat (length (preempted_ (scheduler s))) <= Z.of_nat (length (requests trace)).
Proof.
  intros Hwf. pose proof (queued_length _ _ _ _ _ Hwf) as Hl. unfold queued in Hl.
  rewrite !length_app in Hl. lia.
Qed.

(** Lifetime blocks of the active requests. *)
Lemma held_bound v s :
  replay_wf v s →
  0 <= lifetime_held_ (scheduler s) <=
    Z.of_nat (length (requests trace)) * cfg_max_blocks config.
Proof.
  intros Hwf. rewrite (q_held _ (s_queues _ (p_sched _ _ _ _ _ Hwf))).
  pose proof (queue_lengths _ _ Hwf). pose proof (ok_blocks _ _ Hok).
  assert (∀ r, r ∈ active_ (scheduler s) → 0 <= lifetime_blocks r <= cfg_max_blocks config) as Hl.
  { intros r Hr%queued_active. destruct (queued_progress _ _ _ _ _ _ Hwf Hr) as (i & p & _ & Hf). apply Hf. }
  split; [apply zsum_nonneg; intros; by apply Hl|].
  etransitivity; [apply (zsum_bound _ (cfg_max_blocks config)); intros; by apply Hl|nia].
Qed.

Lemma replay_room v s : replay_wf v s → sched_room cache_limit v (scheduler s).
Proof.
  intros Hwf. pose proof (cache_bounds _ _ _ Hok _ _ Hwf) as (Hsum & _ & Hp & _ & Hc).
  pose proof (limits_nonneg trace config) as (Hb & Hs & _).
  pose proof (queue_lengths _ _ Hwf) as Hq. pose proof (held_bound _ _ Hwf).
  pose proof (p_pool _ _ _ _ _ Hwf) as [Hmax Ht _]. pose proof (ok_tpb _ _ Hok).
  pose proof (ok_store _ _ Hok). pose proof (ok_tokens _ _ Hok). pose proof (ok_held _ _ Hok).
  pose proof (ok_blocks _ _ Hok). unfold cache in *. split.
  - lia.
  - assert (zsum (admission_blocks (cache_manager_ (scheduler s))) (pending_ (scheduler s))
      <= block_limit * Z.of_nat (length (pending_ (scheduler s)))).
    { apply zsum_bound. intros r Hr%queued_pending. by apply (queued_prompt _ _ _ Hwf Hr). }
    nia.
  - pose proof (sequences_bound _ _ _ _ _ Hwf). pose proof (ok_sequences _ _ Hok). unfold cache in *. lia.
  - rewrite Ht. nia.
  - apply Forall_forall. intros r Hr%queued_pending. rewrite Ht.
    by apply (queued_prompt _ _ _ Hwf Hr).
  - apply stores_can_store; [apply (s_cache _ (p_sched _ _ _ _ _ Hwf))|].
    apply (p_store _ _ _ _ _ Hwf).
  - unfold sched_allocator. rewrite Hmax. nia.
Qed.

(** ** Calls into the cache *)

(** The same queues. *)
Record same_queues (s s' : Replay) : Prop := {
  queues_pending : pending_ (scheduler s') = pending_ (scheduler s);
  queues_active : active_ (scheduler s') = active_ (scheduler s);
  queues_preempted : preempted_ (scheduler s') = preempted_ (scheduler s)
}.

(** [s'] has the progress, the queues and the live requests of [s]. *)
Record quiet (s s' : Replay) : Prop := {
  quiet_progress : progress s' = progress s;
  quiet_live : live s' = live s;
  quiet_info : preemption_info_ (scheduler s') = preemption_info_ (scheduler s);
  quiet_queues : same_queues s s'
}.

Lemma same_queues_trans s1 s2 s3 : same_queues s1 s2 → same_queues s2 s3 → same_queues s1 s3.
Proof. intros [] []. split; congruence. Qed.

Lemma quiet_refl s : quiet s s.
Proof. done. Qed.

Lemma quiet_trans s1 s2 s3 : quiet s1 s2 → quiet s2 s3 → quiet s1 s3.
Proof. intros [] []. split; [congruence..|]. by eapply same_queues_trans. Qed.

Lemma same_queues_queued s s' : same_queues s s' → queued s' = queued s.
Proof. intros [H1 H2 H3]. unfold queued. by rewrite H1, H2, H3. Qed.

Lemma carries_pool_of m m' : carries m m' → replay_pool config m → replay_pool config m'.
Proof.
  intros Hc [Hm Ht Hn]. destruct (carries_tpb _ _ Hc) as [Ht' Hn'].
  split; [|by rewrite Ht'|by rewrite Hn'].
  by rewrite (same_pool_config _ _ (proj1 (carries_pool _ _ Hc))).
Qed.

Lemma set_cache_wf v s m' :
  replay_wf v s → carries (cache s) m' → sized block_limit m' →
  tagged (named (progress s)) m' → replay_wf v (set_cache m' s) ∧ quiet s (set_cache m' s).
Proof.
  intros [] Hc Hsz Hn. split; [|done]. split; try done; unfold cache; simpl.
  - by apply carries_sched.
  - by eapply carries_pool_of.
  - eapply stores_untouched; [apply (carries_pool _ _ Hc)|done].
Qed.

(** A call that leaves the contents, the prefixes and the names. *)
Lemma set_cache_same v s m' :
  replay_wf v s → carries (cache s) m' → contents m' = contents (cache s) →
  prefix_index_ m' = prefix_index_ (cache s) → tags m' = tags (cache s) →
  replay_wf v (set_cache m' s) ∧ quiet s (set_cache m' s).
Proof.
  intros Hwf Hc Hb Hp Ht. apply set_cache_wf; [done..| |].
  - eapply sized_same; [done..|apply (p_sized _ _ _ _ _ Hwf)].
  - eapply tagged_same; [done|apply (p_named _ _ _ _ _ Hwf)].
Qed.

Lemma replay_mgr v s : replay_wf v s → mgr_wf (cache s).
Proof. intros Hwf. apply (s_cache _ (p_sched _ _ _ _ _ Hwf)). Qed.

Lemma touch_wf v s sid pos :
  replay_wf v s → 0 <= pos → runs (touch config s sid pos) (λ s', replay_wf v s' ∧ quiet s s').
Proof.
  intros Hwf Hpos. pose proof (ok_tpb _ _ Hok).
  run_step (touch_carries (cache s) sid pos tpb (replay_metrics s));
    [by eapply replay_mgr|done|lia|].
  intros [metrics m'] (Hst & Hc & Hb & Hp & Ht). cbn [runs].
  destruct (set_cache_same v (s <| replay_metrics := metrics |>) m') as [Hwf' Hq];
    [by eapply replay_wf_core, Hwf|done..|]. split; [exact Hwf'|]. by eapply quiet_trans, Hq.
Qed.

(** Loops of such calls. *)
Lemma quiet_loop {A} v (f : Replay → A → option Replay) l s :
  replay_wf v s →
  (∀ s x, x ∈ l → replay_wf v s → runs (f s x) (λ s', replay_wf v s' ∧ quiet s s')) →
  runs (foldM f s l) (λ s', replay_wf v s' ∧ quiet s s').
Proof.
  revert s. induction l as [|x l IH]; intros s Hwf Hf; [done|]. cbn [foldM].
  run_step (Hf s x); [by left|done|]. intros s1 [Hwf1 Hq1].
  eapply runs_mono; [apply IH; [done|intros; apply Hf; [by right|done]]|].
  intros s2 [? Hq2]. split; [done|]. by eapply quiet_trans.
Qed.

Lemma prefill_position_wf v p s offset :
  replay_wf v s → runs (prefill_position config p s offset) (λ s', replay_wf v s' ∧ quiet s s').
Proof.
  intros Hwf. pose proof (ok_tpb _ _ Hok). unfold prefill_position.
  case_match; [done|]. rewrite (proj2 (Z.eqb_neq tpb 0)) by lia. case_match; [|done].
  apply touch_wf; [done|]. apply u32_range.
Qed.

(** Capacity for the next token of a request that decodes. *)
Lemma grow_wf v s r i p sid :
  replay_wf v s → r ∈ queued s → progress s !! i = Some p → follows config r p →
  progress_ok r →
  runs (grow config s (committed p) sid) (λ '(_, s'), replay_wf v s' ∧ quiet s s').
Proof.
  intros Hwf Hr Hi Hf Hrem. pose proof (progress_known _ _ _ _ _ _ _ Hwf Hi) as Hin.
  pose proof (proj1 (Forall_forall _ _) (ok_requests _ _ Hok) _ Hin) as [Hp Hs Hg _ _].
  pose proof (ok_tpb _ _ Hok). destruct (p_pool _ _ _ _ _ Hwf) as [_ Ht Hn].
  pose proof (f_committed _ _ _ Hf) as Hc. pose proof (f_decoded _ _ _ Hf).
  pose proof (f_prompt _ _ _ Hf) as Hpr. pose proof (limits_nonneg trace config).
  pose proof (ok_store _ _ Hok). unfold progress_ok in Hrem.
  assert (committed p / tpb + 1 <= block_limit) as Hle.
  { etransitivity; [|by apply block_limit_elem]. unfold entry_blocks.
    apply Z.add_le_mono_r, Z.div_le_mono; lia. }
  unfold grow. run_step (grow_carries (cache s) sid (committed p) tpb block_limit);
    [by eapply replay_mgr|done|done|lia|lia|rewrite Hn; lia|lia|apply (p_sized _ _ _ _ _ Hwf)|].
  intros [ok m'] (Hcar & Hsz & Htags). cbn [runs]. apply set_cache_wf; [done..|].
  eapply tagged_same; [done|apply (p_named _ _ _ _ _ Hwf)].
Qed.

(** ** Rewriting the progress of one request *)

Lemma tracked_insert prog i p p' r :
  prog !! i = Some p → (follows config r p → follows config r p') →
  tracked config prog r → tracked config (<[i:=p']> prog) r.
Proof.
  intros Hi Hp (j & q & Hj & Hf). destruct (decide (j = i)) as [->|Hne].
  - simplify_eq. exists i, p'. split; [|by apply Hp]. apply list_lookup_insert_eq.
    by eapply lookup_lt_Some.
  - exists j, q. by rewrite list_lookup_insert_ne.
Qed.

Lemma named_insert prog i p p' sid rid key :
  prog !! i = Some p → request p' = request p → sequences p ⊆ sequences p' →
  named prog sid rid key → named (<[i:=p']> prog) sid rid key.
Proof.
  intros Hi Hreq Hsub (j & q & Hj & Hid & Hsid & Hkey). destruct (decide (j = i)) as [->|Hne].
  - simplify_eq. exists i, p'. rewrite Hreq. split_and!; try done.
    + apply list_lookup_insert_eq. by eapply lookup_lt_Some.
    + destruct Hsid as [?|?]; [by left|right; by apply Hsub].
  - exists j, q. by rewrite list_lookup_insert_ne.
Qed.

Lemma requests_insert (prog : list RequestProgress) (i : nat) p p' :
  prog !! i = Some p → request p' = request p → request <$> <[i:=p']> prog = request <$> prog.
Proof.
  intros Hi Hreq. rewrite list_fmap_insert. apply list_insert_id.
  by rewrite list_lookup_fmap, Hi, Hreq.
Qed.

(** The times to the first token when one more request may have decoded. *)
Lemma decoded_insert (prog : list RequestProgress) (i : nat) p p' :
  prog !! i = Some p → (0 < decoded p → 0 < decoded p') →
  flagged (λ p, 0 <? decoded p) prog <= flagged (λ p, 0 <? decoded p) (<[i:=p']> prog).
Proof.
  intros Hi Hd. rewrite (flagged_insert _ _ _ p) by done.
  destruct (Z.ltb_spec 0 (decoded p)), (Z.ltb_spec 0 (decoded p')); lia.
Qed.

Lemma set_at_progress i p s : progress (set_at (Z.of_nat i) p s) = <[i:=p]> (progress s).
Proof. unfold set_at. simpl. by rewrite Nat2Z.id. Qed.

(** Another progress for one request, at most one more of the times recorded with its
    first token. *)
Lemma progress_wf v s s' i p p' :
  replay_wf v s → progress s !! i = Some p → progress s' = <[i:=p']> (progress s) →
  scheduler s' = scheduler s → live s' = live s → completed_requests s' = completed_requests s →
  steps (replay_metrics s') = steps (replay_metrics s) →
  Z.of_nat (length (ttfts s')) - Z.of_nat (length (ttfts s)) <=
    (if 0 <? decoded p' then 1 else 0) - (if 0 <? decoded p then 1 else 0) →
  request p' = request p → within p' → sequences p ⊆ sequences p' → finished p' = finished p →
  (∀ r, r ∈ queued s → follows config r p → follows config r p') →
  replay_wf v s'.
Proof.
  intros [] Hi Hp Hs Hl Hc Hst Ht Hreq Hw Hsub Hfin Hf. unfold cache, queued in *.
  split; unfold cache, queued; rewrite ?Hp, ?Hs, ?Hl, ?Hc, ?Hst; try done.
  - by rewrite (requests_insert _ _ p).
  - by apply Forall_insert.
  - apply Forall_forall. intros r Hr. eapply tracked_insert; [done|by apply Hf|].
    by apply (proj1 (Forall_forall _ _) p_tracked).
  - eapply tagged_mono, p_named. intros sid rid key. by eapply named_insert.
  - rewrite (flagged_insert _ _ _ p) by done. rewrite Hfin. lia.
  - rewrite (flagged_insert _ _ _ p) by done. lia.
Qed.

Lemma set_at_wf v s i p p' :
  replay_wf v s → progress s !! i = Some p → request p' = request p → within p' →
  sequences p ⊆ sequences p' → finished p' = finished p → decoded p' = decoded p →
  (∀ r, r ∈ queued s → follows config r p → follows config r p') →
  replay_wf v (set_at (Z.of_nat i) p' s).
Proof.
  intros Hwf Hi Hreq Hw Hsub Hfin Hdec Hf.
  apply (progress_wf v s _ i p p'); try done; [apply set_at_progress|].
  change (ttfts (set_at (Z.of_nat i) p' s)) with (ttfts s). rewrite Hdec. lia.
Qed.

(** ** Prefill *)

Lemma branches_pos r : 1 <= branches r.
Proof. unfold branches. lia. Qed.

(** The progress after the first chunk of a request. *)
Definition admit_progress (n : Z) (p : RequestProgress) : RequestProgress :=
  p <| admitted := true |> <| sequences ::= λ l, l ++ [tr_request_id (request p)] |>
    <| shared_prompt_tokens := n |>.

Lemma admit_sequences n p :
  sequences (admit_progress n p) = sequences p ++ [tr_request_id (request p)].
Proof. done. Qed.

Lemma note_admission_shape s i id p :
  ∃ n s1, note_admission config s i id p = Some (set_at i (admit_progress n p) s1) ∧
    scheduler s1 = scheduler s ∧ progress s1 = progress s ∧ live s1 = live s ++ [id] ∧
    completed_requests s1 = completed_requests s ∧ ttfts s1 = ttfts s ∧
    steps (replay_metrics s1) = steps (replay_metrics s) ∧
    preempted_ids s1 = preempted_ids s ∧
    preemptions (replay_metrics s1) = preemptions (replay_metrics s).
Proof.
  pose proof (ok_tpb _ _ Hok). unfold note_admission.
  destruct (_ && _); [destruct (0 <? _)|].
  - unfold block_of. rewrite (proj2 (Z.eqb_neq tpb 0)) by lia. cbn [mbind option_bind].
    eexists _, _. split; [reflexivity|]. done.
  - exists (shared_prompt_tokens p). eexists. split; [by destruct p|]. done.
  - exists (shared_prompt_tokens p). eexists. split; [by destruct p|]. done.
Qed.

(** Its root sequence is recorded. *)
Lemma note_admission_wf v s i p r :
  replay_wf v s → r ∈ queued s → progress s !! i = Some p → follows config r p →
  admitted p = false →
  runs (note_admission config s (Z.of_nat i) (request_id r) p) (λ s',
    replay_wf v s' ∧ scheduler s' = scheduler s ∧
    ∃ p', progress s' = <[i:=p']> (progress s) ∧ follows config r p' ∧ admitted p' = true).
Proof.
  intros Hwf Hr Hi Hf Hadm. pose proof (f_fresh _ _ _ Hf Hadm) as Hnil.
  destruct (note_admission_shape s (Z.of_nat i) (request_id r) p)
    as (n & s1 & -> & H1 & H2 & H3 & H4 & H5 & H6 & _). cbn [runs].
  assert (∀ r, follows config r p → follows config r (admit_progress n p)) as Hfol.
  { intros r0 []. split; try done. rewrite admit_sequences, Hnil. by intros [? _]%f_prefill. }
  split; [|split; [exact H1|]].
  - apply (set_at_wf v s1 i p); try done.
    + destruct Hwf. split; unfold cache, queued in *; rewrite ?H1, ?H2, ?H4, ?H5, ?H6;
        try done. rewrite H3. apply Forall_app. split; [done|]. apply Forall_singleton.
      rewrite <-(f_id _ _ _ Hf), <-p_requests. apply list_elem_of_fmap_2, list_elem_of_fmap_2.
      by eapply list_elem_of_lookup_2.
    + by rewrite H2.
    + unfold within. rewrite admit_sequences, Hnil. apply branches_pos.
    + rewrite admit_sequences, Hnil. set_solver.
    + intros r0 _. apply Hfol.
  - exists (admit_progress n p). rewrite set_at_progress, H2. split_and!; [done|by apply Hfol|done].
Qed.

(** The queues after one active request changed: the others have other ids. *)
Lemma queue_others s k r r' r0 :
  queues_wf (scheduler s) → active_ (scheduler s) !! k = Some r →
  r0 ∈ pending_ (scheduler s) ++ <[k:=r']> (active_ (scheduler s)) ++ preempted_ (scheduler s) →
  r0 = r' ∨ r0 ∈ queued s ∧ request_id r0 ≠ request_id r.
Proof.
  intros Hq Hk Hr0. pose proof (q_ids _ Hq) as Hnd.
  apply NoDup_app in Hnd as (_ & Hpa & (Ha & Hap & _)%NoDup_app).
  assert (request_id r ∈ ids (active_ (scheduler s))) as Hin.
  { apply list_elem_of_fmap_2. by eapply list_elem_of_lookup_2. }
  apply elem_of_app in Hr0 as [Hr0|[Hr0|Hr0]%elem_of_app].
  - right. split; [by apply queued_pending|]. intros Heq. apply (Hpa (request_id r0)).
    + by apply list_elem_of_fmap_2.
    + apply elem_of_app. left. by rewrite Heq.
  - apply list_elem_of_lookup_1 in Hr0 as [j Hj].
    apply list_lookup_insert_Some in Hj as [(-> & <- & _)|[Hne Hj]]; [by left|right].
    split; [by apply queued_active, (list_elem_of_lookup_2 _ j)|]. intros Heq. apply Hne.
    apply (NoDup_lookup (ids (active_ (scheduler s))) k j (request_id r)); [done|..];
      rewrite list_lookup_fmap; [by rewrite Hk|by rewrite Hj; simpl; rewrite Heq].
  - right. split; [by apply queued_preempted|]. intros Heq. apply (Hap (request_id r) Hin).
    rewrite <-Heq. by apply list_elem_of_fmap_2.
Qed.

Lemma complete_step_at s k r n :
  queues_wf s → active_ s !! k = Some r →
  complete_step (B:=HostSwapBackend) s (request_id r) n =
    with_active s (<[k := step_request n r]> (active_ s)).
Proof.
  intros Hq Hk. unfold complete_step.
  rewrite (find_request_at _ k r) by (done || by apply active_nodup). f_equal.
  apply list_eq. intros j. destruct (decide (j = k)) as [->|Hne].
  - rewrite list_lookup_alter_eq, Hk, list_lookup_insert_eq; [done|]. by eapply lookup_lt_Some.
  - by rewrite list_lookup_alter_ne, list_lookup_insert_ne.
Qed.

(** A chunk done: the progress and the scheduler move together. *)
Definition chunk_done (i : nat) (p : RequestProgress) (id chunk : Z) (s : Replay) : Replay :=
  set_at (Z.of_nat i) (p <| committed ::= λ n, n ⊞ chunk |>) s
    <| scheduler ::= λ sch, complete_step sch id chunk |>.

Lemma chunk_follows r p chunk :
  request_ok config (request p) → follows config r p → active_ok r →
  0 < chunk <= remaining_prefill_tokens r →
  follows config (step_request chunk r) (p <| committed ::= λ n, n ⊞ chunk |>) ∧
  remaining_prefill_tokens (step_request chunk r) = remaining_prefill_tokens r - chunk ∧
  (length (sequences p) ≤ 1)%nat.
Proof.
  destruct p as [req sq com dec sh adm fin].
  intros [] Hf (_ & Hpr & _ & Hst) Hc. pose proof Hf as []. cbn in *.
  destruct f_prefill as [Hd Hl]; [lia|]. unfold progress_ok in Hpr.
  assert (rq_state r = Prefill) as Hs by (destruct Hst as [[]|[]]; [done|lia]).
  assert (com ⊞ chunk = com + chunk) as Hadd by (apply u32_small; words).
  unfold step_request. rewrite decide_True by done.
  destruct (Z.leb_spec (remaining_prefill_tokens r) chunk); (split; [|split; [simpl; lia|done]]).
  - split; try done; simpl; rewrite ?Hadd; lia.
  - split; try done; simpl; rewrite ?Hadd; lia.
Qed.

Lemma chunk_done_wf v s k r i p chunk :
  replay_wf v s → active_ (scheduler s) !! k = Some r → progress s !! i = Some p →
  follows config r p → 0 < chunk <= remaining_prefill_tokens r →
  let s' := chunk_done i p (request_id r) chunk s in
  replay_wf v s' ∧
  progress s' = <[i := p <| committed ::= λ n, n ⊞ chunk |>]> (progress s) ∧
  active_ (scheduler s') = <[k := step_request chunk r]> (active_ (scheduler s)) ∧
  preempted_ (scheduler s') = preempted_ (scheduler s).
Proof.
  intros Hwf Hk Hi Hf Hc s'. pose proof (s_queues _ (p_sched _ _ _ _ _ Hwf)) as Hq.
  assert (scheduler s' = with_active (scheduler s)
    (<[k := step_request chunk r]> (active_ (scheduler s)))) as Hs' by by apply complete_step_at.
  assert (progress s' = <[i := p <| committed ::= λ n, n ⊞ chunk |>]> (progress s)) as Hp'
    by (etransitivity; [|apply (set_at_progress i _ s)]; done).
  rewrite Hs', Hp'. split; [|done].
  assert (active_ok r) as Hact.
  { apply (proj1 (Forall_lookup _ _) (q_active _ Hq) _ _ Hk). }
  destruct (chunk_follows r p chunk) as (Hf' & _); [|done..|].
  { apply (proj1 (Forall_forall _ _) (ok_requests _ _ Hok)). by eapply progress_known. }
  pose proof (complete_step_wf (scheduler s) (request_id r) chunk (p_sched _ _ _ _ _ Hwf)) as Hsw.
  rewrite (complete_step_at _ k r) in Hsw by done.
  destruct Hwf. split; unfold cache, queued in *; rewrite ?Hs', ?Hp'; try done.
  - by rewrite (requests_insert _ _ p).
  - apply Forall_insert; [done|]. exact (proj1 (Forall_lookup _ _) p_within i p Hi).
  - apply Hsw. lia.
  - apply Forall_forall. intros r0 Hr0. apply (queue_others s k r) in Hr0 as [->|[Hr0 Hne]]; try done.
    + eexists i, _. split; [|exact Hf']. apply list_lookup_insert_eq. by eapply lookup_lt_Some.
    + eapply (tracked_insert _ _ p); [done| |by apply (proj1 (Forall_forall _ _) p_tracked)].
      intros Hf0. destruct Hne. by rewrite <-(f_id _ _ _ Hf), (f_id _ _ _ Hf0).
  - eapply tagged_mono, p_named. intros sid rid key. by eapply named_insert.
  - rewrite (flagged_insert _ _ _ p) by done.
    change (finished (p <| committed ::= λ n, n ⊞ chunk |>)) with (finished p).
    change (completed_requests s') with (completed_requests s). lia.
  - etransitivity; [exact p_ttfts|]. by apply (decoded_insert _ _ p).
Qed.

(** *** The end of a prompt *)

(** An admitted request has its root sequence. *)
Lemma root_sequence v s r i p :
  replay_wf v s → r ∈ active_ (scheduler s) → progress s !! i = Some p → follows config r p →
  ∃ st, sequences_ (cache s) !! tr_request_id (request p) = Some st ∧
    sm_request_id (metadata st) = tr_request_id (request p) ∧
    (prefix_key st = ""%string ∨ prefix_key st = tr_prefix_key (request p)).
Proof.
  intros Hwf Hr Hi Hf. pose proof (s_backs _ (p_sched _ _ _ _ _ Hwf)) as Hb.
  destruct (proj1 (Forall_forall _ _) Hb r) as (st & Hs & Hid & _); [apply elem_of_app; by left|].
  rewrite (f_root _ _ _ Hf), <-(f_id _ _ _ Hf) in Hs. rewrite <-(f_id _ _ _ Hf) in Hid.
  exists st. split_and!; [done..|].
  assert (tags (cache s) !! tr_request_id (request p) = Some (tag st)) as Ht
    by (unfold tags, cache; by rewrite lookup_fmap, Hs).
  destruct (p_named _ _ _ _ _ Hwf _ _ Ht) as (j & q & Hj & Hq & _ & Hkey).
  destruct (progress_unique _ _ _ Hok v s i j p q Hwf Hi Hj) as [_ ->]; [|done].
  rewrite Hq. by symmetry.
Qed.

Lemma publish_wf v s r i p :
  replay_wf v s → r ∈ active_ (scheduler s) → progress s !! i = Some p → follows config r p →
  runs (publish_prefix (cache s) (tr_request_id (request p)) (tr_prefix_key (request p)))
    (λ '(_, m'), replay_wf v (set_cache m' s) ∧ quiet s (set_cache m' s)).
Proof.
  intros Hwf Hr Hi Hf. pose proof (cache_bounds _ _ _ Hok _ _ Hwf) as (_ & _ & _ & Hroom & Hcount).
  destruct (root_sequence v s r i p Hwf Hr Hi Hf) as (st & Hs & Hid & Hkey).
  pose proof (publish_carries (cache s) (tr_request_id (request p)) (tr_prefix_key (request p))
    block_limit) as Hrun.
  apply runs_inv in Hrun as ([ok m'] & Hrun & Hc & Hsz); [|by eapply replay_mgr|
    apply (p_sized _ _ _ _ _ Hwf)|done|done|intros st' Hs'; by simplify_eq].
  rewrite Hrun. cbn [runs]. apply set_cache_wf; [done..|].
  eapply publish_tagged; [exact Hrun| |apply (p_named _ _ _ _ _ Hwf)].
  intros st' Hs'. simplify_eq. rewrite Hid. exists i, p. by split_and!; [..|left|right].
Qed.

(** The progress of a request with one more branch. *)
Definition branch_progress (child : Z) (p : RequestProgress) : RequestProgress :=
  p <| sequences ::= λ l, l ++ [child] |>.

Lemma branch_sequences child p : sequences (branch_progress child p) = sequences p ++ [child].
Proof. done. Qed.

Lemma branch_follows child r p :
  remaining_prefill_tokens r = 0 → admitted p = true → follows config r p →
  follows config r (branch_progress child p).
Proof.
  intros Hr Ha []. split; try done; [|].
  - lia.
  - change (admitted (branch_progress child p)) with (admitted p). by rewrite Ha.
Qed.

(** A branch forked: the child is one of the request's sequences. *)
Lemma fork_branch_wf v s r i p :
  replay_wf v s → r ∈ active_ (scheduler s) → progress s !! i = Some p → follows config r p →
  remaining_prefill_tokens r = 0 → admitted p = true →
  Z.of_nat (length (sequences p)) + 1 <= branches (request p) →
  runs (fork_branch (Z.of_nat i) s) (λ s', replay_wf v s' ∧ same_queues s s' ∧
    ∃ p', progress s' = <[i:=p']> (progress s) ∧ follows config r p' ∧ admitted p' = true ∧
      request p' = request p ∧ (length (sequences p') ≤ S (length (sequences p)))%nat).
Proof.
  intros Hwf Hr Hi Hf Hrem Hadm Hlen. unfold fork_branch. rewrite vec_get_nat, Hi.
  cbn [mbind option_bind]. set (child := mkSequenceMetadata _ _ _ _).
  destruct (root_sequence v s r i p Hwf Hr Hi Hf) as (st & Hs & Hid & _).
  pose proof (cache_bounds _ _ _ Hok _ _ Hwf) as (_ & _ & _ & Hroom & _).
  set (s1 := s <| next_fork_sequence ::= _ |>).
  change (cache s1) with (cache s).
  pose proof (fork_carries (cache s) (tr_request_id (request p)) child block_limit) as Hfork.
  destruct (fork_sequence (cache s) (tr_request_id (request p)) child) as [ok m] eqn:Hrun.
  destruct Hfork as [Hc Hsz]; [by eapply replay_mgr|apply (p_sized _ _ _ _ _ Hwf)|done| |].
  { intros st' Hs'. simplify_eq. by rewrite Hid. }
  assert (replay_wf v s1) as Hwf1 by by eapply replay_wf_core, Hwf.
  set (p' := branch_progress (sm_sequence_id child) p).
  destruct ok; cbn [runs].
  - assert (replay_wf v (set_at (Z.of_nat i) p' s1)) as Hwf2.
    { apply (set_at_wf v s1 i p); try done.
      - unfold within, p'. rewrite branch_sequences, length_app. cbn [length].
        change (request (branch_progress (sm_sequence_id child) p)) with (request p). lia.
      - unfold p'. rewrite branch_sequences. set_solver.
      - intros r0 Hr0 Hf0. apply branch_follows; [|done..].
        assert (r0 = r) as ->; [|done]. apply (ids_unique (queued s)).
        + unfold queued. rewrite !fmap_app. apply (q_ids _ (s_queues _ (p_sched _ _ _ _ _ Hwf))).
        + done.
        + by apply queued_active.
        + by rewrite <-(f_id _ _ _ Hf), <-(f_id _ _ _ Hf0). }
    destruct (set_cache_wf v (set_at (Z.of_nat i) p' s1) m) as [Hwf3 _]; [done..| |].
    { eapply fork_tagged; [exact Hrun| |apply (p_named _ _ _ _ _ Hwf2)]. intros _.
      rewrite set_at_progress. exists i, p'. split; [|split_and!].
      - apply list_lookup_insert_eq. by eapply lookup_lt_Some.
      - done.
      - right. unfold p'. rewrite branch_sequences. apply elem_of_app. right. by left.
      - by left. }
    split; [by eapply replay_wf_core, Hwf3|]. split; [done|].
    exists p'. split; [exact (set_at_progress i p' s)|]. split_and!.
    + by apply branch_follows.
    + done.
    + done.
    + unfold p'. rewrite branch_sequences, length_app. cbn [length]. lia.
  - destruct (set_cache_wf v s1 m) as [Hwf2 _]; [done..| |].
    { eapply fork_tagged; [exact Hrun|done|apply (p_named _ _ _ _ _ Hwf)]. }
    split; [exact Hwf2|]. split; [done|]. exists p. split_and!; try done; [|lia].
    symmetry. by apply list_insert_id.
Qed.

Lemma fork_branches_wf v {A} (l : list A) s r i p :
  replay_wf v s → r ∈ active_ (scheduler s) → progress s !! i = Some p → follows config r p →
  remaining_prefill_tokens r = 0 → admitted p = true →
  Z.of_nat (length (sequences p)) + Z.of_nat (length l) <= branches (request p) →
  runs (foldM (λ s _, fork_branch (Z.of_nat i) s) s l) (λ s', replay_wf v s' ∧ same_queues s s').
Proof.
  revert s p. induction l as [|x l IH]; intros s p Hwf Hr Hi Hf Hrem Hadm Hlen; [done|].
  cbn [foldM length] in *. run_step (fork_branch_wf v s r i p); try done; [lia|].
  intros s1 (Hwf1 & Hq & p' & Hp' & Hf' & Hadm' & Hreq & Hle).
  eapply runs_mono; [eapply (IH s1 p'); try done|].
  - by rewrite (queues_active _ _ Hq).
  - rewrite Hp'. apply list_lookup_insert_eq. by eapply lookup_lt_Some.
  - rewrite Hreq. lia.
  - intros s2 [Hwf2 Hq2]. split; [done|]. by eapply same_queues_trans.
Qed.

Lemma begin_decode_wf v s r i p :
  replay_wf v s → r ∈ active_ (scheduler s) → progress s !! i = Some p → follows config r p →
  remaining_prefill_tokens r = 0 → admitted p = true → (length (sequences p) ≤ 1)%nat →
  runs (begin_decode config (Z.of_nat i) s) (λ s', replay_wf v s' ∧ same_queues s s').
Proof.
  intros Hwf Hr Hi Hf Hrem Hadm Hlen. unfold begin_decode. rewrite vec_get_nat, Hi.
  cbn [mbind option_bind]. apply runs_bind.
  assert (∀ s1, replay_wf v s1 ∧ quiet s s1 →
    runs (foldM (λ s _, fork_branch (Z.of_nat i) s) s1
      (seqZ 1 (tr_parallel_samples (request p) - 1)))
      (λ s', replay_wf v s' ∧ same_queues s s')) as Hloop.
  { intros s1 [Hwf1 Hq1]. eapply runs_mono; [eapply (fork_branches_wf v _ s1 r i p); try done|].
    - by rewrite (queues_active _ _ (quiet_queues _ _ Hq1)).
    - by rewrite (quiet_progress _ _ Hq1).
    - rewrite length_seqZ. unfold branches. lia.
    - intros s2 [Hwf2 Hq2]. split; [done|]. eapply same_queues_trans; [apply Hq1|done]. }
  destruct (_ && _); [|by apply Hloop]. run_step (publish_wf v s r i p); [done..|].
  intros [ok m']. by apply Hloop.
Qed.

(** *** One entry of the plan *)

Lemma state_active (s : Scheduler HostSwapBackend) k r :
  queues_wf s → active_ s !! k = Some r → state s (request_id r) = Some (rq_state r).
Proof.
  intros Hq Hk. unfold state. pose proof (q_ids _ Hq) as (_ & Hpa & _)%NoDup_app.
  assert (find_request (pending_ s) (request_id r) = None) as ->.
  { apply find_request_None. intros Hin. apply (Hpa _ Hin), elem_of_app. left.
    apply list_elem_of_fmap_2. by eapply list_elem_of_lookup_2. }
  rewrite (find_request_at _ k r); [done|by apply active_nodup|done].
Qed.

(** The requests but [id] are where they were. *)
Definition spares (id : Z) (s s' : Replay) : Prop :=
  (∀ r, r ∈ active_ (scheduler s) → request_id r ≠ id → r ∈ active_ (scheduler s')) ∧
  preempted_ (scheduler s') = preempted_ (scheduler s).

(** An entry the plan may have: a chunk for an active request. *)
Definition owes (s : Replay) (entry : Z * Z) : Prop :=
  ∃ r, r ∈ active_ (scheduler s) ∧ request_id r = entry.1 ∧
    0 < entry.2 <= remaining_prefill_tokens r.

Lemma prefill_start v s i p r :
  replay_wf v s → r ∈ active_ (scheduler s) → progress s !! i = Some p → follows config r p →
  runs (if admitted p then Some s else note_admission config s (Z.of_nat i) (request_id r) p)
    (λ s1, replay_wf v s1 ∧ scheduler s1 = scheduler s ∧
      ∃ p1, progress s1 !! i = Some p1 ∧ follows config r p1 ∧ admitted p1 = true).
Proof.
  intros Hwf Hr Hi Hf. destruct (admitted p) eqn:Hadm; [by split_and!; [..|exists p]|].
  eapply runs_mono; [apply (note_admission_wf v s i p r); try done; by apply queued_active|].
  intros s1 (Hwf1 & Hs1 & p1 & Hp1 & ?). split_and!; [done..|]. exists p1. split; [|done].
  rewrite Hp1. apply list_lookup_insert_eq. by eapply lookup_lt_Some.
Qed.

Lemma step_decodes n r :
  active_ok r → 0 < n <= remaining_prefill_tokens r → rq_state (step_request n r) = Decode →
  remaining_prefill_tokens (step_request n r) = 0.
Proof.
  intros (_ & _ & _ & Hst) Hn. unfold step_request.
  rewrite decide_True by (destruct Hst as [[]|[]]; [done|lia]).
  case_match; [done|]. simpl. destruct Hst as [[-> _]|[_ ?]]; [done|lia].
Qed.

Lemma prefill_one_wf v s entry :
  replay_wf v s → owes s entry →
  runs (prefill_one trace config s entry) (λ s', replay_wf v s' ∧ spares entry.1 s s').
Proof.
  destruct entry as [id chunk]. intros Hwf (r & Hr & Hid & Hc). cbn [fst snd] in *. subst id.
  destruct (queued_progress _ _ _ _ _ _ Hwf (queued_active _ _ Hr)) as (i & p & Hi & Hf).
  unfold prefill_one. cbv beta iota. pose proof (progress_of_at _ _ _ Hok v s i p Hwf Hi) as Hat.
  rewrite (f_id _ _ _ Hf) in Hat. rewrite Hat. cbn [mbind option_bind]. run_step (prefill_start v s i p r); [done..|].
  intros s1 (Hwf1 & Hs1 & p1 & Hi1 & Hf1 & Hadm1). rewrite vec_get_nat, Hi1.
  cbn [mbind option_bind]. run_step (quiet_loop v (prefill_position config p1) (seqZ 0 chunk) s1);
    [done|intros; by apply prefill_position_wf|].
  intros s2 [Hwf2 Hq2]. fold (chunk_done i p1 (request_id r) chunk s2).
  apply list_elem_of_lookup_1 in Hr as [k Hk].
  assert (active_ (scheduler s2) !! k = Some r) as Hk2
    by (rewrite (queues_active _ _ (quiet_queues _ _ Hq2)), Hs1; done).
  assert (progress s2 !! i = Some p1) as Hi2 by (rewrite (quiet_progress _ _ Hq2); done).
  destruct (chunk_done_wf v s2 k r i p1 chunk) as (Hwf3 & Hp3 & Ha3 & Hpre3); [done..|].
  set (s3 := chunk_done i p1 (request_id r) chunk s2) in *.
  assert (spares (request_id r) s s3) as Hsp.
  { split.
    - intros r0 [j Hj]%list_elem_of_lookup_1 Hne. rewrite Ha3.
      apply (list_elem_of_lookup_2 _ j).
      rewrite list_lookup_insert_ne by (intros ->; congruence).
      by rewrite (queues_active _ _ (quiet_queues _ _ Hq2)), Hs1.
    - by rewrite Hpre3, (queues_preempted _ _ (quiet_queues _ _ Hq2)), Hs1. }
  assert (active_ (scheduler s3) !! k = Some (step_request chunk r)) as Hk3.
  { rewrite Ha3. apply list_lookup_insert_eq. by eapply lookup_lt_Some. }
  pose proof (s_queues _ (p_sched _ _ _ _ _ Hwf2)) as Hq.
  assert (active_ok r) as Hact by apply (proj1 (Forall_lookup _ _) (q_active _ Hq) _ _ Hk2).
  destruct (chunk_follows r p1 chunk) as (Hf3 & _ & Hlen); [|done..|].
  { apply (proj1 (Forall_forall _ _) (ok_requests _ _ Hok)).
    eapply progress_known; [exact Hwf2|exact Hi2]. }
  case_decide as Hst; [|done].
  assert (rq_state (step_request chunk r) = Decode) as Hdec.
  { pose proof (state_active _ _ _ (s_queues _ (p_sched _ _ _ _ _ Hwf3)) Hk3) as Hs3.
    rewrite step_request_id in Hs3. enough (Some (rq_state (step_request chunk r)) = Some Decode)
      by congruence. rewrite <-Hs3. exact Hst. }
  eapply runs_mono; [eapply (begin_decode_wf v s3 (step_request chunk r) i); try done|].
  - by eapply list_elem_of_lookup_2.
  - rewrite Hp3. apply list_lookup_insert_eq. by eapply lookup_lt_Some.
  - by apply step_decodes.
  - intros s4 [Hwf4 Hq4]. split; [done|]. destruct Hsp as [Hsa Hsp]. split.
    + rewrite (queues_active _ _ Hq4). done.
    + by rewrite (queues_preempted _ _ Hq4).
Qed.
End Steps.
