(* ===== verification/PagedDecode.v ===== *)
(** The decode loop of the paged replay: growth, preemption under pressure, tokens and
    the end of a request. *)
From coqutil Require Import Datatypes.RecordSetters.
From S2P Require Import Prelude.
From S2P Require Import Block.
From S2P Require Import SwapBackend.
From S2P Require Import BlockTable.
From S2P Require Import MemoryAllocator.
From S2P Require Import AllocatorSpec.
From S2P Require Import AllocatorProps.
From S2P Require Import KVCacheManager.
From S2P Require Import CacheInvariant.
From S2P Require Import CacheLemmas.
From S2P Require Import CacheLifecycle.
From S2P Require Import CacheGrowth.
From S2P Require Import CacheSwap.
From S2P Require Import CacheRelease.
From S2P Require Import Scheduler.
From S2P Require Import SchedulerPlan.
From S2P Require Import SchedulerInvariant.
From S2P Require Import SchedulerAdmission.
From S2P Require Import SchedulerPreemption.
From S2P Require Import SchedulerLoops.
From S2P Require Import SchedulerSteps.
From S2P Require Import SchedulerKeys.
From S2P Require Import TraceReplay.
From S2P Require Import CacheClient.
From S2P Require Import PagedReplay.
From S2P Require Import PagedInvariant.
From S2P Require Import PagedSteps.
Import TriangleBracketNotations.
#[local] Open Scope record_set.


Section Decode.
Context (trace : Trace) (config : ReplayConfig) (taken : Z) (Hok : replay_ok trace config).

Abbreviation tpb := (cfg_tokens_per_block config).
Abbreviation replay_wf := (replay_wf trace config taken).
Abbreviation block_limit := (block_limit trace config).
Abbreviation cache_limit := (cache_limit trace config).

(** ** The prefill list *)

(** An id the decode list may have: its prompt is done. *)
Definition serving (s : Replay) (id : Z) : Prop :=
  ∃ r, r ∈ active_ (scheduler s) ++ preempted_ (scheduler s) ∧ request_id r = id ∧
    remaining_prefill_tokens r = 0.

Lemma spares_owes s s' id entry : spares id s s' → entry.1 ≠ id → owes s entry → owes s' entry.
Proof.
  intros [Ha _] Hne (r & Hr & Hid & Hc). exists r. split_and!; [|done|lia..].
  apply Ha; [done|congruence].
Qed.

Lemma spares_serving s s' id id' : spares id s s' → id' ≠ id → serving s id' → serving s' id'.
Proof.
  intros [Ha Hp] Hne (r & Hr & Hid & Hc). exists r. split_and!; [|done..].
  rewrite Hp. apply elem_of_app in Hr as [Hr|Hr]; apply elem_of_app; [left|by right].
  apply Ha; [done|congruence].
Qed.

Lemma prefill_all_wf v entries ids s :
  replay_wf v s → NoDup (entries.*1) → Forall (owes s) entries →
  (∀ id, id ∈ ids → id ∉ entries.*1) → Forall (serving s) ids →
  runs (foldM (prefill_one trace config) s entries) (λ s', replay_wf v s' ∧ Forall (serving s') ids).
Proof.
  revert s. induction entries as [|e es IH]; intros s Hwf Hnd Ho Hdis Hs; [done|].
  apply NoDup_cons in Hnd as [Hne Hnd]. apply Forall_cons in Ho as [He Ho]. cbn [foldM].
  run_step (prefill_one_wf trace config taken Hok v s e); [done..|]. intros s1 [Hwf1 Hsp].
  apply IH; [done..| | |].
  - apply Forall_forall. intros x Hx. eapply spares_owes; [exact Hsp| |].
    + intros Heq. apply Hne. rewrite <-Heq. by apply list_elem_of_fmap_2.
    + by apply (proj1 (Forall_forall _ _) Ho).
  - intros id Hid. intros Hin. apply (Hdis id Hid). by right.
  - apply Forall_forall. intros id Hid. eapply spares_serving; [exact Hsp| |].
    + intros ->. apply (Hdis e.1 Hid). by left.
    + by apply (proj1 (Forall_forall _ _) Hs).
Qed.

(** ** Preemption *)

(** No request that was serving is lost. *)
Definition keeps_serving (s s' : Replay) : Prop := ∀ id, serving s id → serving s' id.

Lemma follows_state st r p : follows config r p → follows config (set_rq_state st r) p.
Proof. by intros []. Qed.

Lemma tracked_state prog st r : tracked config prog r → tracked config prog (set_rq_state st r).
Proof. intros (i & p & Hi & Hf). exists i, p. split; [done|by apply follows_state]. Qed.

Lemma same_store_pool m m' : same_store m m' → replay_pool config m → replay_pool config m'.
Proof.
  intros [_ _ _ (Hp & _)] [Hm Ht Hn]. unfold tpb_of, count_of in *.
  split; [by rewrite (same_pool_config _ _ Hp)|..]; unfold tpb_of, count_of.
  - by rewrite (same_pool_tpb _ _ Hp).
  - by rewrite (same_pool_count _ _ Hp).
Qed.

(** Another scheduler over the same store, its requests the same but for their states. *)
Lemma restate_wf v v' s sch :
  replay_wf v s → sched_wf sch → same_store (cache s) (cache_manager_ sch) →
  tags (cache_manager_ sch) = tags (cache s) →
  stores (sched_allocator sch) (Z.of_nat v' * cache_limit) →
  (∀ r, r ∈ pending_ sch ++ active_ sch ++ preempted_ sch →
     r ∈ queued s ∨ ∃ st r0, r0 ∈ queued s ∧ r = set_rq_state st r0) →
  replay_wf v' (s <| scheduler := sch |>).
Proof.
  intros [] Hsw Hst Ht Hstore Hq. split; try done; unfold cache.
  - by eapply same_store_pool.
  - eapply sized_same; [apply (store_contents _ _ Hst)|apply (store_index _ _ Hst)|done].
  - apply Forall_forall. intros r [Hr|(st & r0 & Hr & ->)]%Hq;
      [|apply tracked_state]; by apply (proj1 (Forall_forall _ _) p_tracked).
  - by eapply tagged_same.
Qed.

Lemma preempt_wf v s id why :
  replay_wf (S v) s →
  runs (preempt (scheduler s) id why) (λ '(ok, sch),
    replay_wf (if ok then v else S v) (s <| scheduler := sch |>) ∧
    keeps_serving s (s <| scheduler := sch |>)).
Proof.
  intros Hwf. pose proof (p_sched _ _ _ _ _ Hwf) as Hsw.
  destruct (find_request (active_ (scheduler s)) id) as [[i r]|] eqn:Hf.
  2:{ unfold preempt. rewrite Hf. simpl. split; [by eapply replay_wf_core, Hwf|by intros ?]. }
  apply find_request_Some in Hf as [Hi <-].
  pose proof (preempt_at cache_limit v (scheduler s) i r why Hsw (replay_room _ _ _ Hok _ _ Hwf) Hi)
    as Hrun.
  apply runs_inv in Hrun as ([ok sch] & Hrun & -> & Hsw' & Hroom & n & m' & -> & Hst & _).
  rewrite Hrun. cbn [runs]. split.
  - eapply restate_wf; [exact Hwf|done|exact Hst|by apply preempt_tags in Hrun| |].
    + apply stores_can_store; [apply (s_cache _ Hsw')|apply (room_slots _ _ _ Hroom)].
    + intros r0. simpl. unfold queued. rewrite !elem_of_app.
      intros [?|[Hr0|[?|Hr0]]]; [tauto| |tauto|].
      * left. right. left. rewrite (delete_Permutation _ _ _ Hi). by right.
      * apply list_elem_of_singleton in Hr0 as ->. right. exists Preempted, r. split; [|done].
        apply (queued_active s). by eapply list_elem_of_lookup_2.
  - intros id (r0 & Hr0 & Hid & Hrem). unfold serving. simpl.
    apply elem_of_app in Hr0 as [Hr0|Hr0].
    + rewrite (delete_Permutation _ _ _ Hi) in Hr0. apply elem_of_cons in Hr0 as [->|Hr0].
      * exists (set_rq_state Preempted r). split; [|done]. rewrite !elem_of_app. right. right. by left.
      * exists r0. split; [|done]. apply elem_of_app. by left.
    + exists r0. split; [|done]. rewrite !elem_of_app. tauto.
Qed.

Lemma finished_id_known v s id :
  replay_wf v s → id ∈ tr_request_id <$> requests trace → ∃ b, finished_id trace s id = Some b.
Proof.
  intros Hwf Hid. destruct (known_progress _ _ _ _ _ _ Hwf Hid) as (i & p & Hi & <-).
  unfold finished_id. rewrite (progress_of_at _ _ _ Hok _ _ _ _ Hwf Hi). by eexists.
Qed.

Lemma reclaim_for_decode_wf v in_plan free newest s :
  replay_wf (S v) s → Forall (λ id, id ∈ tr_request_id <$> requests trace) newest →
  runs (reclaim_for_decode trace in_plan free newest s) (λ '(_, s'),
    replay_wf v s' ∧ keeps_serving s s').
Proof.
  intros Hwf Hall. pose proof (limits_nonneg trace config) as (_ & _ & Hc).
  revert s Hwf. induction Hall as [|id l Hid Hall IH]; intros s Hwf; simpl.
  { split; [|by intros id]. eapply (replay_wf_mono _ _ _ (S v)); [lia|done|done]. }
  destruct (finished_id_known _ _ _ Hwf Hid) as [b ->]. cbn [mbind option_bind].
  case_match; [by apply IH|]. run_step (preempt_wf v s id "decode growth failed"); [done|].
  intros [[|] sch] [Hwf' Hk]; [done|]. eapply runs_mono; [by apply IH|].
  intros [ok s'] [? Hk']. split; [done|]. intros id' Hid'. by apply Hk', Hk.
Qed.

(** ** Growth *)

Lemma grow_all_wf v l s r i p :
  replay_wf v s → r ∈ queued s → progress s !! i = Some p → follows config r p → progress_ok r →
  runs (loop (λ s sid, grow config s (committed p) sid) s l) (λ '(_, s'),
    replay_wf v s' ∧ quiet s s').
Proof.
  intros Hwf Hr Hi Hf Hp. revert s Hwf Hr Hi. induction l as [|sid l IH]; intros s Hwf Hr Hi;
    [done|]. cbn [loop]. run_step (grow_wf trace config taken Hok v s r i p sid); [done..|].
  intros [go s1] [Hwf1 Hq1]. destruct go; [|done]. eapply runs_mono; [apply IH; [done|..]|].
  - by rewrite (same_queues_queued _ _ (quiet_queues _ _ Hq1)).
  - by rewrite (quiet_progress _ _ Hq1).
  - intros [go s2] [Hwf2 Hq2]. split; [done|]. by eapply quiet_trans.
Qed.

(** ** A token *)

(** A request that decodes is not moved by a completed step. *)
Lemma complete_decode (sch : Scheduler HostSwapBackend) k r n :
  queues_wf sch → active_ sch !! k = Some r → rq_state r = Decode →
  complete_step sch (request_id r) n = sch.
Proof.
  intros Hq Hk Hd. rewrite (complete_step_at _ k r) by done. unfold step_request.
  rewrite decide_False by congruence. unfold with_active. rewrite list_insert_id by done.
  by destruct sch.
Qed.

(** The progress after a token. *)
Definition token_progress (p : RequestProgress) : RequestProgress :=
  p <| committed ::= λ n, n ⊞ 1 |> <| decoded ::= λ n, n ⊞ 1 |>.

Lemma token_counts r p :
  request_ok config (request p) → follows config r p → progress_ok r →
  committed (token_progress p) = committed p + 1 ∧ decoded (token_progress p) = decoded p + 1.
Proof.
  destruct p as [req sq com dec sh adm fin]. intros [] [] [? ?]. cbn in *.
  split; apply u32_small; words.
Qed.

(** The request goes on. *)
Lemma token_follows r p :
  request_ok config (request p) → follows config r p → progress_ok r →
  remaining_prefill_tokens r = 0 → decoded p + 1 < decode_actual (request p) →
  follows config r (token_progress p).
Proof.
  intros Hr Hf Hp Hrem Hgo. destruct (token_counts r p Hr Hf Hp) as [Hc Hd].
  destruct Hf. split; try done; rewrite ?Hc, ?Hd.
  - lia.
  - change (request (token_progress p)) with (request p). lia.
  - lia.
Qed.

(** The last token: the request is cancelled, its sequences are forgotten. *)
Definition end_progress (p : RequestProgress) : RequestProgress :=
  token_progress p <| finished := true |> <| sequences := [] |>.

Lemma cancel_active_at (sch : Scheduler HostSwapBackend) k r :
  queues_wf sch → active_ sch !! k = Some r →
  cancel sch (request_id r) =
    cancel_in sch (request_id r) r (pending_ sch) (delete k (active_ sch)) (preempted_ sch).
Proof.
  intros Hq Hk. unfold cancel. pose proof (q_ids _ Hq) as (_ & Hpa & _)%NoDup_app.
  assert (find_request (pending_ sch) (request_id r) = None) as ->.
  { apply find_request_None. intros Hin. apply (Hpa _ Hin), elem_of_app. left.
    apply list_elem_of_fmap_2. by eapply list_elem_of_lookup_2. }
  by rewrite (find_request_at _ k r) by (done || by apply active_nodup).
Qed.

(** The queues without an active request: the others have other ids. *)
Lemma queue_without s k r r0 :
  queues_wf (scheduler s) → active_ (scheduler s) !! k = Some r →
  r0 ∈ pending_ (scheduler s) ++ delete k (active_ (scheduler s)) ++ preempted_ (scheduler s) →
  r0 ∈ queued s ∧ request_id r0 ≠ request_id r.
Proof.
  intros Hq Hk Hr0. pose proof (q_ids _ Hq) as Hnd. rewrite (delete_ids _ _ _ Hk) in Hnd.
  simpl in Hnd. rewrite <-Permutation_middle in Hnd. apply NoDup_cons in Hnd as [Hnew _].
  split.
  - unfold queued. rewrite (delete_Permutation _ _ _ Hk). rewrite !elem_of_app in Hr0 |- *.
    rewrite elem_of_cons. tauto.
  - intros Heq. apply Hnew. rewrite <-Heq, <-!fmap_app. by apply list_elem_of_fmap_2.
Qed.

(** The names left when a request's sequences are gone. *)
Lemma named_without prog i p p' sid rid key :
  prog !! i = Some p → rid ≠ tr_request_id (request p) →
  named prog sid rid key → named (<[i:=p']> prog) sid rid key.
Proof.
  intros Hi Hne (j & q & Hj & Hid & Hrest). exists j, q. split; [|done].
  rewrite list_lookup_insert_ne; [done|]. intros ->. simplify_eq.
Qed.

Lemma release_tags_other (m : KVCacheManager HostSwapBackend) rid P :
  mgr_wf m → tagged P m →
  tagged (λ sid rid' key, P sid rid' key ∧ rid' ≠ rid) (release_request m rid).
Proof.
  intros Hwf HP. destruct (release_request_spec m rid Hwf) as (_ & _ & Hs & _).
  intros sid [rid' key]. unfold tags. rewrite lookup_fmap. intros (st & Hst & Ht)%fmap_Some.
  apply Hs in Hst as [Hst Hne]. injection Ht as -> ->. split; [|done].
  apply (HP sid (tag st)). unfold tags. by rewrite lookup_fmap, Hst.
Qed.

Lemma end_wf v s s' k r i p :
  replay_wf v s → active_ (scheduler s) !! k = Some r → progress s !! i = Some p →
  follows config r p → scheduler s' = cancel (scheduler s) (request_id r) →
  progress s' = <[i := end_progress p]> (progress s) → live s' = live s →
  completed_requests s' = completed_requests s + 1 →
  steps (replay_metrics s') = steps (replay_metrics s) →
  Z.of_nat (length (ttfts s')) - Z.of_nat (length (ttfts s)) <=
    (if 0 <? decoded (token_progress p) then 1 else 0) - (if 0 <? decoded p then 1 else 0) →
  replay_wf v s' ∧ ∀ id, id ≠ request_id r → serving s id → serving s' id.
Proof.
  intros Hwf Hk Hi Hf Hs' Hp' Hl' Hc' Hst' Ht'. pose proof (p_sched _ _ _ _ _ Hwf) as Hsw.
  pose proof (s_queues _ Hsw) as Hq. pose proof (replay_mgr _ _ _ _ _ Hwf) as Hm.
  pose proof (cancel_active_at _ _ _ Hq Hk) as Hcan.
  assert (cache s' = release_request (cache s) (request_id r)) as Hcache
    by (unfold cache; by rewrite Hs', Hcan).
  assert (resident_request (cache s) (request_id r)) as Hres.
  { apply (proj1 (Forall_forall _ _) (s_resident _ Hsw)), list_elem_of_fmap_2.
    by eapply list_elem_of_lookup_2. }
  pose proof (release_request_untouched _ _ Hm Hres) as Hu. rewrite <-Hcache in Hu.
  assert (queued s' = pending_ (scheduler s) ++ delete k (active_ (scheduler s))
    ++ preempted_ (scheduler s)) as Hqueue by (unfold queued; by rewrite Hs', Hcan).
  split.
  2:{ intros id Hne (r0 & Hr0 & Hid & Hrem). exists r0. split; [|done]. rewrite Hs', Hcan. simpl.
      rewrite !elem_of_app in Hr0 |- *. destruct Hr0 as [Hr0|?]; [left|by right].
      rewrite (delete_Permutation _ _ _ Hk) in Hr0. apply elem_of_cons in Hr0 as [->|?]; done. }
  pose proof Hwf as []. split; rewrite ?Hp', ?Hl', ?Hcache, ?Hst'; try done.
  - by rewrite (requests_insert _ _ p).
  - apply Forall_insert; [done|]. apply Z.le_trans with 1; [simpl; lia|apply branches_pos].
  - rewrite Hs'. apply cancel_step; [done|]. pose proof (q_ids _ Hq) as Hnd.
    apply NoDup_app in Hnd as (_ & _ & (_ & Hap & _)%NoDup_app). apply Hap, list_elem_of_fmap_2.
    by eapply list_elem_of_lookup_2.
  - rewrite <-Hcache. destruct p_pool as [Hmax Ht Hn]. unfold tpb_of, count_of in *. destruct Hu as [Hu _].
    split; unfold tpb_of, count_of; [by rewrite (same_pool_config _ _ Hu)|
      by rewrite (same_pool_tpb _ _ Hu)|by rewrite (same_pool_count _ _ Hu)].
  - by apply release_request_sized.
  - rewrite <-Hcache. by eapply stores_untouched.
  - apply Forall_forall. intros r0. rewrite Hqueue. intros [Hr0 Hne]%(queue_without s k r); try done.
    eapply (tracked_insert _ _ _ p); [done| |by apply (proj1 (Forall_forall _ _) p_tracked)].
    intros Hf0. destruct Hne. by rewrite <-(f_id _ _ _ Hf), (f_id _ _ _ Hf0).
  - eapply tagged_mono, release_tags_other; [|done|exact p_named]. intros sid rid key [Hn Hne].
    eapply named_without; [done| |done]. by rewrite (f_id _ _ _ Hf).
  - rewrite (flagged_insert _ _ _ p) by done. rewrite (f_unfinished _ _ _ Hf), Hc'.
    change (finished (end_progress p)) with true. cbn. lia.
  - rewrite (flagged_insert _ _ _ p) by done.
    change (decoded (end_progress p)) with (decoded (token_progress p)). lia.
Qed.

(** *** One token for every sequence of a request *)

(** What is counted of a token: the tokens, the completed step and, for the first one, its
    time. *)
Definition note_token (plan : BatchPlan) (id : Z) (p : RequestProgress) (s : Replay) : Replay :=
  let s := s <| replay_metrics ::= λ m,
               m <| tokens_decoded ::= λ n, n ⊕ Z.of_nat (length (sequences p)) |> |>
             <| scheduler ::= λ sch, complete_step sch id 1 |> in
  if decoded p =? 1
  then s <| ttfts ::= λ l, l ++ [token_cost s ⊕ scheduled_tokens plan] |> else s.

Lemma note_token_spec plan s k r p :
  queues_wf (scheduler s) → active_ (scheduler s) !! k = Some r → rq_state r = Decode →
  0 <= decoded p → decoded (token_progress p) = decoded p + 1 →
  let s' := note_token plan (request_id r) (token_progress p) s in
  scheduler s' = scheduler s ∧ progress s' = progress s ∧ live s' = live s ∧
  completed_requests s' = completed_requests s ∧
  steps (replay_metrics s') = steps (replay_metrics s) ∧
  Z.of_nat (length (ttfts s')) - Z.of_nat (length (ttfts s)) <=
    (if 0 <? decoded (token_progress p) then 1 else 0) - (if 0 <? decoded p then 1 else 0).
Proof.
  intros Hq Hk Hdec Hd Hd1. pose proof (complete_decode _ k r 1 Hq Hk Hdec) as Hcd.
  unfold note_token. split_and!; try (by destruct (_ =? 1)).
  rewrite (proj2 (Z.ltb_lt 0 (decoded (token_progress p)))) by lia.
  destruct (Z.eqb_spec (decoded (token_progress p)) 1) as [He|He].
  - rewrite (proj2 (Z.ltb_ge 0 (decoded p))) by lia.
    match goal with |- Z.of_nat (length ?x) - _ <= _ =>
      change x with (ttfts s ++ [token_cost s ⊕ scheduled_tokens plan]) end.
    rewrite length_app. simpl. lia.
  - match goal with |- Z.of_nat (length ?x) - _ <= _ => change x with (ttfts s) end.
    case_match; lia.
Qed.

Lemma decode_token_wf v plan s k r i p :
  replay_wf v s → active_ (scheduler s) !! k = Some r → progress s !! i = Some p →
  follows config r p → remaining_prefill_tokens r = 0 →
  runs (decode_token config plan s (Z.of_nat i) (request_id r) p) (λ s',
    replay_wf v s' ∧ ∀ id, id ≠ request_id r → serving s id → serving s' id).
Proof.
  intros Hwf Hk Hi Hf Hrem. pose proof (s_queues _ (p_sched _ _ _ _ _ Hwf)) as Hq.
  assert (active_ok r) as (_ & Hpr & _ & Hst)
    by apply (proj1 (Forall_lookup _ _) (q_active _ Hq) _ _ Hk).
  assert (rq_state r = Decode) as Hdec by (destruct Hst as [[]|[]]; [lia|done]).
  assert (request_ok config (request p)) as Hreq.
  { apply (proj1 (Forall_forall _ _) (ok_requests _ _ Hok)).
    eapply progress_known; [exact Hwf|exact Hi]. }
  destruct (token_counts r p Hreq Hf Hpr) as [Hc1 Hd1].
  pose proof (f_decoded _ _ _ Hf) as Hd. pose proof (f_committed _ _ _ Hf) as Hc.
  unfold decode_token. run_step (quiet_loop trace config taken v
    (λ s sid, touch config s sid (committed p)) (sequences p) s); [done| |].
  { intros s1 sid _ Hwf1. apply touch_wf; [done..|]. unfold progress_ok in Hpr. lia. }
  intros s1 [Hwf1 Hq1]. fold (token_progress p).
  fold (note_token plan (request_id r) (token_progress p) s1). cbv zeta.
  change (request (token_progress p)) with (request p).
  assert (active_ (scheduler s1) !! k = Some r) as Hk1
    by (rewrite (queues_active _ _ (quiet_queues _ _ Hq1)); done).
  assert (progress s1 !! i = Some p) as Hi1 by (rewrite (quiet_progress _ _ Hq1); done).
  pose proof (s_queues _ (p_sched _ _ _ _ _ Hwf1)) as Hqw1.
  destruct (note_token_spec plan s1 k r p) as (Hs3 & Hp3 & Hl3 & Hc3 & Hm3 & Ht3); [done..|lia|done|].
  set (s3 := note_token plan (request_id r) (token_progress p) s1) in *. clearbody s3.
  assert (∀ id, serving s id → serving s1 id) as Hserve.
  { intros id (r0 & Hr0 & Hid). exists r0. split; [|done].
    by rewrite (queues_active _ _ (quiet_queues _ _ Hq1)),
      (queues_preempted _ _ (quiet_queues _ _ Hq1)). }
  destruct (Z.leb_spec (decode_actual (request p)) (decoded (token_progress p))) as [Hend|Hgo].
  - pose proof (p_done _ _ _ _ _ Hwf1) as Hdone. pose proof (flagged_range finished (progress s1)).
    assert (length (progress s1) = length (requests trace)) as Hlen
      by by rewrite <-(p_requests _ _ _ _ _ Hwf1), length_fmap.
    pose proof (ok_count _ _ Hok).
    cbn [runs]. match goal with |- _ ?X ∧ _ => set (s4 := X) end.
    destruct (end_wf v s1 s4 k r i p Hwf1 Hk1 Hi1 Hf) as [Hwf4 Hs4]; [..|split; [exact Hwf4|]].
    + unfold s4. by rewrite <-Hs3.
    + rewrite <-Hp3. apply (set_at_progress i (end_progress p) s3).
    + exact Hl3.
    + transitivity (completed_requests s3 ⊕ 1); [done|]. rewrite Hc3. apply u64_small. words.
    + exact Hm3.
    + exact Ht3.
    + intros id Hne Hid. by apply Hs4, Hserve.
  - split.
    + apply (progress_wf trace config taken v s1 _ i p (token_progress p)); try done.
      * rewrite <-Hp3. apply set_at_progress.
      * apply (proj1 (Forall_lookup _ _) (p_within _ _ _ _ _ Hwf1) i p Hi1).
      * intros r0 Hr0 Hf0. assert (r0 = r) as ->.
        { apply (ids_unique (queued s1)); [|done|..].
          - unfold queued. rewrite !fmap_app. apply (q_ids _ Hqw1).
          - apply queued_active. by eapply list_elem_of_lookup_2.
          - by rewrite <-(f_id _ _ _ Hf), <-(f_id _ _ _ Hf0). }
        apply token_follows; [done..|]. lia.
    + intros id _ Hid. destruct (Hserve id Hid) as (r0 & Hr0 & Hr1). exists r0. split; [|done].
      change (scheduler (set_at (Z.of_nat i) (token_progress p) s3)) with (scheduler s3).
      by rewrite Hs3.
Qed.

(** *** One entry of the decode list *)

Lemma serving_queued s r :
  r ∈ active_ (scheduler s) ++ preempted_ (scheduler s) → r ∈ queued s.
Proof. unfold queued. rewrite !elem_of_app. tauto. Qed.

(** A request without preemption record that serves is active. *)
Lemma serving_active v s r :
  replay_wf v s → r ∈ active_ (scheduler s) ++ preempted_ (scheduler s) →
  preemption_info (scheduler s) (request_id r) = None →
  ∃ k, active_ (scheduler s) !! k = Some r.
Proof.
  intros Hwf [Hr|Hr]%elem_of_app Hnone; [by apply list_elem_of_lookup_1|]. exfalso.
  destruct (proj2 (q_info _ (s_queues _ (p_sched _ _ _ _ _ Hwf)) (request_id r))) as [x Hx];
    [by apply list_elem_of_fmap_2|]. unfold preemption_info in Hnone. congruence.
Qed.

Lemma decode_one_wf v plan flags s id :
  replay_wf (S v) s → serving s id →
  runs (decode_one trace config plan (flags, s) id) (λ '(_, s'),
    replay_wf v s' ∧ ∀ id', id' ≠ id → serving s id' → serving s' id').
Proof.
  intros Hwf (r & Hr & <- & Hrem). pose proof (limits_nonneg trace config) as (_ & _ & Hlim).
  assert (∀ s', replay_wf (S v) s' → replay_wf v s') as Hmono
    by (intros; eapply (replay_wf_mono _ _ _ (S v)); [lia|done|done]).
  destruct (queued_progress _ _ _ _ _ _ Hwf (serving_queued s r Hr))
    as (i & p & Hi & Hf).
  unfold decode_one. pose proof (progress_of_at _ _ _ Hok (S v) s i p Hwf Hi) as Hat.
  rewrite (f_id _ _ _ Hf) in Hat. rewrite Hat. cbn [mbind option_bind].
  destruct (preemption_info _ _) eqn:Hinfo; [by split; [apply Hmono|]|].
  destruct (serving_active _ _ _ Hwf Hr Hinfo) as [k Hk].
  assert (r ∈ active_ (scheduler s)) as Hact by by eapply list_elem_of_lookup_2.
  assert (active_ok r) as (_ & Hpr & _).
  { apply (proj1 (Forall_lookup _ _) (q_active _ (s_queues _ (p_sched _ _ _ _ _ Hwf))) _ _ Hk). }
  run_step (grow_all_wf (S v) (sequences p) s r i p); [done|by apply queued_active|done..|].
  intros [grew s1] [Hwf1 Hq1]. destruct (quiet_queues _ _ Hq1) as [_ Ha1 Hp1].
  assert (∀ id, serving s id → serving s1 id) as Hserve.
  { intros id (r0 & Hr0 & Hid). exists r0. split; [|done]. by rewrite Ha1, Hp1. }
  destruct grew; cbn [negb].
  - run_step (decode_token_wf v plan s1 k r i p); [by apply Hmono|by rewrite Ha1|
      by rewrite (quiet_progress _ _ Hq1)|done..|].
    intros s2 [Hwf2 Hs2]. cbn [runs]. split; [done|]. intros id' Hne Hid. by apply Hs2, Hserve.
  - run_step (reclaim_for_decode_wf v (prefill_requests plan ++ decode_requests plan)
      (free_blocks (replay_stats s1)) (rev (live s1)) s1); [done| |].
    { apply Forall_forall. intros id. rewrite list_elem_of_In, <-in_rev, <-list_elem_of_In.
      apply (proj1 (Forall_forall _ _) (p_live _ _ _ _ _ Hwf1)). }
    intros [ok s2] [Hwf2 Hs2]. cbn [runs]. split; [done|]. intros id' _ Hid. by apply Hs2, Hserve.
Qed.

(** The whole list: one preemption for each entry is enough. *)
Lemma decode_all_wf v plan l flags s :
  replay_wf (v + length l) s → NoDup l → Forall (serving s) l →
  runs (foldM (decode_one trace config plan) (flags, s) l) (λ '(_, s'), replay_wf v s').
Proof.
  revert flags s. induction l as [|id l IH]; intros flags s Hwf Hnd Hall.
  { by rewrite Nat.add_0_r in Hwf. }
  apply NoDup_cons in Hnd as [Hne Hnd]. apply Forall_cons in Hall as [Hid Hall].
  cbn [foldM length] in *. rewrite Nat.add_succ_r in Hwf.
  run_step (decode_one_wf (v + length l) plan flags s id); [done..|].
  intros [flags' s1] [Hwf1 Hs1]. apply IH; [done..|]. apply Forall_forall. intros id' Hid'.
  apply Hs1; [by intros ->|]. by apply (proj1 (Forall_forall _ _) Hall).
Qed.
End Decode.
