(* ===== verification/PagedRun.v ===== *)
(** Whole steps of the paged replay, and the run: every step keeps the invariant, so the
    run is defined from its first state to the metrics it reports. *)
From coqutil Require Import Datatypes.RecordSetters.
From S2P Require Import Prelude.
From S2P Require Import Block.
From S2P Require Import SwapBackend.
From S2P Require Import BlockTable.
From S2P Require Import MemoryAllocator.
From S2P Require Import AllocatorSpec.
From S2P Require Import AllocatorProps.
From S2P Require Import KVCacheManager.
From S2P Require Import CacheInvariant.
From S2P Require Import CacheLemmas.
From S2P Require Import CacheLifecycle.
From S2P Require Import CacheGrowth.
From S2P Require Import CacheSwap.
From S2P Require Import CacheProps.
From S2P Require Import CacheViews.
From S2P Require Import CacheRelease.
From S2P Require Import Scheduler.
From S2P Require Import SchedulerPlan.
From S2P Require Import SchedulerInvariant.
From S2P Require Import SchedulerAdmission.
From S2P Require Import SchedulerPreemption.
From S2P Require Import SchedulerLoops.
From S2P Require Import SchedulerSteps.
From S2P Require Import SchedulerProps.
From S2P Require Import SchedulerKeys.
From S2P Require Import TraceReplay.
From S2P Require Import CacheClient.
From S2P Require Import PagedReplay.
From S2P Require Import PagedInvariant.
From S2P Require Import PagedSteps.
From S2P Require Import PagedDecode.
Import TriangleBracketNotations.
#[local] Open Scope record_set.



Section Run.
Context (trace : Trace) (config : ReplayConfig) (Hok : replay_ok trace config).

Abbreviation tpb := (cfg_tokens_per_block config).
Abbreviation replay_wf := (replay_wf trace config).
Abbreviation block_limit := (block_limit trace config).
Abbreviation cache_limit := (cache_limit trace config).
Abbreviation known := (λ id, id ∈ tr_request_id <$> requests trace).

(** ** Scheduling *)

(** Tracking survives admission and preemption. *)
Lemma tracked_carried prog : carried (cfg_max_blocks config) (tracked config prog).
Proof.
  split_and!.
  - intros r (i & p & Hi & []). exists i, p. by split.
  - intros r. apply tracked_state.
  - intros r needed (_ & _ & Hrem & _) (i & p & Hi & []) Hn. exists i, p. split; [done|].
    rewrite Hrem in *. by split.
Qed.

Lemma tracked_asks prog r : tracked config prog r → asks (named prog) r.
Proof.
  intros (i & p & Hi & []). unfold asks. rewrite f_root, <-f_id.
  split; exists i, p; (split_and!; [done|done|by left|]); [by left|done].
Qed.

Lemma schedule_wf n v s :
  replay_wf n (v + length (requests trace)) s →
  runs (schedule_next (scheduler s)) (λ '(plan, sch),
    plan_ok (sched_config (scheduler s)) (active_ sch) plan ∧
    ∀ s', scheduler s' = sch → progress s' = progress s → live s' = live s →
      completed_requests s' = completed_requests s → ttfts s' = ttfts s →
      replay_wf (steps (replay_metrics s')) v s').
Proof.
  intros Hwf. pose proof (queue_lengths _ _ _ _ _ Hwf) as Hlen.
  pose proof (limits_nonneg trace config) as (_ & _ & Hlim).
  assert (replay_wf n (v + length (active_ (scheduler s))) s) as Hwf0
    by (eapply replay_wf_mono; [|done|exact Hwf]; lia).
  pose proof (schedule_next_spec v cache_limit (scheduler s) (p_sched _ _ _ _ _ Hwf)
    (replay_room _ _ _ Hok _ _ Hwf0)) as Hrun.
  apply runs_inv in Hrun as ([plan sch] & Hrun & Hplan & keep & new & p & Had).
  rewrite Hrun. cbn [runs]. split; [done|]. intros s' H1 H2 H3 H4 H5.
  pose proof (p_pool _ _ _ _ _ Hwf) as [Hmax Ht Hn].
  assert (∀ r, r ∈ pending_ (scheduler s) → admission_blocks (cache s) r <= block_limit) as Hadm.
  { intros r Hr. by apply (queued_prompt trace config n Hok _ s r Hwf), queued_pending. }
  pose proof (ad_pool _ _ _ _ _ _ _ Had) as Hpool. unfold sched_allocator in Hpool.
  destruct Hwf. split; unfold cache, queued in *; rewrite ?H1, ?H2, ?H3, ?H4, ?H5; try done.
  - apply (ad_wf _ _ _ _ _ _ _ Had).
  - unfold tpb_of, count_of in *. split; unfold tpb_of, count_of.
    + by rewrite (same_pool_config _ _ Hpool).
    + by rewrite (same_pool_tpb _ _ Hpool).
    + by rewrite (same_pool_count _ _ Hpool).
  - apply (ad_sized _ _ _ _ _ _ _ Had block_limit); [done|]. by apply Forall_forall.
  - pose proof (ad_wf _ _ _ _ _ _ _ Had) as Hsw. apply stores_can_store; [apply (s_cache _ Hsw)|].
    eapply can_store_mono; [apply (room_slots _ _ _ (ad_room _ _ _ _ _ _ _ Had))|].
    apply Z.mul_le_mono_nonneg_r; lia.
  - apply (ad_carried _ _ _ _ _ _ _ Had); [|done]. unfold sched_allocator. rewrite Hmax.
    apply tracked_carried.
  - eapply schedule_next_tagged; [exact Hrun| |done].
    apply Forall_app in p_tracked as [Hp _]. eapply Forall_impl; [exact Hp|]. apply tracked_asks.
Qed.

(** The prefill list of a plan with its chunks. *)
Lemma plan_entries {A C} (l : list A) (k : list C) :
  length l = length k →
  mapM (λ '(j, x), y ← k !! (j : nat); Some (x, y)) (imap pair l) = Some (zip l k).
Proof.
  intros Hlen. apply mapM_Some, Forall2_same_length_lookup.
  rewrite length_imap, length_zip_with. split; [lia|]. intros j [i x] [x' y].
  rewrite list_lookup_imap. intros (z & Hz & [= <- <-])%fmap_Some.
  rewrite lookup_zip_with. intros (x1 & Hx & (y1 & Hy & [= <- <-])%bind_Some)%bind_Some.
  rewrite Hy. simpl. by simplify_eq.
Qed.

Lemma plan_promises cfg s sch plan :
  plan_ok cfg (active_ sch) plan → scheduler s = sch →
  Forall active_ok (active_ sch) →
  let entries := zip (prefill_requests plan) (prefill_tokens plan) in
  entries.*1 = prefill_requests plan ∧ NoDup (entries.*1) ∧ Forall (owes s) entries ∧
  NoDup (decode_requests plan) ∧ Forall (serving s) (decode_requests plan) ∧
  ∀ id, id ∈ decode_requests plan → id ∉ entries.*1.
Proof.
  intros [Hpw [Hch Honce] Hdec Hnd _] Hs Hact entries.
  assert (entries.*1 = prefill_requests plan) as Hfst.
  { apply fst_zip. rewrite (plan_parallel _ _ Hpw). done. }
  rewrite Hfst. apply NoDup_app in Hnd as (Hnd1 & Hdis & Hnd2). split_and!; try done.
  - apply Forall_forall. intros [id c] [j Hj]%list_elem_of_lookup_1.
    unfold entries in Hj. rewrite lookup_zip_with in Hj.
    apply bind_Some in Hj as (id' & Hid & (c' & Hc & [= <- <-])%bind_Some).
    destruct (Forall2_lookup_lr _ _ _ _ _ _ Hch Hid Hc) as (r & Hr & Hrid & _ & Hle & _).
    exists r. by rewrite Hs.
  - eapply Forall_impl; [exact Hdec|]. intros id (r & Hr & Hid & Hst). exists r.
    split; [rewrite Hs; apply elem_of_app; by left|]. split; [done|].
    destruct (proj1 (Forall_forall _ _) Hact r Hr) as (_ & _ & _ & [[]|[]]); [congruence|done].
  - intros id Hid Hin. by apply (Hdis id).
Qed.

(** ** After the plan *)

(** Loops over known ids that keep the invariant. *)
Lemma known_loop {A} n v (P : A → Prop) (f : Replay → A → option Replay) l s :
  (∀ s x, P x → replay_wf n v s → runs (f s x) (replay_wf n v)) →
  Forall P l → replay_wf n v s → runs (foldM f s l) (replay_wf n v).
Proof.
  intros Hf Hl. revert s. induction Hl as [|x l Hx Hl IH]; intros s Hwf; [done|]. cbn [foldM].
  run_step (Hf s x); [done..|]. apply IH.
Qed.

Lemma note_preemption_wf n v s id :
  known id → replay_wf n v s → runs (note_preemption trace s id) (replay_wf n v).
Proof.
  intros Hid Hwf. unfold note_preemption.
  destruct (finished_id_known _ _ _ Hok _ _ _ Hwf Hid) as [b ->]. cbn [mbind option_bind].
  repeat case_match; simpl; by eapply replay_wf_core, Hwf.
Qed.

Lemma resume_wf n v s id :
  replay_wf n v s →
  runs (resume (scheduler s) id) (λ '(_, sch), replay_wf n v (s <| scheduler := sch |>)).
Proof.
  intros Hwf. pose proof (p_sched _ _ _ _ _ Hwf) as Hsw.
  pose proof (cache_bounds _ _ _ Hok _ _ Hwf) as (_ & Hst & Hpin & Hroom & _).
  pose proof (held_bound _ _ _ Hok _ _ Hwf). pose proof (ok_held _ _ Hok). pose proof (ok_blocks _ _ Hok).
  pose proof (limits_nonneg trace config) as (Hb & _).
  pose proof (resume_step (scheduler s) id Hsw) as Hrun.
  apply runs_inv in Hrun as ([ok sch] & Hrun & Hsw' & Hres).
  2: unfold cache in *; lia.
  2: { intros r Hr%queued_preempted. destruct (queued_progress _ _ _ _ _ _ Hwf Hr) as (i & p & _ & Hf).
       pose proof (f_lifetime _ _ _ Hf). nia. }
  rewrite Hrun. cbn [runs]. destruct ok.
  - destruct Hres as (i & r & m' & Hi & _ & -> & Hsame).
    eapply restate_wf; [exact Hwf|done|exact Hsame|by apply resume_tags in Hrun| |].
    + eapply resume_stores; [exact Hrun|]. apply (p_store _ _ _ _ _ Hwf).
    + intros r0. simpl. unfold queued. rewrite !elem_of_app.
      intros [?|[[?|Hr0]|Hr0]]; [tauto|tauto| |].
      * apply list_elem_of_singleton in Hr0 as ->. right. eexists _, r. split; [|done].
        apply (queued_preempted s). by eapply list_elem_of_lookup_2.
      * left. right. right. rewrite (delete_Permutation _ _ _ Hi). by right.
  - destruct Hres as [-> _]. by eapply replay_wf_core, Hwf.
Qed.

Lemma resume_one_wf n v s id :
  known id → replay_wf n v s → runs (resume_one s id) (replay_wf n v).
Proof.
  intros _ Hwf. unfold resume_one. case_decide; [|done]. run_step (resume_wf n v s id); [done|].
  intros [[|] sch] Hwf'; simpl; by eapply replay_wf_core, Hwf'.
Qed.

Lemma erase_finished_known n v s l :
  replay_wf n v s → Forall known l → runs (erase_finished trace s l) (Forall known).
Proof.
  intros Hwf. induction 1 as [|id l Hid Hl IH]; [by constructor|]. cbn [erase_finished].
  destruct (finished_id_known _ _ _ Hok _ _ _ Hwf Hid) as [b ->]. cbn [mbind option_bind].
  run_step IH. intros l' Hl'. destruct b; [done|by constructor].
Qed.

Lemma note_sequence_wf n v p s sid :
  replay_wf n v s → runs (note_sequence config p s sid) (replay_wf n v).
Proof.
  intros Hwf. unfold note_sequence.
  destruct (reserved_slots_defined (cache s) sid tpb) as [k ->]; [by eapply replay_mgr|].
  cbn [mbind option_bind runs]. case_match; by eapply replay_wf_core, Hwf.
Qed.

Lemma note_live_wf n v s id :
  known id → replay_wf n v s → runs (note_live trace config s id) (replay_wf n v).
Proof.
  intros Hid Hwf. unfold note_live.
  destruct (known_progress _ _ _ _ _ _ Hwf Hid) as (i & p & Hi & <-).
  rewrite (progress_of_at _ _ _ Hok _ _ _ _ Hwf Hi). cbn [mbind option_bind].
  case_decide; [done|]. eapply known_loop; [|by apply (Forall_true (λ _, True))|done].
  intros s1 sid _. apply note_sequence_wf.
Qed.

Lemma account_step_wf n v plan s :
  replay_wf n v s → runs (account_step trace config plan s) (replay_wf n v).
Proof.
  intros Hwf. unfold account_step. eapply (known_loop n v); [apply note_live_wf|apply Hwf|].
  eapply replay_wf_core, Hwf; try done. by destruct (_ && _).
Qed.

(** ** A step *)

Lemma step_paged_wf n v s :
  replay_wf n (v + victims_per_step trace) s →
  runs (step_paged trace config s) (λ '(_, s'), replay_wf (n ⊕ 1) v s').
Proof.
  intros Hwf. unfold victims_per_step in Hwf. unfold step_paged.
  pose proof (limits_nonneg trace config) as (_ & _ & Hlim).
  run_step (schedule_wf n (v + length (requests trace)) s);
    [eapply replay_wf_mono; [|done|exact Hwf]; lia|].
  intros [plan sch] [Hplan Hnext]. cbv zeta. set (s1 := s <| scheduler := sch |> <| replay_metrics ::= _ |>).
  assert (replay_wf (n ⊕ 1) (v + length (requests trace)) s1) as Hwf1.
  { rewrite <-(p_steps _ _ _ _ _ Hwf). by apply (Hnext s1). }
  destruct (plan_promises _ s1 sch plan Hplan eq_refl (q_active _ (s_queues _ (p_sched _ _ _ _ _ Hwf1))))
    as (Hfst & Hnd & Howes & Hnd2 & Hserve & Hdis).
  rewrite (plan_entries (prefill_requests plan) (prefill_tokens plan)) by
    apply (plan_parallel _ _ (ok_wf _ _ _ Hplan)).
  cbn [mbind option_bind]. run_step (prefill_all_wf trace config (n ⊕ 1) Hok
    (v + length (requests trace)) (zip (prefill_requests plan) (prefill_tokens plan))
    (decode_requests plan) s1); [done..|].
  intros s2 [Hwf2 Hserve2]. cbv zeta.
  assert (length (decode_requests plan) ≤ length (requests trace))%nat as Hlen.
  { etransitivity; [|apply (queued_length _ _ _ _ _ Hwf2)]. rewrite <-(length_fmap request_id (queued s2)).
    apply submseteq_length, NoDup_submseteq; [done|]. intros id Hid.
    destruct (proj1 (Forall_forall _ _) Hserve2 id Hid) as (r & Hr & <- & _).
    apply list_elem_of_fmap_2. by apply serving_queued. }
  run_step (decode_all_wf trace config (n ⊕ 1) Hok v plan (decode_requests plan)); [|done..|].
  { eapply replay_wf_mono; [|done|exact Hwf2]. lia. }
  intros [flags s3] Hwf3.
  run_step (known_loop (n ⊕ 1) v known (note_preemption trace) (live s3) s3);
    [apply note_preemption_wf|apply (p_live _ _ _ _ _ Hwf3)|done|]. intros s4 Hwf4.
  apply runs_bind. eapply runs_mono with (P := replay_wf (n ⊕ 1) v).
  { case_match; [done|]. eapply known_loop; [apply resume_one_wf|apply (p_live _ _ _ _ _ Hwf4)|done]. }
  intros s5 Hwf5. run_step (erase_finished_known (n ⊕ 1) v s5 (live s5));
    [done|apply (p_live _ _ _ _ _ Hwf5)|]. intros left Hleft.
  run_step (account_step_wf (n ⊕ 1) v plan (s5 <| live := left |>)); [|done].
  destruct Hwf5. by split.
Qed.

(** ** The run *)

Lemma run_steps_wf fuel n s :
  replay_wf n (victims_per_step trace * fuel) s → 0 <= n →
  max_steps config <= n + Z.of_nat fuel → (n <= max_steps config) →
  runs (run_paged_steps trace config fuel s) (λ s', ∃ n', replay_wf n' 0 s' ∧
    0 <= n' <= max_steps config ∧
    (completed_requests s' < Z.of_nat (length (requests trace)) →
     n' = max_steps config ∨ 2 <= no_progress_steps s')).
Proof.
  pose proof (limits_nonneg trace config) as (_ & _ & Hlim). pose proof (ok_steps _ _ Hok).
  revert n s. induction fuel as [|fuel IH]; intros n s Hwf Hn Hfuel Hle; cbn [run_paged_steps];
    rewrite (p_steps _ _ _ _ _ Hwf);
    destruct (Z.ltb_spec (completed_requests s) (Z.of_nat (length (requests trace)))) as [Hc|Hc];
    cbn [andb].
  - rewrite (proj2 (Z.ltb_ge n _)) by lia. exists n.
    split; [eapply replay_wf_mono; [|done|exact Hwf]; lia|]. split; [lia|]. left. lia.
  - exists n. split; [eapply replay_wf_mono; [|done|exact Hwf]; lia|]. split; [lia|]. lia.
  - destruct (Z.ltb_spec n (max_steps config)) as [Hlt|Hge].
    2:{ exists n. split; [eapply replay_wf_mono; [|done|exact Hwf]; lia|]. split; [lia|]. left. lia. }
    rewrite Nat.mul_succ_r in Hwf.
    run_step (step_paged_wf n (victims_per_step trace * fuel) s); [done|].
    intros [moved s1] Hwf1. rewrite u64_small in Hwf1 by words.
    destruct moved; [apply (IH (n + 1)); [by eapply replay_wf_core, Hwf1|lia..]|].
    cbv zeta. match goal with |- context [2 <=? ?x] => destruct (Z.leb_spec 2 x) as [Htwo|] end.
    + exists (n + 1). split; [eapply replay_wf_mono; [|done|eapply replay_wf_core, Hwf1; done]; lia|].
      split; [lia|]. by right.
    + apply (IH (n + 1)); [by eapply replay_wf_core, Hwf1|lia..].
  - exists n. split; [eapply replay_wf_mono; [|done|exact Hwf]; lia|]. split; [lia|]. lia.
Qed.

(** ** The first state *)

Section Start.
Context (aligned_alloc : Z → Z → option (Z * list byte)) (p : Z) (slab : list byte).
Context (Hslab : aligned_alloc (effective_alignment (allocator_config trace config))
  (pool_bytes_for (allocator_config trace config)) = Some (p, slab)).
Context (Hlen : Z.of_nat (length slab) = pool_bytes_for (allocator_config trace config)).

Abbreviation pool := (replay_allocator aligned_alloc trace config).

Lemma fresh_backend (a : MemoryAllocator HostSwapBackend) k :
  fresh_pool a → 0 <= k →
  fresh_pool (with_backend a (Some (HostSwapBackend_new k))) ∧
  budget (with_backend a (Some (HostSwapBackend_new k))) = W64 - 2.
Proof.
  intros [[Hwf _] Hsh Hr _] Hk. split; [|done]. split; [|exact Hsh|exact Hr|done].
  split; [apply with_backend_wf; [done|by apply host_new_ok]|].
  intros slot bytes. unfold swapped. simpl. by rewrite lookup_empty.
Qed.

Lemma start_pool :
  fresh_pool pool ∧ config_ pool = allocator_config trace config ∧
  stores pool (Z.of_nat (victims_per_step trace) * max_steps config * cache_limit).
Proof.
  destruct (new_pool (B:=HostSwapBackend) _ _ _ _ (ok_pool _ _ Hok) Hslab Hlen)
    as (Hwf & Hrefs & _ & _ & Hcfg & Hback & _).
  pose proof (ok_slots _ _ Hok). unfold replay_allocator, set_swap_backend.
  remember (MemoryAllocator_new _ _) as a eqn:Ha. clear Ha.
  assert (fresh_pool a) as Hfresh.
  { split; [|rewrite Hcfg; apply (config_shape _ (ok_pool _ _ Hok))|exact Hrefs|].
    - split; [done|]. intros slot bytes. unfold swapped. by rewrite Hback, lookup_empty.
    - unfold swapped. by rewrite Hback. }
  destruct (Z.ltb_spec 0 (swap_slots config)).
  - destruct (fresh_backend a (swap_slots config) Hfresh) as [Hfresh' Hbud]; [lia|].
    split; [done|]. split; [exact Hcfg|]. apply stores_can_store; [apply Hfresh'|]. right.
    rewrite Hbud. lia.
  - split; [done|]. split; [done|]. unfold stores. by rewrite Hback.
Qed.

Lemma start_pool_shape :
  replay_pool config (KVCacheManager_new pool).
Proof.
  destruct start_pool as ([[Hwf _] _ _ _] & Hcfg & _). pose proof (ok_blocks _ _ Hok).
  destruct (pool_shape_config pool Hwf) as [Hsh Htpb]; [by rewrite Hcfg|].
  split; unfold tpb_of, count_of; cbn [allocator_ KVCacheManager_new].
  - by rewrite Hcfg.
  - by rewrite Htpb, Hcfg.
  - unfold table_count. rewrite Hsh, Hcfg. unfold per_layer_frames, frame_layers. simpl.
    destruct (Z.eqb_spec (hdr_num_layers (header trace)) 1) as [->|]; [done|].
    by destruct (hdr_num_layers (header trace) =? 1) eqn:?; [lia|].
Qed.

(** The state before the requests are enqueued. *)
Definition blank : Replay :=
  mkReplay (replay_scheduler aligned_alloc trace config) (ReplayMetrics_default "paged")
    ((λ r, mkRequestProgress r [] 0 0 0 false false) <$> requests trace)
    1 (Z.of_nat (length (requests trace))) 0 [] ∅ 0 0 [].

Lemma blank_wf :
  replay_wf 0 (victims_per_step trace * Z.to_nat (max_steps config)) blank.
Proof.
  destruct start_pool as (Hfresh & Hcfg & Hst). pose proof (ok_steps _ _ Hok).
  split; unfold cache; simpl; try done.
  - rewrite <-list_fmap_compose. unfold compose. simpl. apply list_fmap_id.
  - apply Forall_fmap, Forall_forall. intros r _. unfold within, branches. simpl. lia.
  - apply new_scheduler_wf; [apply (ok_sched _ _ Hok)|by apply new_manager_wf|done].
  - apply start_pool_shape.
  - split; [|by intros key r ?%not_elem_of_nil]. intros sid bs. unfold contents. simpl.
    by rewrite fmap_empty, lookup_empty.
  - rewrite Nat2Z.inj_mul, Z2Nat.id by lia. exact Hst.
  - unfold flagged. rewrite zsum_fmap. symmetry. by induction (requests trace).
  - apply flagged_range.
Qed.
End Start.
End Run.
