(* ===== verification/PagedProps.v ===== *)
(** The paged replay as a whole: on a trace whose sizes fit the machine's words, the run
    reaches no undefined behaviour and no exception, ends within its steps, and gives
    back every block of the pool when every request completed. *)
From coqutil Require Import Datatypes.RecordSetters.
From stdpp Require Import sorting.
From Stdlib Require Import Floats.SpecFloat.
From S2P Require Import Prelude.
From S2P Require Import Block.
From S2P Require Import SwapBackend.
From S2P Require Import BlockTable.
From S2P Require Import MemoryAllocator.
From S2P Require Import AllocatorSpec.
From S2P Require Import AllocatorProps.
From S2P Require Import KVCacheManager.
From S2P Require Import CacheInvariant.
From S2P Require Import CacheLemmas.
From S2P Require Import CacheLifecycle.
From S2P Require Import CacheGrowth.
From S2P Require Import CacheSwap.
From S2P Require Import CacheProps.
From S2P Require Import CacheViews.
From S2P Require Import CacheRelease.
From S2P Require Import Scheduler.
From S2P Require Import SchedulerPlan.
From S2P Require Import SchedulerInvariant.
From S2P Require Import SchedulerAdmission.
From S2P Require Import SchedulerPreemption.
From S2P Require Import SchedulerLoops.
From S2P Require Import SchedulerSteps.
From S2P Require Import SchedulerProps.
From S2P Require Import SchedulerKeys.
From S2P Require Import TraceReplay.
From S2P Require Import CacheClient.
From S2P Require Import PagedReplay.
From S2P Require Import PagedInvariant.
From S2P Require Import PagedSteps.
From S2P Require Import PagedDecode.
From S2P Require Import PagedRun.
Import TriangleBracketNotations.
#[local] Open Scope record_set.




(** ** The percentile *)

(** The index computed in floating point lies in the vector, for every length a run
    may have; the range is checked by computation. *)
Definition p99_index (n : Z) : option Z :=
  size_of_double (SFmul 53 1024 ninety_nine (double_of (n - 1))).
Definition p99_in_range (n : Z) : bool :=
  match p99_index n with Some k => (0 <=? k) && (k <? n) | None => false end.

Lemma p99_checked : forallb p99_in_range (seqZ 1 4096) = true.
Proof. vm_compute. reflexivity. Qed.

Lemma p99_defined times :
  times ≠ [] → Z.of_nat (length times) <= 4096 → is_Some (p99 times).
Proof.
  intros Hne Hle. pose proof p99_checked as Hall. rewrite forallb_forall in Hall.
  specialize (Hall (Z.of_nat (length times))).
  assert (p99_in_range (Z.of_nat (length times)) = true) as Hin.
  { apply Hall, list_elem_of_In, elem_of_seqZ. destruct times; [done|]. cbn [length] in *. lia. }
  unfold p99_in_range, p99_index in Hin. unfold p99.
  destruct (size_of_double _) as [k|]; [|done]. cbn [mbind option_bind].
  apply andb_true_iff in Hin as [H0 Hk]. unfold vec_get. rewrite H0.
  apply Z.leb_le in H0. apply Z.ltb_lt in Hk.
  apply lookup_lt_is_Some. rewrite (Permutation_length (merge_sort_Permutation Z.le times)). lia.
Qed.

(** ** An empty pool *)

Lemma stats_swapped (l : list PhysicalBlockInfo) st :
  MemoryAllocator.swapped_blocks (foldl stats_add st l) = MemoryAllocator.swapped_blocks st.
Proof.
  revert st. induction l as [|i l IH]; intros st; [done|]. simpl. rewrite IH.
  unfold stats_add. by destruct (info_state i).
Qed.

(** What [stats] says of a cache without sequences. *)
Lemma empty_stats (m : KVCacheManager HostSwapBackend) :
  mgr_wf m → sequences_ m = ∅ →
  let st := stats (allocator_ m) in
  free_blocks st = total_blocks st ∧ active_blocks st = 0 ∧ shared_blocks st = 0 ∧
  MemoryAllocator.swapped_blocks st = 0.
Proof.
  intros Hwf Hs st. destruct (no_sequences m Hwf Hs) as (_ & Hsw & _ & _ & Hn).
  destruct (mgr_alloc _ Hwf) as [Ha _].
  destruct (stats_spec (allocator_ m) Ha) as (Hf & Hac & Hsh & Ht).
  pose proof (count_state_total (allocator_ m) Ha) as Htot.
  assert (∀ x, 0 <= count_state x (infos_ (allocator_ m))) as Hpos.
  { intros x. apply zsum_nonneg. intros. by case_decide. }
  pose proof (Hpos Active). pose proof (Hpos Shared).
  assert (count_state Free (infos_ (allocator_ m)) = nfree (allocator_ m)) as Hfree.
  { by rewrite (count_state_refs Free 0 _ Ha state_of_Free), <-nfree_count. }
  unfold st. rewrite Hf, Hac, Hsh, Ht. split_and!; [lia..|]. unfold stats. simpl.
  unfold swapped in Hsw. destruct (swap_backend_ (allocator_ m)) as [b|] eqn:Hb.
  - change (u32 (Z.of_nat (size (slots_ b))) = 0). change (slots_ b = ∅) in Hsw. by rewrite Hsw.
  - by rewrite stats_swapped.
Qed.

Section Props.
Context (trace : Trace) (config : ReplayConfig) (Hok : replay_ok trace config).

Abbreviation replay_wf := (replay_wf trace config).

(** A progress no one has touched. *)
Definition untouched_progress (p : RequestProgress) : Prop :=
  p = mkRequestProgress (request p) [] 0 0 0 false false.

Lemma enqueue_request_wf n v s r :
  replay_wf n v s → r ∈ requests trace → tr_request_id r ∉ request_id <$> queued s →
  Forall untouched_progress (progress s) →
  replay_wf n v (enqueue_request config s r).
Proof.
  intros Hwf Hr Hnew Hun. set (rq := scheduled_request config r).
  pose proof (proj1 (Forall_forall _ _) (ok_requests _ _ Hok) r Hr) as [Hp Hs Hg Hb _].
  assert (replay_wf n v (s <| scheduler ::= λ sch, enqueue sch rq |>)) as Hgen.
  { destruct Hwf. split; try done.
    - apply enqueue_wf; [done| |].
      + split; simpl; [lia|done].
      + unfold queued in Hnew. by rewrite !fmap_app in Hnew.
    - unfold queued in *. simpl. rewrite <-app_assoc. apply Forall_app in p_tracked as [Hpe Hrest].
      apply Forall_app. split; [done|]. apply Forall_cons. split; [|done].
      rewrite <-p_requests in Hr. apply list_elem_of_fmap in Hr as (p & -> & Hin).
      pose proof (proj1 (Forall_forall _ _) Hun p Hin) as Hfresh. unfold untouched_progress in Hfresh.
      apply list_elem_of_lookup_1 in Hin as [i Hi]. exists i, p. split; [done|].
      pose proof (ok_blocks _ _ Hok). rewrite Hfresh. split; simpl; try done; try lia.
      destruct (prefix_caching config); [by right|by left]. }
  unfold enqueue_request. cbv zeta. fold rq.
  eapply replay_wf_core, Hgen; by destruct (never_admissible config r).
Qed.

(** The requests of the trace, one after the other. *)
Lemma enqueue_all_wf n v l s :
  replay_wf n v s → (∀ r, r ∈ l → r ∈ requests trace) → NoDup (tr_request_id <$> l) →
  (∀ r, r ∈ l → tr_request_id r ∉ request_id <$> queued s) →
  Forall untouched_progress (progress s) → active_ (scheduler s) = [] → preempted_ (scheduler s) = [] →
  replay_wf n v (foldl (enqueue_request config) s l).
Proof.
  revert s. induction l as [|r l IH]; intros s Hwf Hin Hnd Hnew Hun Ha Hp; [done|].
  apply NoDup_cons in Hnd as [Hr Hnd]. simpl.
  assert (progress (enqueue_request config s r) = progress s ∧
    scheduler (enqueue_request config s r) = enqueue (scheduler s) (scheduled_request config r))
    as [Hpr Hsc] by (unfold enqueue_request; by destruct (never_admissible config r)).
  apply IH; [|by intros; apply Hin; right|done| |by rewrite Hpr|by rewrite Hsc|by rewrite Hsc].
  - apply enqueue_request_wf; [done|apply Hin; by left|apply Hnew; by left|done].
  - intros r' Hr'. unfold queued. rewrite Hsc. simpl. rewrite Ha, Hp, app_nil_r, fmap_app, elem_of_app.
    intros [Hq|Hq].
    + apply (Hnew r'); [by right|]. unfold queued. by rewrite Ha, Hp, app_nil_r.
    + apply list_elem_of_singleton in Hq. simpl in Hq. apply Hr. rewrite <-Hq.
      by apply list_elem_of_fmap_2.
Qed.

(** When every request completed, nothing is left. *)
Lemma all_completed n v s :
  replay_wf n v s → completed_requests s = Z.of_nat (length (requests trace)) →
  sequences_ (cache s) = ∅.
Proof.
  intros Hwf Hall. rewrite (p_done _ _ _ _ _ Hwf), <-(p_requests _ _ _ _ _ Hwf), length_fmap in Hall.
  assert (queued s = []) as Hq.
  { destruct (queued s) as [|r q] eqn:Hr; [done|]. exfalso.
    destruct (queued_progress _ _ _ _ _ r Hwf) as (i & p & Hi & Hf); [rewrite Hr; by left|].
    pose proof (flagged_all _ _ Hall p (list_elem_of_lookup_2 _ _ _ Hi)) as Hfin.
    by rewrite (f_unfinished _ _ _ Hf) in Hfin. }
  apply map_empty. intros sid. destruct (sequences_ (cache s) !! sid) as [st|] eqn:Hs; [|done].
  pose proof (s_owned _ (p_sched _ _ _ _ _ Hwf) sid st Hs) as Ho. rewrite <-fmap_app in Ho.
  unfold queued in Hq. apply app_nil in Hq as [_ Hq]. rewrite Hq in Ho. by apply not_elem_of_nil in Ho.
Qed.
End Props.

(** ** The theorem *)

(** The replay starts in its invariant. *)
Lemma start_paged_wf trace config aligned_alloc p slab :
  replay_ok trace config →
  aligned_alloc (effective_alignment (allocator_config trace config))
    (pool_bytes_for (allocator_config trace config)) = Some (p, slab) →
  Z.of_nat (length slab) = pool_bytes_for (allocator_config trace config) →
  replay_wf trace config 0 (victims_per_step trace * Z.to_nat (max_steps config))
    (start_paged aligned_alloc trace config).
Proof.
  intros Hok Hslab Hlen.
  pose proof (blank_wf trace config Hok aligned_alloc p slab Hslab Hlen) as Hblank.
  apply (enqueue_all_wf trace config Hok 0 _ (requests trace) _ Hblank); try done;
    [by apply (ok_ids _ _ Hok)|by intros r _ ?%not_elem_of_nil|].
  apply Forall_fmap, Forall_forall. by intros r _.
Qed.

(** What the property below states, as the command line uses it. *)
Lemma run_paged_ends trace config aligned_alloc p slab :
  replay_ok trace config →
  aligned_alloc (effective_alignment (allocator_config trace config))
    (pool_bytes_for (allocator_config trace config)) = Some (p, slab) →
  Z.of_nat (length slab) = pool_bytes_for (allocator_config trace config) →
  runs (run_paged aligned_alloc trace config) (λ m,
    steps m <= max_steps config ∧
    requests_completed m <= Z.of_nat (length (requests trace)) ∧
    completed m = (requests_completed m =? Z.of_nat (length (requests trace))) ∧
    (completed m = true → leak_free m = true)).
Proof.
  intros Hok Hslab Hlen. pose proof (ok_count _ _ Hok).
  unfold run_paged. run_step (run_steps_wf trace config Hok (Z.to_nat (max_steps config)) 0
    (start_paged aligned_alloc trace config)); [by eapply start_paged_wf|..].
  - lia.
  - pose proof (ok_steps _ _ Hok). lia.
  - apply (ok_steps _ _ Hok).
  - intros s (n & Hwf & Hn & _). pose proof (p_steps _ _ _ _ _ Hwf) as Hsteps.
    pose proof (flagged_range finished (progress s)) as Hrange.
    rewrite <-(p_done _ _ _ _ _ Hwf), <-(length_fmap request), (p_requests _ _ _ _ _ Hwf) in Hrange.
    apply runs_bind. eapply runs_mono with (P := λ m : ReplayMetrics, steps m = n).
    { case_decide; [done|]. destruct (p99_defined (ttfts s)) as [x ->]; [done| |done].
      etransitivity; [apply (p_ttfts _ _ _ _ _ Hwf)|].
      etransitivity; [apply (flagged_range _ (progress s))|].
      by rewrite <-(length_fmap request), (p_requests _ _ _ _ _ Hwf). }
    intros m Hm. cbv zeta. cbn [runs].
    match goal with |- steps ?x <= _ ∧ _ => change (steps x) with (steps m);
      change (requests_completed x) with (u32 (completed_requests s));
      change (completed x) with (completed_requests s =? Z.of_nat (length (requests trace)));
      change (leak_free x) with ((free_blocks (replay_stats s) =? total_blocks (replay_stats s))
        && (active_blocks (replay_stats s) =? 0) && (shared_blocks (replay_stats s) =? 0)
        && (MemoryAllocator.swapped_blocks (replay_stats s) =? 0)) end.
    rewrite u32_small by words. split_and!; [lia|lia|done|]. intros Hall%Z.eqb_eq.
    pose proof (all_completed _ _ _ _ _ Hwf Hall) as Hempty.
    destruct (empty_stats (cache s) (replay_mgr _ _ _ _ _ Hwf) Hempty) as (H1 & H2 & H3 & H4).
    unfold replay_stats. rewrite H1, H2, H3, H4, Z.eqb_refl. done.
Qed.

(** C5. The replay of a trace is safe and leaks nothing. For every trace with distinct ids
    and prompts that are not empty, at most 4096 of them, and sizes that fit their words
    ([replay_ok]), the whole run is
    defined: no access out of range, no missing index, no overlapping copy and no
    overflow in any call of the replay into the scheduler, the cache manager, the pool
    and the swap backend, whatever is admitted, preempted, forked, shared or swapped on
    the way. It ends within [max_steps]; it reports completion exactly when every
    request completed; and then every block of the pool is free and the swap backend is
    empty. *)
Theorem run_paged_safe trace config aligned_alloc p slab :
  replay_ok trace config →
  aligned_alloc (effective_alignment (allocator_config trace config))
    (pool_bytes_for (allocator_config trace config)) = Some (p, slab) →
  Z.of_nat (length slab) = pool_bytes_for (allocator_config trace config) →
  runs (run_paged aligned_alloc trace config) (λ m,
    steps m <= max_steps config ∧
    requests_completed m <= Z.of_nat (length (requests trace)) ∧
    completed m = (requests_completed m =? Z.of_nat (length (requests trace))) ∧
    (completed m = true → leak_free m = true)).
Proof. apply run_paged_ends. Qed.

(** ** Witness *)

Lemma twin_replay_ok : replay_ok twin_trace (paged_config 6 4 true).
Proof.
  split; try (vm_compute; intuition discriminate).
  - apply (bool_decide_unpack _). vm_compute. done.
  - repeat (apply Forall_cons; split); [..|done]; split; vm_compute; intuition discriminate.
  - split; [split|..]; vm_compute; intuition discriminate.
Qed.

Lemma run_paged_safe_witness :
  runs (run_paged zero_pool twin_trace (paged_config 6 4 true)) (λ m,
    steps m <= 40 ∧ requests_completed m <= 2 ∧ completed m = (requests_completed m =? 2) ∧
    (completed m = true → leak_free m = true)).
Proof.
  eapply (run_paged_safe twin_trace (paged_config 6 4 true) zero_pool).
  - exact twin_replay_ok.
  - reflexivity.
  - rewrite length_replicate, Z2Nat.id; [reflexivity|]. vm_compute. discriminate.
Defined.
