(* ===== verification/PagedCalm.v ===== *)
(** A run of the paged replay without pressure. In a pool of the size
    [suggested_pool_blocks] proposes, without a watermark and without prefixes, a frame is
    free whenever a request runs; so every growth succeeds, nothing is preempted, and each
    entry of a plan brings its request closer to its end. *)
From coqutil Require Import Datatypes.RecordSetters.
From S2P Require Import Prelude.
From S2P Require Import Block.
From S2P Require Import SwapBackend.
From S2P Require Import BlockTable.
From S2P Require Import MemoryAllocator.
From S2P Require Import AllocatorSpec.
From S2P Require Import AllocatorProps.
From S2P Require Import KVCacheManager.
From S2P Require Import CacheInvariant.
From S2P Require Import CacheLemmas.
From S2P Require Import CacheLifecycle.
From S2P Require Import CacheGrowth.
From S2P Require Import CacheSwap.
From S2P Require Import CacheRecords.
From S2P Require Import CacheRelease.
From S2P Require Import Scheduler.
From S2P Require Import SchedulerPlan.
From S2P Require Import SchedulerInvariant.
From S2P Require Import SchedulerAdmission.
From S2P Require Import SchedulerPreemption.
From S2P Require Import SchedulerSteps.
From S2P Require Import SchedulerKeys.
From S2P Require Import TraceReplay.
From S2P Require Import CacheClient.
From S2P Require Import CacheFrames.
From S2P Require Import PagedReplay.
From S2P Require Import PagedInvariant.
From S2P Require Import PagedSteps.
From S2P Require Import PagedDecode.
Import TriangleBracketNotations.
#[local] Open Scope record_set.

Lemma blocks_needed_mono n n' tpb : 0 < tpb → n <= n' → blocks_needed n tpb <= blocks_needed n' tpb.
Proof. intros. apply Z.div_le_mono; lia. Qed.

(** Two specifications of the same call. *)
Lemma runs_and {A} (x : option A) (P Q : A → Prop) :
  runs x P → runs x Q → runs x (λ y, P y ∧ Q y).
Proof. by destruct x. Qed.

Section Live.
Context (trace : Trace) (config : ReplayConfig) (Hok : replay_ok trace config).

Abbreviation tpb := (cfg_tokens_per_block config).
Abbreviation prompt_blocks r := (blocks_needed (tr_prompt_tokens r) tpb).
Abbreviation reach_blocks := (entry_blocks config).

(** ** A pool that is large enough *)

(** [request_worst_blocks], in exact arithmetic. *)
Definition worst_blocks (r : TraceRequest) : Z :=
  prompt_blocks r + branches r * (blocks_needed (decode_budget r) tpb + 2).

(** The tokens a request is served. *)
Definition request_tokens (r : TraceRequest) : Z :=
  tr_prompt_tokens r + Z.max 1 (decode_actual r).

(** The pool [suggested_pool_blocks] proposes, when its product does not wrap around, for
    requests that stay within their budgets, and as many steps as tokens. *)
Record roomy : Prop := {
  roomy_watermark : cfg_preemption_watermark_blocks config = 0;
  roomy_plain : prefix_caching config = false;
  roomy_batch : 0 < cfg_max_batch_tokens config;
  roomy_places : 0 < cfg_max_active_requests config;
  roomy_budget : Forall (λ r, Z.max 1 (decode_actual r) <= decode_budget r ∧
    tr_prompt_tokens r + decode_budget r + tpb < W32) (requests trace);
  roomy_product : Forall (λ r, worst_blocks r * cfg_max_active_requests config < W32)
    (requests trace);
  roomy_pool : suggested_pool_blocks trace config <= cfg_max_blocks config;
  roomy_steps : zsum request_tokens (requests trace) <= max_steps config
}.

Section Facts.
Context (Hroomy : roomy).

Lemma request_facts r :
  r ∈ requests trace →
  request_ok config r ∧ Z.max 1 (decode_actual r) <= decode_budget r ∧
  tr_prompt_tokens r + decode_budget r + tpb < W32 ∧
  worst_blocks r * cfg_max_active_requests config < W32.
Proof.
  intros Hr. split; [by apply (proj1 (Forall_forall _ _) (ok_requests _ _ Hok))|].
  destruct (proj1 (Forall_forall _ _) (roomy_budget Hroomy) r Hr) as [? ?].
  split_and!; [done..|]. by apply (proj1 (Forall_forall _ _) (roomy_product Hroomy)).
Qed.

(** Sharing the prompt but its last block, the sequences of a request leave one of its
    blocks unused. *)
Lemma request_cost r :
  r ∈ requests trace →
  1 <= prompt_blocks r <= reach_blocks r ∧
  (prompt_blocks r - 1) + branches r * (reach_blocks r - (prompt_blocks r - 1)) < worst_blocks r.
Proof.
  intros Hr. destruct (request_facts r Hr) as ([Hp _ _ _ _] & Hb & _ & _).
  pose proof (ok_tpb _ _ Hok) as Ht. pose proof (branches_pos r).
  destruct (blocks_needed_spec (tr_prompt_tokens r) tpb) as [_ Hpb]; [lia..|].
  destruct (blocks_needed_spec (decode_budget r) tpb) as [Hdb0 Hdb]; [lia..|].
  assert (1 <= prompt_blocks r) by nia.
  assert (prompt_blocks r <= reach_blocks r).
  { unfold entry_blocks. unfold blocks_needed.
    replace (tr_prompt_tokens r + tpb - 1) with (tr_prompt_tokens r - 1 + 1 * tpb) by lia.
    rewrite Z.div_add by lia. apply Z.add_le_mono_r, Z.div_le_mono; lia. }
  assert (reach_blocks r <= prompt_blocks r + blocks_needed (decode_budget r) tpb + 1) as Hreach.
  { unfold entry_blocks. apply Z.add_le_mono_r. apply Z.lt_succ_r, Z.div_lt_upper_bound; nia. }
  split; [lia|]. unfold worst_blocks. nia.
Qed.

Lemma worst_exact r : r ∈ requests trace → request_worst_blocks config r = worst_blocks r.
Proof.
  intros Hr. destruct (request_facts r Hr) as ([Hp Hs _ Hb Hsm] & _ & Hsum & Hprod).
  pose proof (ok_tpb _ _ Hok) as Ht. pose proof (branches_pos r).
  pose proof (roomy_places Hroomy).
  destruct (blocks_needed_spec (tr_prompt_tokens r) tpb) as [Hpb _]; [lia..|].
  destruct (blocks_needed_spec (decode_budget r) tpb) as [Hdb0 Hdb]; [words..|].
  assert (∀ n, 0 <= n → n + tpb < W32 → ceil_div n tpb = blocks_needed n tpb) as Hceil.
  { intros n Hn Hlt. unfold ceil_div. rewrite (proj2 (Z.eqb_neq tpb 0)) by lia.
    by apply (ceil_blocks_exact n tpb). }
  unfold request_worst_blocks, worst_blocks in *. unfold branches in *.
  rewrite !Hceil by words. set (b := Z.max 1 _) in *. set (p := blocks_needed (tr_prompt_tokens r) _) in *.
  set (d := blocks_needed (decode_budget r) tpb) in *.
  assert (p + b * (d + 2) < W32) by nia.
  assert (d + 2 < W32) by nia. assert (b * (d + 2) < W32) by lia.
  rewrite (u32_small (d + 2)), (u32_small (b * (d + 2))), u32_small by words. done.
Qed.

(** The pool holds the worst of the requests once for every active one. *)
Lemma pool_worst r :
  r ∈ requests trace → worst_blocks r * cfg_max_active_requests config <= cfg_max_blocks config.
Proof.
  intros Hr. etransitivity; [|exact (roomy_pool Hroomy)]. unfold suggested_pool_blocks.
  pose proof (roomy_places Hroomy) as Hm. rewrite (Z.max_r 1) by lia.
  assert (∀ l acc, (∀ x, x ∈ l → x ∈ requests trace) →
    let w := foldl (λ worst request, Z.max worst (request_worst_blocks config request)) acc l in
    acc <= w ∧ (∀ x, x ∈ l → worst_blocks x <= w) ∧
    (w = acc ∨ ∃ x, x ∈ l ∧ w = worst_blocks x)) as Hfold.
  { induction l as [|x l IH]; intros acc Hl; cbn [foldl].
    - split_and!; [done|by intros x ?%not_elem_of_nil|by left].
    - rewrite (worst_exact x) by (apply Hl; by left).
      destruct (IH (Z.max acc (worst_blocks x))) as (H1 & H2 & H3); [intros; apply Hl; by right|].
      split_and!; [lia| |].
      + intros y [->|Hy]%elem_of_cons; [lia|by apply H2].
      + destruct H3 as [->|(y & Hy & ->)]; [|right; exists y; split; [by right|done]].
        destruct (Z.max_spec acc (worst_blocks x)) as [[_ ->]|[_ ->]]; [right|by left].
        exists x. split; [by left|done]. }
  destruct (Hfold (requests trace) 0) as (H1 & H2 & H3); [done|].
  set (w := foldl _ _ _) in *. rewrite u32_small.
  - apply Z.mul_le_mono_nonneg_r; [lia|by apply H2].
  - split; [nia|]. destruct H3 as [->|(x & Hx & ->)]; [words|]. by apply request_facts.
Qed.

(** ** The invariant of a run without pressure *)

(** The request with an id, and what [CacheFrames] asks of its sequences. *)
Definition asked (id : Z) : option TraceRequest :=
  i ← request_index (requests trace) !! id; requests trace !! Z.to_nat i.
Definition spine (id : Z) : nat := from_option (λ r, Z.to_nat (prompt_blocks r - 1)) 0%nat (asked id).
Definition reach (id : Z) : nat := from_option (λ r, Z.to_nat (reach_blocks r)) 0%nat (asked id).
Definition copies (id : Z) : Z := from_option branches 0 (asked id).

(** A request that was admitted and is not finished names its root sequence. *)
Definition anchored (p : RequestProgress) : Prop :=
  sequences p = [] ∧ (admitted p = true → finished p = true) ∨
  tr_request_id (request p) ∈ sequences p.

(** The cache has the sequences the progress names, and they belong to its request. *)
Definition present (prog : list RequestProgress) (m : KVCacheManager HostSwapBackend) : Prop :=
  ∀ i p sid, prog !! i = Some p → sid ∈ sequences p →
    ∃ st, sequences_ m !! sid = Some st ∧ rid_of st = tr_request_id (request p).

(** A queued request asks for no prefix, and for the budget of its record. *)
Definition plain (r : Request) : Prop :=
  rq_prefix_key r = ""%string ∧
  ∃ t, asked (request_id r) = Some t ∧ max_decode_tokens (sampling r) = decode_budget t.

Record calm (s : Replay) : Prop := {
  calm_config : sched_config (scheduler s) = mkSchedulerConfig
    (cfg_max_active_requests config) (cfg_max_batch_tokens config)
    (cfg_preemption_watermark_blocks config) (cfg_size_aware_admission config)
    (cfg_admission_skip_limit config);
  calm_preempted : preempted_ (scheduler s) = [];
  calm_parked : preempted_ids s = ∅;
  calm_count : preemptions (replay_metrics s) = 0;
  calm_laid : laid spine reach (cache s);
  calm_anchored : Forall anchored (progress s);
  calm_present : present (progress s) (cache s);
  calm_plain : Forall plain (queued s);
  calm_queued : Z.of_nat (length (queued s)) + completed_requests s = Z.of_nat (length (requests trace));
  calm_places : Z.of_nat (length (active_ (scheduler s))) <= cfg_max_active_requests config
}.

(** It does not see the other counters. *)
Lemma calm_core s s' :
  scheduler s' = scheduler s → progress s' = progress s → preempted_ids s' = preempted_ids s →
  completed_requests s' = completed_requests s →
  preemptions (replay_metrics s') = preemptions (replay_metrics s) → calm s → calm s'.
Proof.
  intros H1 H2 H3 H4 H5 []. unfold cache, queued in *.
  split; unfold cache, queued; rewrite ?H1, ?H2, ?H3, ?H4, ?H5; done.
Qed.

Section Calm.
Context (n : Z).
Abbreviation replay_wf := (replay_wf trace config n).

Lemma asked_at prog i p :
  request <$> prog = requests trace → prog !! i = Some p →
  asked (tr_request_id (request p)) = Some (request p).
Proof.
  intros Hreq Hi. assert (requests trace !! i = Some (request p)) as Hr
    by (rewrite <-Hreq, list_lookup_fmap, Hi; done).
  unfold asked. rewrite (request_index_lookup _ _ _ (ok_ids _ _ Hok) Hr). simpl.
  by rewrite Nat2Z.id.
Qed.

Lemma asked_progress v s i p :
  replay_wf v s → progress s !! i = Some p → asked (tr_request_id (request p)) = Some (request p).
Proof. intros Hwf. apply asked_at, (p_requests _ _ _ _ _ Hwf). Qed.

(** The sequences of a request in the cache are at most its branches. *)
Lemma states_bound v s i p :
  replay_wf v s → calm s → progress s !! i = Some p →
  Z.of_nat (length (states (cache s) (tr_request_id (request p)))) <= branches (request p).
Proof.
  intros Hwf Hcalm Hi. set (rid := tr_request_id (request p)).
  set (S := if decide (sequences p = []) then [rid] else sequences p).
  assert (Z.of_nat (length S) <= branches (request p)) as HS.
  { unfold S. case_decide; [apply branches_pos|].
    exact (proj1 (Forall_lookup _ _) (p_within _ _ _ _ _ Hwf) i p Hi). }
  etransitivity; [|exact HS]. apply inj_le.
  rewrite <-(length_fmap (λ st, sm_sequence_id (metadata st))).
  pose proof (replay_mgr _ _ _ _ _ Hwf) as Hm.
  apply submseteq_length, NoDup_submseteq.
  - eapply sublist_NoDup; [|apply fmap_sublist, sublist_filter].
    replace (_ <$> (map_to_list (sequences_ (cache s))).*2) with (map_to_list (sequences_ (cache s))).*1;
      [apply NoDup_fst_map_to_list|].
    rewrite <-list_fmap_compose. apply list_fmap_ext. intros j [sid st] Hj. simpl.
    apply list_elem_of_lookup_2, elem_of_map_to_list in Hj.
    symmetry. apply (seq_id _ _ _ _ (mgr_seq _ Hm _ _ Hj)).
  - intros sid (st & -> & (sid' & Hs & Hid)%elem_states)%list_elem_of_fmap.
    rewrite (seq_id _ _ _ _ (mgr_seq _ Hm _ _ Hs)).
    assert (tags (cache s) !! sid' = Some (tag st)) as Ht by (unfold tags; by rewrite lookup_fmap, Hs).
    destruct (p_named _ _ _ _ _ Hwf _ _ Ht) as (j & q & Hj & Hq & Hsid & _).
    destruct (progress_unique _ _ _ Hok v s i j p q Hwf Hi Hj) as [_ <-]; [by rewrite Hq|].
    pose proof (proj1 (Forall_lookup _ _) (calm_anchored _ Hcalm) i p Hi) as Ha.
    unfold S, anchored in *. fold rid in Hq, Ha. rewrite Hid in Hsid.
    destruct Hsid as [->|Hin]; case_decide as Hnil; rewrite ?Hnil in *.
    + by left.
    + by destruct Ha as [[? _]|].
    + by apply not_elem_of_nil in Hin.
    + done.
Qed.

(** A frame is free as long as a request runs. *)
Lemma calm_free v s r :
  replay_wf v s → calm s → r ∈ active_ (scheduler s) → 0 < nfree (allocator_ (cache s)).
Proof.
  intros Hwf Hcalm Hr. pose proof (p_sched _ _ _ _ _ Hwf) as Hsw.
  pose proof (laid_used spine reach (cache s) (ids (active_ (scheduler s))) copies
    (replay_mgr _ _ _ _ _ Hwf) (calm_laid _ Hcalm) (active_nodup _ (s_queues _ Hsw))) as Hused.
  rewrite (pool_blocks _ _ (p_pool _ _ _ _ _ Hwf)) in Hused.
  assert (∀ r, r ∈ active_ (scheduler s) → ∃ i p, progress s !! i = Some p ∧
    tr_request_id (request p) = request_id r ∧ request p ∈ requests trace) as Hprog.
  { intros r0 Hr0. destruct (queued_progress _ _ _ _ _ _ Hwf (queued_active _ _ Hr0))
      as (i & p & Hi & Hf). exists i, p. split_and!; [done|apply Hf|by eapply progress_known]. }
  assert (∀ r, r ∈ active_ (scheduler s) → ∃ t, t ∈ requests trace ∧
    Z.of_nat (spine (request_id r)) +
      copies (request_id r) * Z.of_nat (reach (request_id r) - spine (request_id r)) < worst_blocks t)
    as Hcost.
  { intros r0 Hr0. destruct (Hprog r0 Hr0) as (i & p & Hi & <- & Hin). exists (request p).
    split; [done|]. unfold spine, reach, copies. rewrite (asked_progress _ _ _ _ Hwf Hi). simpl.
    destruct (request_cost _ Hin) as [? ?]. rewrite Nat2Z.inj_sub, !Z2Nat.id by lia. lia. }
  assert (zsum (λ rid, Z.of_nat (spine rid) + copies rid * Z.of_nat (reach rid - spine rid))
    (ids (active_ (scheduler s))) < cfg_max_blocks config) as Hsum.
  { rewrite zsum_fmap. pose proof (calm_places _ Hcalm) as Hpl.
    assert (∀ x, x ∈ active_ (scheduler s) →
      (Z.of_nat (spine (request_id x)) + copies (request_id x) *
        Z.of_nat (reach (request_id x) - spine (request_id x)) + 1) * cfg_max_active_requests config
      <= cfg_max_blocks config) as Hall.
    { intros x Hx. destruct (Hcost x Hx) as (t & Ht & Hlt).
      etransitivity; [|apply (pool_worst t Ht)]. apply Z.mul_le_mono_nonneg_r; [|lia].
      pose proof (roomy_places Hroomy). lia. }
    set (f := λ x : Request, _) in *. set (A := cfg_max_active_requests config) in *.
    pose proof (roomy_places Hroomy : 0 < A) as HA. pose proof (ok_blocks _ _ Hok).
    set (W := cfg_max_blocks config / A).
    assert (W * A <= cfg_max_blocks config) by (rewrite Z.mul_comm; by apply Z.mul_div_le).
    assert (∀ x, x ∈ active_ (scheduler s) → f x <= W - 1) as Hf.
    { intros x Hx. enough (f x + 1 <= W) by lia. apply Z.div_le_lower_bound; [done|].
      rewrite Z.mul_comm. by apply Hall. }
    pose proof (zsum_bound f (W - 1) _ Hf) as Hz.
    assert (0 <= W) by (apply Z.div_pos; lia).
    assert (length (active_ (scheduler s)) ≠ 0%nat)
      by (intros Hnil%nil_length_inv; rewrite Hnil in Hr; by apply not_elem_of_nil in Hr).
    nia. }
  enough (cfg_max_blocks config - nfree (allocator_ (cache s)) < cfg_max_blocks config) by lia.
  eapply Z.le_lt_trans; [apply Hused|exact Hsum].
  - intros sid st Hs. pose proof (s_owned _ Hsw sid st Hs) as Ho.
    rewrite (calm_preempted _ Hcalm), app_nil_r in Ho. exact Ho.
  - intros rid (r0 & -> & Hr0)%list_elem_of_fmap. destruct (Hprog r0 Hr0) as (i & p & Hi & <- & _).
    unfold copies. rewrite (asked_progress _ _ _ _ Hwf Hi). by eapply states_bound.
Qed.
(** ** Calls into the cache *)

Lemma present_tags prog m m' : tags m' = tags m → present prog m → present prog m'.
Proof.
  intros Ht Hm i p sid Hi Hsid. destruct (Hm i p sid Hi Hsid) as (st & Hs & Hid).
  assert (tags m' !! sid = Some (tag st)) as Hl by (rewrite Ht; unfold tags; by rewrite lookup_fmap, Hs).
  unfold tags in Hl. rewrite lookup_fmap in Hl. apply fmap_Some in Hl as (st' & Hs' & [= Heq _]).
  exists st'. split; [done|]. by rewrite <-Heq.
Qed.

Lemma calm_cache s s' m' :
  calm s → laid spine reach m' → present (progress s) m' →
  scheduler s' = with_cache (scheduler s) m' → progress s' = progress s →
  preempted_ids s' = preempted_ids s → completed_requests s' = completed_requests s →
  preemptions (replay_metrics s') = preemptions (replay_metrics s) → calm s'.
Proof.
  intros [] Hl Hp H1 H2 H3 H4 H5. unfold cache, queued in *.
  split; unfold cache, queued; rewrite ?H1, ?H2, ?H3, ?H4, ?H5; done.
Qed.

(** The only sequence of a request in prefill is its root. *)
Lemma prefill_lone v s r i p :
  replay_wf v s → calm s → progress s !! i = Some p → follows config r p →
  0 < remaining_prefill_tokens r →
  lone (cache s) (tr_request_id (request p)) (tr_request_id (request p)).
Proof.
  intros Hwf Hcalm Hi Hf Hrem sid st Hs Hid.
  assert (tags (cache s) !! sid = Some (tag st)) as Ht by (unfold tags; by rewrite lookup_fmap, Hs).
  destruct (p_named _ _ _ _ _ Hwf _ _ Ht) as (j & q & Hj & Hq & Hsid & _). simpl in Hq.
  destruct (progress_unique _ _ _ Hok v s i j p q Hwf Hi Hj) as [_ <-]; [by rewrite Hq|].
  rewrite Hid in Hsid. destruct Hsid as [->|Hin]; [done|].
  destruct (f_prefill _ _ _ Hf Hrem) as [_ Hlen].
  destruct (proj1 (Forall_lookup _ _) (calm_anchored _ Hcalm) i p Hi) as [[Ha _]|Ha];
    [rewrite Ha in Hin; by apply not_elem_of_nil in Hin|].
  destruct (sequences p) as [|x [|]]; [by apply not_elem_of_nil in Hin| |simpl in Hlen; lia].
  apply list_elem_of_singleton in Hin as ->. by apply list_elem_of_singleton in Ha as ->.
Qed.

(** A touch past the shared blocks, or of the only sequence of a request. *)
Lemma touch_calm v s i p sid pos :
  replay_wf v s → calm s → progress s !! i = Some p → sid ∈ sequences p → 0 <= pos →
  Z.of_nat (spine (tr_request_id (request p))) <= pos / tpb ∨
    lone (cache s) sid (tr_request_id (request p)) →
  runs (touch config s sid pos) (λ s', replay_wf v s' ∧ quiet s s' ∧ calm s').
Proof.
  intros Hwf Hcalm Hi Hsid Hpos Hout. pose proof (replay_mgr _ _ _ _ _ Hwf) as Hm.
  pose proof (touch_wf trace config n Hok v s sid pos Hwf Hpos) as Hrun. unfold touch in *.
  destruct (touch_position _ _ _ _ _) as [[metrics m']|] eqn:Ht; [|done]. simpl in *.
  destruct Hrun as [Hwf' Hq]. split_and!; [done..|].
  pose proof (touch_carries (cache s) sid pos tpb (replay_metrics s) Hm Hpos) as Hc.
  rewrite Ht in Hc. destruct Hc as (_ & _ & _ & _ & Htags); [pose proof (ok_tpb _ _ Hok); lia|].
  destruct (laid_touch spine reach (cache s) sid pos tpb (replay_metrics s) metrics m' Hm
    (calm_laid _ Hcalm) Hpos) as [Hl Hpre]; [|exact Ht|].
  { intros st Hs. destruct (calm_present _ Hcalm i p sid Hi Hsid) as (st' & Hs' & Hid).
    assert (st' = st) as -> by congruence. rewrite Hid.
    by rewrite (pool_tpb _ _ (p_pool _ _ _ _ _ Hwf)). }
  eapply calm_cache; [exact Hcalm|exact Hl| |done..]. eapply present_tags, Hcalm. exact Htags.
Qed.

(** Loops of such calls. *)
Lemma calm_loop {A} v (f : Replay → A → option Replay) l s :
  replay_wf v s → calm s →
  (∀ s1 x, x ∈ l → replay_wf v s1 → calm s1 → quiet s s1 →
     runs (f s1 x) (λ s', replay_wf v s' ∧ quiet s1 s' ∧ calm s')) →
  runs (foldM f s l) (λ s', replay_wf v s' ∧ quiet s s' ∧ calm s').
Proof.
  intros Hwf Hcalm Hf. apply (runs_foldM f (λ _ s', replay_wf v s' ∧ quiet s s' ∧ calm s')); [done|].
  intros don x rest s1 -> (Hwf1 & Hq1 & Hcalm1).
  eapply runs_mono; [apply Hf; [rewrite !elem_of_app; right; left|done..]|].
  intros s2 (? & Hq2 & ?). split_and!; [done|by eapply quiet_trans|done].
Qed.

(** ** What is left to serve *)

Definition weight (p : RequestProgress) : Z :=
  if finished p then 0 else Z.max 0 (request_tokens (request p) - committed p).
Definition todo (s : Replay) : Z := zsum weight (progress s).

Lemma zsum_insert {A} (f : A → Z) (l : list A) (i : nat) x y :
  l !! i = Some x → zsum f (<[i:=y]> l) = zsum f l - f x + f y.
Proof.
  revert i. induction l as [|z l IH]; intros [|i] Hi; [done..| |]; simpl in Hi.
  - injection Hi as ->. cbn. lia.
  - change (<[S i:=y]> (z :: l)) with (z :: <[i:=y]> l). cbn [zsum]. rewrite (IH i Hi). lia.
Qed.

Lemma todo_insert s s' i p p' :
  progress s !! i = Some p → progress s' = <[i:=p']> (progress s) →
  todo s' = todo s - weight p + weight p'.
Proof. intros Hi Hp. unfold todo. rewrite Hp. by apply zsum_insert. Qed.

(** ** Prefill *)

(** Another progress for one request. *)
Lemma calm_progress s s' i p p' :
  calm s → progress s !! i = Some p → progress s' = <[i:=p']> (progress s) →
  scheduler s' = scheduler s → preempted_ids s' = preempted_ids s →
  completed_requests s' = completed_requests s →
  preemptions (replay_metrics s') = preemptions (replay_metrics s) →
  request p' = request p → anchored p' →
  (∀ sid, sid ∈ sequences p' → ∃ st, sequences_ (cache s) !! sid = Some st ∧
     rid_of st = tr_request_id (request p)) →
  calm s'.
Proof.
  intros [] Hi Hp H1 H2 H3 H4 Hreq Ha Hpr. unfold cache, queued in *.
  split; unfold cache, queued; rewrite ?Hp, ?H1, ?H2, ?H3, ?H4; try done.
  - by apply Forall_insert.
  - intros j q sid [(-> & <- & _)|[_ Hj]]%list_lookup_insert_Some Hsid; [|by eapply calm_present0].
    rewrite Hreq. by apply Hpr.
Qed.

Lemma note_admission_calm v s i p r :
  replay_wf v s → calm s → r ∈ active_ (scheduler s) → progress s !! i = Some p →
  follows config r p → admitted p = false →
  runs (note_admission config s (Z.of_nat i) (request_id r) p) (λ s',
    calm s' ∧ ∃ p', progress s' = <[i:=p']> (progress s) ∧ request p' = request p ∧
      tr_request_id (request p) ∈ sequences p' ∧ weight p' = weight p).
Proof.
  intros Hwf Hcalm Hr Hi Hf Hadm. pose proof (f_fresh _ _ _ Hf Hadm) as Hnil.
  destruct (note_admission_shape trace config Hok s (Z.of_nat i) (request_id r) p)
    as (k & s1 & -> & H1 & H2 & H3 & H4 & H5 & H6 & H7 & H8). cbn [runs].
  assert (progress (set_at (Z.of_nat i) (admit_progress k p) s1) = <[i := admit_progress k p]> (progress s))
    as Hp by by rewrite set_at_progress, H2.
  assert (tr_request_id (request p) ∈ sequences (admit_progress k p)) as Hroot
    by (rewrite admit_sequences, elem_of_app; right; by left).
  split; [|by exists (admit_progress k p)].
  eapply (calm_progress s _ i p); [done|done|exact Hp|done..|by right|].
  intros sid. rewrite admit_sequences, Hnil. intros ->%list_elem_of_singleton.
  destruct (root_sequence trace config n Hok v s r i p Hwf Hr Hi Hf) as (st & Hs & Hid & _). by exists st.
Qed.

(** One position of a chunk. *)
Lemma prefill_position_calm v p0 s offset i p r :
  replay_wf v s → calm s → r ∈ queued s → progress s !! i = Some p → follows config r p →
  0 < remaining_prefill_tokens r → tr_request_id (request p) ∈ sequences p →
  request p0 = request p →
  runs (prefill_position config p0 s offset) (λ s', replay_wf v s' ∧ quiet s s' ∧ calm s').
Proof.
  intros Hwf Hcalm Hr Hi Hf Hrem Hroot Hreq. pose proof (ok_tpb _ _ Hok). unfold prefill_position.
  case_match; [done|]. rewrite (proj2 (Z.eqb_neq tpb 0)) by lia. case_match; [|done].
  rewrite Hreq. eapply touch_calm; [done..|apply u32_range|]. right. by eapply prefill_lone.
Qed.

(** *** A chunk done *)

(** An active request moved on. *)
Lemma calm_active s s' k r r' :
  calm s → active_ (scheduler s) !! k = Some r → (plain r → plain r') →
  scheduler s' = with_active (scheduler s) (<[k := r']> (active_ (scheduler s))) →
  progress s' = progress s → preempted_ids s' = preempted_ids s →
  completed_requests s' = completed_requests s →
  preemptions (replay_metrics s') = preemptions (replay_metrics s) → calm s'.
Proof.
  intros [] Hk Hkey H1 H2 H3 H4 H5. unfold cache, queued in *.
  split; unfold cache, queued; rewrite ?H1, ?H2, ?H3, ?H4, ?H5; try done; simpl.
  - rewrite !Forall_app in *. destruct calm_plain0 as (? & Ha & ?). split_and!; [done| |done].
    apply Forall_insert; [done|]. apply Hkey. exact (proj1 (Forall_lookup _ _) Ha k r Hk).
  - rewrite !length_app, length_insert in *. done.
  - by rewrite length_insert.
Qed.

Lemma chunk_done_calm v s k r i p chunk :
  replay_wf v s → calm s → active_ (scheduler s) !! k = Some r → progress s !! i = Some p →
  follows config r p → 0 < chunk <= remaining_prefill_tokens r →
  let s' := chunk_done i p (request_id r) chunk s in calm s' ∧ todo s' < todo s.
Proof.
  intros Hwf Hcalm Hk Hi Hf Hc s'.
  destruct (chunk_done_wf trace config n Hok v s k r i p chunk Hwf Hk Hi Hf Hc) as (_ & Hp & _ & _).
  pose proof (s_queues _ (p_sched _ _ _ _ _ Hwf)) as Hq.
  assert (scheduler s' = with_active (scheduler s)
    (<[k := step_request chunk r]> (active_ (scheduler s)))) as Hs' by by apply complete_step_at.
  fold s' in Hp. split.
  - set (p' := p <| committed ::= λ n, n ⊞ chunk |>) in *.
    assert (calm (set_at (Z.of_nat i) p' s)) as Hset.
    { eapply (calm_progress s _ i p p' Hcalm Hi (set_at_progress _ _ _)); try done.
      - exact (proj1 (Forall_lookup _ _) (calm_anchored _ Hcalm) i p Hi).
      - intros sid Hsid. exact (calm_present _ Hcalm i p sid Hi Hsid). }
    eapply (calm_active (set_at (Z.of_nat i) p' s) s' k r _ Hset Hk); [|exact Hs'|done..].
    unfold step_request. by repeat case_match.
  - rewrite (todo_insert s s' i p _ Hi Hp).
    assert (request_ok config (request p)) as Hreq.
    { apply (proj1 (Forall_forall _ _) (ok_requests _ _ Hok)). eapply progress_known; [exact Hwf|exact Hi]. }
    assert (active_ok r) as Hact by apply (proj1 (Forall_lookup _ _) (q_active _ Hq) _ _ Hk).
    destruct (chunk_follows config r p chunk Hreq Hf Hact Hc) as (Hf' & Hrem & _).
    pose proof (f_committed _ _ _ Hf) as Hcom. pose proof (f_committed _ _ _ Hf') as Hcom'.
    destruct (f_prefill _ _ _ Hf) as [Hd _]; [lia|]. pose proof (f_prompt _ _ _ Hf) as Hpr.
    rewrite Hrem in Hcom'. unfold weight. rewrite (f_unfinished _ _ _ Hf), (f_unfinished _ _ _ Hf').
    change (request (p <| committed ::= λ n, n ⊞ chunk |>)) with (request p).
    change (decoded (p <| committed ::= λ n, n ⊞ chunk |>)) with (decoded p) in Hcom'.
    assert (prompt_tokens (step_request chunk r) = prompt_tokens r) as Hps
      by (unfold step_request; by repeat case_match).
    rewrite Hps in Hcom'.
    unfold request_tokens. rewrite Hcom', Hcom, Hd, Hpr. lia.
Qed.
(** *** Forking *)

(** What a fork leaves of the sequences. *)
Lemma fork_sequences m parent md :
  mgr_wf m →
  (∀ st, sequences_ m !! parent = Some st → sm_request_id md = rid_of st) →
  let '(ok, m') := fork_sequence m parent md in
  (∀ sid st, sequences_ m !! sid = Some st → sequences_ m' !! sid = Some st) ∧
  (ok = true → ∃ st, sequences_ m' !! sm_sequence_id md = Some st ∧ rid_of st = sm_request_id md).
Proof.
  intros Hwf Hid.
  destruct (sequences_ m !! parent) as [st|] eqn:Hp; [|unfold fork_sequence; by rewrite Hp].
  destruct (sequences_ m !! sm_sequence_id md) as [x|] eqn:Hc;
    [unfold fork_sequence; by rewrite Hp, Hc|].
  destruct (all_resident (tables st)) eqn:Hres; [|unfold fork_sequence; by rewrite Hp, Hc, Hres].
  destruct (fork_structure m parent st md Hp Hc Hres) as (_ & _ & child & Hs & Hmd & _).
  destruct (fork_sequence m parent md) as [ok m']. simpl in Hs. rewrite Hs. split.
  - intros sid y Hy. rewrite lookup_insert_ne; [done|]. intros <-. congruence.
  - intros _. exists child. by rewrite lookup_insert_eq, Hmd.
Qed.

Lemma fork_branch_calm v s i p :
  replay_wf v s → calm s → progress s !! i = Some p → tr_request_id (request p) ∈ sequences p →
  runs (fork_branch (Z.of_nat i) s) (λ s', calm s' ∧ ∃ p', progress s' = <[i:=p']> (progress s) ∧
    request p' = request p ∧ tr_request_id (request p) ∈ sequences p' ∧ weight p' = weight p).
Proof.
  intros Hwf Hcalm Hi Hroot. unfold fork_branch. rewrite vec_get_nat, Hi. cbn [mbind option_bind].
  set (child := mkSequenceMetadata _ _ _ _). set (s1 := s <| next_fork_sequence ::= _ |>).
  change (cache s1) with (cache s). pose proof (replay_mgr _ _ _ _ _ Hwf) as Hm.
  assert (∀ st, sequences_ (cache s) !! tr_request_id (request p) = Some st →
    sm_request_id child = rid_of st) as Hid.
  { intros st Hs. destruct (calm_present _ Hcalm i p _ Hi Hroot) as (st' & Hs' & Hid').
    change (tr_request_id (request p) = rid_of st). rewrite <-Hid'. congruence. }
  pose proof (fork_sequences (cache s) _ child Hm Hid) as Hseq.
  pose proof (laid_fork spine reach (cache s) _ child Hm (calm_laid _ Hcalm) Hid) as Hl.
  destruct (fork_sequence _ _ _) as [ok m']. cbn [snd] in Hl. destruct Hseq as [Hkeep Hnew].
  assert (calm (set_cache m' s1)) as Hcalm1.
  { eapply calm_cache; [exact Hcalm|exact Hl| |done..]. intros j q sid Hj Hsid.
    destruct (calm_present _ Hcalm j q sid Hj Hsid) as (st & Hs & ?). exists st. split; [by apply Hkeep|done]. }
  destruct ok; cbn [runs].
  2:{ split; [exact Hcalm1|]. exists p. split_and!; try done. symmetry. by apply list_insert_id. }
  set (p' := branch_progress (sm_sequence_id child) p). set (s2 := _ <| replay_metrics ::= _ |>).
  assert (progress (set_at (Z.of_nat i) p' s2) = <[i:=p']> (progress s)) as Hp
    by exact (set_at_progress i p' s2).
  assert (tr_request_id (request p) ∈ sequences p') as Hroot'
    by (unfold p'; rewrite branch_sequences, elem_of_app; by left).
  split; [|by exists p']. eapply (calm_progress (set_cache m' s1) _ i p p' Hcalm1 Hi Hp); try done.
  - by right.
  - intros sid. unfold p'. rewrite branch_sequences. intros [Hsid| ->%list_elem_of_singleton]%elem_of_app.
    + by eapply (calm_present _ Hcalm1 i p).
    + by destruct (Hnew eq_refl) as (st & ? & ?); exists st.
Qed.

Lemma fork_branches_calm v {A} (l : list A) s r i p :
  replay_wf v s → calm s → r ∈ active_ (scheduler s) → progress s !! i = Some p →
  follows config r p → remaining_prefill_tokens r = 0 → admitted p = true →
  Z.of_nat (length (sequences p)) + Z.of_nat (length l) <= branches (request p) →
  tr_request_id (request p) ∈ sequences p →
  runs (foldM (λ s _, fork_branch (Z.of_nat i) s) s l) (λ s', calm s' ∧ todo s' = todo s).
Proof.
  revert s p. induction l as [|x l IH]; intros s p Hwf Hcalm Hr Hi Hf Hrem Hadm Hlen Hroot; [done|].
  cbn [foldM length] in *.
  pose proof (fork_branch_wf trace config n Hok v s r i p Hwf Hr Hi Hf Hrem Hadm ltac:(lia)) as H1.
  pose proof (fork_branch_calm v s i p Hwf Hcalm Hi Hroot) as H2.
  destruct (fork_branch (Z.of_nat i) s) as [s1|]; [|done]. cbn [runs mbind option_bind] in *.
  destruct H1 as (Hwf1 & Hq & p1 & Hp1 & Hf1 & Hadm1 & Hreq1 & Hle).
  destruct H2 as (Hcalm1 & p2 & Hp2 & _ & Hroot2 & Hw).
  assert (p1 = p2) as ->.
  { apply lookup_lt_Some in Hi.
    pose proof (list_lookup_insert_eq (progress s) i p1 Hi) as E. rewrite <-Hp1, Hp2 in E.
    rewrite list_lookup_insert_eq in E by done. by injection E. }
  assert (progress s1 !! i = Some p2) as Hi1.
  { rewrite Hp2. apply list_lookup_insert_eq. by eapply lookup_lt_Some. }
  eapply runs_mono; [eapply (IH s1 p2); try done|].
  - by rewrite (queues_active _ _ Hq).
  - rewrite Hreq1. lia.
  - by rewrite Hreq1.
  - intros s2 [? ->]. split; [done|]. rewrite (todo_insert s s1 i p p2 Hi Hp2). lia.
Qed.
Lemma begin_decode_calm v s r i p :
  replay_wf v s → calm s → r ∈ active_ (scheduler s) → progress s !! i = Some p →
  follows config r p → remaining_prefill_tokens r = 0 → admitted p = true →
  (length (sequences p) ≤ 1)%nat → tr_request_id (request p) ∈ sequences p →
  runs (begin_decode config (Z.of_nat i) s) (λ s', calm s' ∧ todo s' = todo s).
Proof.
  intros Hwf Hcalm Hr Hi Hf Hrem Hadm Hlen Hroot. unfold begin_decode. rewrite vec_get_nat, Hi.
  cbn [mbind option_bind]. rewrite (roomy_plain Hroomy). cbn [andb].
  eapply (fork_branches_calm v); [done..| |done]. rewrite length_seqZ. unfold branches. lia.
Qed.

(** *** One entry of the plan *)

Lemma prefill_start_calm v s i p r :
  replay_wf v s → calm s → r ∈ active_ (scheduler s) → progress s !! i = Some p →
  follows config r p →
  runs (if admitted p then Some s else note_admission config s (Z.of_nat i) (request_id r) p)
    (λ s1, calm s1 ∧ todo s1 = todo s ∧ ∃ p1, progress s1 !! i = Some p1 ∧
      request p1 = request p ∧ tr_request_id (request p) ∈ sequences p1).
Proof.
  intros Hwf Hcalm Hr Hi Hf. destruct (admitted p) eqn:Hadm.
  { split_and!; [done..|]. exists p. split_and!; [done..|].
    destruct (proj1 (Forall_lookup _ _) (calm_anchored _ Hcalm) i p Hi) as [[_ Hfin]|]; [|done].
    rewrite (f_unfinished _ _ _ Hf) in Hfin. by specialize (Hfin Hadm). }
  eapply runs_mono; [by apply (note_admission_calm v s i p r)|].
  intros s1 (Hcalm1 & p1 & Hp1 & Hreq & Hroot & Hw). split; [done|].
  split; [rewrite (todo_insert s s1 i p p1 Hi Hp1); lia|]. exists p1. split_and!; [|done..].
  rewrite Hp1. apply list_lookup_insert_eq. by eapply lookup_lt_Some.
Qed.
Lemma prefill_one_calm v s entry :
  replay_wf v s → calm s → owes s entry →
  runs (prefill_one trace config s entry) (λ s', calm s' ∧ todo s' < todo s).
Proof.
  destruct entry as [id chunk]. intros Hwf Hcalm (r & Hr & Hid & Hc). cbn [fst snd] in *. subst id.
  destruct (queued_progress _ _ _ _ _ _ Hwf (queued_active _ _ Hr)) as (i & p & Hi & Hf).
  unfold prefill_one. cbv beta iota. pose proof (progress_of_at _ _ _ Hok v s i p Hwf Hi) as Hat.
  rewrite (f_id _ _ _ Hf) in Hat. rewrite Hat. cbn [mbind option_bind].
  run_step (runs_and _ _ _ (prefill_start trace config n Hok v s i p r Hwf Hr Hi Hf)
    (prefill_start_calm v s i p r Hwf Hcalm Hr Hi Hf)).
  intros s1 ((Hwf1 & Hs1 & p1 & Hi1 & Hf1 & Hadm1) & Hcalm1 & Htodo1 & p1' & Hi1' & Hreq1 & Hroot1).
  simplify_eq. rewrite vec_get_nat, Hi1. cbn [mbind option_bind].
  run_step (calm_loop v (prefill_position config p1) (seqZ 0 chunk) s1 Hwf1 Hcalm1).
  { intros s2 x _ Hwf2 Hcalm2 Hq2. eapply (prefill_position_calm v p1 s2 x i p1 r); try done.
    - rewrite (same_queues_queued _ _ (quiet_queues _ _ Hq2)). apply queued_active. by rewrite Hs1.
    - by rewrite (quiet_progress _ _ Hq2).
    - lia.
    - by rewrite Hreq1. }
  intros s2 (Hwf2 & Hq2 & Hcalm2). fold (chunk_done i p1 (request_id r) chunk s2).
  apply list_elem_of_lookup_1 in Hr as [k Hk].
  assert (active_ (scheduler s2) !! k = Some r) as Hk2
    by (rewrite (queues_active _ _ (quiet_queues _ _ Hq2)), Hs1; done).
  assert (progress s2 !! i = Some p1) as Hi2 by (rewrite (quiet_progress _ _ Hq2); done).
  assert (todo s2 = todo s) as Htodo2
    by (unfold todo in *; rewrite (quiet_progress _ _ Hq2); done).
  destruct (chunk_done_wf trace config n Hok v s2 k r i p1 chunk) as (Hwf3 & Hp3 & Ha3 & Hpre3); [done..|].
  destruct (chunk_done_calm v s2 k r i p1 chunk) as (Hcalm3 & Htodo3); [done..|].
  set (s3 := chunk_done i p1 (request_id r) chunk s2) in *.
  pose proof (s_queues _ (p_sched _ _ _ _ _ Hwf2)) as Hq.
  assert (active_ (scheduler s3) !! k = Some (step_request chunk r)) as Hk3.
  { rewrite Ha3. apply list_lookup_insert_eq. by eapply lookup_lt_Some. }
  case_decide as Hst; [|cbn [runs]; split; [done|]; rewrite <-Htodo2; exact Htodo3].
  assert (rq_state (step_request chunk r) = Decode) as Hdec.
  { pose proof (state_active _ _ _ (s_queues _ (p_sched _ _ _ _ _ Hwf3)) Hk3) as Hs3.
    rewrite step_request_id in Hs3. enough (Some (rq_state (step_request chunk r)) = Some Decode)
      by congruence. rewrite <-Hs3. exact Hst. }
  destruct (chunk_follows config r p1 chunk) as (Hf3 & _ & Hlen); [|done| |done|].
  { apply (proj1 (Forall_forall _ _) (ok_requests _ _ Hok)).
    eapply progress_known; [exact Hwf2|exact Hi2]. }
  { apply (proj1 (Forall_lookup _ _) (q_active _ Hq) _ _ Hk2). }
  eapply runs_mono; [eapply (begin_decode_calm v s3 (step_request chunk r) i); try done|].
  - by eapply list_elem_of_lookup_2.
  - rewrite Hp3. apply list_lookup_insert_eq. by eapply lookup_lt_Some.
  - apply step_decodes; [|done..]. apply (proj1 (Forall_lookup _ _) (q_active _ Hq) _ _ Hk2).
  - change (tr_request_id (request p1) ∈ sequences p1). by rewrite Hreq1.
  - intros s4 [? ->]. split; [done|]. rewrite <-Htodo2. exact Htodo3.
Qed.

Lemma prefill_all_calm v entries s :
  replay_wf v s → calm s → NoDup (entries.*1) → Forall (owes s) entries →
  runs (foldM (prefill_one trace config) s entries) (λ s',
    calm s' ∧ todo s' + Z.of_nat (length entries) <= todo s).
Proof.
  revert s. induction entries as [|e es IH]; intros s Hwf Hcalm Hnd Ho; [simpl; split; [done|lia]|].
  apply NoDup_cons in Hnd as [Hne Hnd]. apply Forall_cons in Ho as [He Ho]. cbn [foldM length].
  run_step (runs_and _ _ _ (prefill_one_wf trace config n Hok v s e Hwf He)
    (prefill_one_calm v s e Hwf Hcalm He)).
  intros s1 ([Hwf1 Hsp] & Hcalm1 & Htodo1).
  eapply runs_mono; [apply IH; [done..|]|].
  - apply Forall_forall. intros x Hx. eapply spares_owes; [exact Hsp| |].
    + intros Heq. apply Hne. rewrite <-Heq. by apply list_elem_of_fmap_2.
    + by apply (proj1 (Forall_forall _ _) Ho).
  - intros s2 [? ?]. split; [done|lia].
Qed.

(** ** Decode *)

(** With a free frame, every sequence of the request grows. *)
Lemma grow_calm v s r i p sid :
  replay_wf v s → calm s → r ∈ active_ (scheduler s) → progress s !! i = Some p →
  follows config r p → progress_ok r → sid ∈ sequences p →
  runs (grow config s (committed p) sid) (λ '(ok, s'),
    ok = true ∧ replay_wf v s' ∧ quiet s s' ∧ calm s').
Proof.
  intros Hwf Hcalm Hr Hi Hf Hp Hsid. pose proof (replay_mgr _ _ _ _ _ Hwf) as Hm.
  pose proof (progress_known _ _ _ _ _ _ _ Hwf Hi) as Hin.
  destruct (request_facts _ Hin) as ([Hpos Hs Hg _ _] & _).
  pose proof (ok_tpb _ _ Hok). destruct (p_pool _ _ _ _ _ Hwf) as [_ Ht Hn].
  pose proof (f_committed _ _ _ Hf) as Hc. pose proof (f_decoded _ _ _ Hf).
  pose proof (f_prompt _ _ _ Hf) as Hpr. pose proof (limits_nonneg trace config).
  pose proof (ok_store _ _ Hok). pose proof Hp as Hp'. unfold progress_ok in Hp'.
  assert (committed p / tpb + 1 <= reach_blocks (request p)) as Hle
    by (unfold entry_blocks; apply Z.add_le_mono_r, Z.div_le_mono; lia).
  pose proof (block_limit_elem trace config _ Hin) as Hlim.
  pose proof (Z.div_pos (committed p) tpb ltac:(lia) ltac:(lia)) as Hdiv.
  destruct (calm_present _ Hcalm i p sid Hi Hsid) as (st & Hst & Hid).
  pose proof (grow_wf trace config n Hok v s r i p sid Hwf (queued_active _ _ Hr) Hi Hf Hp) as Hrun.
  pose proof (laid_grow spine reach (cache s) sid (committed p) tpb st Hm (calm_laid _ Hcalm)) as Hgrow.
  pose proof (grow_carries (cache s) sid (committed p) tpb (block_limit trace config) Hm Ht) as Hcar.
  unfold grow in *. destruct (ensure_capacity _ _ _ _) as [[ok m']|]; [|done].
  cbn [runs mbind option_bind] in *. destruct Hrun as [Hwf' Hq].
  destruct Hgrow as [Hgo Hl]; [done|done|done|lia|lia|done|lia| |by eapply calm_free|].
  { rewrite Hid. unfold reach. rewrite (asked_progress _ _ _ _ Hwf Hi). simpl. lia. }
  destruct Hcar as (_ & _ & Htags); [lia|lia|lia|rewrite Hn; lia|lia|apply (p_sized _ _ _ _ _ Hwf)|].
  split_and!; [done..|]. eapply calm_cache; [exact Hcalm|exact Hl| |done..].
  eapply present_tags, Hcalm. exact Htags.
Qed.

Lemma grow_all_calm v s r i p :
  replay_wf v s → calm s → r ∈ active_ (scheduler s) → progress s !! i = Some p →
  follows config r p → progress_ok r →
  runs (loop (λ s sid, grow config s (committed p) sid) s (sequences p)) (λ '(ok, s'),
    ok = true ∧ replay_wf v s' ∧ quiet s s' ∧ calm s').
Proof.
  intros Hwf Hcalm Hr Hi Hf Hp.
  apply (runs_loop _ (λ _ s', replay_wf v s' ∧ quiet s s' ∧ calm s')); [done|].
  intros don sid rest s1 Hl (Hwf1 & Hq1 & Hcalm1).
  eapply runs_mono; [apply (grow_calm v s1 r i p sid); try done|].
  - by rewrite (queues_active _ _ (quiet_queues _ _ Hq1)).
  - by rewrite (quiet_progress _ _ Hq1).
  - rewrite Hl, elem_of_app. right. by left.
  - intros [ok s2] (-> & ? & Hq2 & ?). split_and!; [done..|by eapply quiet_trans|done].
Qed.

(** A position past the prompt lies beyond the shared blocks. *)
Lemma spine_below v s i p pos :
  replay_wf v s → progress s !! i = Some p → tr_prompt_tokens (request p) <= pos →
  Z.of_nat (spine (tr_request_id (request p))) <= pos / tpb.
Proof.
  intros Hwf Hi Hpos. pose proof (progress_known _ _ _ _ _ _ _ Hwf Hi) as Hin.
  destruct (request_facts _ Hin) as ([Hp _ _ _ _] & _). pose proof (ok_tpb _ _ Hok).
  destruct (request_cost _ Hin) as [[Hone _] _].
  unfold spine. rewrite (asked_progress _ _ _ _ Hwf Hi). simpl. rewrite Z2Nat.id by lia.
  unfold blocks_needed. replace (tr_prompt_tokens (request p) + tpb - 1)
    with (tr_prompt_tokens (request p) - 1 + 1 * tpb) by lia.
  rewrite Z.div_add by lia. rewrite Z.add_simpl_r. apply Z.div_le_mono; lia.
Qed.
(** *** A token *)

(** The last token: the request leaves with its sequences. *)
Lemma end_calm v s s' k r i p :
  replay_wf v s → calm s → active_ (scheduler s) !! k = Some r → progress s !! i = Some p →
  follows config r p → scheduler s' = cancel (scheduler s) (request_id r) →
  progress s' = <[i := end_progress p]> (progress s) → preempted_ids s' = preempted_ids s →
  completed_requests s' = completed_requests s + 1 →
  preemptions (replay_metrics s') = preemptions (replay_metrics s) → calm s'.
Proof.
  intros Hwf Hcalm Hk Hi Hf Hs Hp Hpk Hc Hpre.
  pose proof (s_queues _ (p_sched _ _ _ _ _ Hwf)) as Hq. pose proof (replay_mgr _ _ _ _ _ Hwf) as Hm.
  rewrite (cancel_active_at _ _ _ Hq Hk) in Hs.
  destruct (release_request_spec (cache s) (request_id r) Hm) as (_ & _ & Hseq & _).
  destruct Hcalm as []. unfold cache, queued in *.
  split; unfold cache, queued; rewrite ?Hs, ?Hp, ?Hpk, ?Hc, ?Hpre; try done; simpl.
  - by apply laid_release.
  - apply Forall_insert; [done|]. left. by split.
  - intros j q sid [(-> & <- & _)|[Hne Hj]]%list_lookup_insert_Some Hsid;
      [by apply not_elem_of_nil in Hsid|].
    destruct (calm_present0 j q sid Hj Hsid) as (st & Hst & Hid). exists st. split; [|done].
    apply Hseq. split; [done|]. rewrite Hid. intros Heq. apply Hne.
    destruct (progress_unique _ _ _ Hok v s i j p q Hwf Hi Hj) as [-> _]; [|done].
    rewrite Heq. by apply (f_id _ _ _ Hf).
  - rewrite !Forall_app in *. destruct calm_plain0 as (? & Ha & ?). split_and!; [done| |done].
    rewrite (delete_Permutation _ _ _ Hk) in Ha. by apply Forall_cons in Ha as [_ ?].
  - rewrite !length_app in *. pose proof (length_delete _ k ltac:(by eexists) : length (delete k (active_ (scheduler s))) = _) as Hd.
    apply lookup_lt_Some in Hk. rewrite Hd. lia.
  - pose proof (length_delete _ k ltac:(by eexists) : length (delete k (active_ (scheduler s))) = _) as Hd.
    rewrite Hd. lia.
Qed.
Lemma note_token_core plan id p s :
  let s' := note_token plan id p s in
  preempted_ids s' = preempted_ids s ∧ preemptions (replay_metrics s') = preemptions (replay_metrics s).
Proof. unfold note_token. by destruct (_ =? 1). Qed.

(** A request that decodes is one token short of its goal at least. *)
Lemma weight_decoding r p :
  follows config r p → remaining_prefill_tokens r = 0 →
  weight p = Z.max 1 (decode_actual (request p)) - decoded p.
Proof.
  intros [] Hrem. unfold weight, request_tokens. rewrite f_unfinished, f_committed, Hrem, f_prompt. lia.
Qed.

Lemma decode_token_calm v plan s k r i p :
  replay_wf v s → calm s → active_ (scheduler s) !! k = Some r → progress s !! i = Some p →
  follows config r p → remaining_prefill_tokens r = 0 →
  runs (decode_token config plan s (Z.of_nat i) (request_id r) p) (λ s', calm s' ∧ todo s' < todo s).
Proof.
  intros Hwf Hcalm Hk Hi Hf Hrem. pose proof (s_queues _ (p_sched _ _ _ _ _ Hwf)) as Hq.
  assert (active_ok r) as (_ & Hpr & _ & Hst)
    by apply (proj1 (Forall_lookup _ _) (q_active _ Hq) _ _ Hk).
  assert (rq_state r = Decode) as Hdec by (destruct Hst as [[]|[]]; [lia|done]).
  assert (request_ok config (request p)) as Hreq.
  { apply (proj1 (Forall_forall _ _) (ok_requests _ _ Hok)). eapply progress_known; [exact Hwf|exact Hi]. }
  destruct (token_counts config r p Hreq Hf Hpr) as [Hc1 Hd1].
  pose proof (f_decoded _ _ _ Hf) as Hd. pose proof (f_committed _ _ _ Hf) as Hc.
  pose proof (weight_decoding r p Hf Hrem) as Hw. pose proof (f_prompt _ _ _ Hf) as Hprompt.
  unfold progress_ok in Hpr. unfold decode_token.
  run_step (calm_loop v (λ s sid, touch config s sid (committed p)) (sequences p) s Hwf Hcalm).
  { intros s1 sid Hsid Hwf1 Hcalm1 Hq1. assert (progress s1 !! i = Some p) as Hi1
      by (rewrite (quiet_progress _ _ Hq1); done).
    eapply touch_calm; [done..|lia|]. left. eapply spine_below; [done..|lia]. }
  intros s1 (Hwf1 & Hq1 & Hcalm1). fold (token_progress p).
  fold (note_token plan (request_id r) (token_progress p) s1). cbv zeta.
  change (request (token_progress p)) with (request p).
  assert (active_ (scheduler s1) !! k = Some r) as Hk1
    by (rewrite (queues_active _ _ (quiet_queues _ _ Hq1)); done).
  assert (progress s1 !! i = Some p) as Hi1 by (rewrite (quiet_progress _ _ Hq1); done).
  pose proof (s_queues _ (p_sched _ _ _ _ _ Hwf1)) as Hqw1.
  destruct (note_token_spec plan s1 k r p) as (Hs3 & Hp3 & Hl3 & Hc3 & Hm3 & _); [done..|lia|done|].
  destruct (note_token_core plan (request_id r) (token_progress p) s1) as [Hpk3 Hpre3].
  set (s3 := note_token plan (request_id r) (token_progress p) s1) in *. clearbody s3.
  assert (todo s1 = todo s) as Htodo1 by (unfold todo; by rewrite (quiet_progress _ _ Hq1)).
  rewrite <-Htodo1.
  destruct (Z.leb_spec (decode_actual (request p)) (decoded (token_progress p))) as [Hend|Hgo].
  - pose proof (calm_queued _ Hcalm1). pose proof (ok_count _ _ Hok).
    assert (0 <= completed_requests s1)
      by (rewrite (p_done _ _ _ _ _ Hwf1); apply flagged_range).
    cbn [runs]. match goal with |- calm ?X ∧ _ => set (s4 := X) end.
    assert (progress s4 = <[i := end_progress p]> (progress s1)) as Hp4
      by (rewrite <-Hp3; apply (set_at_progress i (end_progress p) s3)).
    split.
    + eapply (end_calm v s1 s4 k r i p Hwf1 Hcalm1 Hk1 Hi1 Hf);
        [unfold s4; by rewrite <-Hs3|exact Hp4|exact Hpk3| |exact Hpre3].
      transitivity (completed_requests s3 ⊕ 1); [done|]. rewrite Hc3. apply u64_small. words.
    + rewrite (todo_insert s1 s4 i p _ Hi1 Hp4). change (weight (end_progress p)) with 0. lia.
  - cbn [runs]. assert (progress (set_at (Z.of_nat i) (token_progress p) s3)
      = <[i := token_progress p]> (progress s1)) as Hp4 by (rewrite <-Hp3; apply set_at_progress).
    split.
    + eapply (calm_progress s1 _ i p (token_progress p) Hcalm1 Hi1 Hp4); try done.
      * exact (proj1 (Forall_lookup _ _) (calm_anchored _ Hcalm1) i p Hi1).
      * intros sid Hsid. exact (calm_present _ Hcalm1 i p sid Hi1 Hsid).
    + rewrite (todo_insert s1 _ i p _ Hi1 Hp4). unfold weight at 2.
      change (finished (token_progress p)) with (finished p).
      change (request (token_progress p)) with (request p).
      rewrite (f_unfinished _ _ _ Hf), Hc1, Hw. unfold request_tokens. lia.
Qed.

(** *** The decode list *)

Lemma decode_one_calm v plan flags s id :
  replay_wf v s → calm s → serving s id →
  runs (decode_one trace config plan (flags, s) id) (λ '(flags', s'),
    calm s' ∧ todo s' < todo s ∧ progress_made flags' = true ∧ growth_failed flags' = growth_failed flags).
Proof.
  intros Hwf Hcalm (r & Hr & <- & Hrem). rewrite (calm_preempted _ Hcalm), app_nil_r in Hr.
  destruct (queued_progress _ _ _ _ _ _ Hwf (queued_active _ _ Hr)) as (i & p & Hi & Hf).
  unfold decode_one. pose proof (progress_of_at _ _ _ Hok v s i p Hwf Hi) as Hat.
  rewrite (f_id _ _ _ Hf) in Hat. rewrite Hat. cbn [mbind option_bind].
  pose proof (s_queues _ (p_sched _ _ _ _ _ Hwf)) as Hq.
  assert (preemption_info (scheduler s) (request_id r) = None) as ->.
  { unfold preemption_info. apply eq_None_not_Some. intros Hin%(q_info _ Hq).
    rewrite (calm_preempted _ Hcalm) in Hin. by apply not_elem_of_nil in Hin. }
  pose proof Hr as [k Hk]%list_elem_of_lookup_1.
  assert (active_ok r) as (_ & Hpr & _) by apply (proj1 (Forall_lookup _ _) (q_active _ Hq) _ _ Hk).
  run_step (grow_all_calm v s r i p); [done..|].
  intros [grew s1] (-> & Hwf1 & Hq1 & Hcalm1). cbn [negb].
  assert (todo s1 = todo s) as <- by (unfold todo; by rewrite (quiet_progress _ _ Hq1)).
  run_step (decode_token_calm v plan s1 k r i p); [done|done| | |done..|].
  - by rewrite (queues_active _ _ (quiet_queues _ _ Hq1)).
  - by rewrite (quiet_progress _ _ Hq1).
  - intros s2 [? ?]. by cbn [runs].
Qed.
Lemma decode_all_calm v plan l flags s :
  replay_wf (v + length l) s → calm s → NoDup l → Forall (serving s) l →
  runs (foldM (decode_one trace config plan) (flags, s) l) (λ '(flags', s'),
    calm s' ∧ todo s' + Z.of_nat (length l) <= todo s ∧
    growth_failed flags' = growth_failed flags ∧
    (progress_made flags = true ∨ l ≠ [] → progress_made flags' = true)).
Proof.
  revert flags s. induction l as [|id l IH]; intros flags s Hwf Hcalm Hnd Hall.
  { simpl. split_and!; [done|lia|done|by intros [|]]. }
  apply NoDup_cons in Hnd as [Hne Hnd]. apply Forall_cons in Hall as [Hid Hall].
  cbn [foldM length] in *. rewrite Nat.add_succ_r in Hwf.
  run_step (runs_and _ _ _ (decode_one_wf trace config n Hok (v + length l) plan flags s id Hwf Hid)
    (decode_one_calm (S (v + length l)) plan flags s id Hwf Hcalm Hid)).
  intros [flags1 s1] ((Hwf1 & Hs1) & Hcalm1 & Htodo1 & Hmade & Hfail).
  eapply runs_mono; [apply IH; [done..|]|].
  - apply Forall_forall. intros id' Hid'. apply Hs1; [by intros ->|].
    by apply (proj1 (Forall_forall _ _) Hall).
  - intros [flags2 s2] (? & ? & Hf2 & Hm2). split_and!; [done|lia|congruence|].
    intros _. apply Hm2. by left.
Qed.
End Calm.
End Facts.
End Live.
