(* ===== verification/PagedLive.v ===== *)
(** The paged replay completes. In a run without pressure every step schedules some
    request, each entry of its plan is served, and the tokens left to serve decrease; so
    the run ends with every request completed. *)
From coqutil Require Import Datatypes.RecordSetters.
From S2P Require Import Prelude.
From S2P Require Import Block.
From S2P Require Import SwapBackend.
From S2P Require Import BlockTable.
From S2P Require Import MemoryAllocator.
From S2P Require Import AllocatorSpec.
From S2P Require Import AllocatorProps.
From S2P Require Import KVCacheManager.
From S2P Require Import CacheInvariant.
From S2P Require Import CacheLemmas.
From S2P Require Import CacheLifecycle.
From S2P Require Import CacheGrowth.
From S2P Require Import CacheSwap.
From S2P Require Import CacheRecords.
From S2P Require Import CacheRelease.
From S2P Require Import Scheduler.
From S2P Require Import SchedulerPlan.
From S2P Require Import SchedulerInvariant.
From S2P Require Import SchedulerAdmission.
From S2P Require Import SchedulerPreemption.
From S2P Require Import SchedulerLoops.
From S2P Require Import SchedulerSteps.
From S2P Require Import SchedulerFit.
From S2P Require Import SchedulerKeys.
From S2P Require Import TraceReplay.
From S2P Require Import CacheClient.
From S2P Require Import CacheFrames.
From S2P Require Import PagedReplay.
From S2P Require Import PagedInvariant.
From S2P Require Import PagedSteps.
From S2P Require Import PagedDecode.
From S2P Require Import PagedRun.
From S2P Require Import PagedProps.
From S2P Require Import PagedCalm.
Import TriangleBracketNotations.
#[local] Open Scope record_set.

Section Live.
Context (trace : Trace) (config : ReplayConfig) (Hok : replay_ok trace config).
Context (Hroomy : roomy trace config).

Abbreviation tpb := (cfg_tokens_per_block config).
Abbreviation prompt_blocks r := (blocks_needed (tr_prompt_tokens r) tpb).
Abbreviation worst_blocks := (worst_blocks config).
Abbreviation asked := (asked trace).
Abbreviation spine := (spine trace config).
Abbreviation reach := (reach trace config).
Abbreviation plain := (plain trace).
Abbreviation calm := (calm trace config).

Section Calm.
Context (n : Z).
Abbreviation replay_wf := (replay_wf trace config n).

(** ** After the plan *)

(** Only counters the invariant does not see. *)
Record accounts (s s' : Replay) : Prop := {
  acc_scheduler : scheduler s' = scheduler s;
  acc_progress : progress s' = progress s;
  acc_parked : preempted_ids s' = preempted_ids s;
  acc_completed : completed_requests s' = completed_requests s;
  acc_preemptions : preemptions (replay_metrics s') = preemptions (replay_metrics s)
}.

Lemma accounts_refl s : accounts s s.
Proof. done. Qed.
Lemma accounts_trans s1 s2 s3 : accounts s1 s2 → accounts s2 s3 → accounts s1 s3.
Proof. intros [] []. split; congruence. Qed.
Lemma accounts_calm s s' : accounts s s' → calm s → calm s'.
Proof. intros []. by apply calm_core. Qed.
Lemma accounts_todo s s' : accounts s s' → todo s' = todo s.
Proof. intros [_ H _ _ _]. unfold todo. by rewrite H. Qed.

Lemma accounts_loop {A} (f : Replay → A → option Replay) l s s' :
  (∀ s x s', f s x = Some s' → calm s → accounts s s') →
  foldM f s l = Some s' → calm s → accounts s s'.
Proof.
  intros Hf. revert s. induction l as [|x l IH]; intros s; simpl; [by intros [= ->]|].
  intros (s1 & Hs & Hl)%bind_Some Hcalm. pose proof (Hf _ _ _ Hs Hcalm) as Hacc.
  eapply accounts_trans; [exact Hacc|]. apply IH; [done|]. by eapply accounts_calm.
Qed.

(** Nothing is parked, so nothing is counted as preempted and nothing resumed. *)
Lemma note_preemption_calm v s id s' :
  replay_wf v s → note_preemption trace s id = Some s' → calm s → accounts s s'.
Proof.
  intros Hwf (b & _ & Hr)%bind_Some Hcalm. destruct b; [by injection Hr as <-|].
  destruct (preemption_info _ _) as [info|] eqn:Hinfo.
  - exfalso. assert (is_Some (preemption_info_ (scheduler s) !! id)) as Hin by by eexists.
    apply (q_info _ (s_queues _ (p_sched _ _ _ _ _ Hwf))) in Hin.
    rewrite (calm_preempted _ _ _ Hcalm) in Hin. by apply not_elem_of_nil in Hin.
  - injection Hr as <-. split; try done.
    change (preempted_ids s ∖ {[id]} = preempted_ids s). rewrite (calm_parked _ _ _ Hcalm).
    apply leibniz_equiv. intros x. rewrite elem_of_difference. split; [by intros [? _]|].
    by intros ?%not_elem_of_empty.
Qed.

Lemma resume_one_calm s id s' : resume_one s id = Some s' → calm s → accounts s s'.
Proof.
  unfold resume_one. intros Hr Hcalm. rewrite (calm_parked _ _ _ Hcalm), decide_False in Hr by (apply not_elem_of_empty).
  by injection Hr as <-.
Qed.

Lemma note_live_calm s id s' : note_live trace config s id = Some s' → calm s → accounts s s'.
Proof.
  intros ([i p] & _ & Hr)%bind_Some Hcalm. case_decide; [by injection Hr as <-|].
  eapply accounts_loop; [|exact Hr|done]. clear. intros s sid s'. unfold note_sequence.
  intros (k & _ & [= <-])%bind_Some _. by destruct (_ <? _).
Qed.

Lemma account_step_calm plan s s' :
  account_step trace config plan s = Some s' → calm s → accounts s s'.
Proof.
  unfold account_step. intros Hr Hcalm.
  match type of Hr with foldM _ ?x _ = _ => assert (accounts s x) as Hacc; [|set (s1 := x) in *] end.
  { split; try done. simpl. by destruct (_ && _). }
  eapply accounts_trans; [exact Hacc|]. eapply accounts_loop; [|exact Hr|by eapply accounts_calm].
  apply note_live_calm.
Qed.
(** ** Scheduling *)

Lemma plain_carried total : carried total plain.
Proof. by split_and!. Qed.

(** What admission leaves of the cache. *)
Definition admitted_cache (prog : list RequestProgress) (m : KVCacheManager HostSwapBackend) : Prop :=
  laid spine reach m ∧ count_of m = 1 ∧ tpb_of m = tpb ∧ present prog m.

Lemma cache_admits prog :
  request <$> prog = requests trace → admits (tracked config prog) (admitted_cache prog).
Proof.
  intros Hreq. split.
  - intros r (i & p & Hi & []). exists i, p. by split.
  - intros m c [] m' Hm (Hl & Hcnt & Ht & Hp) (i & p & Hi & Hf) Hnone; cbn [admission_outcome].
    + intros (st & Hst & Hb). destruct (stage_tpb _ _ _ _ Hst) as [Ht' Hcnt'].
      split_and!; [|by rewrite Hcnt'|by rewrite Ht'|].
      * eapply (laid_stage spine reach m c st m'); try done.
        assert (request p ∈ requests trace) as Hin
          by (rewrite <-Hreq; eapply list_elem_of_fmap_2, list_elem_of_lookup_2, Hi).
        destruct (request_cost trace config Hok Hroomy _ Hin) as [Hpb _]. rewrite <-(f_id _ _ _ Hf).
        unfold spine, reach. rewrite (asked_at _ _ Hok _ _ _ Hreq Hi). simpl.
        rewrite Ht, (f_prompt _ _ _ Hf) in Hb. lia.
      * intros j q sid Hj Hsid. destruct (Hp j q sid Hj Hsid) as (st' & Hs' & ?). exists st'. split; [|done].
        rewrite (stage_seqs _ _ _ _ Hst), lookup_insert_ne; [done|]. intros <-.
        by rewrite (stage_fresh _ _ _ _ Hst) in Hs'.
    + intros (_ & [Hu _] & Hs & Hx & _). split_and!.
      * by eapply laid_same.
      * unfold count_of in *. by rewrite (same_pool_count _ _ Hu).
      * unfold tpb_of in *. by rewrite (same_pool_tpb _ _ Hu).
      * unfold present in *. by rewrite Hs.
Qed.
(** The lifetime blocks of a request without a prefix. *)
Lemma lifetime_exact m c :
  count_of m = 1 → tpb_of m = tpb → rq_prefix_key c = ""%string → 0 <= prompt_tokens c →
  0 <= max_decode_tokens (sampling c) →
  prompt_tokens c + max_decode_tokens (sampling c) + tpb < W32 →
  lifetime_blocks_for (B:=HostSwapBackend) m c <=
    blocks_needed (prompt_tokens c + max_decode_tokens (sampling c)) tpb.
Proof.
  intros Hc Ht Hk Hp Hd Hsum. pose proof (ok_tpb _ _ Hok) as Hpos.
  unfold lifetime_blocks_for. rewrite (decide_True _ _ Hk). cbv zeta.
  rewrite (proj2 (Z.leb_le 0 _)) by done. rewrite Z.sub_0_r.
  replace (if 0 <? prompt_tokens c then prompt_tokens c else 0) with (prompt_tokens c)
    by (destruct (Z.ltb_spec 0 (prompt_tokens c)); lia).
  rewrite u32_small by words. set (t := prompt_tokens c + max_decode_tokens (sampling c)) in *.
  destruct (blocks_needed_spec t tpb) as [Hb Hbt]; [lia..|].
  unfold count_of, table_count, pool_shape in Hc. unfold tpb_of, tokens_per_block_of in Ht.
  unfold blocks_for_tokens. destruct (block (allocator_ m) 0) as [b|]; [|simpl in *; lia].
  rewrite Ht, Hc. rewrite (proj2 (Z.eqb_neq tpb 0)) by lia.
  change (u32 (t ⊞ tpb - 1) / tpb) with (ceil_blocks t tpb).
  rewrite ceil_blocks_exact by (lia || words).
  rewrite Z.mul_1_r. apply Z.eq_le_incl, u32_small. split; [done|]. nia.
Qed.

(** The first request of the queue fits an empty pool. *)
Lemma waiting_head_fits v s c cs :
  replay_wf v s → calm s → pending_ (scheduler s) = c :: cs → active_ (scheduler s) = [] →
  admissible (cache s) c ∧
  lifetime_held_ (scheduler s) + lifetime_blocks_for (cache s) c
    <= max_blocks (config_ (sched_allocator (scheduler s))).
Proof.
  intros Hwf Hcalm Hp Ha. pose proof (p_sched _ _ _ _ _ Hwf) as Hsw.
  pose proof (replay_mgr _ _ _ _ _ Hwf) as Hm. pose proof (ok_tpb _ _ Hok).
  destruct (p_pool _ _ _ _ _ Hwf) as [Hmax Ht Hcnt].
  assert (c ∈ queued s) as Hc by (apply queued_pending; rewrite Hp; by left).
  destruct (proj1 (Forall_forall _ _) (calm_plain _ _ _ Hcalm) c Hc) as (Hkey & t & Hask & Hdec).
  destruct (queued_progress _ _ _ _ _ _ Hwf Hc) as (i & p & Hi & Hf).
  rewrite <-(f_id _ _ _ Hf), (asked_progress _ _ Hok _ _ _ _ _ Hwf Hi) in Hask. injection Hask as <-.
  pose proof (progress_known _ _ _ _ _ _ _ Hwf Hi) as Hin.
  destruct (request_facts trace config Hok Hroomy _ Hin) as ([Hpos _ _ Hb _] & Hbud & Hsum & _).
  destruct (request_cost trace config Hok Hroomy _ Hin) as [Hpb _]. pose proof (pool_worst trace config Hok Hroomy _ Hin) as Hpool.
  pose proof (roomy_places _ _ Hroomy). pose proof (branches_pos (request p)).
  assert (∀ sid, sequences_ (cache s) !! sid = None) as Hempty.
  { intros sid. apply eq_None_not_Some. intros [st Hs].
    pose proof (s_owned _ Hsw sid st Hs) as Ho. rewrite Ha, (calm_preempted _ _ _ Hcalm) in Ho.
    by apply not_elem_of_nil in Ho. }
  pose proof (f_prompt _ _ _ Hf) as Hpr.
  destruct (blocks_needed_spec (decode_budget (request p)) tpb) as [Hdb0 Hdb]; [lia|words|].
  assert (worst_blocks (request p) <= cfg_max_blocks config) as Hworst.
  { etransitivity; [|exact Hpool]. unfold worst_blocks. nia. }
  split.
  - split; [lia|done|apply Hempty|]. unfold admission_blocks. rewrite Hcnt, Ht, Hpr, Z.mul_1_r.
    pose proof (laid_used spine reach (cache s) [] (λ _, 0) Hm (calm_laid _ _ _ Hcalm)) as Hused.
    rewrite Hmax in Hused. simpl in Hused.
    specialize (Hused (NoDup_nil_2)). unfold worst_blocks in Hworst.
    assert (cfg_max_blocks config - nfree (allocator_ (cache s)) <= 0); [|nia].
    apply Hused; [|by intros ? ?%not_elem_of_nil]. intros sid st Hs. by rewrite Hempty in Hs.
  - rewrite (q_held _ (s_queues _ Hsw)), Ha. unfold lifetime_of. simpl.
    unfold sched_allocator. fold (cache s). rewrite Hmax. etransitivity; [|exact Hworst].
    etransitivity; [apply lifetime_exact; rewrite ?Hpr, ?Hdec; try done; lia || words|].
    rewrite Hpr, Hdec. unfold worst_blocks.
    destruct (blocks_needed_spec (tr_prompt_tokens (request p)) tpb) as [_ Hpbs]; [lia..|].
    assert (blocks_needed (tr_prompt_tokens (request p) + decode_budget (request p)) tpb
      <= prompt_blocks (request p) + blocks_needed (decode_budget (request p)) tpb).
    { unfold blocks_needed at 1. apply Z.lt_succ_r, Z.div_lt_upper_bound; nia. }
    nia.
Qed.
(** A plan over running requests is not empty. *)
Lemma plan_serves cfg active plan :
  plan_ok cfg active plan → 0 < max_batch_tokens cfg → Forall active_ok active → active ≠ [] →
  prefill_requests plan ++ decode_requests plan ≠ [].
Proof.
  intros [[Hlen _ Hsum _] _ _ _ Hgreedy] Hb Hact Hne. destruct Hgreedy as [Hspent|Hall].
  - unfold spent in Hspent. intros [Hp Hd]%app_nil. rewrite Hp, Hd in *. simpl in *.
    destruct (prefill_tokens plan); [simpl in *; lia|done].
  - destruct active as [|r l]; [done|]. apply Forall_cons in Hact as [(_ & _ & _ & Hst) _].
    destruct (Hall r (list_elem_of_here _ _)) as [Hpre Hdec].
    intros [Hp Hd]%app_nil. destruct Hst as [[Hst Hrem]|[Hst _]].
    + specialize (Hpre Hst Hrem). rewrite Hp in Hpre. by apply not_elem_of_nil in Hpre.
    + specialize (Hdec Hst). rewrite Hd in Hdec. by apply not_elem_of_nil in Hdec.
Qed.

Lemma schedule_calm v s :
  replay_wf (v + length (requests trace)) s → calm s → queued s ≠ [] →
  runs (schedule_next (scheduler s)) (λ '(plan, sch),
    prefill_requests plan ++ decode_requests plan ≠ [] ∧
    ∀ s', scheduler s' = sch → progress s' = progress s → preempted_ids s' = preempted_ids s →
      completed_requests s' = completed_requests s →
      preemptions (replay_metrics s') = preemptions (replay_metrics s) → calm s').
Proof.
  intros Hwf Hcalm Hqueue. pose proof (queue_lengths _ _ _ _ _ Hwf) as Hlen.
  pose proof (limits_nonneg trace config) as (_ & _ & Hlim).
  assert (replay_wf (v + length (active_ (scheduler s))) s) as Hwf0
    by (eapply replay_wf_mono; [|done|exact Hwf]; lia).
  pose proof (replay_room _ _ _ Hok _ _ Hwf0) as Hroom.
  pose proof (p_sched _ _ _ _ _ Hwf) as Hsw. pose proof (calm_config _ _ _ Hcalm) as Hcfg.
  assert (preemption_watermark_blocks (sched_config (scheduler s)) = 0) as Hz
    by (rewrite Hcfg; apply (roomy_watermark _ _ Hroomy)).
  pose proof (schedule_next_spec v (cache_limit trace config) (scheduler s) Hsw Hroom) as Hrun.
  apply runs_inv in Hrun as ([plan sch] & Hrun & Hplan & keep & new & p & Had).
  rewrite Hrun. cbn [runs].
  destruct (p_pool _ _ _ _ _ Hwf) as [_ Ht Hcnt].
  assert (Forall (tracked config (progress s)) (pending_ (scheduler s))) as Htr.
  { pose proof (p_tracked _ _ _ _ _ Hwf) as Ht0. unfold queued in Ht0.
    by apply Forall_app in Ht0 as [? _]. }
  destruct (ad_admits _ _ _ _ _ _ _ Had (tracked config (progress s)) (admitted_cache (progress s)) Hz)
    as (_ & (Hl & _ & _ & Hpr) & Hpre).
  { apply cache_admits, (p_requests _ _ _ _ _ Hwf). }
  { exact Htr. }
  { split_and!; [apply Hcalm|exact Hcnt|exact Ht|apply Hcalm]. }
  pose proof Had as [W _ C A P _ _ _ _ Pe _ Sz _ _ _ _ Ca _ _].
  destruct P as (dropped & Ha0 & Hp0). rewrite Hpre, (calm_preempted _ _ _ Hcalm) in Hp0.
  assert (dropped = []) as ->.
  { symmetry in Hp0. apply fmap_nil_inv in Hp0. rewrite <-(reverse_involutive dropped).
    by rewrite Hp0. }
  rewrite app_nil_r in Ha0. split.
  - eapply plan_serves; [exact Hplan| |apply (q_active _ (s_queues _ W))|].
    + rewrite Hcfg. apply (roomy_batch _ _ Hroomy).
    + rewrite A, <-Ha0. destruct (active_ (scheduler s)) as [|r l] eqn:Hact; [|done].
      destruct (pending_ (scheduler s)) as [|c cs] eqn:Hpend.
      { exfalso. apply Hqueue. unfold queued. by rewrite Hact, Hpend, (calm_preempted _ _ _ Hcalm). }
      destruct (waiting_head_fits _ s c cs Hwf Hcalm Hpend Hact) as [Hadm Hfit].
      assert (active_ sch ≠ []) as Hsch.
      { eapply (schedule_next_starts _ _ (scheduler s) c cs); try done; rewrite Hcfg;
          [apply (roomy_batch _ _ Hroomy)|apply (roomy_places _ _ Hroomy)]. }
      rewrite A, <-Ha0 in Hsch. exact Hsch.
  - intros s' H1 H2 H3 H4 H5. pose proof Hcalm as []. unfold cache, queued in *.
    split; unfold cache, queued; rewrite ?H1, ?H2, ?H3, ?H4, ?H5; try done.
    + congruence.
    + congruence.
    + apply (Ca plain (plain_carried _)). done.
    + rewrite <-calm_queued. f_equal. rewrite Hpre, A, <-Ha0, !length_app.
      apply Permutation_length in Pe. rewrite length_app, !length_fmap in Pe. lia.
    + rewrite Hcfg in Sz. simpl in Sz. lia.
Qed.
End Calm.

(** ** A step *)

(** A loop over known ids that only counts. *)
Lemma accounts_runs {A} n v (P : A → Prop) (f : Replay → A → option Replay) l s :
  (∀ s x, P x → replay_wf trace config n v s → runs (f s x) (replay_wf trace config n v)) →
  (∀ s x s', replay_wf trace config n v s → f s x = Some s' → calm s → accounts s s') →
  Forall P l → replay_wf trace config n v s → calm s →
  runs (foldM f s l) (λ s', replay_wf trace config n v s' ∧ calm s' ∧ accounts s s').
Proof.
  intros Hf Hacc Hl. revert s. induction Hl as [|x l Hx Hl IH]; intros s Hwf Hcalm; [done|].
  cbn [foldM]. pose proof (Hf s x Hx Hwf) as Hrun. destruct (f s x) as [s1|] eqn:Hs; [|done].
  cbn [runs mbind option_bind] in *. pose proof (Hacc _ _ _ Hwf Hs Hcalm) as Hs1.
  eapply runs_mono; [apply IH; [done|by eapply accounts_calm]|].
  intros s2 (? & ? & ?). split_and!; [done..|by eapply accounts_trans].
Qed.

Lemma step_calm n v s :
  replay_wf trace config n (v + victims_per_step trace) s → calm s →
  completed_requests s < Z.of_nat (length (requests trace)) →
  runs (step_paged trace config s) (λ '(moved, s'), moved = true ∧ calm s' ∧ todo s' < todo s).
Proof.
  intros Hwf Hcalm Hmore. unfold victims_per_step in Hwf. unfold step_paged.
  pose proof (limits_nonneg trace config) as (_ & _ & Hlim).
  assert (queued s ≠ []) as Hqueue.
  { pose proof (calm_queued _ _ _ Hcalm). intros Hnil. rewrite Hnil in *. simpl in *. lia. }
  assert (replay_wf trace config n (v + length (requests trace) + length (requests trace)) s) as Hwf0
    by (eapply replay_wf_mono; [|done|exact Hwf]; lia).
  run_step (runs_and _ _ _ (schedule_wf trace config Hok n (v + length (requests trace)) s Hwf0)
    (schedule_calm n (v + length (requests trace)) s Hwf0 Hcalm Hqueue)).
  intros [plan sch] [[Hplan Hnext] [Hne Hcnext]]. cbv zeta.
  set (s1 := s <| scheduler := sch |> <| replay_metrics ::= _ |>).
  assert (replay_wf trace config (n ⊕ 1) (v + length (requests trace)) s1) as Hwf1.
  { rewrite <-(p_steps _ _ _ _ _ Hwf). by apply (Hnext s1). }
  assert (calm s1) as Hcalm1 by by apply (Hcnext s1).
  destruct (plan_promises _ s1 sch plan Hplan eq_refl (q_active _ (s_queues _ (p_sched _ _ _ _ _ Hwf1))))
    as (Hfst & Hnd & Howes & Hnd2 & Hserve & Hdis).
  rewrite (plan_entries (prefill_requests plan) (prefill_tokens plan)) by
    apply (plan_parallel _ _ (ok_wf _ _ _ Hplan)).
  cbn [mbind option_bind]. set (entries := zip _ _) in *.
  run_step (runs_and _ _ _ (prefill_all_wf trace config (n ⊕ 1) Hok
    (v + length (requests trace)) entries (decode_requests plan) s1 Hwf1 Hnd Howes Hdis Hserve)
    (prefill_all_calm trace config Hok Hroomy (n ⊕ 1) _ entries s1 Hwf1 Hcalm1 Hnd Howes)).
  intros s2 [[Hwf2 Hserve2] [Hcalm2 Htodo2]]. cbv zeta.
  assert (length (decode_requests plan) ≤ length (requests trace))%nat as Hlen.
  { etransitivity; [|apply (queued_length _ _ _ _ _ Hwf2)]. rewrite <-(length_fmap request_id (queued s2)).
    apply submseteq_length, NoDup_submseteq; [done|]. intros id Hid.
    destruct (proj1 (Forall_forall _ _) Hserve2 id Hid) as (r & Hr & <- & _).
    apply list_elem_of_fmap_2. by apply serving_queued. }
  assert (replay_wf trace config (n ⊕ 1) (v + length (decode_requests plan)) s2) as Hwf2'
    by (eapply replay_wf_mono; [|done|exact Hwf2]; lia).
  set (flags := mkDecodeFlags _ _).
  run_step (runs_and _ _ _ (decode_all_wf trace config (n ⊕ 1) Hok v plan (decode_requests plan) flags s2 Hwf2' Hnd2 Hserve2)
    (decode_all_calm trace config Hok Hroomy (n ⊕ 1) v plan (decode_requests plan) flags s2 Hwf2' Hcalm2 Hnd2 Hserve2)).
  intros [flags3 s3] (Hwf3 & Hcalm3 & Htodo3 & Hfail & Hmade).
  run_step (accounts_runs (n ⊕ 1) v _ (note_preemption trace) (live s3) s3
    (note_preemption_wf trace config Hok (n ⊕ 1) v) (note_preemption_calm (n ⊕ 1) v)
    (p_live _ _ _ _ _ Hwf3) Hwf3 Hcalm3).
  intros s4 (Hwf4 & Hcalm4 & Hacc4). change (growth_failed flags) with false in Hfail. rewrite Hfail.
  run_step (accounts_runs (n ⊕ 1) v _ resume_one (live s4) s4
    (resume_one_wf trace config Hok (n ⊕ 1) v) (λ s x s' _, resume_one_calm s x s')
    (p_live _ _ _ _ _ Hwf4) Hwf4 Hcalm4).
  intros s5 (Hwf5 & Hcalm5 & Hacc5). run_step (erase_finished_known trace config Hok (n ⊕ 1) v s5 (live s5));
    [done|apply (p_live _ _ _ _ _ Hwf5)|]. intros left Hleft.
  assert (replay_wf trace config (n ⊕ 1) v (s5 <| live := left |>)) as Hwf6 by (destruct Hwf5; by split).
  assert (calm (s5 <| live := left |>)) as Hcalm6 by by eapply accounts_calm, Hcalm5.
  pose proof (account_step_wf trace config Hok (n ⊕ 1) v plan _ Hwf6) as Hlast.
  destruct (account_step trace config plan _) as [s7|] eqn:Hs7; [|done]. cbn [runs mbind option_bind].
  apply account_step_calm in Hs7; [|done].
  split_and!; [|by eapply accounts_calm|].
  - apply Hmade. unfold flags. simpl. unfold entries.
    destruct (decode_requests plan) as [|id l]; [left|by right].
    rewrite app_nil_r in Hne. rewrite <-Hfst in Hne. by destruct (zip _ _).
  - rewrite (accounts_todo _ _ Hs7). change (todo (s5 <| live := left |>)) with (todo s5).
    rewrite (accounts_todo _ _ Hacc5), (accounts_todo _ _ Hacc4).
    assert (0 < length entries + length (decode_requests plan))%nat.
    { destruct (decode_requests plan); [|simpl; lia]. rewrite app_nil_r, <-Hfst in Hne.
      fold entries in Hne. destruct entries; [done|simpl; lia]. }
    change (todo s1) with (todo s) in Htodo2. lia.
Qed.

(** ** The run *)

Lemma todo_nonneg s : 0 <= todo s.
Proof. apply zsum_nonneg. intros p _. unfold weight. case_match; lia. Qed.

Lemma todo_positive n v s :
  replay_wf trace config n v s → calm s →
  completed_requests s < Z.of_nat (length (requests trace)) → 0 < todo s.
Proof.
  intros Hwf Hcalm Hc. pose proof (calm_queued _ _ _ Hcalm) as Hcount.
  pose proof (s_queues _ (p_sched _ _ _ _ _ Hwf)) as Hq.
  destruct (queued s) as [|r l] eqn:Hqueue; [simpl in *; lia|].
  assert (r ∈ queued s) as Hr by (rewrite Hqueue; by left).
  destruct (queued_progress _ _ _ _ _ _ Hwf Hr) as (i & p & Hi & Hf).
  assert (0 <= remaining_prefill_tokens r) as Hrem.
  { unfold queued in Hr. rewrite (calm_preempted _ _ _ Hcalm), app_nil_r in Hr.
    apply elem_of_app in Hr as [Hr|Hr].
    - destruct (proj1 (Forall_forall _ _) (q_pending _ Hq) r Hr) as ([? _] & _ & -> & _). lia.
    - destruct (proj1 (Forall_forall _ _) (q_active _ Hq) r Hr) as (_ & [? _] & _). done. }
  assert (0 < weight p) as Hw.
  { unfold weight, request_tokens. destruct Hf. rewrite f_unfinished, f_committed, f_prompt. lia. }
  eapply Z.lt_le_trans; [exact Hw|]. apply (zsum_elem weight).
  - intros q _. unfold weight. case_match; lia.
  - by eapply list_elem_of_lookup_2.
Qed.

(** As long as the steps left cover the tokens left, the run does not stop early. *)
Lemma run_steps_calm fuel n s :
  replay_wf trace config n (victims_per_step trace * fuel) s → calm s → 0 <= n →
  n + todo s <= max_steps config → max_steps config <= n + Z.of_nat fuel →
  runs (run_paged_steps trace config fuel s) (λ s', calm s' ∧
    completed_requests s' = Z.of_nat (length (requests trace))).
Proof.
  pose proof (limits_nonneg trace config) as (_ & _ & Hlim). pose proof (ok_steps _ _ Hok).
  revert n s. induction fuel as [|fuel IH]; intros n s Hwf Hcalm Hn Htodo Hfuel; cbn [run_paged_steps];
    rewrite (p_steps _ _ _ _ _ Hwf); pose proof (todo_nonneg s) as Hpos;
    pose proof (calm_queued _ _ _ Hcalm) as Hcount;
    destruct (Z.ltb_spec (completed_requests s) (Z.of_nat (length (requests trace)))) as [Hc|Hc];
    cbn [andb]; try (split; [done|lia]).
  - pose proof (todo_positive _ _ _ Hwf Hcalm Hc). lia.
  - pose proof (todo_positive _ _ _ Hwf Hcalm Hc). rewrite (proj2 (Z.ltb_lt n _)) by lia.
    rewrite Nat.mul_succ_r in Hwf.
    run_step (runs_and _ _ _ (step_paged_wf trace config Hok n (victims_per_step trace * fuel) s Hwf)
      (step_calm n (victims_per_step trace * fuel) s Hwf Hcalm Hc)).
    intros [moved s1] (Hwf1 & -> & Hcalm1 & Htodo1). rewrite u64_small in Hwf1 by words.
    apply (IH (n + 1)); [by eapply replay_wf_core, Hwf1|by eapply calm_core, Hcalm1|lia| |lia].
    change (todo (s1 <| no_progress_steps := 0 |>)) with (todo s1). lia.
Qed.

(** ** The first state *)

Section Start.
Context (aligned_alloc : Z → Z → option (Z * list byte)).

Lemma blank_cache sid : sequences_ (cache (blank trace config aligned_alloc)) !! sid = None.
Proof. apply lookup_empty. Qed.

Lemma enqueue_fold l s :
  let s' := foldl (enqueue_request config) s l in
  sched_config (scheduler s') = sched_config (scheduler s) ∧
  cache s' = cache s ∧ active_ (scheduler s') = active_ (scheduler s) ∧
  preempted_ (scheduler s') = preempted_ (scheduler s) ∧ progress s' = progress s ∧
  preempted_ids s' = preempted_ids s ∧ completed_requests s' = completed_requests s ∧
  preemptions (replay_metrics s') = preemptions (replay_metrics s) ∧
  pending_ (scheduler s') = pending_ (scheduler s) ++
    ((λ r, set_progress Pending (tr_prompt_tokens r) 0 0 (scheduled_request config r)) <$> l).
Proof.
  revert s. induction l as [|r l IH]; intros s; cbn [foldl]; [by rewrite fmap_nil, app_nil_r|].
  destruct (IH (enqueue_request config s r)) as (-> & -> & -> & -> & -> & -> & -> & -> & ->).
  unfold enqueue_request. destruct (never_admissible config r); split_and!; try done;
    simpl; by rewrite <-(assoc_L (++)).
Qed.

Lemma start_calm : calm (start_paged aligned_alloc trace config).
Proof.
  destruct (enqueue_fold (requests trace) (blank trace config aligned_alloc))
    as (H1 & H2 & H3 & H4 & H5 & H6 & H7 & H8 & H9).
  change (foldl _ _ _) with (start_paged aligned_alloc trace config) in *.
  cbv zeta in *. set (s := start_paged aligned_alloc trace config) in *. clearbody s.
  assert (queued s = (λ r, set_progress Pending (tr_prompt_tokens r) 0 0 (scheduled_request config r))
    <$> requests trace) as Hq by (unfold queued; rewrite H9, H3, H4; apply app_nil_r).
  split; rewrite ?H1, ?H2, ?H3, ?H4, ?H5, ?H6, ?H7, ?H8, ?Hq; try done.
  - split.
    + intros key r. unfold records_of. simpl. by intros ?%not_elem_of_nil.
    + intros sid st. by rewrite blank_cache.
    + intros sid sid' st st'. by rewrite blank_cache.
  - simpl. apply Forall_fmap, Forall_forall. intros r _. by left.
  - intros i q sid Hi Hsid. simpl in Hi. rewrite list_lookup_fmap in Hi.
    apply fmap_Some in Hi as (r & _ & ->). by apply not_elem_of_nil in Hsid.
  - apply Forall_fmap, Forall_forall. intros r [i Hi]%list_elem_of_lookup_1. split; simpl.
    + by rewrite (roomy_plain _ _ Hroomy).
    + exists r. split; [|done]. unfold asked.
      rewrite (request_index_lookup _ _ _ (ok_ids _ _ Hok) Hi). simpl. by rewrite Nat2Z.id.
  - rewrite length_fmap. simpl. lia.
  - pose proof (roomy_places _ _ Hroomy). simpl. lia.
Qed.

Lemma start_todo : todo (start_paged aligned_alloc trace config) <= zsum request_tokens (requests trace).
Proof.
  destruct (enqueue_fold (requests trace) (blank trace config aligned_alloc))
    as (_ & _ & _ & _ & H5 & _). unfold todo. change (foldl _ _ _) with (start_paged aligned_alloc trace config) in H5.
  rewrite H5. simpl. rewrite zsum_fmap. apply zsum_mono. intros r Hr. unfold weight. simpl.
  destruct (request_facts trace config Hok Hroomy r Hr) as ([] & _). unfold request_tokens. lia.
Qed.
End Start.
End Live.

(** ** The theorem *)

(** C6. The paged replay makes progress. On a pool at least as large as
    [suggested_pool_blocks] proposes, without a watermark and without prefix caching, with
    positive limits on the batch and the active requests, with as many steps as there are
    tokens to serve, and with no request decoding more than its budget, the replay
    completes: every request
    of the trace is admitted, prefilled, forked into its samples, decoded to its end and
    released, in either order of admission and whatever the batch limit. Nothing is
    preempted on the way, because no growth ever finds the pool empty, and no block is
    left in use. *)
Theorem run_paged_completes trace config aligned_alloc p slab :
  replay_ok trace config → roomy trace config →
  aligned_alloc (effective_alignment (allocator_config trace config))
    (pool_bytes_for (allocator_config trace config)) = Some (p, slab) →
  Z.of_nat (length slab) = pool_bytes_for (allocator_config trace config) →
  runs (run_paged aligned_alloc trace config) (λ m,
    completed m = true ∧ requests_completed m = Z.of_nat (length (requests trace)) ∧
    preemptions m = 0 ∧ leak_free m = true).
Proof.
  intros Hok Hroomy Hslab Hlen.
  pose proof (run_paged_ends trace config aligned_alloc p slab Hok Hslab Hlen) as Hends.
  pose proof (start_paged_wf trace config aligned_alloc p slab Hok Hslab Hlen) as Hwf.
  pose proof (run_steps_calm trace config Hok Hroomy (Z.to_nat (max_steps config)) 0 _ Hwf
    (start_calm trace config Hok Hroomy aligned_alloc)) as Hrun.
  pose proof (start_todo trace config Hok Hroomy aligned_alloc) as Htodo.
  pose proof (roomy_steps _ _ Hroomy). pose proof (ok_steps _ _ Hok). pose proof (ok_count _ _ Hok).
  unfold run_paged in *. destruct (run_paged_steps _ _ _ _) as [s|]; [|done].
  destruct Hrun as [Hcalm Hdone]; [lia..|]. cbn [mbind option_bind] in *.
  assert (∀ x, (if decide (ttfts s = []) then Some (replay_metrics s)
    else p ← p99 (ttfts s); Some ((replay_metrics s) <| p99_ttft_cost := p |>)) = Some x →
    preemptions x = 0) as Hpre.
  { intros x. case_decide; [intros [= <-]; apply Hcalm|].
    intros (q & _ & [= <-])%bind_Some. apply Hcalm. }
  destruct (if decide _ then _ else _) as [m|]; [|done]. cbn [mbind option_bind runs] in *.
  destruct Hends as (_ & _ & Hc & Hleak).
  match goal with |- completed ?x = true ∧ _ =>
    change (preemptions x) with (preemptions m);
    change (requests_completed x) with (u32 (completed_requests s)) in *;
    change (completed x) with (completed_requests s =? Z.of_nat (length (requests trace))) in * end.
  rewrite Hdone, Z.eqb_refl in *. split_and!; [done|apply u32_small; words|by apply Hpre|by apply Hleak].
Qed.

(** ** Witness *)

(** Three requests, two of them sampled twice, two at a time on a pool of the size
    proposed for the largest. *)
Definition forked_trace : Trace :=
  mkTrace (tiny_header 3)
    [keyed_request 1 6 4 3 2 ""; keyed_request 2 3 2 2 1 "k"; keyed_request 3 5 3 1 2 ""].

Definition forked_config : ReplayConfig :=
  paged_config (suggested_pool_blocks forked_trace (paged_config 0 0 false)) 0 false.

Lemma forked_replay_ok : replay_ok forked_trace forked_config.
Proof.
  split; try (vm_compute; intuition discriminate).
  - apply (bool_decide_unpack _). vm_compute. done.
  - repeat (apply Forall_cons; split); [..|done]; split; vm_compute; intuition discriminate.
  - split; [split|..]; vm_compute; intuition discriminate.
Qed.

Lemma forked_roomy : roomy forked_trace forked_config.
Proof.
  split; [done|done|done|done| | |by vm_compute|by vm_compute].
  - repeat (constructor; [by vm_compute|]). constructor.
  - repeat (constructor; [by vm_compute|]). constructor.
Qed.

Lemma run_paged_completes_witness :
  runs (run_paged zero_pool forked_trace forked_config) (λ m,
    completed m = true ∧ requests_completed m = 3 ∧ preemptions m = 0 ∧ leak_free m = true).
Proof.
  eapply (run_paged_completes forked_trace forked_config zero_pool).
  - exact forked_replay_ok.
  - exact forked_roomy.
  - reflexivity.
  - rewrite length_replicate, Z2Nat.id; [reflexivity|]. vm_compute. discriminate.
Defined.
