(* ===== verification/ContiguousReplay.v ===== *)
(** The contiguous baseline of the trace replay ([run_contiguous] of
    [tools/trace_replay/TraceReplay.cpp]): one run of blocks per request, first fit,
    a step that admits and then decodes one token per active request. *)
From coqutil Require Import Datatypes.RecordSetters.
From S2P Require Import Prelude.
From S2P Require Import Block.
From S2P Require Import TraceReplay.
Import TriangleBracketNotations.
#[local] Open Scope record_set.

(** ** State *)

Record Reservation := mkReservation {
  res_index : Z;
  start_block : Z;
  block_count : Z;
  res_committed : Z;
  res_decoded : Z
}.

(** The local variables the loops share. *)
Record Baseline := mkBaseline {
  used : list bool;
  blocks_in_use : Z;
  active : list Reservation;
  next_pending : Z;
  done_requests : Z;
  metrics : ReplayMetrics
}.

(** The shape the baseline counts bytes with. *)
Definition replay_shape (h : TraceHeader) (tokens_per_block : Z) : BlockShape :=
  mkBlockShape tokens_per_block (hdr_num_layers h) (hdr_num_kv_heads h) (hdr_head_dim h)
    (hdr_bytes_per_element h) 0.

Section Contiguous.
Context (trace : Trace) (config : ReplayConfig).

Abbreviation tpb := (cfg_tokens_per_block config).
Abbreviation max_blocks := (cfg_max_blocks config).
Abbreviation num_trace_requests := (Z.of_nat (length (requests trace))).

(** ** Run lengths *)

Definition request_blocks (r : TraceRequest) : Z :=
  ceil_div (Z.min (baseline_max_context config) (tr_prompt_tokens r ⊞ decode_budget r)) tpb.

Definition servable (r : TraceRequest) : bool :=
  negb ((baseline_max_context config <? tr_prompt_tokens r ⊞ decode_budget r)
        || (max_blocks <? request_blocks r)).

(** ** First fit *)

(** The scan from [block] on, with [run] free blocks just before it. *)
Fixpoint first_fit_from (used : list bool) (block run needed : Z) : option Z :=
  match used with
  | [] => None
  | u :: rest =>
    let run := if u then 0 else run ⊞ 1 in
    if run =? needed then Some (block ⊞ 1 ⊟ needed) else first_fit_from rest (block ⊞ 1) run needed
  end.

Definition first_fit (used : list bool) (needed : Z) : option Z := first_fit_from used 0 0 needed.

(** The loops that mark a run. *)
Definition mark (used : list bool) (start count : Z) (value : bool) : option (list bool) :=
  foldM (λ u block, vec_set u (start ⊞ block) value) used (seqZ 0 count).

(** ** Admission *)

(** The loop of a step; [true] when it made progress. *)
Fixpoint admit_contiguous (fuel : nat) (progress : bool) (s : Baseline)
    : option (bool * Baseline) :=
  if (next_pending s <? num_trace_requests)
     && (Z.of_nat (length (active s)) <? cfg_max_active_requests config) then
    match fuel with
    | O => None
    | S fuel =>
      request ← vec_get (requests trace) (next_pending s);
      if negb (servable request) then
        admit_contiguous fuel true
          (mkBaseline (used s) (blocks_in_use s) (active s) (next_pending s ⊕ 1)
             (done_requests s ⊕ 1) (metrics s))
      else
        let needed := request_blocks request in
        match first_fit (used s) needed with
        | None =>
          Some (progress,
                if needed <=? (max_blocks ⊟ blocks_in_use s)
                then mkBaseline (used s) (blocks_in_use s) (active s) (next_pending s)
                       (done_requests s) ((metrics s) <| fragmentation_failures ::= λ n, n ⊕ 1 |>)
                else s)
        | Some start =>
          used' ← mark (used s) start needed true;
          admit_contiguous fuel true
            (mkBaseline used' (blocks_in_use s ⊞ needed)
               (active s ++ [mkReservation (next_pending s) start needed
                               (tr_prompt_tokens request) 0])
               (next_pending s ⊕ 1) (done_requests s)
               ((metrics s) <| requests_admitted ::= λ n, n ⊞ 1 |>))
        end
    end
  else Some (progress, s).

(** ** Decoding *)

(** The loop over the active reservations from [i] on: a finished one gives its run
    back and the last one takes its place. *)
Fixpoint decode_contiguous (fuel : nat) (progress : bool) (i : nat) (s : Baseline)
    : option (bool * Baseline) :=
  if decide (i < length (active s))%nat then
    match fuel with
    | O => None
    | S fuel =>
      r ← active s !! i;
      request ← vec_get (requests trace) (res_index r);
      let r := mkReservation (res_index r) (start_block r) (block_count r)
                 (res_committed r ⊞ 1) (res_decoded r ⊞ 1) in
      let active' := <[i := r]> (active s) in
      let metrics' := (metrics s) <| tokens_decoded ::= λ n, n ⊕ 1 |> in
      if decode_actual request <=? res_decoded r then
        used' ← mark (used s) (start_block r) (block_count r) false;
        '(rest, back) ← pop_back (<[i := default r (last active')]> active');
        decode_contiguous fuel true i
          (mkBaseline used' (blocks_in_use s ⊟ block_count r) rest (next_pending s)
             (done_requests s ⊕ 1) metrics')
      else
        decode_contiguous fuel true (S i)
          (mkBaseline (used s) (blocks_in_use s) active' (next_pending s) (done_requests s) metrics')
    end
  else Some (progress, s).

(** ** Accounting *)

Definition note_reservation (m : ReplayMetrics) (r : Reservation) : ReplayMetrics :=
  let m := m <| committed_tokens ::= λ n, n ⊕ res_committed r |> in
  let reserved := block_count r ⊠ tpb in
  if res_committed r <? reserved
  then m <| max_partial_block_slack ::= λ n, Z.max n (reserved ⊟ res_committed r) |>
  else m.

(** The end of a step. *)
Definition account_contiguous (stalled : bool) (s : Baseline) : Baseline :=
  let bytes := byte_size (replay_shape (header trace) tpb) in
  let m := metrics s in
  let m := if stalled then m <| head_of_line_stall_steps ::= λ n, n ⊕ 1 |> else m in
  let m := m <| peak_active_requests ::= λ n, Z.max n (u32 (Z.of_nat (length (active s)))) |> in
  let m := m <| peak_blocks_in_use ::= λ n, Z.max n (blocks_in_use s) |> in
  let m := m <| peak_bytes_in_use ::= λ n, Z.max n (blocks_in_use s ⊗ bytes) |> in
  let m := m <| reserved_token_slots ::= λ n, n ⊕ (blocks_in_use s ⊗ tpb) |> in
  mkBaseline (used s) (blocks_in_use s) (active s) (next_pending s) (done_requests s)
    (foldl note_reservation m (active s)).

(** ** The run *)

(** One step, and whether anything happened in it. *)
Definition step_contiguous (s : Baseline) : option (bool * Baseline) :=
  let s := mkBaseline (used s) (blocks_in_use s) (active s) (next_pending s) (done_requests s)
             ((metrics s) <| steps ::= λ n, n ⊕ 1 |>) in
  let before := next_pending s in
  '(progress, s1) ← admit_contiguous (length (requests trace)) false s;
  '(progress, s2) ← decode_contiguous (length (active s1)) progress 0 s1;
  Some (progress,
        account_contiguous ((next_pending s2 <? num_trace_requests) && (before =? next_pending s2)) s2).

Fixpoint run_steps (fuel : nat) (s : Baseline) : option Baseline :=
  if (done_requests s <? num_trace_requests) && (steps (metrics s) <? max_steps config) then
    match fuel with
    | O => None
    | S fuel =>
      '(progress, s') ← step_contiguous s;
      if progress : bool then run_steps fuel s' else Some s'
    end
  else Some s.

Definition start_contiguous : Baseline :=
  mkBaseline (replicate (Z.to_nat max_blocks) false) 0 [] 0 0
    (foldl (λ m r, if servable r then m else m <| requests_never_admissible ::= λ n, n ⊞ 1 |>)
       (ReplayMetrics_default "contiguous") (requests trace)).

Definition run_contiguous : option ReplayMetrics :=
  s ← run_steps (Z.to_nat (max_steps config)) start_contiguous;
  Some ((metrics s) <| requests_completed := u32 (done_requests s) |>
          <| completed := (done_requests s =? num_trace_requests) |>
          <| leak_free := (blocks_in_use s =? 0) |>).
End Contiguous.
