(* ===== verification/ContiguousRuns.v ===== *)
(** Runs of blocks of the contiguous baseline: the first-fit scan, marking a run, and
    counting the blocks that reservations cover. *)
From S2P Require Import Prelude.
From S2P Require Import TraceReplay.
From S2P Require Import ContiguousReplay.

(** ** Free runs *)

(** The [n] blocks from [start] on are in the pool and free. *)
Definition free_run (used : list bool) (start n : Z) : Prop :=
  0 <= start ∧ 0 <= n ∧ start + n <= Z.of_nat (length used) ∧
  ∀ b, start <= b < start + n → used !! Z.to_nat b = Some false.

Lemma free_run_app pre used start n :
  start + n <= Z.of_nat (length pre) → free_run pre start n ↔ free_run (pre ++ used) start n.
Proof.
  intros Hn. unfold free_run. rewrite length_app.
  split; intros (?&?&?&Hb); repeat split; try lia; intros b Hr; specialize (Hb b Hr).
  - by rewrite lookup_app_l by lia.
  - by rewrite lookup_app_l in Hb by lia.
Qed.

(** What the scan knows of the blocks it has passed: the last [run] of them are free
    and the one before is not. *)
Record scanned (pre : list bool) (run : Z) : Prop := {
  sc_free : free_run pre (Z.of_nat (length pre) - run) run;
  sc_longest start n :
    free_run pre start n → start + n = Z.of_nat (length pre) → n <= run
}.

Lemma scanned_nil : scanned [] 0.
Proof.
  split.
  - repeat split; simpl; try lia.
  - intros start n (?&?&?&_) _. simpl in *. lia.
Qed.

Lemma scanned_snoc pre run (u : bool) :
  scanned pre run → scanned (pre ++ [u]) (if u then 0 else run + 1).
Proof.
  intros [(H0&H1&H2&Hf) Hl]. destruct u; split.
  - rewrite length_app. simpl. repeat split; try lia. rewrite length_app. simpl. lia.
  - intros start n (?&Hn&?&Hb) He. destruct (decide (n = 0)); [lia|].
    rewrite length_app in *. simpl in *.
    specialize (Hb (Z.of_nat (length pre)) ltac:(lia)).
    rewrite Nat2Z.id, list_lookup_middle in Hb by done. done.
  - rewrite length_app. simpl. repeat split; try lia.
    { rewrite length_app. simpl. lia. }
    intros b Hb. destruct (decide (b = Z.of_nat (length pre))) as [->|].
    + by rewrite Nat2Z.id, list_lookup_middle.
    + rewrite lookup_app_l by lia. apply Hf. lia.
  - intros start n (?&Hn&?&Hb) He. destruct (decide (n = 0)); [lia|].
    rewrite length_app in *. simpl in *.
    enough (n - 1 <= run) by lia. apply (Hl start); [|lia]. repeat split; try lia.
    intros b Hr. specialize (Hb b ltac:(lia)). by rewrite lookup_app_l in Hb by lia.
Qed.

(** ** First fit *)

Section FirstFit.
Context (needed : Z).

Lemma first_fit_from_found used pre run start :
  scanned pre run → Z.of_nat (length (pre ++ used)) < W32 →
  first_fit_from used (Z.of_nat (length pre)) run needed = Some start →
  free_run (pre ++ used) start needed.
Proof.
  revert pre run. induction used as [|u used IH]; intros pre run Hs Hw; [done|].
  cbn [first_fit_from].
  pose proof (sc_free _ _ Hs) as (?&?&?&_). rewrite length_app in Hw. cbn [length] in Hw.
  rewrite !(u32_small (run + 1)), !(u32_small (Z.of_nat (length pre) + 1)) by words.
  apply (scanned_snoc _ _ u) in Hs. pose proof (sc_free _ _ Hs) as Hf.
  replace (pre ++ u :: used) with ((pre ++ [u]) ++ used) by by rewrite <-app_assoc.
  rewrite length_app in Hf. cbn [length] in Hf.
  destruct (_ =? needed) eqn:He; [apply Z.eqb_eq in He|apply Z.eqb_neq in He].
  - intros [= <-]. rewrite He in Hf. pose proof Hf as (?&?&Hle&_).
    rewrite length_app in Hle. cbn [length] in Hle. rewrite u32_small by words.
    apply free_run_app; [rewrite length_app; simpl; lia|].
    by replace (Z.of_nat (length pre) + 1) with (Z.of_nat (length pre + 1)) by lia.
  - replace (Z.of_nat (length pre) + 1) with (Z.of_nat (length (pre ++ [u])))
      by (rewrite length_app; simpl; lia).
    apply IH; [done|]. rewrite !length_app. simpl. lia.
Qed.

(** No run of [needed] free blocks ends before the scan's position. *)
Definition none_before (whole : list bool) (position : Z) : Prop :=
  ∀ start, free_run whole start needed → position < start + needed.

Lemma first_fit_from_lowest used pre run :
  0 < needed → scanned pre run → run < needed → Z.of_nat (length (pre ++ used)) < W32 →
  none_before (pre ++ used) (Z.of_nat (length pre)) →
  match first_fit_from used (Z.of_nat (length pre)) run needed with
  | Some start => ∀ other, free_run (pre ++ used) other needed → start <= other
  | None => ∀ other, ¬ free_run (pre ++ used) other needed
  end.
Proof.
  intros Hpos. revert pre run. induction used as [|u used IH]; intros pre run Hs Hrun Hw Hnone.
  { cbn [first_fit_from]. intros other Hfree. specialize (Hnone _ Hfree).
    destruct Hfree as (?&?&Hle&_). rewrite app_nil_r in Hle. lia. }
  cbn [first_fit_from].
  pose proof (sc_free _ _ Hs) as (?&?&?&_). rewrite length_app in Hw. cbn [length] in Hw.
  rewrite !(u32_small (run + 1)), !(u32_small (Z.of_nat (length pre) + 1)) by words.
  apply (scanned_snoc _ _ u) in Hs. pose proof (sc_free _ _ Hs) as (_&_&Hle&_).
  rewrite length_app in Hle. cbn [length] in Hle.
  replace (pre ++ u :: used) with ((pre ++ [u]) ++ used) in * by by rewrite <-app_assoc.
  destruct (_ =? needed) eqn:He; [apply Z.eqb_eq in He|apply Z.eqb_neq in He].
  - rewrite u32_small by (destruct u; words). intros other Hfree%Hnone. lia.
  - replace (Z.of_nat (length pre) + 1) with (Z.of_nat (length (pre ++ [u])))
      by (rewrite length_app; simpl; lia).
    apply IH; [done|destruct u; lia|rewrite !length_app; simpl; lia|].
    intros other Hfree. pose proof (Hnone _ Hfree). rewrite length_app. simpl.
    destruct (decide (other + needed = Z.of_nat (length pre) + 1)) as [Heq|]; [|lia].
    apply free_run_app in Hfree; [|rewrite length_app; simpl; lia].
    apply (sc_longest _ _ Hs) in Hfree; [destruct u; lia|]. rewrite length_app. simpl. lia.
Qed.
End FirstFit.

Lemma first_fit_free used needed start :
  Z.of_nat (length used) < W32 → first_fit used needed = Some start → free_run used start needed.
Proof.
  intros Hw. apply (first_fit_from_found _ used [] 0 start scanned_nil Hw).
Qed.

(** An empty pool has a run for whatever fits it. *)
Lemma first_fit_empty used needed :
  0 < needed <= Z.of_nat (length used) → Z.of_nat (length used) < W32 →
  (∀ b u, used !! b = Some u → u = false) → is_Some (first_fit used needed).
Proof.
  intros Hn Hw Hall.
  pose proof (first_fit_from_lowest needed used [] 0 ltac:(lia) scanned_nil ltac:(lia)
                ltac:(simpl; lia)) as Hl.
  unfold first_fit. cbn [length app] in Hl. destruct (first_fit_from _ _ _ _); [done|].
  exfalso. assert (none_before needed used 0) as Hnone by (intros start (?&?&?&?); lia).
  apply (Hl Hnone 0).
  repeat split; try lia. intros b Hb.
  destruct (lookup_lt_is_Some_2 used (Z.to_nat b)) as [u Hu]; [lia|].
  rewrite Hu. by rewrite (Hall _ _ Hu).
Qed.

(** ** Marking a run *)

(** The marks of the blocks before [upto] of a run. *)
Definition marked (used : list bool) (start upto : Z) (value : bool) (used' : list bool) : Prop :=
  length used' = length used ∧
  ∀ b : nat, used' !! b = if decide (start <= Z.of_nat b < start + upto)
                          then const value <$> used !! b else used !! b.

Lemma mark_spec used start count value :
  0 <= start → 0 <= count → start + count <= Z.of_nat (length used) < W32 →
  runs (mark used start count value) (marked used start count value).
Proof.
  intros Hs Hc Hw. unfold mark.
  eapply runs_mono; [apply (runs_foldM _ (λ don, marked used start (Z.of_nat (length don)) value))|].
  - split; [done|]. intros b. by rewrite decide_False by (simpl; lia).
  - intros don block rest used' Heq [Hlen Hb].
    assert (block = Z.of_nat (length don) ∧ block < count) as [-> Hlt].
    { assert (seqZ 0 count !! length don = Some block) as Hl
        by by rewrite Heq, list_lookup_middle.
      apply lookup_seqZ in Hl. lia. }
    unfold vec_set. rewrite u32_small by words.
    rewrite (proj2 (Z.leb_le _ _)), (proj2 (Z.ltb_lt _ _)) by lia. cbn [andb runs].
    split; [by rewrite length_insert|]. intros b. rewrite length_app. simpl.
    destruct (decide (b = Z.to_nat (start + Z.of_nat (length don)))) as [->|Hne].
    + rewrite list_lookup_insert_eq by lia. rewrite decide_True by lia.
      destruct (lookup_lt_is_Some_2 used (Z.to_nat (start + Z.of_nat (length don)))) as [u ->];
        [lia|done].
    + rewrite list_lookup_insert_ne by done. rewrite Hb.
      repeat case_decide; (done || lia).
  - intros used' Hm. by rewrite length_seqZ, Z2Nat.id in Hm by done.
Qed.

(** ** Blocks covered *)

Definition covers (b : Z) (r : Reservation) : Z :=
  if decide (start_block r <= b < start_block r + block_count r) then 1 else 0.

Definition taken (used : list bool) : Z := zsum Z.b2z used.

(** Each used block is covered by one reservation, and a free one by none. *)
Definition owned_blocks (used : list bool) (active : list Reservation) : Prop :=
  ∀ (b : nat) u, used !! b = Some u → zsum (covers (Z.of_nat b)) active = Z.b2z u.

Lemma covers_nonneg b r : 0 <= covers b r.
Proof. unfold covers. case_decide; lia. Qed.

Lemma zsum_const {A} (c : A → Z) l k : (∀ x, x ∈ l → c x = k) → zsum c l = k * Z.of_nat (length l).
Proof.
  induction l as [|x l IH]; intros Hc; cbn [zsum length]; [lia|].
  rewrite (Hc x) by by left. rewrite IH; [lia|]. intros. apply Hc. by right.
Qed.

Lemma zsum_swap {A C} (f : A → C → Z) l k :
  zsum (λ x, zsum (f x) k) l = zsum (λ y, zsum (λ x, f x y) l) k.
Proof.
  induction l as [|x l IH]; cbn [zsum].
  - symmetry. rewrite (zsum_const _ _ 0); [lia|done].
  - rewrite IH. clear IH. induction k as [|y k IH]; cbn [zsum]; lia.
Qed.

(** The blocks a reservation inside the pool covers. *)
Lemma covers_count r n :
  0 <= start_block r → 0 <= block_count r → start_block r + block_count r <= n →
  zsum (λ b, covers b r) (seqZ 0 n) = block_count r.
Proof.
  intros Hs Hc Hn.
  replace n with (start_block r + (block_count r + (n - start_block r - block_count r))) at 1 by lia.
  rewrite !seqZ_app by lia. rewrite !zsum_app.
  rewrite (zsum_const _ (seqZ 0 _) 0), (zsum_const _ (seqZ _ (block_count r)) 1),
    (zsum_const _ _ 0), !length_seqZ; [lia|..];
    intros b Hb%elem_of_seqZ; unfold covers; case_decide; lia.
Qed.

Lemma taken_bound used : 0 <= taken used <= Z.of_nat (length used).
Proof.
  induction used as [|u used IH]; cbn; [lia|]. unfold taken in *. cbn [zsum].
  destruct u; simpl Z.b2z; lia.
Qed.

(** Counting the used blocks by reservation. *)
Lemma owned_taken used active :
  owned_blocks used active →
  (∀ r, r ∈ active → 0 <= start_block r ∧ 0 <= block_count r ∧
                     start_block r + block_count r <= Z.of_nat (length used)) →
  zsum block_count active = taken used.
Proof.
  intros Hown Hres. unfold taken. rewrite (zsum_lookup Z.b2z).
  rewrite (zsum_ext _ (λ b, zsum (covers b) active) (seqZ _ _)).
  - rewrite zsum_swap. apply zsum_ext. intros r Hr. destruct (Hres r Hr) as (?&?&?).
    by rewrite covers_count.
  - intros b Hb%elem_of_seqZ.
    destruct (lookup_lt_is_Some_2 used (Z.to_nat b)) as [u Hu]; [lia|]. rewrite Hu.
    rewrite <-(Hown _ _ Hu), Z2Nat.id by lia. done.
Qed.

(** Reserving a free run, and giving one back. *)
Lemma owned_admit used active r used' :
  owned_blocks used active → free_run used (start_block r) (block_count r) →
  marked used (start_block r) (block_count r) true used' →
  owned_blocks used' (active ++ [r]).
Proof.
  intros Hown (?&?&?&Hfree) [Hlen Hm] b u Hu. rewrite zsum_app. cbn [zsum].
  rewrite Hm in Hu. unfold covers at 2. case_decide as Hc.
  - specialize (Hfree _ Hc). rewrite Nat2Z.id in Hfree. rewrite Hfree in Hu. simplify_eq/=.
    rewrite (Hown _ _ Hfree). done.
  - rewrite (Hown _ _ Hu). lia.
Qed.

Lemma owned_release used active r used' :
  owned_blocks used (r :: active) →
  marked used (start_block r) (block_count r) false used' →
  owned_blocks used' active.
Proof.
  intros Hown [Hlen Hm] b u Hu. rewrite Hm in Hu. case_decide as Hc.
  - destruct (used !! b) as [v|] eqn:Hv; simplify_eq/=. specialize (Hown _ _ Hv).
    cbn [zsum] in Hown. unfold covers at 1 in Hown. rewrite decide_True in Hown by done.
    assert (0 <= zsum (covers (Z.of_nat b)) active)
      by (apply zsum_nonneg; intros; apply covers_nonneg).
    destruct v; simpl in *; lia.
  - specialize (Hown _ _ Hu). cbn [zsum] in Hown. unfold covers at 1 in Hown.
    rewrite decide_False in Hown by done. lia.
Qed.
