(* ===== verification/ContiguousProps.v ===== *)
(** The contiguous baseline is correct: reservations are disjoint runs of the pool,
    every step makes progress, and a completed run has served every request that
    fits and given every block back. *)
From coqutil Require Import Datatypes.RecordSetters.
From S2P Require Import Prelude.
From S2P Require Import KVCacheManager.
From S2P Require Import TraceReplay.
From S2P Require Import ContiguousReplay.
From S2P Require Import ContiguousRuns.
Import TriangleBracketNotations.
#[local] Open Scope record_set.

(** ** What a request is owed *)

(** The tokens the baseline decodes for a request: at least one. *)
Definition goal (request : TraceRequest) : Z := Z.max 1 (decode_actual request).

(** The numbers of a trace and of a configuration, at their widths. *)
Record replay_ok (trace : Trace) (config : ReplayConfig) : Prop := {
  ok_max_blocks : is_u32 (cfg_max_blocks config);
  ok_tpb : is_u32 (cfg_tokens_per_block config);
  ok_max_steps : is_u64 (max_steps config);
  ok_requests : is_u64 (Z.of_nat (length (requests trace)));
  ok_actual request : request ∈ requests trace → is_u32 (decode_actual request)
}.

Section Baseline.
Context (trace : Trace) (config : ReplayConfig) (Hok : replay_ok trace config).

Abbreviation max_blocks := (cfg_max_blocks config).
Abbreviation servable := (servable config).
Abbreviation request_blocks := (request_blocks config).

Definition request_of (r : Reservation) : option TraceRequest :=
  requests trace !! Z.to_nat (res_index r).

(** The tokens a reservation is still owed. *)
Definition left (r : Reservation) : Z :=
  match request_of r with Some request => goal request - res_decoded r | None => 0 end.

Definition served (request : TraceRequest) : Z := if servable request then goal request else 0.
Definition admissible (request : TraceRequest) : Z := if servable request then 1 else 0.

(** A reservation inside the pool for a request not yet done. *)
Record reservation_ok (r : Reservation) : Prop := {
  ro_start : 0 <= start_block r;
  ro_count : 0 <= block_count r;
  ro_end : start_block r + block_count r <= max_blocks;
  ro_index : 0 <= res_index r;
  ro_request : ∃ request, request_of r = Some request ∧ request ∈ requests trace ∧
                          0 <= res_decoded r < goal request
}.

Record baseline_wf (s : Baseline) : Prop := {
  bw_length : Z.of_nat (length (used s)) = max_blocks;
  bw_owned : owned_blocks (used s) (active s);
  bw_active r : r ∈ active s → reservation_ok r;
  bw_in_use : blocks_in_use s = zsum block_count (active s);
  bw_next : 0 <= next_pending s <= Z.of_nat (length (requests trace));
  bw_done : done_requests s + Z.of_nat (length (active s)) = next_pending s;
  bw_done_nonneg : 0 <= done_requests s;
  bw_tokens : tokens_decoded (metrics s) =
              u64 (zsum served (take (Z.to_nat (next_pending s)) (requests trace))
                   - zsum left (active s));
  bw_admitted : requests_admitted (metrics s) =
                u32 (zsum admissible (take (Z.to_nat (next_pending s)) (requests trace)));
  bw_never : requests_never_admissible (metrics s) =
             u32 (zsum (λ r, 1 - admissible r) (requests trace));
  bw_peak : peak_blocks_in_use (metrics s) <= max_blocks;
  bw_steps : is_u64 (steps (metrics s))
}.

(** What is left to do. *)
Definition potential (s : Baseline) : Z :=
  zsum left (active s)
  + zsum (λ r, 1 + goal r) (drop (Z.to_nat (next_pending s)) (requests trace)).

Lemma in_use_bound s : baseline_wf s → 0 <= blocks_in_use s <= max_blocks.
Proof.
  intros Hwf. rewrite (bw_in_use _ Hwf), (owned_taken (used s)).
  - rewrite <-(bw_length _ Hwf). apply taken_bound.
  - apply (bw_owned _ Hwf).
  - intros r Hr. destruct (bw_active _ Hwf r Hr). rewrite (bw_length _ Hwf). done.
Qed.

Lemma left_pos r : reservation_ok r → 0 < left r.
Proof. intros [_ _ _ _ (request & Hr & _ & ?)]. unfold left. rewrite Hr. lia. Qed.

Lemma left_count l : (∀ r, r ∈ l → reservation_ok r) → Z.of_nat (length l) <= zsum left l.
Proof.
  induction l as [|r l IH]; intros Hl; cbn [length zsum]; [lia|].
  assert (0 < left r) by (apply left_pos, Hl; by left).
  assert (Z.of_nat (length l) <= zsum left l) by (apply IH; intros; apply Hl; by right). lia.
Qed.

(** The sums over the requests up to the next one. *)
Lemma take_next (f : TraceRequest → Z) n request :
  0 <= n → requests trace !! Z.to_nat n = Some request →
  zsum f (take (Z.to_nat (n + 1)) (requests trace)) =
    zsum f (take (Z.to_nat n) (requests trace)) + f request ∧
  zsum f (drop (Z.to_nat n) (requests trace)) =
    f request + zsum f (drop (Z.to_nat (n + 1)) (requests trace)).
Proof.
  intros Hn Hr. replace (Z.to_nat (n + 1)) with (S (Z.to_nat n)) by lia. split.
  - rewrite (take_S_r _ _ request) by done. rewrite zsum_app. cbn [zsum]. lia.
  - by rewrite (drop_S _ request).
Qed.

Lemma next_request s :
  baseline_wf s → next_pending s < Z.of_nat (length (requests trace)) →
  ∃ request, requests trace !! Z.to_nat (next_pending s) = Some request ∧
             vec_get (requests trace) (next_pending s) = Some request ∧
             request ∈ requests trace ∧ next_pending s ⊕ 1 = next_pending s + 1.
Proof.
  intros Hwf Hlt. pose proof (bw_next _ Hwf). pose proof (ok_requests _ _ Hok).
  destruct (lookup_lt_is_Some_2 (requests trace) (Z.to_nat (next_pending s))) as [request Hr];
    [lia|].
  exists request. unfold vec_get. rewrite (proj2 (Z.leb_le _ _)) by lia.
  repeat split; try done; [by eapply list_elem_of_lookup_2|]. apply u64_small. words.
Qed.

(** ** Admission *)

Lemma servable_blocks request : servable request = true → request_blocks request <= max_blocks.
Proof.
  unfold ContiguousReplay.servable. rewrite negb_true_iff, orb_false_iff. intros [_ Hb]. lia.
Qed.

Lemma request_blocks_range request : is_u32 (request_blocks request).
Proof.
  unfold ContiguousReplay.request_blocks, ceil_div. pose proof (ok_tpb _ _ Hok).
  destruct (Z.eqb_spec (cfg_tokens_per_block config) 0); [words|].
  match goal with |- is_u32 (u32 ?x / _) => pose proof (u32_range x) end.
  unfold is_u32, W32 in *. split; [apply Z.div_pos; lia|]. apply Z.div_lt_upper_bound; lia.
Qed.

(** Metrics the invariant does not mention. *)
Lemma wf_metrics s m :
  baseline_wf s → tokens_decoded m = tokens_decoded (metrics s) →
  requests_admitted m = requests_admitted (metrics s) →
  requests_never_admissible m = requests_never_admissible (metrics s) →
  peak_blocks_in_use m <= max_blocks → is_u64 (steps m) →
  baseline_wf (mkBaseline (used s) (blocks_in_use s) (active s) (next_pending s)
                 (done_requests s) m).
Proof. intros [] Ht Ha Hn Hp Hs. split; simpl; try done; by rewrite ?Ht, ?Ha, ?Hn. Qed.

(** The next request, skipped. *)
Definition skip_next (s : Baseline) : Baseline :=
  mkBaseline (used s) (blocks_in_use s) (active s) (next_pending s ⊕ 1) (done_requests s ⊕ 1)
    (metrics s).

Lemma wf_skip s request :
  baseline_wf s → requests trace !! Z.to_nat (next_pending s) = Some request →
  servable request = false →
  baseline_wf (skip_next s) ∧ next_pending (skip_next s) = next_pending s + 1 ∧
  potential (skip_next s) <= potential s - 1.
Proof.
  intros Hwf Hr Hserv. pose proof (bw_next _ Hwf) as Hnext. pose proof (bw_done _ Hwf).
  pose proof (lookup_lt_Some _ _ _ Hr). pose proof (ok_requests _ _ Hok).
  pose proof (bw_done_nonneg _ Hwf).
  assert (next_pending s ⊕ 1 = next_pending s + 1) as Hn by (apply u64_small; words).
  assert (done_requests s ⊕ 1 = done_requests s + 1) as Hd by (apply u64_small; words).
  destruct (take_next served (next_pending s) request ltac:(lia) Hr) as [Hs _].
  destruct (take_next admissible (next_pending s) request ltac:(lia) Hr) as [Ha _].
  destruct (take_next (λ r, 1 + goal r) (next_pending s) request ltac:(lia) Hr) as [_ Hg].
  unfold served at 3 in Hs. unfold admissible at 3 in Ha. rewrite Hserv in Hs, Ha.
  unfold skip_next. rewrite Hn, Hd. split_and!; [|done|].
  - destruct Hwf. split; simpl; rewrite ?Hs, ?Ha, ?Z.add_0_r; (done || lia).
  - unfold potential. simpl. rewrite Hg. unfold goal. lia.
Qed.

(** The next request, admitted to a free run. *)
Definition admit_next (s : Baseline) (request : TraceRequest) (start : Z) (used' : list bool)
    : Baseline :=
  mkBaseline used' (blocks_in_use s ⊞ request_blocks request)
    (active s ++ [mkReservation (next_pending s) start (request_blocks request)
                    (tr_prompt_tokens request) 0])
    (next_pending s ⊕ 1) (done_requests s)
    ((metrics s) <| requests_admitted ::= λ n, n ⊞ 1 |>).

Lemma wf_admit s request start used' :
  baseline_wf s → requests trace !! Z.to_nat (next_pending s) = Some request →
  servable request = true → free_run (used s) start (request_blocks request) →
  marked (used s) start (request_blocks request) true used' →
  baseline_wf (admit_next s request start used') ∧
  next_pending (admit_next s request start used') = next_pending s + 1 ∧
  potential (admit_next s request start used') <= potential s - 1.
Proof.
  intros Hwf Hr Hserv Hfree Hmark. pose proof (bw_next _ Hwf) as Hnext.
  pose proof (lookup_lt_Some _ _ _ Hr). pose proof (ok_requests _ _ Hok).
  assert (next_pending s ⊕ 1 = next_pending s + 1) as Hn by (apply u64_small; words).
  assert (request ∈ requests trace) as Hin by by eapply list_elem_of_lookup_2.
  set (r := mkReservation (next_pending s) start (request_blocks request)
              (tr_prompt_tokens request) 0).
  assert (reservation_ok r) as Hrok.
  { destruct Hfree as (?&?&?&_). rewrite (bw_length _ Hwf) in *.
    split; simpl; try lia. exists request. repeat split; try done. unfold goal. simpl. lia. }
  assert (request_of r = Some request) as Hreq by done.
  assert (owned_blocks used' (active s ++ [r])) as Hown
    by (apply (owned_admit (used s)); [apply (bw_owned _ Hwf)|done|done]).
  assert (∀ r', r' ∈ active s ++ [r] → reservation_ok r') as Hall.
  { intros r' [?| ->%list_elem_of_singleton]%elem_of_app; [by apply (bw_active _ Hwf)|done]. }
  assert (blocks_in_use s ⊞ request_blocks request = zsum block_count (active s ++ [r])) as Huse.
  { rewrite u32_small; [rewrite zsum_app, (bw_in_use _ Hwf); simpl; lia|].
    replace (blocks_in_use s + request_blocks request) with (zsum block_count (active s ++ [r]))
      by (rewrite zsum_app, (bw_in_use _ Hwf); simpl; lia).
    rewrite (owned_taken used') by
      (done || intros r' Hr'; destruct (Hall r' Hr'), Hmark as [-> _];
       rewrite (bw_length _ Hwf); done).
    pose proof (taken_bound used'). destruct Hmark as [Hlen _].
    rewrite Hlen, (bw_length _ Hwf) in *. pose proof (ok_max_blocks _ _ Hok). words. }
  destruct (take_next served (next_pending s) request ltac:(lia) Hr) as [Hs _].
  destruct (take_next admissible (next_pending s) request ltac:(lia) Hr) as [Ha _].
  destruct (take_next (λ r, 1 + goal r) (next_pending s) request ltac:(lia) Hr) as [_ Hg].
  unfold served at 3 in Hs. unfold admissible at 3 in Ha. rewrite Hserv in Hs, Ha.
  assert (left r = goal request) as Hleft by (unfold left; rewrite Hreq; simpl; lia).
  unfold admit_next. fold r. rewrite Hn, Huse. split_and!; [|done|].
  - destruct Hwf. destruct (metrics s). split; simpl in *; try done; rewrite ?Hs, ?Ha.
    + by destruct Hmark as [-> _].
    + lia.
    + rewrite length_app. simpl. lia.
    + rewrite bw_tokens0, zsum_app. simpl. rewrite Hleft. f_equal. lia.
    + by rewrite bw_admitted0, u32_add_l.
  - unfold potential. simpl. rewrite Hg, zsum_app. simpl. rewrite Hleft. lia.
Qed.

(** Every request that fits needs a block, and a request may run. *)
Definition live_config : Prop :=
  0 < cfg_max_active_requests config ∧
  ∀ request, request ∈ requests trace → servable request = true → 0 < request_blocks request.

(** With nothing active the whole pool is free. *)
Lemma idle_pool_fits s request :
  baseline_wf s → active s = [] → servable request = true → 0 < request_blocks request →
  is_Some (first_fit (used s) (request_blocks request)).
Proof.
  intros Hwf Hidle Hserv Hpos. pose proof (ok_max_blocks _ _ Hok).
  apply servable_blocks in Hserv.
  apply first_fit_empty; rewrite ?(bw_length _ Hwf); [lia|words|].
  intros b u Hu. pose proof (bw_owned _ Hwf _ _ Hu) as Ho. rewrite Hidle in Ho.
  by destruct u.
Qed.

(** What the admission loop leaves. *)
Record admission (s s' : Baseline) : Prop := {
  adm_wf : baseline_wf s';
  adm_next : next_pending s <= next_pending s';
  adm_potential : potential s' <= potential s - (next_pending s' - next_pending s);
  adm_steps : steps (metrics s') = steps (metrics s);
  adm_active : (length (active s) ≤ length (active s'))%nat
}.

Lemma admission_refl s : baseline_wf s → admission s s.
Proof. split; (done || lia). Qed.

Lemma admission_step s s1 s2 :
  next_pending s1 = next_pending s + 1 → potential s1 <= potential s - 1 →
  steps (metrics s1) = steps (metrics s) → (length (active s) ≤ length (active s1))%nat →
  admission s1 s2 → admission s s2.
Proof. intros ? ? ? ? []. split; (done || lia). Qed.

Lemma admit_contiguous_spec fuel progress s :
  baseline_wf s → Z.of_nat (length (requests trace)) - next_pending s <= Z.of_nat fuel →
  runs (admit_contiguous trace config fuel progress s) (λ '(p, s'),
    admission s s' ∧ p = progress || (next_pending s <? next_pending s') ∧
    (live_config → active s = [] → next_pending s < Z.of_nat (length (requests trace)) →
     next_pending s < next_pending s')).
Proof.
  revert progress s. induction fuel as [|fuel IH]; intros progress s Hwf Hfuel.
  all: cbn [admit_contiguous].
  all: destruct (Z.ltb_spec (next_pending s) (Z.of_nat (length (requests trace)))) as [Hlt|Hge];
    [|split; [by apply admission_refl|]; rewrite Z.ltb_irrefl, orb_false_r; split; [done|lia]].
  { lia. }
  destruct (Z.ltb_spec (Z.of_nat (length (active s))) (cfg_max_active_requests config)) as [Ha|Ha];
    cbn [andb].
  2:{ split; [by apply admission_refl|]. rewrite Z.ltb_irrefl, orb_false_r. split; [done|].
      intros [? _] Hidle. rewrite Hidle in Ha. simpl in Ha. lia. }
  destruct (next_request s Hwf Hlt) as (request & Hr & -> & Hin & Hn). cbn [mbind option_bind].
  destruct (servable request) eqn:Hserv; cbn [negb].
  2:{ destruct (wf_skip s request Hwf Hr Hserv) as (Hwf1 & Hn1 & Hp1).
      eapply runs_mono; [apply (IH true (skip_next s) Hwf1); lia|].
      intros [p s'] (Hadm & -> & _). pose proof (adm_next _ _ Hadm).
      split; [eapply admission_step; try done; simpl; rewrite ?length_app; lia|]. rewrite orb_true_l, (proj2 (Z.ltb_lt _ _)) by lia.
      rewrite orb_true_r. split; [done|lia]. }
  destruct (first_fit _ _) as [start|] eqn:Hfit.
  - pose proof (ok_max_blocks _ _ Hok).
    apply first_fit_free in Hfit; [|rewrite (bw_length _ Hwf); words].
    pose proof Hfit as (?&?&?&_).
    run_step (mark_spec (used s) start (request_blocks request) true);
      [done|done|rewrite (bw_length _ Hwf) in *; words|].
    intros used' Hmark.
    destruct (wf_admit s request start used' Hwf Hr Hserv Hfit Hmark) as (Hwf1 & Hn1 & Hp1).
    eapply runs_mono; [apply (IH true (admit_next s request start used') Hwf1); lia|].
    intros [p s'] (Hadm & -> & _). pose proof (adm_next _ _ Hadm).
    split; [eapply admission_step; try done; simpl; rewrite ?length_app; lia|]. rewrite orb_true_l, (proj2 (Z.ltb_lt _ _)) by lia.
    rewrite orb_true_r. split; [done|lia].
  - assert (live_config → active s ≠ []) as Hidle.
    { intros [_ Hpos] Hidle.
      destruct (idle_pool_fits s request Hwf Hidle Hserv (Hpos _ Hin Hserv)) as [? Hc].
      congruence. }
    destruct (_ <=? _); cbn [runs next_pending];
      rewrite Z.ltb_irrefl, orb_false_r; split_and!; try done;
      try (by intros Hc ?; destruct (Hidle Hc)); [|by apply admission_refl].
    split; [|simpl; lia|unfold potential; simpl; lia| |done]; [|by destruct (metrics s)].
    apply wf_metrics; [done|..]; try (by destruct (metrics s));
      [pose proof (bw_peak _ Hwf)|pose proof (bw_steps _ Hwf)]; by destruct (metrics s).
Qed.

(** ** Decoding *)

Lemma insert_permutes {A} (l : list A) i y : (i < length l)%nat → <[i := y]> l ≡ₚ y :: delete i l.
Proof.
  intros Hi. rewrite insert_take_drop by done. rewrite delete_take_drop.
  symmetry. apply Permutation_middle.
Qed.

(** Overwriting an element with the last one and dropping that. *)
Lemma swap_remove {A} (l : list A) i x z :
  l !! i = Some x → last l = Some z →
  runs (pop_back (<[i := z]> l)) (λ '(rest, _), x :: rest ≡ₚ l).
Proof.
  intros Hx Hz. apply last_Some in Hz as [k ->].
  destruct (decide (i = length k)) as [->|Hne].
  - rewrite list_lookup_middle in Hx by done. simplify_eq.
    rewrite list_insert_id by by apply list_lookup_middle. rewrite pop_back_snoc. simpl.
    by rewrite Permutation_app_comm.
  - pose proof (lookup_lt_Some _ _ _ Hx) as Hi. rewrite length_app in Hi. simpl in Hi.
    rewrite lookup_app_l in Hx by lia. rewrite insert_app_l by lia. rewrite pop_back_snoc. simpl.
    transitivity (z :: x :: delete i k).
    + rewrite (insert_permutes k i z) by lia. apply Permutation_swap.
    + rewrite (Permutation_app_comm k [z]). simpl. f_equiv. symmetry.
      by apply delete_Permutation.
Qed.

(** A reservation after one more token. *)
Definition decoded_once (r : Reservation) : Reservation :=
  mkReservation (res_index r) (start_block r) (block_count r) (res_committed r ⊞ 1)
    (res_decoded r ⊞ 1).

Definition count_token (m : ReplayMetrics) : ReplayMetrics :=
  m <| tokens_decoded ::= λ n, n ⊕ 1 |>.

Lemma decoded_once_left r request :
  reservation_ok r → request_of r = Some request →
  res_decoded (decoded_once r) = res_decoded r + 1 ∧ left (decoded_once r) = left r - 1 ∧
  (decode_actual request <= res_decoded r + 1 → left r = 1) ∧
  (res_decoded r + 1 < decode_actual request → reservation_ok (decoded_once r)).
Proof.
  intros Hr Hreq. destruct (ro_request _ Hr) as (request' & Hreq' & Hin & Hrange). simplify_eq.
  assert (request_of (decoded_once r) = Some request) as Hreq2 by done.
  pose proof (ok_actual _ _ Hok _ Hin) as Ha. unfold left. rewrite Hreq, Hreq2.
  unfold goal in *. simpl. rewrite u32_small by words.
  split_and!; [done|lia|lia|]. intros Hlt. destruct Hr. split; try done.
  exists request. unfold goal. simpl. rewrite u32_small by words.
  repeat split; try done; lia.
Qed.

(** One token for the reservation at [i], which is not done. *)
Lemma wf_decode s i r request :
  baseline_wf s → active s !! i = Some r → request_of r = Some request →
  res_decoded r + 1 < decode_actual request →
  let s' := mkBaseline (used s) (blocks_in_use s) (<[i := decoded_once r]> (active s))
              (next_pending s) (done_requests s) (count_token (metrics s)) in
  baseline_wf s' ∧ potential s' = potential s - 1.
Proof.
  intros Hwf Hi Hreq Hlt s'. assert (r ∈ active s) as Hin by by eapply list_elem_of_lookup_2.
  destruct (decoded_once_left r request (bw_active _ Hwf _ Hin) Hreq) as (_ & Hleft & _ & Hr').
  specialize (Hr' Hlt). pose proof (lookup_lt_Some _ _ _ Hi) as Hlen.
  pose proof (delete_Permutation _ _ _ Hi) as Hp.
  pose proof (insert_permutes (active s) i (decoded_once r) Hlen) as Hp'.
  assert (∀ f, zsum f (<[i := decoded_once r]> (active s)) =
               zsum f (active s) - f r + f (decoded_once r)) as Hz
    by (intros f; rewrite (zsum_Permutation f _ _ Hp), Hp'; cbn [zsum]; lia).
  pose proof (Hz left) as Hl.
  split; [|unfold potential; simpl; lia]. subst s'. destruct Hwf. destruct (metrics s).
  split; simpl in *; try done.
  - intros b u Hu. rewrite Hz, <-(bw_owned0 b u Hu). unfold covers. simpl. lia.
  - intros r'. rewrite Hp'. intros [->|Hr'']%elem_of_cons; [done|]. apply bw_active0.
    rewrite (delete_Permutation _ _ _ Hi). by right.
  - rewrite Hz. simpl. lia.
  - by rewrite length_insert.
  - rewrite bw_tokens0, u64_add_l, Hl. f_equal. lia.
Qed.

(** One token for a reservation that is then done. *)
Lemma wf_finish s i r request rest used' :
  baseline_wf s → active s !! i = Some r → request_of r = Some request →
  decode_actual request <= res_decoded r + 1 →
  decoded_once r :: rest ≡ₚ <[i := decoded_once r]> (active s) →
  marked (used s) (start_block r) (block_count r) false used' →
  let s' := mkBaseline used' (blocks_in_use s ⊟ block_count r) rest (next_pending s)
              (done_requests s ⊕ 1) (count_token (metrics s)) in
  baseline_wf s' ∧ potential s' = potential s - 1 ∧ S (length rest) = length (active s).
Proof.
  intros Hwf Hi Hreq Hge Hrest Hmark s'.
  assert (r ∈ active s) as Hin by by eapply list_elem_of_lookup_2.
  destruct (decoded_once_left r request (bw_active _ Hwf _ Hin) Hreq) as (_ & _ & Hleft & _).
  specialize (Hleft Hge). pose proof (lookup_lt_Some _ _ _ Hi) as Hlen.
  assert (active s ≡ₚ r :: rest) as Hp.
  { rewrite (delete_Permutation _ _ _ Hi). f_equiv.
    rewrite insert_permutes in Hrest by done. by apply Permutation_cons_inv in Hrest. }
  pose proof (Permutation_length Hp) as Hlen'. simpl in Hlen'.
  assert (zsum left (active s) = zsum left rest + 1) as Hl by (rewrite Hp; cbn [zsum]; lia).
  assert (zsum block_count (active s) = block_count r + zsum block_count rest) as Hc
    by (rewrite Hp; done).
  pose proof (in_use_bound _ Hwf) as Hb. pose proof (bw_in_use _ Hwf) as Hu.
  pose proof (bw_next _ Hwf). pose proof (bw_done _ Hwf). pose proof (bw_done_nonneg _ Hwf).
  pose proof (ok_requests _ _ Hok). pose proof (ok_max_blocks _ _ Hok).
  assert (∀ r', r' ∈ rest → reservation_ok r') as Hrok
    by (intros r' Hr'; apply (bw_active _ Hwf); rewrite Hp; by right).
  assert (0 <= zsum block_count rest)
    by (apply zsum_nonneg; intros r' Hr'; apply (ro_count _ (Hrok _ Hr'))).
  pose proof (ro_count _ (bw_active _ Hwf _ Hin)).
  assert (blocks_in_use s ⊟ block_count r = zsum block_count rest) as Hu'
    by (rewrite u32_small by words; lia).
  assert (done_requests s ⊕ 1 = done_requests s + 1) as Hd by (apply u64_small; words).
  subst s'. rewrite Hu', Hd. split_and!; [|unfold potential; simpl; lia|lia].
  destruct Hwf. destruct (metrics s). split; simpl in *; try done; try lia.
  - by destruct Hmark as [-> _].
  - apply (owned_release (used s) _ r); [|done]. intros b u Hbu. rewrite <-Hp. by apply bw_owned0.
  - rewrite bw_tokens0, u64_add_l. f_equal. lia.
Qed.

Lemma decode_contiguous_spec fuel progress i s :
  baseline_wf s → (i ≤ length (active s))%nat → (length (active s) - i ≤ fuel)%nat →
  runs (decode_contiguous trace fuel progress i s) (λ '(p, s'),
    baseline_wf s' ∧ next_pending s' = next_pending s ∧
    potential s' = potential s - Z.of_nat (length (active s) - i) ∧
    steps (metrics s') = steps (metrics s) ∧
    p = progress || bool_decide (i < length (active s))%nat).
Proof.
  revert progress i s. induction fuel as [|fuel IH]; intros progress i s Hwf Hi Hfuel.
  all: cbn [decode_contiguous]; destruct (decide (i < length (active s))%nat) as [Hlt|Hlt].
  { lia. }
  1,3: split_and!; try done; [replace (length (active s) - i)%nat with 0%nat by lia; lia|];
    by rewrite bool_decide_eq_false_2, orb_false_r.
  destruct (lookup_lt_is_Some_2 (active s) i Hlt) as [r Hr]. rewrite Hr. cbn [mbind option_bind].
  assert (r ∈ active s) as Hin by by eapply list_elem_of_lookup_2.
  pose proof (bw_active _ Hwf _ Hin) as Hrok.
  destruct (ro_request _ Hrok) as (request & Hreq & Hreqin & Hrange).
  assert (vec_get (requests trace) (res_index r) = Some request) as ->.
  { unfold vec_get. rewrite (proj2 (Z.leb_le _ _)) by apply (ro_index _ Hrok). done. }
  cbn [mbind option_bind]. fold (decoded_once r). fold (count_token (metrics s)).
  destruct (decoded_once_left r request Hrok Hreq) as (-> & _).
  rewrite (bool_decide_eq_true_2 _ Hlt), orb_true_r.
  assert (<[i := decoded_once r]> (active s) !! i = Some (decoded_once r)) as Hri
    by by apply list_lookup_insert_eq.
  destruct (Z.leb_spec (decode_actual request) (res_decoded r + 1)) as [Hge|Hlt'].
  - destruct Hrok. pose proof (ok_max_blocks _ _ Hok).
    run_step (mark_spec (used s) (start_block r) (block_count r) false);
      [done|done|rewrite (bw_length _ Hwf); words|].
    intros used' Hmark. destruct (last (<[i := decoded_once r]> (active s))) as [z|] eqn:Hz.
    2:{ apply last_None in Hz. by rewrite Hz in Hri. }
    run_step (swap_remove _ i _ z Hri Hz). intros [rest back] Hrest.
    destruct (wf_finish s i r request rest used' Hwf Hr Hreq Hge Hrest Hmark)
      as (Hwf' & Hpot & Hlen).
    eapply runs_mono; [apply (IH true i _ Hwf'); simpl; lia|].
    intros [p s'] (? & ? & ? & ? & ->). simpl in *. split_and!; (done || lia).
  - destruct (wf_decode s i r request Hwf Hr Hreq Hlt') as (Hwf' & Hpot).
    eapply runs_mono; [apply (IH true (S i) _ Hwf'); simpl; rewrite length_insert; lia|].
    intros [p s'] (? & ? & ? & ? & ->). simpl in *. rewrite length_insert in *.
    split_and!; (done || lia).
Qed.

(** ** Accounting *)

Lemma note_reservations l m :
  let m' := foldl (note_reservation config) m l in
  tokens_decoded m' = tokens_decoded m ∧ requests_admitted m' = requests_admitted m ∧
  requests_never_admissible m' = requests_never_admissible m ∧
  peak_blocks_in_use m' = peak_blocks_in_use m ∧ steps m' = steps m.
Proof.
  revert m. induction l as [|r l IH]; intros m; [done|]. cbn [foldl].
  destruct (IH (note_reservation config m r)) as (-> & -> & -> & -> & ->).
  unfold note_reservation. destruct m. by destruct (_ <? _).
Qed.

Lemma account_spec stalled s :
  baseline_wf s →
  let s' := account_contiguous trace config stalled s in
  baseline_wf s' ∧ active s' = active s ∧ next_pending s' = next_pending s ∧
  steps (metrics s') = steps (metrics s).
Proof.
  intros Hwf s'. pose proof (in_use_bound _ Hwf) as Hu. pose proof (bw_peak _ Hwf) as Hp.
  pose proof (bw_steps _ Hwf) as Hst. subst s'. unfold account_contiguous. cbv zeta.
  match goal with |- context [foldl (note_reservation config) ?m ?l] =>
    destruct (note_reservations l m) as (H1 & H2 & H3 & H4 & H5) end.
  split_and!; [apply wf_metrics; [done|..]| | |cbn [metrics]];
    rewrite ?H1, ?H2, ?H3, ?H4, ?H5; try done;
    destruct stalled, (metrics s); simpl in *; (done || lia).
Qed.

(** ** Steps *)

Definition tick (s : Baseline) : Baseline :=
  mkBaseline (used s) (blocks_in_use s) (active s) (next_pending s) (done_requests s)
    ((metrics s) <| steps ::= λ n, n ⊕ 1 |>).

Lemma tick_wf s :
  baseline_wf s → steps (metrics s) < max_steps config →
  baseline_wf (tick s) ∧ steps (metrics (tick s)) = steps (metrics s) + 1.
Proof.
  intros Hwf Hlt. pose proof (bw_steps _ Hwf). pose proof (ok_max_steps _ _ Hok).
  assert (steps (metrics s) ⊕ 1 = steps (metrics s) + 1) as Hs by (apply u64_small; words).
  split; [|by rewrite <-Hs]. pose proof (bw_peak _ Hwf).
  apply wf_metrics; [done|..]; destruct (metrics s); simpl in *; try done.
  rewrite Hs. words.
Qed.

(** A step is defined and keeps the invariant; where every request that fits needs a
    block, a step before the end brings the end closer. *)
Lemma step_contiguous_spec s :
  baseline_wf s → steps (metrics s) < max_steps config →
  runs (step_contiguous trace config s) (λ '(p, s'),
    baseline_wf s' ∧ steps (metrics s') = steps (metrics s) + 1 ∧
    (live_config → done_requests s < Z.of_nat (length (requests trace)) →
     p = true ∧ potential s' <= potential s - 1)).
Proof.
  intros Hwf Hlt. destruct (tick_wf s Hwf Hlt) as [Hwf0 Hs0]. unfold step_contiguous.
  fold (tick s). pose proof (bw_next _ Hwf0).
  run_step (admit_contiguous_spec (length (requests trace)) false (tick s) Hwf0); [lia|].
  intros [p1 s1] ([Hwf1 Hn1 Hp1 Hs1 Ha1] & -> & Hidle).
  run_step (decode_contiguous_spec (length (active s1))
              (false || (next_pending (tick s) <? next_pending s1)) 0 s1 Hwf1); [lia..|].
  intros [p2 s2] (Hwf2 & Hn2 & Hp2 & Hs2 & ->). cbn [runs].
  match goal with |- context [account_contiguous _ _ ?b _] =>
    destruct (account_spec b s2 Hwf2) as (Hwf3 & Ha3 & Hn3 & Hs3) end.
  split; [done|]. split; [congruence|]. intros Hlive Hdone.
  unfold potential in *. rewrite Ha3, Hn3. simpl in *.
  destruct (active s1) as [|r l] eqn:Hact.
  - assert (active s = []) as Hnil by (destruct (active s); simpl in *; [done|lia]).
    pose proof (bw_done _ Hwf) as Hd. rewrite Hnil in Hd. simpl in Hd.
    specialize (Hidle Hlive Hnil ltac:(lia)). rewrite (proj2 (Z.ltb_lt _ _)) by done.
    split; [done|]. simpl in *. lia.
  - simpl in *. rewrite orb_true_r. split; [done|]. lia.
Qed.

Lemma potential_done s :
  baseline_wf s → potential s <= 0 → done_requests s = Z.of_nat (length (requests trace)).
Proof.
  intros Hwf Hp. unfold potential in Hp. pose proof (left_count _ (bw_active _ Hwf)).
  pose proof (bw_done _ Hwf). pose proof (bw_next _ Hwf).
  assert (Z.of_nat (length (drop (Z.to_nat (next_pending s)) (requests trace)))
          <= zsum (λ r, 1 + goal r) (drop (Z.to_nat (next_pending s)) (requests trace))) as Hd.
  { generalize (drop (Z.to_nat (next_pending s)) (requests trace)) as l.
    induction l as [|r l IH]; cbn [length zsum]; [lia|]. unfold goal at 1. lia. }
  rewrite length_drop in Hd. lia.
Qed.

Lemma run_steps_spec fuel s :
  baseline_wf s → max_steps config - steps (metrics s) <= Z.of_nat fuel →
  runs (run_steps trace config fuel s) (λ s',
    baseline_wf s' ∧
    (live_config → potential s <= max_steps config - steps (metrics s) →
     done_requests s' = Z.of_nat (length (requests trace)))).
Proof.
  revert s. induction fuel as [|fuel IH]; intros s Hwf Hfuel; cbn [run_steps].
  all: pose proof (bw_done _ Hwf); pose proof (bw_next _ Hwf).
  all: destruct (Z.ltb_spec (done_requests s) (Z.of_nat (length (requests trace)))) as [Hd|Hd];
    [|split; [done|]; intros; lia].
  all: destruct (Z.ltb_spec (steps (metrics s)) (max_steps config)) as [Hs|Hs]; cbn [andb];
    [|split; [done|]; intros; apply potential_done; [done|lia]].
  { lia. }
  run_step (step_contiguous_spec s Hwf Hs). intros [p s'] (Hwf' & Hs' & Hlive).
  destruct p.
  - eapply runs_mono; [apply (IH s' Hwf'); lia|]. intros s'' [Hwf'' Hdone].
    split; [done|]. intros Hl Hpot. apply Hdone; [done|]. destruct (Hlive Hl Hd). lia.
  - split; [done|]. intros Hl _. by destruct (Hlive Hl Hd).
Qed.

(** ** The run *)

Lemma count_unservable l m :
  let m' := foldl (λ m r, if servable r then m
                          else m <| requests_never_admissible ::= λ n, n ⊞ 1 |>) m l in
  tokens_decoded m' = tokens_decoded m ∧ requests_admitted m' = requests_admitted m ∧
  peak_blocks_in_use m' = peak_blocks_in_use m ∧ steps m' = steps m ∧
  (requests_never_admissible m = u32 (requests_never_admissible m) →
   requests_never_admissible m' =
   u32 (requests_never_admissible m + zsum (λ r, 1 - admissible r) l)).
Proof.
  revert m. induction l as [|r l IH]; intros m; cbn [foldl zsum].
  { split_and!; try done. intros Hm. by rewrite Z.add_0_r. }
  unfold admissible at 1. destruct (servable r).
  - destruct (IH m) as (H1 & H2 & H3 & H4 & H5). split_and!; try done.
  - edestruct IH as (-> & -> & -> & -> & H5). destruct m. simpl in *. split_and!; try done.
    intros _. rewrite H5; [|symmetry; apply u32_small, u32_range].
    rewrite u32_add_l. f_equal. lia.
Qed.

Lemma start_wf :
  baseline_wf (start_contiguous trace config) ∧
  potential (start_contiguous trace config) = zsum (λ r, 1 + goal r) (requests trace) ∧
  steps (metrics (start_contiguous trace config)) = 0.
Proof.
  pose proof (ok_max_blocks _ _ Hok).
  destruct (count_unservable (requests trace) (ReplayMetrics_default "contiguous"))
    as (Ht & Ha & Hp & Hs & Hn).
  specialize (Hn eq_refl). split_and!; [|done|done].
  split; cbn [used active blocks_in_use next_pending done_requests metrics start_contiguous].
  - rewrite length_replicate. words.
  - intros b u Hu. apply lookup_replicate in Hu as [-> _]. done.
  - intros r Hr. by apply not_elem_of_nil in Hr.
  - done.
  - lia.
  - done.
  - done.
  - done.
  - done.
  - by rewrite Hn.
  - rewrite Hp. simpl. words.
  - rewrite Hs. done.
Qed.
End Baseline.

(** ** Properties *)

(** [first_fit] returns the lowest start of a free run of the size asked for, and
    fails exactly when the pool has no such run. *)
Theorem first_fit_lowest used needed :
  0 < needed → Z.of_nat (length used) < W32 →
  match first_fit used needed with
  | Some start => free_run used start needed ∧ ∀ other, free_run used other needed → start <= other
  | None => ∀ other, ¬ free_run used other needed
  end.
Proof.
  intros Hpos Hw.
  assert (none_before needed used 0) as Hnone by (intros start (?&?&?&?); lia).
  pose proof (first_fit_from_lowest needed used [] 0 Hpos scanned_nil Hpos Hw Hnone) as Hl.
  change (first_fit_from _ _ _ _) with (first_fit used needed) in Hl.
  destruct (first_fit used needed) as [start|] eqn:Hfit; [|exact Hl].
  split; [by apply first_fit_free|exact Hl].
Qed.

(** What the property below states, as the command line uses it. *)
Lemma contiguous_run_ends trace config :
  replay_ok trace config →
  runs (run_contiguous trace config) (λ m,
    peak_blocks_in_use m <= cfg_max_blocks config ∧
    requests_never_admissible m = u32 (zsum (λ r, 1 - admissible config r) (requests trace)) ∧
    (completed m = true →
     leak_free m = true ∧
     requests_completed m = u32 (Z.of_nat (length (requests trace))) ∧
     requests_admitted m = u32 (zsum (admissible config) (requests trace)) ∧
     tokens_decoded m = u64 (zsum (served config) (requests trace)))).
Proof.
  intros Hok. destruct (start_wf trace config Hok) as (Hwf & _ & Hs). unfold run_contiguous.
  pose proof (ok_max_steps _ _ Hok).
  run_step (run_steps_spec trace config Hok (Z.to_nat (max_steps config)) _ Hwf);
    [rewrite Hs; words|].
  intros s [Hwf' _]. cbn [runs].
  split_and!; [apply (bw_peak _ _ _ Hwf')|apply (bw_never _ _ _ Hwf')|].
  intros Hdone%Z.eqb_eq. pose proof (bw_done _ _ _ Hwf') as Hd.
  pose proof (bw_next _ _ _ Hwf'). pose proof (bw_in_use _ _ _ Hwf') as Hu.
  pose proof (bw_tokens _ _ _ Hwf') as Ht. pose proof (bw_admitted _ _ _ Hwf') as Ha.
  assert (active s = []) as Hnil by (apply length_zero_iff_nil; lia).
  rewrite take_ge in Ht, Ha by lia. rewrite Hnil in Ht, Hu. rewrite Z.sub_0_r in Ht.
  split_and!; [by apply Z.eqb_eq| |exact Ha|exact Ht]. cbn. by rewrite Hdone.
Qed.

(** *** What the baseline serves, in plain numbers *)

(** The sizes of the requests are 32-bit numbers whose rounding up does not wrap. *)
Definition sizes_fit (trace : Trace) (config : ReplayConfig) : Prop :=
  0 < cfg_tokens_per_block config ∧ is_u32 (baseline_max_context config) ∧
  ∀ r, r ∈ requests trace → 0 <= tr_prompt_tokens r ∧ 0 <= decode_budget r ∧
    tr_prompt_tokens r + decode_budget r + cfg_tokens_per_block config <= W32.

(** The prompt and the whole decode budget fit the longest context and the pool. *)
Definition fits (config : ReplayConfig) (r : TraceRequest) : Prop :=
  tr_prompt_tokens r + decode_budget r <= baseline_max_context config ∧
  tr_prompt_tokens r + decode_budget r <= cfg_max_blocks config * cfg_tokens_per_block config.
#[export] Instance fits_dec config r : Decision (fits config r).
Proof. unfold fits. apply _. Defined.

(** A quotient rounded up is at most [k] when [k] of the divisor hold the number. *)
Lemma ceil_div_le v d k : 0 < d → 0 <= v → v + d <= W32 → k < ceil_div v d ↔ k * d < v.
Proof.
  intros Hd Hv Hm. unfold ceil_div. rewrite (proj2 (Z.eqb_neq d 0)) by lia.
  rewrite <-Z.add_opp_r, u32_add_l, Z.add_opp_r, u32_small by words.
  pose proof (Z.div_mod (v + d - 1) d ltac:(lia)) as Hq.
  pose proof (Z.mod_pos_bound (v + d - 1) d Hd) as Hr. split; intros Hk; nia.
Qed.

Lemma servable_fits trace config r :
  sizes_fit trace config → r ∈ requests trace → servable config r = bool_decide (fits config r).
Proof.
  intros (Ht & Hc & Hall) Hr. destruct (Hall r Hr) as (Hp & Hb & Hs).
  unfold servable, request_blocks, fits. rewrite u32_small by words.
  set (n := tr_prompt_tokens r + decode_budget r) in *.
  destruct (Z.ltb_spec (baseline_max_context config) n) as [Hlt|Hle]; cbn [orb negb].
  { by rewrite bool_decide_eq_false_2 by lia. }
  rewrite Z.min_r by lia. pose proof (ceil_div_le n _ (cfg_max_blocks config) Ht ltac:(lia) Hs) as Hq.
  destruct (Z.ltb_spec (cfg_max_blocks config) (ceil_div n (cfg_tokens_per_block config))); cbn [negb].
  - rewrite bool_decide_eq_false_2; [done|]. lia.
  - rewrite bool_decide_eq_true_2; [done|]. lia.
Qed.

(** The sums over the requests that fit. *)
Lemma fitting_sum trace config (f : TraceRequest → Z) :
  sizes_fit trace config →
  zsum (λ r, if servable config r then f r else 0) (requests trace) =
    zsum f (filter (fits config) (requests trace)).
Proof.
  intros Hs. assert (∀ r, r ∈ requests trace → servable config r = bool_decide (fits config r)) as Hall
    by (intros; by eapply servable_fits).
  revert Hall. generalize (requests trace). intros l. induction l as [|r l IH]; intros Hall; [done|].
  cbn [zsum]. rewrite filter_cons, (Hall r) by by left. rewrite IH by (intros; apply Hall; by right).
  destruct (decide (fits config r)); [by rewrite bool_decide_eq_true_2|by rewrite bool_decide_eq_false_2].
Qed.

Lemma zsum_ones {A} (l : list A) : zsum (λ _, 1) l = Z.of_nat (length l).
Proof. induction l as [|x l IH]; cbn [zsum length]; lia. Qed.

Lemma length_split {A} (P : A → Prop) `{!∀ x, Decision (P x)} (l : list A) :
  Z.of_nat (length (filter P l)) + Z.of_nat (length (filter (λ x, ¬ P x) l)) = Z.of_nat (length l).
Proof. induction l as [|x l IH]; [done|]. rewrite !filter_cons. repeat case_decide; cbn [length]; try done; lia. Qed.

(** C40. The contiguous baseline never leaves the pool. It is defined on every trace, its
    reservations never cover more blocks than there are, and once it completes every
    block is back. Where the sizes do not wrap, [requests_never_admissible] is the
    number of requests whose prompt and whole decode budget exceed the longest context
    or the pool, prompts that would fit the pool included; a completed run has admitted
    exactly the others and decoded each one's tokens, at least one. *)
Theorem contiguous_run_exact trace config :
  replay_ok trace config →
  runs (run_contiguous trace config) (λ m,
    peak_blocks_in_use m <= cfg_max_blocks config ∧
    (completed m = true →
     leak_free m = true ∧ requests_completed m = u32 (Z.of_nat (length (requests trace)))) ∧
    (sizes_fit trace config →
     let fitting := filter (fits config) (requests trace) in
     requests_never_admissible m =
       u32 (Z.of_nat (length (filter (λ r, ¬ fits config r) (requests trace)))) ∧
     (completed m = true →
      requests_admitted m = u32 (Z.of_nat (length fitting)) ∧
      tokens_decoded m = u64 (zsum (λ r, Z.max 1 (decode_actual r)) fitting)))).
Proof.
  intros Hok. eapply runs_mono; [by apply contiguous_run_ends|].
  intros m (Hpeak & Hnever & Hdone). split; [done|]. split; [by intros (? & ? & _)%Hdone|].
  intros Hs fitting. pose proof (fitting_sum trace config (λ _, 1) Hs) as Hone.
  rewrite zsum_ones in Hone. fold fitting in Hone. split.
  - rewrite Hnever. f_equal. pose proof (length_split (fits config) (requests trace)) as Hl.
    fold fitting in Hl.
    assert (zsum (λ r, 1 - admissible config r) (requests trace) =
      Z.of_nat (length (requests trace)) - zsum (λ r, if servable config r then 1 else 0) (requests trace)) as ->.
    { generalize (requests trace). intros l. induction l as [|r l IH]; cbn [zsum length]; [done|].
      unfold admissible at 1. lia. }
    lia.
  - intros (_ & _ & Ha & Ht)%Hdone. rewrite Ha, Ht. split; f_equal; [exact Hone|].
    exact (fitting_sum trace config goal Hs).
Qed.

(** When every request that fits needs a block and one request may run, the baseline
    completes within one step per request and token: first fit never blocks it for
    good. *)
Theorem contiguous_completes trace config :
  replay_ok trace config → live_config trace config →
  zsum (λ r, 1 + goal r) (requests trace) <= max_steps config →
  runs (run_contiguous trace config) (λ m, completed m = true ∧ leak_free m = true).
Proof.
  intros Hok Hlive Hsteps. destruct (start_wf trace config Hok) as (Hwf & Hp & Hs).
  unfold run_contiguous. pose proof (ok_max_steps _ _ Hok).
  run_step (run_steps_spec trace config Hok (Z.to_nat (max_steps config)) _ Hwf);
    [rewrite Hs; words|].
  intros s [Hwf' Hdone]. specialize (Hdone Hlive ltac:(lia)). cbn [runs].
  pose proof (bw_done _ _ _ Hwf') as Hd. pose proof (bw_next _ _ _ Hwf').
  pose proof (bw_in_use _ _ _ Hwf') as Hu.
  assert (active s = []) as Hnil by (apply length_zero_iff_nil; lia). rewrite Hnil in Hu.
  split; by apply Z.eqb_eq.
Qed.

(** ** A trace *)

Definition demo_request (id prompt budget actual : Z) : TraceRequest :=
  mkTraceRequest id 0 0 prompt budget actual 1 "" [] [] (mkPositionalEncodingMetadata []).

(** Two requests that fit, one that never does, and one that waits. *)
Definition demo_trace : Trace :=
  mkTrace (mkTraceHeader "m" "mix" "src" "px" 0 4 1 1 1 2 40 8 0 0)
    [demo_request 1 20 8 3; demo_request 2 10 6 6; demo_request 3 40 90 1; demo_request 4 9 7 0].
Definition demo_config : ReplayConfig := mkReplayConfig 16 3 2 64 0 0 false 8 false 64 1000.

Lemma demo_ok : replay_ok demo_trace demo_config.
Proof.
  split; simpl; [words..|].
  intros request Hr. simpl in Hr.
  repeat (apply elem_of_cons in Hr as [->|Hr]; [simpl; words|]).
  by apply not_elem_of_nil in Hr.
Defined.

Lemma demo_live : live_config demo_trace demo_config.
Proof.
  split; [done|]. intros request Hr _. simpl in Hr.
  repeat (apply elem_of_cons in Hr as [->|Hr]; [done|]). by apply not_elem_of_nil in Hr.
Defined.

Lemma first_fit_lowest_witness :
  match first_fit [true; false; true; false; false] 2 with
  | Some start =>
    free_run [true; false; true; false; false] start 2 ∧
    ∀ other, free_run [true; false; true; false; false] other 2 → start <= other
  | None => ∀ other, ¬ free_run [true; false; true; false; false] other 2
  end.
Proof. apply (first_fit_lowest [true; false; true; false; false] 2); done. Defined.

Lemma demo_sizes : sizes_fit demo_trace demo_config.
Proof.
  split; [done|]. split; [by vm_compute|]. intros request Hr. simpl in Hr.
  repeat (apply elem_of_cons in Hr as [->|Hr]; [by split_and!|]). by apply not_elem_of_nil in Hr.
Qed.

(** The third request is not served, although its prompt of 40 tokens fits the pool of 48. *)
Lemma contiguous_run_exact_witness :
  runs (run_contiguous demo_trace demo_config) (λ m,
    completed m = true ∧ leak_free m = true ∧ requests_never_admissible m = 1 ∧
    requests_admitted m = 3 ∧ tokens_decoded m = 10) ∧
  tr_prompt_tokens (demo_request 3 40 90 1) = 40 ∧
  cfg_max_blocks demo_config * cfg_tokens_per_block demo_config = 48.
Proof.
  split; [|done]. pose proof (contiguous_run_exact demo_trace demo_config demo_ok) as Hrun.
  assert (completed <$> run_contiguous demo_trace demo_config = Some true) as Hc by by vm_compute.
  destruct (run_contiguous demo_trace demo_config) as [m|]; [|done].
  destruct Hrun as (_ & Hdone & Hsizes). injection Hc as Hc.
  destruct (Hdone Hc) as [Hleak _]. destruct (Hsizes demo_sizes) as [Hnever Hfit].
  destruct (Hfit Hc) as [Ha Ht]. cbn [runs]. rewrite Hnever, Ha, Ht. split_and!; [done|done|by vm_compute..].
Defined.

Lemma contiguous_completes_witness :
  zsum (λ r, 1 + goal r) (requests demo_trace) <= 1000 ∧
  runs (run_contiguous demo_trace demo_config) (λ m, completed m = true ∧ leak_free m = true).
Proof.
  split; [done|]. apply (contiguous_completes demo_trace demo_config demo_ok demo_live). done.
Defined.
