(* ===== verification/TraceProps.v ===== *)
(** Loading a trace is exact: a trace is accepted when every line that is not empty is a
    record the program understands and one of them is a header, and it then holds
    those records; an error names the first line that is not. *)
From stdpp Require Import pretty.
From S2P Require Import Prelude.
From S2P Require Import KVCacheManager.
From S2P Require Import TraceReplay.

(** ** What a line says *)

Inductive entry := HeaderEntry (h : TraceHeader) | RequestEntry (r : TraceRequest).

Definition header_of (e : entry) : option TraceHeader :=
  match e with HeaderEntry h => Some h | RequestEntry _ => None end.
Definition request_of_entry (e : entry) : option TraceRequest :=
  match e with HeaderEntry _ => None | RequestEntry r => Some r end.

Section Loading.
Context {J : Type} `{Json J}.

(** A value, unless the call threw. *)
Definition value_of {A} (r : result A) : option A :=
  match r with Value x => Some x | Throw _ => None end.

(** The record of a line: a header of the supported version, or a request. *)
Definition entry_of (line : string) : option entry :=
  record ← value_of (json_parse line);
  kind ← value_of (json_value record "record" "");
  if String.eqb kind "header" then
    version ← value_of (field json_int record "schema_version");
    if version =? kSupportedSchemaVersion
    then HeaderEntry <$> value_of (header_from_json record) else None
  else if String.eqb kind "request" then RequestEntry <$> value_of (request_from_json record)
  else None.

Definition entries_of (lines : list string) : option (list entry) :=
  mapM entry_of (filter (λ line, line ≠ ""%string) lines).

Lemma entries_of_cons line lines :
  entries_of (line :: lines) =
  if decide (line = ""%string) then entries_of lines
  else e ← entry_of line; es ← entries_of lines; Some (e :: es).
Proof.
  unfold entries_of. rewrite filter_cons. by repeat case_decide.
Qed.

(** The trace a list of records describes, after what is already there. *)
Definition described (s : Trace * bool) (es : list entry) : Trace * bool :=
  (mkTrace (default (header (fst s)) (last (omap header_of es)))
     (requests (fst s) ++ omap request_of_entry es),
   match omap header_of es with [] => snd s | _ => true end).

(** The errors of a line. *)
Definition line_error (path : string) (n : Z) (e : string) : Prop :=
  (∃ what, e = at_line path n what) ∨
  (∃ version : Z, e = path +:+ ": unsupported schema_version " +:+ pretty version).

Lemma described_nil s : described s [] = s.
Proof. unfold described. simpl. rewrite app_nil_r. by destruct s as [[h rs] saw]. Qed.

Lemma described_cons s e es :
  described s (e :: es) =
  described (match e with
             | HeaderEntry h => (mkTrace h (requests (fst s)), true)
             | RequestEntry r => (mkTrace (header (fst s)) (requests (fst s) ++ [r]), snd s)
             end) es.
Proof.
  unfold described. destruct e as [h|r]; simpl.
  - apply (f_equal2 pair); [|by destruct (omap header_of es)]. apply (f_equal2 mkTrace); [|done].
    change (list_omap _ _ header_of es) with (omap header_of es).
    destruct (omap header_of es) as [|h' l]; [done|]. rewrite last_cons_cons.
    by destruct (last (h' :: l)) eqn:Hl; [|apply last_None in Hl].
  - by rewrite <-(assoc_L (++)).
Qed.

(** One line that is not empty. *)
Lemma load_line_spec path n s line :
  line ≠ ""%string →
  match entry_of line with
  | Some e => load_line path n s line = inr (described s [e])
  | None => ∃ error, load_line path n s line = inl error ∧ line_error path n error
  end.
Proof.
  intros Hne. unfold load_line, entry_of.
  rewrite (proj2 (String.eqb_neq line "") Hne).
  destruct (json_parse line) as [record|what]; [|by eexists; split; [done|]; left; eexists].
  unfold load_record. destruct s as [t saw]. cbn [value_of mbind option_bind result_bind].
  destruct (json_value record "record" "") as [kind|what];
    [|by eexists; split; [done|]; left; eexists].
  cbn [value_of mbind option_bind result_bind].
  destruct (String.eqb kind "header").
  - destruct (field json_int record "schema_version") as [version|what];
      [|by eexists; split; [done|]; left; eexists].
    cbn [value_of mbind option_bind result_bind].
    destruct (version =? kSupportedSchemaVersion); cbn [negb];
      [|by eexists; split; [done|]; right; eexists].
    destruct (header_from_json record) as [h|what]; [|by eexists; split; [done|]; left; eexists].
    unfold described. simpl. by rewrite app_nil_r.
  - destruct (String.eqb kind "request"); [|by eexists; split; [done|]; left; eexists].
    destruct (request_from_json record) as [r|what]; [done|].
    by eexists; split; [done|]; left; eexists.
Qed.

(** The first line that is not understood. *)
Definition first_bad_line (path : string) (first : Z) (lines : list string) (error : string) : Prop :=
  ∃ good line rest es, lines = good ++ line :: rest ∧ entries_of good = Some es ∧
    line ≠ ""%string ∧ entry_of line = None ∧
    line_error path (first + Z.of_nat (length good)) error.

Lemma load_lines_spec path n s lines :
  match load_lines path n s lines with
  | inr s' => ∃ es, entries_of lines = Some es ∧ s' = described s es
  | inl error => first_bad_line path n lines error
  end.
Proof.
  revert n s. induction lines as [|line lines IH]; intros n s; cbn [load_lines].
  { exists []. by rewrite described_nil. }
  assert (∀ error es0, entries_of [line] = Some es0 →
    first_bad_line path (n + 1) lines error → first_bad_line path n (line :: lines) error) as Hlater.
  { intros error es0 He0 (good & bad & rest & es & -> & Hes & ? & ? & Herr).
    exists (line :: good), bad, rest, (es0 ++ es). split_and!; try done.
    - rewrite entries_of_cons in *. rewrite Hes. case_decide; [by injection He0 as <-|].
      destruct (entry_of line); [|done]. simpl in *. by injection He0 as <-.
    - cbn [length]. by replace (n + Z.of_nat (S (length good)))
        with (n + 1 + Z.of_nat (length good)) by lia. }
  rewrite entries_of_cons. destruct (decide (line = ""%string)) as [->|Hne].
  - simpl. specialize (IH (n + 1) s). destruct (load_lines path (n + 1) s lines) as [error|s'].
    + by eapply Hlater.
    + done.
  - pose proof (load_line_spec path n s line Hne) as Hl.
    assert (entries_of [line] = (e ← entry_of line; Some [e])) as Hone
      by (rewrite entries_of_cons, decide_False by done; by destruct (entry_of line)).
    destruct (entry_of line) as [e|] eqn:He.
    + rewrite Hl. specialize (IH (n + 1) (described s [e])).
      destruct (load_lines path (n + 1) (described s [e]) lines) as [error|s'].
      * by eapply Hlater.
      * destruct IH as (es & Hes & ->). exists (e :: es). rewrite Hes. split; [done|].
        by rewrite !described_cons, described_nil.
    + destruct Hl as (error & -> & Herr). exists [], line, lines, []. split_and!; try done.
      by rewrite Z.add_0_r.
Qed.

(** ** Properties *)

(** C25. [load_trace] is exact. The trace it returns has the requests of the lines in order and
    the last header; otherwise the error says that the file does not open, is the one of
    the first line that is not a supported record, or says that there is no header. *)
Theorem load_trace_exact path file :
  match load_trace path file with
  | inr t => ∃ lines es, file = Some lines ∧ entries_of lines = Some es ∧
      last (omap header_of es) = Some (header t) ∧ requests t = omap request_of_entry es
  | inl error =>
    match file with
    | None => error = "cannot open " +:+ path
    | Some lines =>
      first_bad_line path 1 lines error ∨
      ∃ es, entries_of lines = Some es ∧ omap header_of es = [] ∧
        error = path +:+ ": missing header record"
    end
  end.
Proof.
  unfold load_trace. destruct file as [lines|]; [|done].
  pose proof (load_lines_spec path 1 (mkTrace TraceHeader_default [], false) lines) as Hl.
  destruct (load_lines path 1 _ lines) as [error|[t saw]]; [by left|].
  destruct Hl as (es & Hes & [= -> ->]).
  destruct (omap header_of es) as [|h hs] eqn:Hh.
  - right. by exists es.
  - exists lines, es. rewrite Hh. simpl. split_and!; try done.
    change (h :: hs) with ([h] ++ hs). by destruct (last ([h] ++ hs)) eqn:Hlast; [|apply last_None in Hlast].
Qed.
End Loading.

(** ** A parser *)

(** Values with a fixed table of texts in place of a parser. *)
Inductive sample_json :=
  | SNumber (n : Z)
  | SString (s : string)
  | SArray (l : list sample_json)
  | SObject (l : list (string * sample_json)).

Definition member (key : string) (l : list (string * sample_json)) : option sample_json :=
  match list_find (λ '(k, _), k = key) l with Some (_, (_, v)) => Some v | None => None end.

Definition sample_number (j : sample_json) : result Z :=
  match j with SNumber n => Value n | _ => Throw "type must be number" end.

Definition sample_header : sample_json :=
  SObject ([("record", SString "header"); ("schema_version", SNumber 1);
            ("model", SString "m"); ("mix", SString "x"); ("dimension_source", SString "d");
            ("pixel_budget", SString "p")]
           ++ ((λ k, (k, SNumber 7)) <$>
               ["seed"; "num_requests"; "num_layers"; "num_kv_heads"; "head_dim";
                "bytes_per_element"; "max_prompt_tokens"; "max_decode_budget";
                "visual_tokens_max"; "images_total"])).

Definition sample_request : sample_json :=
  let triple := SArray [SNumber 0; SNumber 1; SNumber 2] in
  SObject ([("record", SString "request"); ("prefix_key", SString "k"); ("images", SArray []);
            ("mrope_spans", SArray [SObject [("start_token", SNumber 0);
               ("token_count", SNumber 4); ("kind", SString "image"); ("origin", triple);
               ("stride", triple)]])]
           ++ ((λ k, (k, SNumber 3)) <$>
               ["request_id"; "arrival_us"; "text_tokens"; "prompt_tokens"; "decode_budget";
                "decode_actual"; "num_parallel_samples"])).

#[export] Instance Json_sample : Json sample_json := {
  json_parse s := if String.eqb s "header" then Value sample_header
                  else if String.eqb s "request" then Value sample_request
                  else Throw "parse error";
  json_at j key := match j with
                   | SObject l => match member key l with
                                  | Some v => Value v
                                  | None => Throw "key not found"
                                  end
                   | _ => Throw "cannot use at"
                   end;
  json_index j i := match j with
                    | SArray l => match l !! Z.to_nat i with
                                  | Some v => Value v
                                  | None => Throw "index out of range"
                                  end
                    | _ => Throw "cannot use at"
                    end;
  json_value j key default := match j with
                              | SObject l => match member key l with
                                             | Some (SString s) => Value s
                                             | Some _ => Throw "type must be string"
                                             | None => Value default
                                             end
                              | _ => Throw "cannot use value"
                              end;
  json_string j := match j with SString s => Value s | _ => Throw "type must be string" end;
  json_int := sample_number;
  json_u32 := sample_number;
  json_u64 := sample_number;
  json_i64 := sample_number;
  json_elements j := match j with SArray l => l | _ => [] end
}.

(** A file of two records and an empty line, and one whose second line is bad. *)
Lemma load_trace_exact_witness :
  (∃ t, load_trace "f" (Some ["header"; ""; "request"]) = inr t ∧ length (requests t) = 1%nat) ∧
  match load_trace "f" (Some ["header"; "oops"]) with
  | inr _ => False
  | inl error => error = "f:2: parse error" ∧
      (first_bad_line "f" 1 ["header"; "oops"] error ∨
       ∃ es, entries_of ["header"; "oops"] = Some es ∧ omap header_of es = [] ∧
         error = "f" +:+ ": missing header record")
  end.
Proof.
  split; [eexists; split; [vm_compute; reflexivity|reflexivity]|].
  pose proof (load_trace_exact "f" (Some ["header"; "oops"])) as He.
  split; [vm_compute; reflexivity|exact He].
Defined.
