(* ===== verification/Throws.v ===== *)
(** Computations that may throw: [Some (inl what)] is a [std::runtime_error] that
    leaves the function, [None] undefined behaviour as everywhere. *)
From S2P Require Import Prelude.

Definition returns {A} (x : A) : option (string + A) := Some (inr x).
Definition throw {A} (what : string) : option (string + A) := Some (inl what).

(** A computation that cannot throw. *)
Definition defined {A} (m : option A) : option (string + A) := x ← m; returns x.

Definition and_then {A C} (m : option (string + A)) (f : A → option (string + C))
    : option (string + C) :=
  r ← m; match r with inl what => throw what | inr x => f x end.

Notation "x ⇐ m ; k" := (and_then m (λ x, k))
  (at level 20, m at level 100, k at level 200, only parsing) : stdpp_scope.
Notation "' x ⇐ m ; k" := (and_then m (λ x, k))
  (at level 20, x pattern, m at level 100, k at level 200, only parsing) : stdpp_scope.

(** [require] of the tools. *)
Definition require (condition : bool) (what : string) : option (string + ()) :=
  if condition then returns () else throw what.

Section Loops.
Context {A S : Type} (f : S → A → option (string + S)).
(** A range-based [for] whose body threads the state and may throw. *)
Fixpoint foldT (s : S) (l : list A) : option (string + S) :=
  match l with
  | [] => returns s
  | x :: l' => s' ⇐ f s x; foldT s' l'
  end.
End Loops.

(** The computation is defined, does not throw, and its result satisfies [Q]. *)
Definition finishes {A} (m : option (string + A)) (Q : A → Prop) : Prop :=
  runs m (λ r, match r with inr x => Q x | inl _ => False end).

Section Finishes.
Context {A C : Type}.

Lemma finishes_returns (x : A) (Q : A → Prop) : Q x → finishes (returns x) Q.
Proof. done. Qed.

Lemma finishes_then (m : option (string + A)) (f : A → option (string + C)) (Q : C → Prop) :
  finishes m (λ x, finishes (f x) Q) → finishes (and_then m f) Q.
Proof. by destruct m as [[what|x]|]. Qed.

Lemma finishes_defined (m : option A) (f : A → option (string + C)) (Q : C → Prop) :
  runs m (λ x, finishes (f x) Q) → finishes (and_then (defined m) f) Q.
Proof. by destruct m. Qed.

Lemma finishes_mono (m : option (string + A)) (P Q : A → Prop) :
  finishes m P → (∀ x, P x → Q x) → finishes m Q.
Proof. destruct m as [[what|x]|]; naive_solver. Qed.

Lemma finishes_require (c : bool) what (f : () → option (string + C)) (Q : C → Prop) :
  c = true → finishes (f ()) Q → finishes (and_then (require c what) f) Q.
Proof. by intros ->. Qed.

Lemma finishes_inv (m : option (string + A)) (Q : A → Prop) :
  finishes m Q → ∃ x, m = Some (inr x) ∧ Q x.
Proof. destruct m as [[what|x]|]; [done|by exists x|done]. Qed.
End Finishes.

(** Opens the first computation of a sequence with a specification of it. *)
Ltac finish_step H := apply finishes_then; eapply finishes_mono; [eapply H|].

(** Loop rule: an invariant indexed by the elements already visited. *)
Lemma finishes_foldT {A S} (f : S → A → option (string + S)) (I : list A → S → Prop) l s :
  I [] s →
  (∀ don x rest s', l = don ++ x :: rest → I don s' → finishes (f s' x) (I (don ++ [x]))) →
  finishes (foldT f s l) (I l).
Proof.
  intros H0 Hstep.
  enough (∀ rest don s', l = don ++ rest → I don s' → finishes (foldT f s' rest) (I l)) as Hgen.
  { by apply (Hgen l []). }
  induction rest as [|x rest IH]; intros don s' -> HI; simpl.
  - rewrite app_nil_r. by apply finishes_returns.
  - apply finishes_then. eapply finishes_mono; [by eapply Hstep|].
    intros s'' HI'. apply (IH (don ++ [x])); [by rewrite <-app_assoc|done].
Qed.

(** A loop of calls that cannot throw. *)
Lemma finishes_calls {A S} (f : S → A → option S) (I : S → Prop) l s :
  (∀ s x, I s → runs (f s x) I) → I s → finishes (defined (foldM f s l)) I.
Proof.
  intros Hf HI. unfold finishes, defined. apply runs_bind.
  eapply runs_mono; [apply (runs_foldM f (λ _, I)); [done|]|done]. intros don x rest s' _. apply Hf.
Qed.

(** An element of the range a [for] runs over. *)
Lemma seqZ_middle n don x rest : seqZ 0 n = don ++ x :: rest → 0 <= x < n.
Proof.
  intros Hl. assert (x ∈ seqZ 0 n) as Hin by (rewrite Hl; apply elem_of_app; right; left).
  apply elem_of_seqZ in Hin. lia.
Qed.
