(* ===== verification/Npy.v ===== *)
(** The array files of the golden export ([write_npy] and its typed forms in
    [tools/golden_export/main.cpp]), and single-precision numbers as bytes. *)
From stdpp Require Import pretty.
From Stdlib Require Import Floats.SpecFloat.
From S2P Require Import Prelude.
From S2P Require Import Throws.
From S2P Require Import PagedAttention.

(** ** Words as bytes *)

Definition byte_of (z : Z) : byte := default Byte.x00 (Byte.of_N (Z.to_N (z mod 256))).

(** The [n] low bytes of a word, the lowest first. *)
Fixpoint bytes_of_word (n : nat) (z : Z) : list byte :=
  match n with
  | O => []
  | S n => byte_of z :: bytes_of_word n (Z.shiftr z 8)
  end.

(** The bits of a [float]. *)
Definition bits_of_float (x : spec_float) : Z :=
  match x with
  | S754_zero s => if s then 2147483648 else 0
  | S754_infinity s => (if s then 2147483648 else 0) + 2139095040
  | S754_nan => 2143289344
  | S754_finite s m e =>
    (if s then 2147483648 else 0)
      + (if Zpos m <? 8388608 then Zpos m else (e + 150) * 8388608 + (Zpos m - 8388608))
  end.
Definition bytes_of_float (x : spec_float) : list byte := bytes_of_word 4 (bits_of_float x).

(** The value of a [float] as its bytes give it back. *)
Definition float_of_bytes (bytes : list byte) : spec_float := float_of_bits (word_of_bytes bytes).

(** ** Files *)

Definition bytes_of_string (s : string) : list byte := String.list_byte_of_string s.

(** The loop that prints the shape and multiplies it up: the text and the count. *)
Fixpoint shape_text (single : bool) (shape : list Z) : string * Z :=
  match shape with
  | [] => (""%string, 1)
  | [d] => (pretty d +:+ (if single then "," else ""), d)
  | d :: rest => let '(text, count) := shape_text single rest in
                 (pretty d +:+ ", " +:+ text, d ⊗ count)
  end.

Definition npy_header (descr : string) (shape : list Z) : string :=
  "{'descr': '" +:+ descr +:+ "', 'fortran_order': False, 'shape': (" +:+
  fst (shape_text (length shape =? 1)%nat shape) +:+ "), }".

Definition npy_count (shape : list Z) : Z := snd (shape_text (length shape =? 1)%nat shape).

Definition kPrefixBytes : Z := 10.

(** The header with its padding and the newline. *)
Definition padded_header (header : list byte) : list byte :=
  let unpadded := kPrefixBytes + Z.of_nat (length header) + 1 in
  let padded := (unpadded + 63) / 64 * 64 in
  header ++ replicate (Z.to_nat (padded - unpadded)) Byte.x20 ++ [Byte.x0a].

(** [static_cast<std::uint16_t>(header.size())]. *)
Definition header_len (header : list byte) : Z := Z.of_nat (length header) mod 65536.

Definition magic : list byte :=
  [Byte.x93; Byte.x4e; Byte.x55; Byte.x4d; Byte.x50; Byte.x59; Byte.x01; Byte.x00].

(** The bytes of the file; [data] is what lies behind the pointer, and reading past
    its end is undefined. *)
Definition write_npy (descr : string) (shape : list Z) (data : list byte) (element_bytes : Z)
    : option (list byte) :=
  let header := padded_header (bytes_of_string (npy_header descr shape)) in
  let n := npy_count shape ⊗ element_bytes in
  if n <=? Z.of_nat (length data)
  then Some (magic ++ bytes_of_word 2 (header_len header) ++ header ++ take (Z.to_nat n) data)
  else None.

(** A file of the fixture: its name and its bytes. *)
Abbreviation npy_file := (string * list byte)%type.

Definition write_f32 (name : string) (shape : list Z) (data : list spec_float) : option npy_file :=
  bytes ← write_npy "<f4" shape (data ≫= bytes_of_float) 4;
  Some (name +:+ ".npy", bytes).

(** [std::int32_t] values as words. *)
Definition write_i32 (name : string) (shape : list Z) (data : list Z) : option npy_file :=
  bytes ← write_npy "<i4" shape (data ≫= bytes_of_word 4) 4;
  Some (name +:+ ".npy", bytes).

Definition write_scalar_i32 (name : string) (value : Z) : option (string + npy_file) :=
  _ ⇐ require ((-2147483648 <=? value) && (value <=? 2147483647))
        ("scalar " +:+ name +:+ " does not fit in int32");
  defined (write_i32 name [] [value]).

Definition write_scalar_f32 (name : string) (value : spec_float) : option npy_file :=
  write_f32 name [] [value].
