(* ===== verification/GoldenExport.v ===== *)
(** The golden fixtures ([tools/golden_export/main.cpp]): a cache filled with a known
    pattern, the reference kernel run over it, and the arrays a backend needs to
    reproduce the result. The files are the result; writing them to disk is not
    modelled. *)
From stdpp Require Import pretty.
From Stdlib Require Import Floats.SpecFloat.
From S2P Require Import Prelude.
From S2P Require Import Throws.
From S2P Require Import Block.
From S2P Require Import CacheLayout.
From S2P Require Import SwapBackend.
From S2P Require Import BlockTable.
From S2P Require Import MemoryAllocator.
From S2P Require Import KVCacheManager.
From S2P Require Import PagedAttention.
From S2P Require Import Npy.

(** ** The pattern *)

(** [static_cast<float>] of an unsigned word. *)
Definition float_of_u32 (n : Z) : spec_float := binary_normalize 24 128 n 0 false.

Definition hash_parts (parts : list Z) : Z :=
  foldl (λ hashed part, Z.lxor hashed part ⊠ 16777619) 2166136261 parts.

Definition mix (parts : list Z) : spec_float :=
  SFsub 24 128 (SFdiv 24 128 (float_of_u32 (hash_parts parts mod 2000)) (float_of_u32 1000))
    (float_of_u32 1).

Definition cache_value (sequence layer : Z) (stream : KVStream) (token head dim : Z) : spec_float :=
  let stream_id := match stream with Key => 0 | Value => 1 end in
  mix [0; sequence; layer; stream_id; token; head; dim].

Definition query_value (sequence query_head dim : Z) : spec_float :=
  mix [1; sequence; query_head; dim].

(** ** Scenarios *)

Record Scenario := mkScenario {
  sc_name : string;
  purpose : string;
  sc_tokens_per_block : Z;
  sc_num_layers : Z;
  sc_num_kv_heads : Z;
  sc_head_dim : Z;
  sc_num_query_heads : Z;
  sc_layer : Z;
  sc_scale : spec_float;
  context_lens : list Z;
  scatter : bool
}.

(** [kCrossCheckTolerance], [1e-4F]. *)
Definition kCrossCheckTolerance : spec_float := S754_finite false 13743895 (-37).

Definition scenario_shape (s : Scenario) : BlockShape :=
  mkBlockShape (sc_tokens_per_block s) (sc_num_layers s) (sc_num_kv_heads s) (sc_head_dim s) 4 0.

Definition scenarios : list Scenario :=
  [ mkScenario "single_head_contiguous"
      "smallest case that exercises nothing but the softmax and the dot product"
      4 1 1 4 1 0 (S754_finite false 8388608 (-23)) [8] false;
    mkScenario "scattered_partial_block"
      "non-zero layer over scattered frames with a partially filled last block"
      4 2 2 4 2 1 (S754_finite false 8388608 (-24)) [10] true;
    mkScenario "grouped_query_heads"
      "group size 4, so a kernel that ignores the query-head mapping fails"
      4 1 2 4 8 0 (S754_finite false 8388608 (-24)) [11] true;
    mkScenario "batched_head_dim_128"
      "ragged batch at the real head_dim and GQA ratio, with block-table padding"
      16 2 2 128 4 1 (S754_finite false 11863283 (-27)) [40; 17; 63] true ].

Definition is_scattered (t : BlockTable) : bool :=
  match entries_ t with
  | [] | [_] => false
  | e0 :: _ =>
    let '(lowest, highest) :=
      foldl (λ '(lo, hi) e, (Z.min lo (physical_id e), Z.max hi (physical_id e)))
        (physical_id e0, physical_id e0) (entries_ t) in
    negb (highest ⊟ lowest ⊞ 1 =? Z.of_nat (length (entries_ t)))
  end.

Section Exporter.
Context {B : Type} `{SwapBackend B}.
(** The library's [std::exp] and its aligned allocation. *)
Context (exp : spec_float → spec_float) (aligned_alloc : Z → Z → option (Z * list byte)).
Implicit Types m : KVCacheManager B.

#[local] Instance single_precision : FloatOps spec_float := binary32 exp.

(** ** The check of a fixture against its pattern *)

(** The scores of a query head, recomputed from the pattern, and their maximum. *)
Definition pattern_scores (s : Scenario) (sequence head_dim context kv_head : Z)
    (query : list spec_float) (q : Z) : option (list spec_float * spec_float) :=
  foldM (λ '(scores, max_score) token,
    dot ← foldM (λ dot dim,
      x ← vec_get query (q + dim);
      Some (f_add dot (f_mul x (cache_value sequence (sc_layer s) Key token kv_head dim))))
      f_zero (seqZ 0 head_dim);
    let score := f_mul dot (sc_scale s) in
    Some (scores ++ [score], f_max max_score score))
    ([], f_neg_inf) (seqZ 0 context).

(** The weighted values, and the denominator. *)
Definition pattern_sums (s : Scenario) (sequence head_dim context kv_head : Z)
    (scores : list spec_float) (max_score : spec_float)
    : option (spec_float * list spec_float) :=
  foldM (λ '(denominator, accumulator) token,
    score ← vec_get scores token;
    let weight := f_exp (f_sub score max_score) in
    Some (f_add denominator weight,
          zip_with (λ a dim, f_add a
              (f_mul weight (cache_value sequence (sc_layer s) Value token kv_head dim)))
            accumulator (seqZ 0 head_dim)))
    (f_zero, replicate (Z.to_nat head_dim) f_zero) (seqZ 0 context).

Definition disagreement (s : Scenario) (sequence query_head dim : Z) : string :=
  sc_name s +:+ ": sequence " +:+ pretty sequence +:+ " query head " +:+ pretty query_head +:+
  " dim " +:+ pretty dim +:+ " disagrees with the contiguous reference".

Definition cross_check (s : Scenario) (shape : BlockShape) (sequence : Z)
    (query actual : list spec_float) : option (string + ()) :=
  if num_kv_heads shape =? 0 then None else
  let head_dim := head_dim shape in
  let group_size := sc_num_query_heads s / num_kv_heads shape in
  context ⇐ defined (vec_get (context_lens s) sequence);
  foldT (λ _ query_head,
    if group_size =? 0 then None else
    let kv_head := query_head / group_size in
    '(scores, max_score) ⇐ defined
      (pattern_scores s sequence head_dim context kv_head query (query_head * head_dim));
    '(denominator, accumulator) ⇐ defined
      (pattern_sums s sequence head_dim context kv_head scores max_score);
    foldT (λ _ dim,
      a ⇐ defined (vec_get accumulator dim);
      measured ⇐ defined (vec_get actual (query_head * head_dim + dim));
      let expected := f_div a denominator in
      require (SFleb (SFabs (f_sub expected measured)) kCrossCheckTolerance)
        (disagreement s sequence query_head dim)) () (seqZ 0 head_dim))
    () (seqZ 0 (sc_num_query_heads s)).

(** ** Filling a sequence *)

(** The floats of one vector, written one by one. *)
Definition write_floats (a : MemoryAllocator B) (base offset : Z) (xs : list spec_float)
    : option (MemoryAllocator B) :=
  foldM (λ a '(dim, x), write_mem a (Some (base + (offset + dim) * 4)) (bytes_of_float x)) a
    (imap (λ i x, (Z.of_nat i, x)) xs).

(** The vector of the pattern at a position. *)
Definition pattern_vector (salt head_dim layer : Z) (stream : KVStream) (token head : Z)
    : list spec_float :=
  (λ dim, cache_value salt layer stream token head dim) <$> seqZ 0 head_dim.

Definition fill_head (shape : BlockShape) (layout : KVBlockLayout) (base salt layer : Z)
    (stream : KVStream) (token : Z) m (head : Z) : option (string + KVCacheManager B) :=
  match element_offset layout layer stream (token mod tokens_per_block shape) head with
  | None => throw "element_offset out of range"
  | Some offset =>
    a ⇐ defined (write_floats (allocator_ m) base offset
                   (pattern_vector salt (head_dim shape) layer stream token head));
    returns (with_state m a (sequences_ m))
  end.

Definition fill_token (shape : BlockShape) (layout : KVBlockLayout) (sequence salt layer : Z)
    (stream : KVStream) m (token : Z) : option (string + KVCacheManager B) :=
  '(physical, m) ⇐ defined (ensure_token_writable m sequence token TextKV 0);
  match physical with
  | None => throw "ensure_token_writable failed"
  | Some id =>
    match block (allocator_ m) id with
    | None => throw "writable frame missing"
    | Some frame =>
      base ⇐ defined (storage_ frame);
      if tokens_per_block shape =? 0 then None else
      foldT (fill_head shape layout base salt layer stream token) m (seqZ 0 (num_kv_heads shape))
    end
  end.

Definition fill_sequence (shape : BlockShape) (layout : KVBlockLayout) (sequence salt context_len : Z)
    m : option (string + KVCacheManager B) :=
  foldT (λ m layer,
    foldT (λ m stream,
      foldT (fill_token shape layout sequence salt layer stream) m (seqZ 0 context_len))
      m [Key; Value])
    m (seqZ 0 (num_layers shape)).

(** ** Writing a fixture *)

Record Arrays := mkArrays {
  queries : list spec_float;
  outputs : list spec_float;
  block_table : list Z;
  lens : list Z
}.

(** The query of a sequence. *)
Definition sequence_query (s : Scenario) (salt head_dim : Z) : list spec_float :=
  query_head ← seqZ 0 (sc_num_query_heads s); (query_value salt query_head) <$> seqZ 0 head_dim.

(** The row of a sequence in the block table of the batch. *)
Definition write_row (rows : list Z) (i max_blocks_per_seq : Z) (t : BlockTable) : option (list Z) :=
  foldM (λ rows '(j, e), vec_set rows (i * max_blocks_per_seq + j) (physical_id e)) rows
    (imap (λ j e, (Z.of_nat j, e)) (entries_ t)).

(** The body of the loop over the sequences: their entries in each array. *)
Definition export_sequence (s : Scenario) (shape : BlockShape) (max_blocks_per_seq : Z) m
    (arrays : Arrays) (entry : nat * Z) : option (string + Arrays) :=
  let '(i, sequence) := entry in
  let salt := u32 (Z.of_nat i) in
  let query := sequence_query s salt (head_dim shape) in
  let out := replicate (Z.to_nat (sc_num_query_heads s * head_dim shape)) f_zero in
  view ⇐ defined (cache_view m sequence TextKV);
  match view with
  | None => throw "cache_view failed"
  | Some v =>
    table ⇐ defined (view_block_table v);
    _ ⇐ require (negb (scatter s) || is_scattered table)
          (sc_name s +:+ ": sequence " +:+ pretty (Z.of_nat i) +:+ " did not scatter");
    context ⇐ defined (vec_get (context_lens s) (Z.of_nat i));
    let params := mkParams (sc_layer s) (sc_num_query_heads s) context (sc_scale s) in
    '(ok, out) ⇐ defined (paged_attention_decode v (Some query) params (Some out));
    _ ⇐ require ok "paged_attention_decode rejected the fixture";
    out ⇐ defined out;
    _ ⇐ cross_check s shape salt query out;
    rows ⇐ defined (write_row (block_table arrays) (Z.of_nat i) max_blocks_per_seq table);
    returns (mkArrays (queries arrays ++ query) (outputs arrays ++ out) rows
               (lens arrays ++ [context]))
  end.

(** The floats of every frame, copied out of the pool as bytes. *)
Definition export_pool (a : MemoryAllocator B) (elements pool_blocks : Z) : option (list byte) :=
  foldM (λ bytes id,
    frame ← block a id; chunk ← read_mem a (storage_ frame) (elements ⊗ 4);
    Some (bytes ++ chunk)) [] (seqZ 0 pool_blocks).

Definition write_fixture (s : Scenario) (shape : BlockShape) (layout : KVBlockLayout) m
    (sequences : list Z) (pool_blocks max_blocks_per_seq : Z) : option (string + list npy_file) :=
  let num_seqs := Z.of_nat (length sequences) in
  arrays ⇐ foldT (export_sequence s shape max_blocks_per_seq m)
    (mkArrays [] [] (replicate (Z.to_nat (num_seqs * max_blocks_per_seq)) (-1)) [])
    (imap pair sequences);
  let elements := element_count layout in
  pool ⇐ defined (export_pool (allocator_ m) elements pool_blocks);
  let heads := [num_seqs; sc_num_query_heads s; head_dim shape] in
  kv_pool ⇐ defined (bytes ← write_npy "<f4" [pool_blocks; elements] pool 4;
                     Some ("kv_pool.npy"%string, bytes));
  query ⇐ defined (write_f32 "query" heads (queries arrays));
  output ⇐ defined (write_f32 "output" heads (outputs arrays));
  table ⇐ defined (write_i32 "block_table" [num_seqs; max_blocks_per_seq] (block_table arrays));
  contexts ⇐ defined (write_i32 "context_lens" [num_seqs] (lens arrays));
  scalars ⇐ foldT (λ files '(name, value), file ⇐ write_scalar_i32 name value;
                     returns (files ++ [file])) []
    [ ("tokens_per_block"%string, tokens_per_block shape); ("num_layers"%string, num_layers shape);
      ("num_kv_heads"%string, num_kv_heads shape); ("head_dim"%string, head_dim shape);
      ("num_query_heads"%string, sc_num_query_heads s); ("layer"%string, sc_layer s);
      ("head_stride"%string, head_stride layout); ("token_stride"%string, token_stride layout);
      ("stream_stride"%string, stream_stride layout);
      ("layer_stride"%string, layer_stride layout) ];
  scale ⇐ defined (write_scalar_f32 "scale" (sc_scale s));
  returns ([kv_pool; query; output; table; contexts] ++ scalars ++ [scale]).

(** ** A scenario *)

Definition kSpacerSequence : Z := 9999.
Definition sequence_id (index : nat) : Z := Z.of_nat index ⊕ 1.

Definition metadata_of (sequence : Z) : SequenceMetadata :=
  mkSequenceMetadata sequence sequence [] (mkPositionalEncodingMetadata []).

Definition create_one m (sequence : Z) (what : string) : option (string + KVCacheManager B) :=
  let '(ok, m) := create_sequence m (metadata_of sequence) in
  _ ⇐ require ok what; returns m.

Definition reserve_one m (sequence tokens : Z) (what : string) : option (string + KVCacheManager B) :=
  '(ok, m) ⇐ defined (reserve_tokens m sequence tokens);
  _ ⇐ require ok what; returns m.

(** [std::memset] of every frame. *)
Definition zero_frames (a : MemoryAllocator B) (pool_blocks : Z)
    : option (string + MemoryAllocator B) :=
  foldT (λ a id,
    match block a id with
    | None => throw "pool frame missing"
    | Some frame =>
      defined (write_mem a (storage_ frame) (replicate (Z.to_nat (size_bytes_ frame)) Byte.x00))
    end) a (seqZ 0 pool_blocks).

(** The rounds of reservation: a block for every sequence that still needs one, and
    a block for the spacer after each. *)
Definition reserve_rounds (s : Scenario) (blocks_per_seq : list Z) (rounds : Z) m
    : option (string + KVCacheManager B) :=
  foldT (λ m round,
    foldT (λ m '(i, blocks),
      if blocks <=? round then returns m
      else
        m ⇐ reserve_one m (sequence_id i) (sc_tokens_per_block s) "reserve_tokens failed";
        if scatter s
        then reserve_one m kSpacerSequence (sc_tokens_per_block s) "reserve spacer tokens failed"
        else returns m)
      m (imap pair blocks_per_seq))
    m (seqZ 0 rounds).

Definition scenario_config (s : Scenario) (pool_blocks : Z) : AllocatorConfig :=
  mkAllocatorConfig (scenario_shape s) (mkHostMemoryOptions kDefaultBlockAlignmentBytes false)
    pool_blocks.

Definition export_scenario (s : Scenario) : option (string + list npy_file) :=
  let shape := scenario_shape s in
  let layout := mkKVBlockLayout shape in
  if (sc_tokens_per_block s =? 0) && negb (length (context_lens s) =? 0)%nat then None else
  let blocks_per_seq := (λ c, ceil_blocks c (sc_tokens_per_block s)) <$> context_lens s in
  let mapped_blocks := foldl (λ n blocks, n ⊞ blocks) 0 blocks_per_seq in
  (* [*std::max_element]: undefined when there is no sequence *)
  if (length blocks_per_seq =? 0)%nat then None else
  let max_blocks_per_seq := foldl Z.max 0 blocks_per_seq in
  let pool_blocks := if scatter s then mapped_blocks ⊠ 2 else mapped_blocks in
  let a := MemoryAllocator_new aligned_alloc (scenario_config s pool_blocks) in
  a ⇐ zero_frames a pool_blocks;
  let m := KVCacheManager_new a in
  let ids := imap (λ i _, sequence_id i) (context_lens s) in
  m ⇐ foldT (λ m id, create_one m id "create_sequence failed") m ids;
  m ⇐ (if scatter s then create_one m kSpacerSequence "create spacer sequence failed"
       else returns m);
  m ⇐ reserve_rounds s blocks_per_seq max_blocks_per_seq m;
  let m := if scatter s then release_sequence m kSpacerSequence else m in
  m ⇐ foldT (λ m '(i, context), fill_sequence shape layout (sequence_id i) (u32 (Z.of_nat i)) context m)
        m (imap pair (context_lens s));
  write_fixture s shape layout m ids pool_blocks max_blocks_per_seq.

(** ** The churn scenario *)

Definition mapped_frames m (sequence : Z) : option (string + list Z) :=
  view ⇐ defined (cache_view m sequence TextKV);
  match view with
  | None => throw "cache_view failed"
  | Some v => table ⇐ defined (view_block_table v); returns (physical_id <$> entries_ table)
  end.

(** The pattern under everything: every float of every frame. *)
Definition soil_frames (a : MemoryAllocator B) (pool_blocks : Z)
    : option (string + MemoryAllocator B) :=
  foldT (λ a id,
    match block a id with
    | None => throw "pool frame missing"
    | Some frame =>
      base ⇐ defined (storage_ frame);
      defined (write_floats a base 0 ((λ i, mix [2; id; u32 i]) <$> seqZ 0 (size_bytes_ frame / 4)))
    end) a (seqZ 0 pool_blocks).

Definition churn_scenario : Scenario :=
  mkScenario "cow_and_recycled_frames"
    "a fork parent, its copy-on-write child, and a sequence on recycled frames"
    4 2 2 8 4 1 (S754_finite false 11744051 (-25)) [10; 10; 6] false.

Definition export_churn_scenario : option (string + list npy_file) :=
  let s := churn_scenario in
  let shape := scenario_shape s in
  let layout := mkKVBlockLayout shape in
  let '(kPoolBlocks, kMaxBlocksPerSeq, kVictimSalt) := (10, 3, 7) in
  let '(kVictim, kParent, kChild, kRecycled) := (100, 1, 2, 3) in
  a ⇐ soil_frames (MemoryAllocator_new aligned_alloc (scenario_config s kPoolBlocks)) kPoolBlocks;
  let m := KVCacheManager_new a in
  m ⇐ create_one m kParent "create parent failed";
  m ⇐ reserve_one m kParent 10 "reserve parent failed";
  m ⇐ fill_sequence shape layout kParent 0 10 m;
  let '(forked, m) := fork_sequence m kParent (metadata_of kChild) in
  _ ⇐ require forked "fork_sequence failed";
  m ⇐ fill_sequence shape layout kChild 1 10 m;
  m ⇐ create_one m kVictim "create victim failed";
  m ⇐ reserve_one m kVictim 10 "reserve victim failed";
  m ⇐ fill_sequence shape layout kVictim kVictimSalt 10 m;
  victim_frames ⇐ mapped_frames m kVictim;
  let m := release_sequence m kVictim in
  m ⇐ create_one m kRecycled "create recycled failed";
  m ⇐ reserve_one m kRecycled 6 "reserve recycled failed";
  m ⇐ fill_sequence shape layout kRecycled 2 6 m;
  parent_frames ⇐ mapped_frames m kParent;
  child_frames ⇐ mapped_frames m kChild;
  recycled_frames ⇐ mapped_frames m kRecycled;
  _ ⇐ foldT (λ _ frame, require (negb (bool_decide (frame ∈ parent_frames)))
        "child still shares a frame with its parent: copy-on-write did not happen") ()
        child_frames;
  _ ⇐ require (existsb (λ frame, bool_decide (frame ∈ victim_frames)) recycled_frames)
        "recycled sequence drew only fresh frames: the fixture is not testing reuse";
  _ ⇐ require (negb (6 mod sc_tokens_per_block s =? 0))
        "recycled sequence must end mid-block to leave a stale tail exposed";
  write_fixture s shape layout m [kParent; kChild; kRecycled] kPoolBlocks kMaxBlocksPerSeq.
End Exporter.
