(* ===== verification/FloatBlocks.v ===== *)
(** A block as an array of floats: what a read returns after the writes of the
    exporter, and the pattern's values. *)
From Stdlib Require Import Floats.SpecFloat.
From S2P Require Import Prelude.
From S2P Require Import Block.
From S2P Require Import CacheLayout.
From S2P Require Import PagedAttention.
From S2P Require Import Npy.
From S2P Require Import GoldenExport.

(** ** Bytes of a float *)

Lemma bytes_of_word_length n z : length (bytes_of_word n z) = n.
Proof. revert z. induction n as [|n IH]; intros z; [done|]. simpl. by rewrite IH. Qed.

Lemma byte_of_value z : Z.of_N (Byte.to_N (byte_of z)) = z mod 256.
Proof.
  unfold byte_of. pose proof (Z.mod_pos_bound z 256 ltac:(lia)) as Hz.
  assert (Z.to_N (z mod 256) < 256)%N as Hlt by lia.
  destruct (Byte.of_N (Z.to_N (z mod 256))) as [b|] eqn:Hb.
  - apply Byte.to_of_N in Hb. simpl. rewrite Hb. lia.
  - apply Byte.of_N_None_iff in Hb. lia.
Qed.

Lemma word_of_bytes_of_word n z : word_of_bytes (bytes_of_word n z) = z mod 256 ^ Z.of_nat n.
Proof.
  revert z. induction n as [|n IH]; intros z; [by rewrite Z.mod_1_r|].
  cbn [bytes_of_word]. unfold word_of_bytes in *. cbn [foldr]. rewrite IH, byte_of_value.
  rewrite Z.shiftr_div_pow2 by lia. change (2 ^ 8) with 256.
  rewrite Nat2Z.inj_succ, Z.pow_succ_r by lia.
  rewrite Z.rem_mul_r by lia. lia.
Qed.

Lemma bytes_of_float_length x : length (bytes_of_float x) = 4%nat.
Proof. apply bytes_of_word_length. Qed.

(** A float its bytes give back. *)
Definition stable (x : spec_float) : Prop := float_of_bytes (bytes_of_float x) = x.

#[export] Instance spec_float_eq_dec : EqDecision spec_float.
Proof. solve_decision. Defined.

(** ** The floats of a block *)

Definition float_at (block : list byte) (j : Z) : spec_float :=
  float_of_bytes (slice (Z.to_nat (j * 4)) 4 block).

Lemma float_at_write block j x k :
  stable x → 0 <= j → 0 <= k → (j + 1) * 4 <= Z.of_nat (length block) →
  float_at (splice (Z.to_nat (j * 4)) (bytes_of_float x) block) k =
    if decide (k = j) then x else float_at block k.
Proof.
  intros Hx Hj Hk Hlen. unfold float_at. pose proof (bytes_of_float_length x) as Hb.
  case_decide as Hd.
  - subst k. rewrite <-Hb, slice_splice_same by lia. exact Hx.
  - f_equal. apply slice_splice_other; lia.
Qed.

(** Consecutive floats written one by one. *)
Fixpoint put_floats (block : list byte) (offset : Z) (xs : list spec_float) : list byte :=
  match xs with
  | [] => block
  | x :: xs =>
    put_floats (splice (Z.to_nat (offset * 4)) (bytes_of_float x) block) (offset + 1) xs
  end.

Lemma put_floats_length block offset xs :
  0 <= offset → (offset + Z.of_nat (length xs)) * 4 <= Z.of_nat (length block) →
  length (put_floats block offset xs) = length block.
Proof.
  revert block offset. induction xs as [|x xs IH]; intros block offset Ho Hlen; [done|].
  pose proof (bytes_of_float_length x) as Hb. cbn [length put_floats] in *.
  assert (length (splice (Z.to_nat (offset * 4)) (bytes_of_float x) block) = length block) as Hs
    by (apply length_splice; lia).
  rewrite IH; [done|lia|]. rewrite Hs. lia.
Qed.

Lemma put_floats_at block offset xs k :
  Forall stable xs → 0 <= offset → 0 <= k →
  (offset + Z.of_nat (length xs)) * 4 <= Z.of_nat (length block) →
  float_at (put_floats block offset xs) k =
    if decide (offset <= k < offset + Z.of_nat (length xs))
    then default S754_nan (xs !! Z.to_nat (k - offset)) else float_at block k.
Proof.
  intros Hxs. revert block offset. induction Hxs as [|x xs Hx _ IH]; intros block offset Ho Hk Hlen.
  { cbn [length put_floats]. by rewrite decide_False by lia. }
  pose proof (bytes_of_float_length x) as Hb. cbn [length put_floats] in *.
  rewrite IH; [|lia|lia|rewrite length_splice by lia; lia].
  rewrite (float_at_write _ _ _ _ Hx) by lia.
  destruct (decide (k = offset)) as [->|Hne].
  - rewrite decide_False, decide_True by lia. by rewrite Z.sub_diag.
  - destruct (decide (offset <= k < offset + Z.of_nat (S (length xs)))).
    + rewrite decide_True by lia.
      replace (Z.to_nat (k - offset)) with (S (Z.to_nat (k - (offset + 1)))) by lia. done.
    + by rewrite decide_False by lia.
Qed.

(** ** The pattern *)

(** The value of a residue of the hash. *)
Definition mix_value (n : Z) : spec_float :=
  SFsub 24 128 (SFdiv 24 128 (float_of_u32 n) (float_of_u32 1000)) (float_of_u32 1).

Definition mix_good (x : spec_float) : bool :=
  bool_decide (stable x) && SFleb (SFopp (float_of_u32 1)) x && SFltb x (float_of_u32 1).

Lemma mix_checked : forallb (λ n, mix_good (mix_value n)) (seqZ 0 2000) = true.
Proof. vm_compute. reflexivity. Qed.

Lemma mix_spec parts : mix_good (mix parts) = true.
Proof.
  apply (proj1 (forallb_forall _ _) mix_checked (hash_parts parts mod 2000)).
  apply list_elem_of_In, elem_of_seqZ. pose proof (Z.mod_pos_bound (hash_parts parts) 2000). lia.
Qed.

Lemma mix_stable parts : stable (mix parts).
Proof.
  pose proof (mix_spec parts) as Hm. unfold mix_good in Hm.
  apply andb_true_iff in Hm as [Hm _]. apply andb_true_iff in Hm as [Hm _].
  by apply bool_decide_eq_true in Hm.
Qed.

Lemma pattern_vector_length salt hd layer stream token head :
  length (pattern_vector salt hd layer stream token head) = Z.to_nat hd.
Proof. unfold pattern_vector. by rewrite length_fmap, length_seqZ. Qed.

Lemma pattern_vector_stable salt hd layer stream token head :
  Forall stable (pattern_vector salt hd layer stream token head).
Proof. apply Forall_fmap, Forall_forall. intros d _. apply mix_stable. Qed.

Lemma pattern_vector_at salt hd layer stream token head d :
  0 <= d < hd →
  pattern_vector salt hd layer stream token head !! Z.to_nat d =
    Some (cache_value salt layer stream token head d).
Proof.
  intros Hd. unfold pattern_vector. rewrite list_lookup_fmap, lookup_seqZ_lt by lia.
  simpl. do 2 f_equal. lia.
Qed.

(** ** A token of a block *)

(** The block after the vectors of one token, layer and stream were written. *)
Definition fill_block (s : BlockShape) (salt layer : Z) (stream : KVStream) (token : Z)
    (block : list byte) : list byte :=
  foldl (λ b head,
    put_floats b (exact_offset s layer stream (token mod tokens_per_block s) head)
      (pattern_vector salt (head_dim s) layer stream token head))
    block (seqZ 0 (num_kv_heads s)).

Section Fill.
Context (s : BlockShape) (salt layer : Z) (stream : KVStream) (token : Z) (block : list byte).
Abbreviation slot_token := (token mod tokens_per_block s).
Context (Hlayer : 0 <= layer < frame_layers s) (Htpb : 0 < tokens_per_block s).
Context (Hhd : 0 < head_dim s).
Context (Hlen : exact_elements s * 4 <= Z.of_nat (length block)).

Lemma head_fits n :
  0 <= n < num_kv_heads s →
  0 <= exact_offset s layer stream slot_token n ∧
  exact_offset s layer stream slot_token n + head_dim s <= exact_elements s.
Proof.
  intros Hn. destruct (exact_offset_bound s layer stream slot_token n (head_dim s - 1)) as [H1 H2].
  - split_and!; try lia; apply Z.mod_pos_bound; lia.
  - lia.
  - lia.
Qed.

(** The first [n] heads. *)
Definition fill_heads (n : nat) : list byte :=
  foldl (λ b head, put_floats b (exact_offset s layer stream slot_token head)
      (pattern_vector salt (head_dim s) layer stream token head)) block (seqZ 0 (Z.of_nat n)).

Lemma fill_heads_S n :
  fill_heads (S n) = put_floats (fill_heads n)
    (exact_offset s layer stream slot_token (Z.of_nat n))
    (pattern_vector salt (head_dim s) layer stream token (Z.of_nat n)).
Proof.
  unfold fill_heads. rewrite Nat2Z.inj_succ. unfold Z.succ. rewrite seqZ_app, foldl_app by lia.
  rewrite Z.add_0_l. replace (seqZ (Z.of_nat n) 1) with [Z.of_nat n] by
    (rewrite seqZ_cons by lia; by replace (Z.pred 1) with 0 by lia). done.
Qed.

Lemma fill_heads_length n :
  Z.of_nat n <= num_kv_heads s → length (fill_heads n) = length block.
Proof.
  induction n as [|n IH]; intros Hn; [done|]. rewrite fill_heads_S.
  destruct (head_fits (Z.of_nat n)) as [H1 H2]; [lia|].
  rewrite put_floats_length; [apply IH; lia|lia|].
  rewrite pattern_vector_length, IH by lia. lia.
Qed.

Lemma fill_heads_at n layer' stream' t head d :
  Z.of_nat n <= num_kv_heads s → in_block s layer' t head → 0 <= d < head_dim s →
  float_at (fill_heads n) (exact_offset s layer' stream' t head + d) =
    if decide ((layer', stream', t) = (layer, stream, slot_token) ∧ head < Z.of_nat n)
    then cache_value salt layer stream token head d
    else float_at block (exact_offset s layer' stream' t head + d).
Proof.
  intros Hn Hin Hd. pose proof (exact_offset_bound _ _ stream' _ _ _ Hin Hd) as [Hk0 Hk1].
  induction n as [|n IH].
  { rewrite decide_False; [done|]. intros [_ ?]. destruct Hin as (_ & _ & ?). lia. }
  specialize (IH ltac:(lia)). destruct (head_fits (Z.of_nat n)) as [H1 H2]; [lia|].
  rewrite fill_heads_S, put_floats_at.
  2: apply pattern_vector_stable. 2,3: lia.
  2:{ rewrite pattern_vector_length, fill_heads_length by lia. lia. }
  rewrite pattern_vector_length, Z2Nat.id by lia.
  pose proof (exact_offset_decodes s layer' stream' t head d Hin Hd) as Hc.
  destruct (decide (exact_offset s layer stream slot_token (Z.of_nat n) <= _ < _)) as [Hr|Hr].
  - assert (in_block s layer slot_token (Z.of_nat n)) as Hin'
      by (split_and!; try lia; apply Z.mod_pos_bound; lia).
    pose proof (exact_offset_decodes s layer stream slot_token (Z.of_nat n)
      (exact_offset s layer' stream' t head + d - exact_offset s layer stream slot_token (Z.of_nat n))
      Hin' ltac:(lia)) as Hc'.
    replace (exact_offset s layer stream slot_token (Z.of_nat n) + _) with
      (exact_offset s layer' stream' t head + d) in Hc' by lia.
    rewrite Hc in Hc'. injection Hc' as -> -> -> -> Hdd.
    rewrite decide_True by (split; [done|lia]).
    rewrite <-Hdd, pattern_vector_at by lia. done.
  - rewrite IH. destruct (decide (_ ∧ head < Z.of_nat n)) as [Ha|Ha].
    + rewrite decide_True; [done|]. destruct Ha. split; [done|lia].
    + rewrite decide_False; [done|]. intros [[= -> -> ->] Hlt].
      destruct (decide (head = Z.of_nat n)) as [->|]; [|by apply Ha; split; [|lia]].
      lia.
Qed.

Lemma fill_block_heads :
  0 <= num_kv_heads s → fill_block s salt layer stream token block = fill_heads (Z.to_nat (num_kv_heads s)).
Proof. intros Hk. unfold fill_block, fill_heads. by rewrite Z2Nat.id. Qed.

Lemma fill_block_length :
  0 <= num_kv_heads s → length (fill_block s salt layer stream token block) = length block.
Proof. intros. rewrite fill_block_heads by done. apply fill_heads_length. lia. Qed.

(** Every vector of the token holds the pattern; every other is as it was. *)
Lemma fill_block_at layer' stream' t head d :
  0 <= num_kv_heads s → in_block s layer' t head → 0 <= d < head_dim s →
  float_at (fill_block s salt layer stream token block) (exact_offset s layer' stream' t head + d) =
    if decide ((layer', stream', t) = (layer, stream, slot_token))
    then cache_value salt layer stream token head d
    else float_at block (exact_offset s layer' stream' t head + d).
Proof.
  intros Hk Hin Hd. rewrite fill_block_heads, fill_heads_at by (try done; lia).
  destruct Hin as (_ & _ & Hh). rewrite Z2Nat.id by done.
  destruct (decide ((layer', stream', t) = (layer, stream, slot_token))).
  - by rewrite decide_True by (split; [done|lia]).
  - rewrite decide_False; [done|]. by intros [? _].
Qed.
End Fill.
