(* ===== verification/GoldenFill.v ===== *)
(** Filling a sequence with the pattern: every write goes to a frame the sequence has
    to itself, and what it stores afterwards is the pattern. *)
From Stdlib Require Import Floats.SpecFloat.
From S2P Require Import Prelude.
From S2P Require Import Throws.
From S2P Require Import Block.
From S2P Require Import CacheLayout.
From S2P Require Import SwapBackend.
From S2P Require Import BlockTable.
From S2P Require Import MemoryAllocator.
From S2P Require Import AllocatorSpec.
From S2P Require Import AllocatorProps.
From S2P Require Import KVCacheManager.
From S2P Require Import CacheAccounting.
From S2P Require Import AllocatorMoves.
From S2P Require Import CacheInvariant.
From S2P Require Import CacheLemmas.
From S2P Require Import CacheWrite.
From S2P Require Import CacheViews.
From S2P Require Import PagedAttention.
From S2P Require Import AttentionCache.
From S2P Require Import Npy.
From S2P Require Import GoldenExport.
From S2P Require Import FloatBlocks.

Section Fill.
Context {B : Type} `{SwapBackendLaws B}.
Implicit Types a : MemoryAllocator B.
Implicit Types m : KVCacheManager B.

(** The floats of a vector. *)
Lemma write_floats_frame a id base off xs :
  alloc_wf a → valid a id → pool_base_ a = Some base → 0 <= off →
  (off + Z.of_nat (length xs)) * 4 <= block_stride_bytes_ a →
  write_floats a (base + id * block_stride_bytes_ a) off xs =
    Some (set_frame a id (put_floats (frame a id) off xs)).
Proof.
  intros Hwf Hv Hb. unfold write_floats.
  assert (∀ xs blk k, 0 <= off + k → (off + k + Z.of_nat (length xs)) * 4 <= block_stride_bytes_ a →
    Z.of_nat (length blk) = block_stride_bytes_ a →
    foldM (λ a' '(dim, x), write_mem a' (Some (base + id * block_stride_bytes_ a + (off + dim) * 4))
        (bytes_of_float x)) (set_frame a id blk) (imap (λ i x, (k + Z.of_nat i, x)) xs) =
      Some (set_frame a id (put_floats blk (off + k) xs))) as Hgen.
  { clear xs. induction xs as [|x xs IH]; intros blk k Ho Hle Hlen; [done|].
    pose proof (bytes_of_float_length x) as Hx. cbn [imap foldM length put_floats] in *.
    rewrite Z.add_0_r. destruct (set_frame_wf a id blk Hwf Hv Hlen) as [Hwf' Hfr].
    rewrite (write_in_frame (set_frame a id blk) id base) by (try done; simpl; lia).
    cbn [mbind option_bind]. rewrite Hfr, decide_True by done.
    assert (length (splice (Z.to_nat ((off + k) * 4)) (bytes_of_float x) blk) = length blk) as Hs
      by (apply length_splice; lia).
    rewrite set_frame_twice by (try done; lia).
    replace (off + k + 1) with (off + (k + 1)) by lia.
    rewrite <-(IH _ (k + 1)); [|lia|lia|lia].
    f_equal. apply imap_ext. intros i y _. simpl. f_equal. lia. }
  intros Ho Hle. specialize (Hgen xs (frame a id) 0). rewrite Z.add_0_r in Hgen.
  rewrite set_frame_same in Hgen by done. rewrite <-Hgen; [|lia|lia|by apply length_frame]. done.
Qed.

(** ** The sequence being filled *)

(** The copies that writing all the entries may still take. *)
Definition owed a (es : list BlockTableEntry) : Z :=
  zsum (λ e, if 1 <? refs a (physical_id e) then 1 else 0) es.

Context (s : BlockShape) (sid n : Z).

(** A sequence of one table whose first [n] blocks can all be written. *)
Record fillable m : Prop := {
  fl_wf : mgr_wf m;
  fl_pool : view_pool (allocator_ m);
  fl_shape : pool_shape (allocator_ m) = s;
  fl_seq : ∃ st t, sequences_ m !! sid = Some st ∧ tables st !! 0%nat = Some t ∧
    n <= Z.of_nat (length (entries_ t)) ∧ Forall (λ e, resident e = true) (entries_ t) ∧
    owed (allocator_ m) (entries_ t) <= nfree (allocator_ m)
}.

Context (Hdense : frame_layers s = num_layers s) (Hbytes : bytes_per_element s = 4).

Lemma owed_app a es es' : owed a (es ++ es') = owed a es + owed a es'.
Proof. unfold owed. induction es as [|e es IH]; [done|]. simpl. rewrite IH. lia. Qed.

Lemma owed_nonneg a es : 0 <= owed a es.
Proof. unfold owed. induction es as [|e es IH]; [done|]. simpl. case_match; lia. Qed.

Lemma owed_mono a a' es :
  (∀ e, e ∈ es → refs a' (physical_id e) <= refs a (physical_id e)) → owed a' es <= owed a es.
Proof.
  unfold owed. induction es as [|e es IH]; intros Hle; [done|]. simpl.
  pose proof (Hle e ltac:(by left)). specialize (IH ltac:(intros; apply Hle; by right)).
  destruct (Z.ltb_spec 1 (refs a' (physical_id e))), (Z.ltb_spec 1 (refs a (physical_id e))); lia.
Qed.

Lemma fill_tpb m : fillable m → tpb_of m = tokens_per_block s ∧ 0 < tokens_per_block s ∧
  0 < frame_layers s ∧ 0 < num_kv_heads s ∧ 0 < head_dim s ∧ exact_elements s < W64 ∧
  shape_typed s ∧ exact_elements s * 4 <= block_stride_bytes_ (allocator_ m).
Proof.
  intros [Hwf Hvp Hs _].
  destruct (pool_shape_config _ (proj1 (mgr_alloc _ Hwf)) (view_frames _ Hvp)) as [Hps Htp].
  pose proof (mgr_shape _ Hwf) as Hty. rewrite <-Hps, Hs in *.
  pose proof (view_elements _ Hvp) as He. pose proof (view_range _ Hvp) as Hr.
  pose proof (view_fits _ Hvp) as Hf. rewrite <-Hps in He, Hr, Hf. rewrite Hbytes in Hr.
  destruct (exact_elements_pos s Hty) as (_ & H1 & H2 & H3 & H4); [lia|].
  split_and!; try done; try lia.
  rewrite byte_size_mod, Hbytes in Hf.
  replace (tokens_per_block s * frame_layers s * num_kv_heads s * head_dim s * 4 * 2)
    with (exact_elements s * 4) in Hf by (unfold exact_elements; ring).
  rewrite u64_small in Hf by words. done.
Qed.

(** An entry with another's frame owes a copy. *)
Lemma owed_elem a es e : e ∈ es → 1 < refs a (physical_id e) → 1 <= owed a es.
Proof.
  intros (es1 & es2 & ->)%list_elem_of_split Hsh. rewrite owed_app. unfold owed at 2. simpl.
  rewrite (proj2 (Z.ltb_lt _ _)) by done. fold (owed a es2).
  pose proof (owed_nonneg a es1). pose proof (owed_nonneg a es2). lia.
Qed.

(** Making an entry exclusive settles what it owed and raises nothing. *)
Lemma exclusive_owed a es k e id e' a' :
  alloc_inv a → backed a es → Forall (λ e, resident e = true) es → es !! k = Some e →
  make_exclusive a e = Some (Some (id, e'), a') → owed a es <= nfree a →
  owed a' (<[k := e']> es) <= nfree a'.
Proof.
  intros Hi Hb Hres He Hmk Howed.
  assert (resident e = true) as Hre by (rewrite Forall_lookup in Hres; by eapply Hres).
  pose proof (elem_backed _ _ _ _ Hb He) as Hbe.
  pose proof (make_exclusive_spec a e Hi Hre Hbe) as Hsp. rewrite Hmk in Hsp. cbn [runs] in Hsp.
  destruct Hsp as (-> & Hp & Hone & Hcase).
  rewrite (make_exclusive_free a e id _ a' Hi Hre Hbe Hmk).
  assert (∀ e'', e'' ∈ es → refs a' (physical_id e'') <= refs a (physical_id e'')) as Hle.
  { intros e'' He''. destruct Hcase as [(_ & _ & ->)|[_ Hz]]; [lia|].
    apply list_elem_of_lookup in He'' as [j Hj].
    rewrite Forall_lookup in Hres. pose proof (resident_refs a e'' (Hres _ _ Hj)
      (elem_backed _ _ _ _ Hb Hj)) as Hpos.
    rewrite (moves_refs _ _ _ _ _ _ (proj1 Hp)). autorewrite with holds.
    destruct (resident_entry e Hre) as (-> & _ & Hsw).
    unfold entry_frames. simpl. rewrite Hsw, !zcount_single.
    destruct (decide (physical_id e'' = id)) as [Heq|]; [rewrite <-Heq in Hz; lia|].
    destruct (decide _); lia. }
  assert (k < length es)%nat as Hlt by (by eapply lookup_lt_Some).
  rewrite insert_take_drop by done. rewrite <-(take_drop_middle _ _ _ He) in Howed.
  rewrite owed_app in Howed |- *.
  pose proof (owed_mono a a' (take k es)) as H1. pose proof (owed_mono a a' (drop (S k) es)) as H2.
  unfold owed in Howed, H1, H2 |- *. cbn [zsum] in *. simpl in *. rewrite Hone.
  specialize (H1 ltac:(intros ? Hin; by apply Hle, (subseteq_take k))).
  specialize (H2 ltac:(intros ? Hin; by apply Hle, (subseteq_drop (S k)))).
  change (1 <? 1) with false. destruct (1 <? refs a (physical_id e)); lia.
Qed.

(** Writing one position: its entry has a frame to itself. *)
Lemma ensure_fill m pos :
  fillable m → 0 <= pos → pos / tokens_per_block s < n →
  finishes (defined (ensure_token_writable m sid pos TextKV 0)) (λ '(r, m'),
    ∃ e, r = Some (physical_id e) ∧ entry_at m' sid 0 (pos / tokens_per_block s) e ∧
      resident e = true ∧ refs (allocator_ m') (physical_id e) = 1 ∧
      fillable m' ∧ contents m' = contents m ∧ prefixes m' = prefixes m ∧
      same_pool (allocator_ m) (allocator_ m')).
Proof.
  intros Hf Hpos Hlt. destruct (fill_tpb m Hf) as (Htpb & Htpos & _).
  pose proof Hf as [Hwf Hvp Hs (st & t & Hst & Ht & Hlen & Hres & Howed)].
  assert (0 <= pos / tokens_per_block s) as Hix by (apply Z.div_pos; lia).
  destruct (lookup_lt_is_Some_2 (entries_ t) (Z.to_nat (pos / tokens_per_block s))) as [e He];
    [lia|].
  assert (resident e = true) as Hre by (rewrite Forall_lookup in Hres; by eapply Hres).
  destruct (ensure_reach m sid pos TextKV 0 Hwf Hpos) as [[_ Hno]|Hreach]; [lia| |].
  { exfalso. rewrite Htpb in Hno. rewrite (Hno e) in Hre; [done|lia|]. by exists st, t. }
  rewrite Htpb in Hreach. destruct Hreach as (st' & t' & e' & Hst' & Ht' & He' & _ & ->).
  change (Z.to_nat 0) with 0%nat in *. simplify_eq.
  pose proof (table_backed _ _ _ _ _ Hwf Hst Ht) as Hbt.
  pose proof (elem_backed _ _ _ _ Hbt He) as Hbe.
  pose proof (make_exclusive_spec (allocator_ m) e (mgr_alloc _ Hwf) Hre Hbe) as Hsp.
  destruct (make_exclusive (allocator_ m) e) as [[[[id e']|] a']|] eqn:Hmk; [| |done];
    cbn [runs] in Hsp.
  2:{ destruct Hsp as (_ & Hsh & Hz).
      pose proof (owed_elem _ _ e ltac:(by eapply list_elem_of_lookup_2) Hsh). lia. }
  pose proof (exclusive_owed _ _ _ _ _ _ _ (mgr_alloc _ Hwf) Hbt Hres He Hmk Howed) as Howed'.
  destruct Hsp as (-> & Hp & Hone & _).
  destruct (rewrite_entry m sid st _ t _ e a' _ Hwf Hst Ht He Hp eq_refl)
    as (Hwf' & Hc & Hpf & Ht' & He').
  pose proof (moves_pool _ _ _ _ _ _ (proj1 Hp)) as Hpool.
  cbn [mbind option_bind defined]. apply finishes_returns.
  exists (entry_set_frame id true e). split_and!; try done.
  - eexists _, _. split; [apply lookup_insert_eq|]. done.
  - split; [done|by eapply view_pool_same| |].
    + simpl. rewrite (pool_shape_same (allocator_ m)); [done|apply Hwf|apply Hp|done|apply Hvp].
    + eexists _, _. split; [apply lookup_insert_eq|]. split; [exact Ht'|]. simpl.
      rewrite length_alter. split; [done|].
      rewrite <-list_insert_alter. split; [by apply Forall_insert|exact Howed'].
Qed.

(** ** The loops *)

Context (salt : Z).

(** A block of the sequence after one position, layer and stream was written. *)
Definition fill_position (blocks : list (option (list byte))) (p : Z * KVStream * Z)
    : list (option (list byte)) :=
  let '(layer, stream, token) := p in
  alter (fmap (fill_block s salt layer stream token)) (Z.to_nat (token / tokens_per_block s)) blocks.

(** The cache after the positions [don] were written. *)
Record filling m0 (don : list (Z * KVStream * Z)) m : Prop := {
  fg_fillable : fillable m;
  fg_prefixes : prefixes m = prefixes m0;
  fg_pool : same_pool (allocator_ m0) (allocator_ m);
  fg_contents : contents m =
    alter (alter (λ blocks, foldl fill_position blocks don) 0%nat) sid (contents m0)
}.

Lemma filling_refl m : fillable m → filling m [] m.
Proof.
  intros Hf. split; try done. symmetry. apply map_eq. intros k.
  destruct (decide (k = sid)) as [->|]; [|by rewrite lookup_alter_ne].
  rewrite lookup_alter_eq. destruct (contents m !! sid) as [ts|]; [|done]. simpl. f_equal.
  apply list_eq. intros [|j]; [|by rewrite list_lookup_alter_ne].
  rewrite list_lookup_alter_eq. by destruct (ts !! 0%nat).
Qed.

Lemma filling_trans m0 d1 m1 d2 m2 :
  filling m0 d1 m1 → filling m1 d2 m2 → filling m0 (d1 ++ d2) m2.
Proof.
  intros [_ Hp1 Hs1 Hc1] [Hf Hp2 Hs2 Hc2]. split; [done|congruence|unfold same_pool in *; congruence|].
  rewrite Hc2, Hc1, alter_alter_eq. apply alter_ext. intros ts _. simpl. rewrite list_alter_alter_eq.
  apply list_alter_ext; [|done]. intros blocks _. by rewrite foldl_app.
Qed.

(** The heads of a position, written into its frame. *)
Lemma fill_heads_run m id base layer stream token :
  alloc_wf (allocator_ m) → valid (allocator_ m) id → pool_base_ (allocator_ m) = Some base →
  exact_elements s < W64 → exact_elements s * 4 <= block_stride_bytes_ (allocator_ m) →
  0 <= layer < frame_layers s → 0 < tokens_per_block s → 0 < head_dim s → 0 < num_kv_heads s →
  finishes (foldT (fill_head s (mkKVBlockLayout s) (base + id * block_stride_bytes_ (allocator_ m))
      salt layer stream token) m (seqZ 0 (num_kv_heads s)))
    (λ m', m' = write_block m id
       (fill_block s salt layer stream token (frame (allocator_ m) id))).
Proof.
  intros Hwf Hv Hbase Hx64 Hfit Hlayer Htpb Hhd Hkv.
  pose proof (length_frame (allocator_ m) id Hwf Hv) as Hlf.
  eapply finishes_mono; [apply (finishes_foldT _ (λ don m', ∃ blk,
    m' = write_block m id blk ∧ length blk = length (frame (allocator_ m) id) ∧
    blk = foldl (λ b head, put_floats b
      (exact_offset s layer stream (token mod tokens_per_block s) head)
      (pattern_vector salt (head_dim s) layer stream token head)) (frame (allocator_ m) id) don))|].
  - exists (frame (allocator_ m) id). split_and!; [|done..].
    unfold write_block. rewrite set_frame_same by done. by destruct m.
  - intros don head rest m' Hl (blk & -> & Hlb & Hblk).
    assert (0 <= head < num_kv_heads s) as Hh by (by eapply seqZ_middle).
    destruct (head_fits s layer stream token blk Hlayer Htpb Hhd head Hh) as [Ho1 Ho2]; clear rest Hl.
    unfold fill_head. rewrite element_offset_exact; [|done|done|].
    2:{ cbn [shape]. pose proof (Z.mod_pos_bound token _ Htpb). done. }
    cbn [shape]. apply finishes_defined. unfold write_block at 1. cbn [allocator_].
    destruct (set_frame_wf (allocator_ m) id blk Hwf Hv) as [Hwf' Hfr]; [lia|].
    pose proof (pattern_vector_length salt (head_dim s) layer stream token head) as Hpl.
    rewrite (write_floats_frame (set_frame (allocator_ m) id blk) id base) by
      (try done; rewrite ?Hpl; simpl; lia).
    cbn [runs]. apply finishes_returns. rewrite Hfr, decide_True by done.
    eexists. split_and!; [|shelve|by rewrite foldl_snoc, <-Hblk].
    + unfold write_block, with_state. cbn [sequences_ allocator_]. rewrite set_frame_twice; [|done..|lia|].
      * done.
      * rewrite put_floats_length; rewrite ?Hpl; lia.
    Unshelve. rewrite put_floats_length; rewrite ?Hpl; lia.
  - intros m' (blk & -> & _ & ->). done.
Qed.

(** The iteration of one token. *)
Lemma fill_token_spec m layer stream token :
  fillable m → 0 <= layer < num_layers s → 0 <= token → token / tokens_per_block s < n →
  finishes (fill_token s (mkKVBlockLayout s) sid salt layer stream m token)
    (filling m [(layer, stream, token)]).
Proof.
  intros Hf Hlayer Htk Hlt. unfold fill_token.
  finish_step (ensure_fill m token Hf Htk Hlt).
  intros [r m1] (e & -> & Hat & Hres & Hone & Hf1 & Hc1 & Hp1 & Hpool).
  destruct (fill_tpb m1 Hf1) as (_ & Htpb & HL & HK & HD & Hx64 & _ & Hfit).
  pose proof (fl_wf _ Hf1) as Hwf1. pose proof (proj1 (mgr_alloc _ Hwf1)) as Hawf.
  assert (valid (allocator_ m1) (physical_id e)) as Hv by (apply refs_pos_valid; [done|lia]).
  rewrite block_valid by done.
  destruct (frame_address (allocator_ m1) (physical_id e) Hawf Hv) as (base & Hbase & ->).
  apply finishes_defined. cbn [runs]. rewrite (proj2 (Z.eqb_neq _ _)) by lia.
  eapply finishes_mono; [apply (fill_heads_run m1 (physical_id e) base); try done; lia|].
  intros m2 ->. set (blk := fill_block s salt layer stream token (frame (allocator_ m1) (physical_id e))).
  pose proof (length_frame (allocator_ m1) (physical_id e) Hawf Hv) as Hlf.
  assert (Z.of_nat (length blk) = block_stride_bytes_ (allocator_ m1)) as Hlen.
  { unfold blk. rewrite fill_block_length; lia. }
  destruct (write_block_spec m1 sid 0 _ e blk Hwf1 Hat Hres Hone Hlen) as (Hwf2 & Hp2 & Hc2).
  assert (same_pool (allocator_ m1) (allocator_ (write_block m1 (physical_id e) blk))) as Hpool2
    by done.
  split; [|congruence|unfold same_pool in *; congruence|].
  - destruct Hf1 as [_ Hvp Hs Hseq]. split; [done|by eapply view_pool_same| |exact Hseq].
    by rewrite (pool_shape_same (allocator_ m1)); try apply Hvp; try apply mgr_alloc.
  - rewrite Hc2, <-Hc1. destruct Hat as (st & t & Hst & Ht & He).
    pose proof (contents_entry m1 sid st _ _ t e Hst Ht He) as Hce.
    unfold entry_bytes in Hce. destruct (resident_entry e Hres) as (_ & _ & Hsw).
    rewrite Hsw in Hce. apply alter_ext. intros ts Hts. rewrite Hts in Hce. simpl in Hce.
    change (Z.to_nat 0) with 0%nat in *.
    apply list_alter_ext; [|done]. intros blocks Hblocks. rewrite Hblocks in Hce.
    simpl in Hce. unfold foldl, fill_position. apply list_alter_ext; [|done].
    intros ob Hob. rewrite Hob in Hce. injection Hce as ->. done.
Qed.

(** The three nested loops. *)
Definition fill_order (context : Z) : list (Z * KVStream * Z) :=
  layer ← seqZ 0 (num_layers s); stream ← [Key; Value];
  (λ token, (layer, stream, token)) <$> seqZ 0 context.

Lemma fill_sequence_run m context :
  fillable m → context <= n * tokens_per_block s →
  finishes (fill_sequence s (mkKVBlockLayout s) sid salt context m)
    (filling m (fill_order context)).
Proof.
  intros Hf Hctx. destruct (fill_tpb m Hf) as (_ & Htpb & _).
  unfold fill_sequence, fill_order.
  apply (finishes_foldT _ (λ don, filling m (don ≫= λ layer, [Key; Value] ≫= λ stream,
    (λ token, (layer, stream, token)) <$> seqZ 0 context))); [by apply filling_refl|].
  intros don layer rest m1 Hl Hm1.
  assert (0 <= layer < num_layers s) as Hlayer by (by eapply seqZ_middle).
  rewrite bind_app. eapply finishes_mono; [|intros m2 Hm2; eapply filling_trans; [exact Hm1|exact Hm2]].
  clear rest Hl. rewrite bind_singleton.
  apply (finishes_foldT _ (λ don, filling m1 (don ≫= λ stream,
    (λ token, (layer, stream, token)) <$> seqZ 0 context))); [by apply filling_refl, Hm1|].
  intros don2 stream rest m2 Hl Hm2. rewrite bind_app.
  eapply finishes_mono; [|intros m3 Hm3; eapply filling_trans; [exact Hm2|exact Hm3]].
  clear rest Hl. rewrite bind_singleton.
  apply (finishes_foldT _ (λ don, filling m2 ((λ token, (layer, stream, token)) <$> don)));
    [by apply filling_refl, Hm2|].
  intros don3 token rest m3 Hl Hm3.
  assert (0 <= token < context) as Htk by (by eapply seqZ_middle).
  rewrite fmap_app. eapply finishes_mono; [|intros m4 Hm4; eapply filling_trans; [exact Hm3|exact Hm4]].
  apply fill_token_spec; [apply Hm3|done|lia|]. apply Z.div_lt_upper_bound; [done|].
  clear rest Hl. lia.
Qed.
End Fill.
