(* ===== verification/GoldenCheck.v ===== *)
(** The exporter's own check: the scores and sums it recomputes from the pattern are
    those of the reference kernel, so it accepts exactly when the results are numbers. *)
From Stdlib Require Import Floats.SpecFloat.
From S2P Require Import Prelude.
From S2P Require Import Throws.
From S2P Require Import Block.
From S2P Require Import CacheLayout.
From S2P Require Import PagedAttention.
From S2P Require Import AttentionLoops.
From S2P Require Import AttentionGroups.
From S2P Require Import AttentionProps.
From S2P Require Import GoldenExport.
From S2P Require Import FloatBlocks.

(** ** Loops of checks *)

(** A check passes, or throws. *)
Definition checked (m : option (string + ())) (P : Prop) : Prop :=
  (P ∧ m = returns ()) ∨ (¬ P ∧ ∃ what, m = throw what).

Lemma checked_iff m (P Q : Prop) : (P ↔ Q) → checked m P → checked m Q.
Proof. intros HPQ [[HP ->]|[HP Hm]]; [left|right]; split; tauto || done. Qed.

Lemma checked_require b what : checked (require b what) (b = true).
Proof. destruct b; [by left|right]. split; [done|by exists what]. Qed.

Lemma checked_foldT {A} (f : () → A → option (string + ())) (P : A → Prop) l :
  (∀ x, x ∈ l → checked (f () x) (P x)) → checked (foldT f () l) (Forall P l).
Proof.
  induction l as [|x l IH]; intros Hf; [left; split; [constructor|done]|]. simpl.
  destruct (Hf x) as [[HP ->]|[HP [what ->]]]; [by left| |].
  - eapply checked_iff; [|apply IH; intros; apply Hf; by right].
    rewrite Forall_cons. tauto.
  - right. split; [by rewrite Forall_cons; intros []|by exists what].
Qed.

(** A loop whose body is a function. *)
Lemma foldM_pure {S X} (f : S → X → option S) (g : S → X → S) s l :
  (∀ s x, x ∈ l → f s x = Some (g s x)) → foldM f s l = Some (foldl g s l).
Proof.
  revert s. induction l as [|x l IH]; intros s Hf; [done|]. cbn [foldM foldl].
  rewrite Hf by by left. cbn [mbind option_bind]. apply IH. intros. apply Hf. by right.
Qed.

(** ** Numbers *)

(** Neither infinite nor not a number. *)
Definition is_number (x : spec_float) : bool :=
  match x with S754_zero _ | S754_finite _ _ _ => true | _ => false end.

(** A result differs from itself by zero when it is a number, and by no number
    otherwise. *)
Lemma self_difference x :
  SFleb (SFabs (SFsub 24 128 x x)) kCrossCheckTolerance = is_number x.
Proof.
  destruct x as [[]|[]| |b m e]; try done.
  unfold SFsub. rewrite Z.min_id. simpl SFabs. rewrite Z.sub_diag. done.
Qed.

Section Check.
Context (exp : spec_float → spec_float).
#[local] Instance single : FloatOps spec_float := binary32 exp.
Context (s : Scenario) (salt : Z).

(** The vectors of the pattern for a head, and the attention over them. *)
Definition pattern_vectors (hd ctx kv_head : Z) (stream : KVStream) : list (list spec_float) :=
  (λ token, pattern_vector salt hd (sc_layer s) stream token kv_head) <$> seqZ 0 ctx.

Definition pattern_attention (hd ctx kv_head : Z) (q : list spec_float) : list spec_float :=
  attend (sc_scale s) q (pattern_vectors hd ctx kv_head Key) (pattern_vectors hd ctx kv_head Value)
    (Z.to_nat hd).

Lemma pattern_dot query q xs hd token kv_head :
  at_index query q xs → length xs = Z.to_nat hd → 0 <= hd →
  foldM (λ dot dim, x ← vec_get query (q + dim);
      Some (f_add dot (f_mul x (cache_value salt (sc_layer s) Key token kv_head dim))))
    f_zero (seqZ 0 hd) =
  Some (dot xs (pattern_vector salt hd (sc_layer s) Key token kv_head)).
Proof.
  intros Hq Hxs Hhd. unfold dot.
  pose proof (pattern_vector_length salt hd (sc_layer s) Key token kv_head) as Hl.
  set (ks := pattern_vector _ _ _ _ _ _) in *.
  assert (hd = Z.of_nat (length (zip xs ks))) as Hlen by (rewrite length_zip; lia).
  rewrite Hlen at 1. apply foldM_indexed. intros d i [x k] Hxk.
  apply lookup_zip_Some in Hxk as [Hx Hk]. rewrite Z.add_0_l, (Hq _ _ Hx). cbn [mbind option_bind fst snd].
  assert (i < length ks)%nat as Hi by (by eapply lookup_lt_Some).
  unfold ks in Hk. rewrite <-(Nat2Z.id i), pattern_vector_at in Hk by lia.
  injection Hk as <-. done.
Qed.

Lemma pattern_scores_spec query q xs hd ctx kv_head :
  at_index query q xs → length xs = Z.to_nat hd → 0 <= hd →
  pattern_scores exp s salt hd ctx kv_head query q =
    let ss := scores (sc_scale s) xs (pattern_vectors hd ctx kv_head Key) in
    Some (ss, maximum ss).
Proof.
  intros Hq Hxs Hhd. unfold pattern_scores.
  set (sc := λ token, f_mul (dot xs (pattern_vector salt hd (sc_layer s) Key token kv_head)) (sc_scale s)).
  rewrite (foldM_pure _ (λ '(ss, m) token, (ss ++ [sc token], f_max m (sc token)))).
  2:{ intros [ss m] token _. rewrite (pattern_dot query q xs) by done. done. }
  assert (scores (sc_scale s) xs (pattern_vectors hd ctx kv_head Key) = sc <$> seqZ 0 ctx) as ->.
  { unfold scores, pattern_vectors. by rewrite <-list_fmap_compose. }
  f_equal. unfold maximum.
  assert (∀ l ss m, foldl (λ '(ss, m) token, (ss ++ [sc token], f_max m (sc token))) (ss, m) l =
    (ss ++ (sc <$> l), foldl f_max m (sc <$> l))) as Hgen.
  { induction l as [|t l IH]; intros ss m; [by rewrite app_nil_r|]. simpl. rewrite IH.
    by rewrite <-app_assoc. }
  apply Hgen.
Qed.

Lemma pattern_sums_spec hd ctx kv_head ss m :
  length ss = Z.to_nat ctx → 0 <= ctx →
  pattern_sums exp s salt hd ctx kv_head ss m =
    Some (foldl (weigh m) (f_zero, replicate (Z.to_nat hd) f_zero)
            (zip ss (pattern_vectors hd ctx kv_head Value))).
Proof.
  intros Hss Hctx. unfold pattern_sums.
  set (vs := pattern_vectors hd ctx kv_head Value).
  assert (length vs = Z.to_nat ctx) as Hvs by (unfold vs, pattern_vectors; by rewrite length_fmap, length_seqZ).
  assert (ctx = Z.of_nat (length (zip ss vs))) as Hlen by (rewrite length_zip; lia).
  rewrite Hlen at 1. apply foldM_indexed. intros [d acc] i [x v] Hxv.
  apply lookup_zip_Some in Hxv as [Hx Hv]. rewrite Z.add_0_l, vec_get_nat, Hx.
  cbn [mbind option_bind]. unfold weigh, axpy. cbn [fst snd]. do 2 f_equal.
  unfold vs, pattern_vectors in Hv. apply list_lookup_fmap_Some in Hv as (t & -> & Ht).
  apply lookup_seqZ in Ht as [-> _]. unfold pattern_vector. by rewrite zip_with_fmap_r.
Qed.

(** The check of one head: [actual] holds the attention over the pattern. *)
Lemma check_head actual query_head hd ctx kv_head q d acc :
  0 <= hd →
  (d, acc) = weighted (scores (sc_scale s) q (pattern_vectors hd ctx kv_head Key))
    (pattern_vectors hd ctx kv_head Value) (Z.to_nat hd) →
  at_index actual (query_head * hd) (pattern_attention hd ctx kv_head q) →
  checked (foldT (λ _ dim,
      a ⇐ defined (vec_get acc dim);
      measured ⇐ defined (vec_get actual (query_head * hd + dim));
      let expected := f_div a d in
      require (SFleb (SFabs (f_sub expected measured)) kCrossCheckTolerance)
        (disagreement s salt query_head dim)) () (seqZ 0 hd))
    (Forall (λ x, is_number x = true) (pattern_attention hd ctx kv_head q)).
Proof.
  intros Hhd Hw Hat. unfold pattern_attention, attend in *. rewrite <-Hw in *.
  assert (length acc = Z.to_nat hd) as Hacc.
  { replace acc with (snd (d, acc)) by done. rewrite Hw. apply weighted_length.
    apply Forall_fmap, Forall_forall. intros t _. unfold compose. cbv beta. by rewrite pattern_vector_length. }
  eapply checked_iff; [|apply (checked_foldT _
    (λ dim, ∀ x, acc !! Z.to_nat dim = Some x → is_number (f_div x d) = true))].
  - rewrite !Forall_lookup. split.
    + intros Hall i y Hy. apply list_lookup_fmap_Some in Hy as (x & -> & Hx).
      assert (i < length acc)%nat as Hi by (by eapply lookup_lt_Some).
      apply (Hall i (Z.of_nat i)); [rewrite lookup_seqZ_lt by lia; f_equal; lia|].
      by rewrite Nat2Z.id.
    + intros Hall i dim Hdim x Hx. apply (Hall (Z.to_nat dim)). by rewrite list_lookup_fmap, Hx.
  - intros dim Hdim%elem_of_seqZ.
    destruct (lookup_lt_is_Some_2 acc (Z.to_nat dim)) as [x Hx]; [lia|].
    assert (vec_get acc dim = Some x) as -> by
      (unfold vec_get; by rewrite (proj2 (Z.leb_le 0 dim)) by lia).
    cbn [mbind option_bind defined and_then returns].
    specialize (Hat (Z.to_nat dim) (f_div x d)). rewrite Z2Nat.id in Hat by lia.
    rewrite Hat by by rewrite list_lookup_fmap, Hx.
    cbn [mbind option_bind defined and_then returns]. cbv zeta.
    eapply checked_iff; [|apply checked_require]. rewrite Hx.
    remember (f_div x d) as e eqn:He. pose proof (self_difference e) as Hself.
    change (f_sub e e) with (SFsub 24 128 e e). rewrite Hself.
    split; [intros Hn ? [= <-]; by rewrite <-He|intros Hall; rewrite He; by apply Hall].
Qed.

(** ** The whole output *)

Context (shape : BlockShape).
Abbreviation hd := (head_dim shape).
Abbreviation nq := (sc_num_query_heads s).
Abbreviation group := (sc_num_query_heads s / num_kv_heads shape).

Definition pattern_head (ctx : Z) (query : list spec_float) (h : nat) : list spec_float :=
  pattern_attention hd ctx (Z.of_nat h / group) (slice (h * Z.to_nat hd) (Z.to_nat hd) query).
Definition pattern_output (ctx : Z) (query : list spec_float) : list spec_float :=
  concat (pattern_head ctx query <$> seq 0 (Z.to_nat nq)).

Lemma pattern_attention_length ctx kv_head q :
  length (pattern_attention hd ctx kv_head q) = Z.to_nat hd.
Proof.
  unfold pattern_attention, attend.
  set (ss := scores _ _ _). pose proof (weighted_length ss (pattern_vectors hd ctx kv_head Value) (Z.to_nat hd)) as Hw.
  destruct (weighted ss _ _) as [d acc]. rewrite length_fmap. apply Hw, Forall_fmap, Forall_forall.
  intros t _. unfold compose. cbv beta. by rewrite pattern_vector_length.
Qed.

Lemma pattern_output_length ctx query :
  length (pattern_output ctx query) = (Z.to_nat nq * Z.to_nat hd)%nat.
Proof.
  unfold pattern_output. rewrite (concat_length (Z.to_nat hd)), length_fmap, length_seq; [done|].
  apply Forall_fmap, Forall_forall. intros h _. apply pattern_attention_length.
Qed.

Lemma pattern_output_at ctx query h :
  (h < Z.to_nat nq)%nat → 0 <= hd →
  at_index (pattern_output ctx query) (Z.of_nat h * hd) (pattern_head ctx query h).
Proof.
  intros Hh Hhd i x Hx. unfold pattern_output.
  replace (Z.to_nat nq) with (h + S (Z.to_nat nq - S h))%nat by lia.
  rewrite seq_app. cbn [seq]. rewrite concat_middle.
  apply (vec_get_segment _ _ _ _ i); [|done].
  rewrite (concat_front _ (Z.to_nat hd) _ []), length_seq.
  - lia.
  - rewrite app_nil_r. apply Forall_forall. intros j _. apply pattern_attention_length.
Qed.

(** The check recomputes the output of a kernel that reads the pattern. *)
Lemma cross_check_spec ctx query :
  0 < num_kv_heads shape → 0 <= hd → 0 < group → 0 <= ctx →
  vec_get (context_lens s) salt = Some ctx →
  (Z.to_nat nq * Z.to_nat hd <= length query)%nat →
  checked (cross_check exp s shape salt query (pattern_output ctx query))
    (Forall (λ x, is_number x = true) (pattern_output ctx query)).
Proof.
  intros Hkv Hhd Hg Hctx Hlen Hq. unfold cross_check.
  rewrite (proj2 (Z.eqb_neq _ _)) by lia. rewrite Hlen.
  cbn [mbind option_bind defined and_then returns].
  eapply checked_iff; [|apply (checked_foldT _
    (λ h, Forall (λ x, is_number x = true) (pattern_head ctx query (Z.to_nat h))))].
  - unfold pattern_output. rewrite Forall_concat, Forall_fmap. unfold compose. split; intros Hall.
    + apply Forall_forall. intros h Hh. rewrite Forall_forall in Hall.
      rewrite <-(Nat2Z.id h). apply Hall, elem_of_seqZ. apply elem_of_seq in Hh. lia.
    + apply Forall_forall. intros h Hh%elem_of_seqZ. rewrite Forall_forall in Hall.
      apply Hall, elem_of_seq. lia.
  - intros h Hh%elem_of_seqZ. rewrite (proj2 (Z.eqb_neq group 0)) by lia.
    destruct (at_index_slice query (Z.to_nat h * Z.to_nat hd) (Z.to_nat hd)) as [Hat Hsl].
    { assert (S (Z.to_nat h) * Z.to_nat hd <= Z.to_nat nq * Z.to_nat hd)%nat
        by (apply Nat.mul_le_mono_r; lia). lia. }
    rewrite Nat2Z.inj_mul, !Z2Nat.id in Hat by lia.
    rewrite (pattern_scores_spec _ _ _ _ _ _ Hat Hsl Hhd).
    cbn [mbind option_bind defined and_then returns].
    set (q := slice _ _ query) in *.
    rewrite pattern_sums_spec; [|unfold scores, pattern_vectors; by rewrite !length_fmap, length_seqZ|done].
    fold (weighted (scores (sc_scale s) q (pattern_vectors hd ctx (h / group) Key))
      (pattern_vectors hd ctx (h / group) Value) (Z.to_nat hd)).
    destruct (weighted _ _ _) as [d acc] eqn:Hw.
    cbn [mbind option_bind defined and_then returns].
    assert (pattern_head ctx query (Z.to_nat h) = pattern_attention hd ctx (h / group) q) as Hph
      by (unfold pattern_head; by rewrite Z2Nat.id by lia).
    rewrite Hph. apply check_head; [done|by rewrite Hw|].
    rewrite <-Hph. pose proof (pattern_output_at ctx query (Z.to_nat h)) as Hpo.
    rewrite Z2Nat.id in Hpo by lia. apply Hpo; lia.
Qed.
End Check.
