(* ===== verification/GoldenProps.v ===== *)
(** What the fixtures hold: the cache a sequence was filled into stores the pattern,
    and the exporter's own check recomputes the kernel. *)
From Stdlib Require Import Floats.SpecFloat.
From S2P Require Import Prelude.
From S2P Require Import Throws.
From S2P Require Import Block.
From S2P Require Import CacheLayout.
From S2P Require Import SwapBackend.
From S2P Require Import BlockTable.
From S2P Require Import MemoryAllocator.
From S2P Require Import AllocatorSpec.
From S2P Require Import AllocatorProps.
From S2P Require Import KVCacheManager.
From S2P Require Import CacheAccounting.
From S2P Require Import AllocatorMoves.
From S2P Require Import CacheInvariant.
From S2P Require Import CacheLemmas.
From S2P Require Import CacheWrite.
From S2P Require Import CachePrefix.
From S2P Require Import CacheViews.
From S2P Require Import PagedAttention.
From S2P Require Import AttentionCache.
From S2P Require Import Npy.
From S2P Require Import GoldenExport.
From S2P Require Import FloatBlocks.
From S2P Require Import GoldenFill.

(** ** The floats of a vector *)

Lemma slice_slice {A} base m off n (l : list A) :
  (off + n ≤ m)%nat → slice off n (slice base m l) = slice (base + off) n l.
Proof.
  intros Hle. unfold slice. rewrite skipn_firstn_comm, take_take, drop_drop.
  f_equal. lia.
Qed.

Lemma elements_floats bytes off hd :
  0 <= off →
  elements (T := spec_float) (Z.to_nat hd)
    (slice (Z.to_nat (off * 4)) (Z.to_nat (hd * 4)) bytes) =
  (λ d, float_at bytes (off + d)) <$> seqZ 0 hd.
Proof.
  intros Ho. unfold elements, seqZ. rewrite <-list_fmap_compose. apply list_fmap_ext.
  intros i x Hx. apply lookup_seq in Hx as [-> Hi]. unfold float_at, float_of_bytes. simpl.
  do 2 f_equal. change (Z.to_nat 4) with 4%nat. rewrite slice_slice by lia. f_equal. lia.
Qed.

(** ** Blocks filled in order *)

Section Order.
Context (s : BlockShape) (salt : Z).
Context (Htpb : 0 < tokens_per_block s) (Hhd : 0 < head_dim s) (Hkv : 0 <= num_kv_heads s).

Lemma fill_positions_at blocks don k block :
  blocks !! k = Some (Some block) → exact_elements s * 4 <= Z.of_nat (length block) →
  Forall (λ '(layer, _, token), 0 <= layer < frame_layers s ∧ 0 <= token) don →
  ∃ block', foldl (fill_position s salt) blocks don !! k = Some (Some block') ∧
    length block' = length block ∧
    ∀ layer stream t head d, in_block s layer t head → 0 <= d < head_dim s →
      let token := Z.of_nat k * tokens_per_block s + t in
      float_at block' (exact_offset s layer stream t head + d) =
        if decide ((layer, stream, token) ∈ don)
        then cache_value salt layer stream token head d
        else float_at block (exact_offset s layer stream t head + d).
Proof.
  intros Hk Hlen. induction don as [|[[layer stream] token] don IH] using rev_ind; intros Hdon.
  { exists block. split_and!; [done..|]. intros. rewrite decide_False; [done|]. set_solver. }
  apply Forall_app in Hdon as [Hdon Hp%Forall_inv]. simpl in Hp. destruct Hp as [Hlayer Htoken].
  destruct (IH Hdon) as (block1 & Hk1 & Hl1 & Hat). clear IH. rewrite foldl_snoc.
  assert (0 <= token / tokens_per_block s) as Hq by (apply Z.div_pos; lia).
  simpl. destruct (decide (Z.to_nat (token / tokens_per_block s) = k)) as [Heq|Hne].
  - rewrite Heq, list_lookup_alter_eq, Hk1. simpl. eexists. split; [done|].
    rewrite fill_block_length by lia. split; [done|]. intros l' s' t head d Hin Hd.
    set (tok := Z.of_nat k * tokens_per_block s + t).
    rewrite fill_block_at by (try done; lia). rewrite Hat by done. fold tok.
    assert (tok = token ↔ t = token mod tokens_per_block s) as Htok.
    { unfold tok. rewrite <-Heq. destruct Hin as (_ & Ht & _). pose proof (Z.div_mod token (tokens_per_block s)).
      split; intros; nia. }
    assert ((l', s', tok) ∈ don ++ [(layer, stream, token)] ↔
      (l', s', tok) ∈ don ∨ (l', s', t) = (layer, stream, token mod tokens_per_block s)) as Hel.
    { rewrite elem_of_app, list_elem_of_singleton. split; intros [?|[= ? ? ?]]; [by left|right|by left|right].
      - repeat f_equal; try done. by apply Htok.
      - repeat f_equal; try done. by apply Htok. }
    destruct (decide ((l', s', t) = _)) as [Hd1|Hd1].
    + rewrite decide_True by (apply Hel; by right). injection Hd1 as -> -> Ht.
      apply Htok in Ht. by rewrite Ht.
    + destruct (decide (_ ∈ don)); [rewrite decide_True by (apply Hel; by left); done|].
      rewrite decide_False; [done|]. rewrite Hel. tauto.
  - rewrite list_lookup_alter_ne by done. exists block1. split_and!; [done..|].
    intros l' s' t head d Hin Hd. set (tok := Z.of_nat k * tokens_per_block s + t).
    rewrite Hat by done. fold tok.
    assert (tok ≠ token) as Hnt.
    { intros Heq. apply Hne. unfold tok in Heq. destruct Hin as (_ & Ht & _). subst token.
      rewrite Z.div_add_l, Z.div_small by lia. lia. }
    destruct (decide (_ ∈ don)); [rewrite decide_True by set_solver; done|].
    rewrite decide_False; [done|]. rewrite elem_of_app, list_elem_of_singleton.
    intros [?|[=]]; done.
Qed.
End Order.

(** ** A filled sequence *)

Section Filled.
Context {B : Type} `{SwapBackendLaws B}.
Context (s : BlockShape) (sid n salt : Z).
Context (Hdense : frame_layers s = num_layers s) (Hbytes : bytes_per_element s = 4).
Implicit Types m : KVCacheManager B.

Lemma dense_layers : per_layer_frames s = false.
Proof.
  unfold per_layer_frames. rewrite Hdense. destruct (Z.eqb_spec (num_layers s) 1) as [->|]; done.
Qed.

(** The blocks of a sequence to be filled are all there. *)
Lemma fillable_blocks m :
  fillable s sid n m →
  ∃ blocks rest, contents m !! sid = Some (blocks :: rest) ∧ n <= Z.of_nat (length blocks) ∧
    ∀ k ob, blocks !! k = Some ob →
      ∃ b, ob = Some b ∧ Z.of_nat (length b) = block_stride_bytes_ (allocator_ m).
Proof.
  intros [Hwf Hvp Hs (st & t & Hst & Ht & Hlen & Hres & _)].
  unfold contents. rewrite lookup_fmap, Hst. unfold seq_bytes.
  destruct (tables st) as [|t0 ts] eqn:Hts; [done|]. injection Ht as ->.
  exists (table_bytes (allocator_ m) t), (table_bytes (allocator_ m) <$> ts).
  split; [by simpl; rewrite Hts|]. unfold table_bytes. rewrite length_fmap. split; [done|].
  intros k ob Hob. apply list_lookup_fmap_Some in Hob as (e & -> & He).
  rewrite Forall_lookup in Hres. pose proof (Hres _ _ He) as Hre.
  destruct (entries_valid m sid st e Hwf Hst) as [_ Hv]; [|done|].
  { apply list_elem_of_bind. exists t. rewrite Hts. split; [by eapply list_elem_of_lookup_2|by left]. }
  exists (frame (allocator_ m) (physical_id e)). split.
  - unfold entry_bytes. by destruct (resident_entry e Hre) as (_ & _ & ->).
  - apply length_frame; [apply Hwf|done].
Qed.

(** The vectors of a block of the sequence. *)
Lemma cached_floats m layer stream token head blocks rest :
  fillable s sid n m → contents m !! sid = Some (blocks :: rest) →
  0 <= layer < num_layers s → 0 <= token → 0 <= head < num_kv_heads s →
  cached_vector (T := spec_float) m sid layer stream token head =
    (ob ← blocks !! Z.to_nat (token / tokens_per_block s); b ← ob;
     Some ((λ d, float_at b
       (exact_offset s layer stream (token mod tokens_per_block s) head + d)) <$> seqZ 0 (head_dim s))).
Proof.
  intros Hf Hc Hlayer Htk Hh. destruct (fill_tpb s sid n Hbytes m Hf) as (Htpb & Hpos & _ & _ & HD & Hx & _).
  unfold cached_vector, layer_table, frame_layer. rewrite (fl_shape _ _ _ _ Hf), dense_layers, Hc, Htpb.
  change (Z.to_nat 0) with 0%nat. cbn [mbind option_bind lookup list_lookup].
  destruct (blocks !! _) as [[b|]|]; cbn [mbind option_bind]; [|done..].
  assert (in_block s layer (token mod tokens_per_block s) head) as Hin.
  { unfold in_block. rewrite Hdense. pose proof (Z.mod_pos_bound token _ Hpos). lia. }
  rewrite element_offset_exact by done. cbn [mbind option_bind shape]. f_equal.
  apply elements_floats.
  destruct (exact_offset_bound s layer stream _ head 0 Hin); lia.
Qed.

Lemma fill_positions_length don blocks :
  length (foldl (fill_position s salt) blocks don) = length blocks.
Proof.
  revert blocks. induction don as [|[[layer stream] token] don IH]; intros blocks; [done|].
  simpl. by rewrite IH, length_alter.
Qed.

Lemma elem_of_fill_order context layer stream token :
  (layer, stream, token) ∈ fill_order s context ↔ 0 <= layer < num_layers s ∧ 0 <= token < context.
Proof.
  unfold fill_order. rewrite list_elem_of_bind. setoid_rewrite elem_of_seqZ. split.
  - intros (l & Hin & Hl). rewrite list_elem_of_bind in Hin. destruct Hin as (st & Hin & _).
    apply list_elem_of_fmap in Hin as (tk & [= -> -> ->] & Hin). apply elem_of_seqZ in Hin. lia.
  - intros [Hl Ht]. exists layer. split; [|lia]. rewrite list_elem_of_bind. exists stream.
    split; [|destruct stream; set_solver].
    apply list_elem_of_fmap. exists token. split; [done|]. apply elem_of_seqZ. lia.
Qed.

Lemma filled_vector m m' context layer stream token head :
  fillable s sid n m → filling s sid n salt m (fill_order s context) m' →
  context <= n * tokens_per_block s →
  0 <= layer < num_layers s → 0 <= token → 0 <= head < num_kv_heads s →
  cached_vector (T := spec_float) m' sid layer stream token head =
    if token <? context then Some (pattern_vector salt (head_dim s) layer stream token head)
    else cached_vector (T := spec_float) m sid layer stream token head.
Proof.
  intros Hf Hfill Hctx Hlayer Htk Hh.
  destruct (fill_tpb s sid n Hbytes m Hf) as (_ & Hpos & _ & HK & HD & _ & _ & Hfit).
  destruct (fillable_blocks m Hf) as (blocks & rest & Hc & Hn & Hblk).
  set (blocks' := foldl (fill_position s salt) blocks (fill_order s context)).
  assert (contents m' !! sid = Some (blocks' :: rest)) as Hc'.
  { rewrite (fg_contents _ _ _ _ _ _ _ Hfill), lookup_alter_eq, Hc. done. }
  rewrite (cached_floats m' _ _ _ _ blocks' rest) by (try done; apply Hfill).
  rewrite (cached_floats m _ _ _ _ blocks rest) by done.
  set (k := Z.to_nat (token / tokens_per_block s)).
  assert (0 <= token / tokens_per_block s) as Hq by (apply Z.div_pos; lia).
  pose proof (Z.mod_pos_bound token _ Hpos) as Hmod. pose proof (Z.div_mod token (tokens_per_block s)) as Hdm.
  destruct (blocks !! k) as [ob|] eqn:Hk.
  2:{ unfold blocks'. rewrite (proj2 (lookup_ge_None _ k)) by
        (rewrite fill_positions_length; by apply lookup_ge_None).
      apply lookup_ge_None in Hk. rewrite (proj2 (Z.ltb_ge token context)); [done|]. nia. }
  destruct (Hblk k ob Hk) as (block & -> & Hlen).
  destruct (fill_positions_at s salt Hpos HD ltac:(lia) blocks (fill_order s context) k block Hk)
    as (block' & Hk' & _ & Hat); [lia| |].
  { apply Forall_forall. intros [[l st] tk] Hin%elem_of_fill_order. rewrite Hdense. lia. }
  fold blocks' in Hk'. rewrite Hk'. cbn [mbind option_bind].
  assert (∀ d, 0 <= d < head_dim s →
    float_at block' (exact_offset s layer stream (token mod tokens_per_block s) head + d) =
    if token <? context then cache_value salt layer stream token head d
    else float_at block (exact_offset s layer stream (token mod tokens_per_block s) head + d)) as Hval.
  { intros d Hd. rewrite Hat; [|unfold in_block; rewrite Hdense; lia|done].
    replace (Z.of_nat k * tokens_per_block s + token mod tokens_per_block s) with token by lia.
    destruct (Z.ltb_spec token context).
    - rewrite decide_True; [done|]. apply elem_of_fill_order. lia.
    - rewrite decide_False; [done|]. rewrite elem_of_fill_order. lia. }
  destruct (token <? context); f_equal; apply list_fmap_ext; intros i d Hd;
    apply Hval; apply list_elem_of_lookup_2, elem_of_seqZ in Hd; lia.
Qed.
End Filled.
