(* ===== verification/GoldenExported.v ===== *)
(** From a filled sequence to its part of the fixture, the bytes of its files read
    back, and the fixtures computed: a forked sequence filled over its parent, the
    scenarios and the churn scenario run end to end. *)
From Stdlib Require Import Floats.SpecFloat.
From S2P Require Import Prelude.
From S2P Require Import Block.
From S2P Require Import CacheLayout.
From S2P Require Import SwapBackend.
From S2P Require Import BlockTable.
From S2P Require Import MemoryAllocator.
From S2P Require Import AllocatorSpec.
From S2P Require Import AllocatorProps.
From S2P Require Import KVCacheManager.
From S2P Require Import CacheAccounting.
From S2P Require Import AllocatorMoves.
From S2P Require Import CacheInvariant.
From S2P Require Import CacheLemmas.
From S2P Require Import CacheWrite.
From S2P Require Import CachePrefix.
From S2P Require Import CacheProps.
From S2P Require Import CacheViews.
From S2P Require Import CacheDemo.
From S2P Require Import PagedAttention.
From S2P Require Import AttentionLoops.
From S2P Require Import AttentionCache.
From S2P Require Import AttentionGroups.
From S2P Require Import AttentionProps.
From S2P Require Import AttentionDemo.
From S2P Require Import Throws.
From S2P Require Import Npy.
From S2P Require Import GoldenExport.
From S2P Require Import FloatBlocks.
From S2P Require Import GoldenFill.
From S2P Require Import GoldenCheck.
From S2P Require Import GoldenProps.

(** ** The row of the block table *)

Lemma write_row_range base k pre seg post es :
  base + Z.of_nat k = Z.of_nat (length pre) → length seg = length es →
  foldM (λ rows '(j, e), vec_set rows (base + j) (physical_id e)) (pre ++ seg ++ post)
    (imap (λ j e, (Z.of_nat (k + j), e)) es) = Some (pre ++ (physical_id <$> es) ++ post).
Proof.
  revert k pre seg. induction es as [|e es IH]; intros k pre [|x seg] Hb Hl; try done.
  cbn [imap foldM]. rewrite Nat.add_0_r. cbn [app].
  rewrite vec_set_middle by done. cbn [mbind option_bind]. injection Hl as Hl.
  specialize (IH (S k) (pre ++ [physical_id e]) seg). rewrite <-!app_assoc in IH. cbn [app] in IH.
  cbn [fmap list_fmap app].
  rewrite <-IH; [|rewrite length_app; simpl; lia|done].
  f_equal. apply imap_ext. intros j y _. simpl. do 2 f_equal. lia.
Qed.

Lemma write_row_spec rows i width t :
  0 <= i → 0 <= width → i * width + Z.of_nat (length (entries_ t)) <= Z.of_nat (length rows) →
  write_row rows i width t =
    Some (splice (Z.to_nat (i * width)) (physical_id <$> entries_ t) rows).
Proof.
  intros Hi Hw Hlen. unfold write_row, splice. assert (0 <= i * width) by nia.
  set (off := Z.to_nat (i * width)). set (es := entries_ t) in *.
  pose proof (write_row_range (i * width) 0 (take off rows) (take (length es) (drop off rows))
    (drop (off + length es) rows) es) as Hr.
  rewrite <-drop_drop, take_drop, take_drop, drop_drop in Hr. rewrite length_fmap.
  apply Hr; rewrite !length_take, ?length_drop; lia.
Qed.

Section Exported.
Context {B : Type} `{SwapBackendLaws B}.
Context (exp : spec_float → spec_float).
#[local] Instance arithmetic : FloatOps spec_float := binary32 exp.
Context (s : Scenario) (sid n : Z).
Abbreviation shape := (scenario_shape s).
Implicit Types m : KVCacheManager B.

Lemma scenario_dense : frame_layers shape = num_layers shape.
Proof. done. Qed.

(** What the kernel needs of a scenario. *)
Record scenario_ok : Prop := {
  so_layer : 0 <= sc_layer s < sc_num_layers s;
  so_layer_typed : is_u32 (sc_layer s);
  so_heads : 0 < sc_num_query_heads s < W32;
  so_groups : sc_num_query_heads s mod sc_num_kv_heads s = 0
}.
Context (Hok : scenario_ok).

(** The view of a filled sequence, and its first table. *)
Lemma fillable_view m :
  fillable shape sid n m →
  ∃ st t, cache_view m sid TextKV = Some (Some (view_of m sid TextKV st t)) ∧
    sequences_ m !! sid = Some st ∧ (∃ ts, tables st = t :: ts) ∧
    n <= Z.of_nat (length (entries_ t)) ∧ Forall (λ e, resident e = true) (entries_ t).
Proof.
  intros [Hwf Hvp Hs (st & t & Hst & Ht & Hlen & Hres & _)].
  exists st, t. rewrite cache_view_run, Hst by done.
  destruct (tables st) as [|t0 ts] eqn:Hts; [done|]. injection Ht as ->.
  split_and!; try done. by exists ts.
Qed.

Section View.
Context (m : KVCacheManager B) (st : SequenceState) (t : BlockTable).
Context (Hf : fillable shape sid n m).
Context (Hst : sequences_ m !! sid = Some st) (Hts : ∃ ts, tables st = t :: ts).
Context (Hlen : n <= Z.of_nat (length (entries_ t))).
Context (Hres : Forall (λ e, resident e = true) (entries_ t)).
Context (context salt : Z) (Hctx : 0 < context < W32) (Hcov : context <= n * tokens_per_block shape).
Abbreviation v := (view_of m sid TextKV st t).
Abbreviation params := (mkParams (sc_layer s) (sc_num_query_heads s) context (sc_scale s)).

Lemma fill_accepts q o : accepts v (Some q) (Some o) params = true.
Proof.
  pose proof (fl_wf _ _ _ _ Hf) as Hwf. pose proof (fl_pool _ _ _ _ Hf) as Hvp.
  unfold accepts. rewrite view_of_valid by done. cbn [view_of view_layout CacheLayout.shape].
  rewrite (fl_shape _ _ _ _ Hf). destruct Hok as [HL _ HH HG].
  cbn. rewrite HG. rewrite !(proj2 (Z.eqb_neq _ _)) by lia.
  rewrite (proj2 (Z.leb_gt _ _)) by lia. done.
Qed.

Lemma fill_resolves : resolves (T := spec_float) v params.
Proof.
  pose proof (fl_wf _ _ _ _ Hf) as Hwf. pose proof (fl_pool _ _ _ _ Hf) as Hvp.
  destruct (fill_tpb shape sid n eq_refl m Hf) as (Htpb & Hpos & HLf & HK & HD & Hx & _).
  destruct Hts as [ts Htabs]. destruct (wf_base _ (proj1 (mgr_alloc _ Hwf)) (view_frames _ Hvp)) as [base Hbase].
  assert (∀ stream kv_head token, 0 <= kv_head < num_kv_heads shape → 0 <= token < context →
    is_Some (slot 4 v stream (sc_layer s) token kv_head)) as Hslot.
  { intros stream kv_head token Hk Htk.
    change 4 with (bytes_per_element shape). rewrite <-(fl_shape _ _ _ _ Hf).
    destruct Hok as [HL _ _ _].
    rewrite (slot_spec m sid TextKV st t ts) by (done || lia).
    unfold layer_table, frame_layer. rewrite (fl_shape _ _ _ _ Hf), (dense_layers shape scenario_dense).
    rewrite Htabs, Htpb, Hbase. cbn [Z.to_nat lookup list_lookup mbind option_bind].
    pose proof (Z.mod_pos_bound token _ Hpos) as Hmod.
    assert (in_block shape (sc_layer s) (token mod tokens_per_block shape) kv_head) as Hin.
    { split; [done|]. lia. }
    rewrite element_offset_exact by done. cbn [mbind option_bind].
    assert (0 <= token / tokens_per_block shape < n) as Hq.
    { split; [apply Z.div_pos; lia|]. apply Z.div_lt_upper_bound; lia. }
    destruct (lookup_lt_is_Some_2 (entries_ t) (Z.to_nat (token / tokens_per_block shape))) as [e He];
      [lia|]. change ((t :: ts) !! Z.to_nat 0) with (Some t). cbn [mbind option_bind]. rewrite He. cbn [mbind option_bind].
    rewrite Forall_lookup in Hres. by rewrite (Hres _ _ He). }
  intros kv_head token Hk Htk. cbn [view_of view_layout CacheLayout.shape] in Hk.
  rewrite (fl_shape _ _ _ _ Hf) in Hk. split; by apply Hslot.
Qed.

(** The sequence stores the pattern in the layer the scenario reads. *)
Context (Hpattern : ∀ stream token head, 0 <= token < context → 0 <= head < sc_num_kv_heads s →
  cached_vector (T := spec_float) m sid (sc_layer s) stream token head =
    Some (pattern_vector salt (sc_head_dim s) (sc_layer s) stream token head)).

Lemma fill_attention q :
  attention (T := spec_float) m sid params q = pattern_output exp s salt shape context q.
Proof.
  destruct (fill_tpb shape sid n eq_refl m Hf) as (_ & _ & _ & HK & HD & _).
  unfold attention, pattern_output. f_equal. apply list_fmap_ext. intros i h Hh.
  apply lookup_seq in Hh as [-> Hi]. unfold attention_head, pattern_head, pattern_attention.
  rewrite (fl_shape _ _ _ _ Hf). cbn [num_query_heads pa_scale].
  set (kv := _ / _). assert (0 <= kv < sc_num_kv_heads s) as Hkv.
  { destruct Hok as [_ _ HH HG]. pose proof (Z.div_mod (sc_num_query_heads s) (sc_num_kv_heads s)) as Hdm.
    unfold kv. cbn in HK |- *. rewrite HG in Hdm. split; [apply Z.div_pos; [lia|]; nia|].
    apply Z.div_lt_upper_bound; nia. }
  assert (∀ stream, floats <$> cached (T := spec_float) m sid params stream kv =
    pattern_vectors s salt (sc_head_dim s) context kv stream) as Hc.
  { intros stream. unfold cached, pattern_vectors. rewrite <-list_fmap_compose.
    apply list_fmap_ext. intros j token Ht. apply lookup_seqZ in Ht as [-> Hj]. simpl.
    cbn [context_len] in Hj.
    rewrite Hpattern by (try done; lia). simpl. unfold floats. apply list_fmap_id. }
  rewrite !Hc. unfold floats. simpl. by rewrite !list_fmap_id.
Qed.
(** The kernel over it. *)
Lemma fill_decodes q o :
  length q = (Z.to_nat (sc_num_query_heads s) * Z.to_nat (sc_head_dim s))%nat →
  length o = (Z.to_nat (sc_num_query_heads s) * Z.to_nat (sc_head_dim s))%nat →
  paged_attention_decode v (Some q) params (Some o) =
    Some (true, Some (pattern_output exp s salt shape context q)).
Proof.
  intros Hq Ho. pose proof (fl_wf _ _ _ _ Hf) as Hwf. pose proof (fl_pool _ _ _ _ Hf) as Hvp.
  assert (cache_view m sid TextKV = Some (Some v)) as Hview.
  { rewrite cache_view_run, Hst by done. by destruct Hts as [ts ->]. }
  pose proof (decode_run m sid TextKV v Hwf Hvp Hview params q o) as Hrun.
  rewrite (fl_shape _ _ _ _ Hf) in Hrun.
  destruct Hrun as [[_ ->]|[Hno _]].
  - destruct Hok. split_and!; simpl; [done|words|words].
  - apply fill_accepts.
  - by rewrite Hq.
  - by rewrite Ho.
  - rewrite drop_ge by (simpl; lia). rewrite app_nil_r. by rewrite fill_attention.
  - destruct (Hno fill_resolves).
Qed.
End View.

Lemma sequence_query_length salt hd :
  length (sequence_query s salt hd) = (Z.to_nat (sc_num_query_heads s) * Z.to_nat hd)%nat.
Proof.
  assert (∀ l, length (l ≫= λ h, (query_value salt h) <$> seqZ 0 hd) = (length l * Z.to_nat hd)%nat)
    as Hgen.
  { induction l as [|h l IH]; [done|]. rewrite bind_cons, length_app, IH, length_fmap, length_seqZ.
    simpl. lia. }
  unfold sequence_query. by rewrite Hgen, length_seqZ.
Qed.

(** A filled sequence in the loop of the fixture. *)
Lemma export_filled m i context :
  fillable shape sid n m → context_lens s !! i = Some context → 0 < context < W32 →
  context <= n * tokens_per_block shape → Z.of_nat i < W32 →
  (∀ stream token head, 0 <= token < context → 0 <= head < sc_num_kv_heads s →
    cached_vector (T := spec_float) m sid (sc_layer s) stream token head =
    Some (pattern_vector (u32 (Z.of_nat i)) (sc_head_dim s) (sc_layer s) stream token head)) →
  ∃ t, (st ← sequences_ m !! sid; tables st !! 0%nat) = Some t ∧
  ∀ arrays width, 0 <= width →
    Z.of_nat i * width + Z.of_nat (length (entries_ t)) <= Z.of_nat (length (block_table arrays)) →
    let query := sequence_query s (u32 (Z.of_nat i)) (sc_head_dim s) in
    let out := pattern_output exp s (u32 (Z.of_nat i)) shape context query in
    let good := (scatter s = true → is_scattered t = true) ∧ Forall (λ x, is_number x = true) out in
    let result := export_sequence exp s shape width m arrays (i, sid) in
    (good ∧ result = returns (mkArrays (queries arrays ++ query) (outputs arrays ++ out)
       (splice (Z.to_nat (Z.of_nat i * width)) (physical_id <$> entries_ t) (block_table arrays))
       (lens arrays ++ [context]))) ∨
    (¬ good ∧ ∃ what, result = throw what).
Proof.
  intros Hf Hci Hctx Hcov Hi Hpat.
  destruct (fillable_view m Hf) as (st & t & Hview & Hst & Hts & Hlen & Hres).
  exists t. split; [rewrite Hst; simpl; by destruct Hts as [ts ->]|].
  assert (u32 (Z.of_nat i) = Z.of_nat i) as Hu by (apply u32_small; words).
  rewrite Hu in Hpat |- *.
  intros arrays width Hw Hrow query out good result. unfold result, export_sequence. rewrite Hu.
  fold query. rewrite Hview. cbn [mbind option_bind defined and_then returns].
  change (view_block_table (view_of m sid TextKV st t)) with (Some t).
  cbn [mbind option_bind defined and_then returns].
  destruct (negb (scatter s) || is_scattered t) eqn:Hsc.
  2:{ right. apply orb_false_iff in Hsc as [Hs1%negb_false_iff Hs2]. split; [|by eexists].
      intros [Hgood _]. by rewrite Hgood in Hs2. }
  cbn [require and_then returns]. rewrite vec_get_nat, Hci.
  cbn [mbind option_bind defined and_then returns].
  destruct (fill_tpb shape sid n eq_refl m Hf) as (_ & _ & _ & HK & HD & _).
  pose proof (sequence_query_length (Z.of_nat i) (sc_head_dim s)) as Hql. fold query in Hql.
  change (head_dim (scenario_shape s)) with (sc_head_dim s).
  set (zeros := replicate _ f_zero).
  assert (length zeros = (Z.to_nat (sc_num_query_heads s) * Z.to_nat (sc_head_dim s))%nat) as Hz.
  { unfold zeros. rewrite length_replicate. destruct Hok as [_ _ HH _]. cbn in HD. lia. }
  pose proof (fill_decodes m st t Hf Hst Hts Hlen Hres context (Z.of_nat i) Hctx Hcov Hpat query zeros
    Hql Hz) as Hrun. fold out in Hrun.
  fold query. change (single_precision exp) with arithmetic. rewrite Hrun.
  cbn [mbind option_bind defined and_then returns require].
  assert (checked (cross_check exp s shape (Z.of_nat i) query out)
    (Forall (λ x, is_number x = true) out)) as [[Hnum ->]|[Hnum [what ->]]].
  { apply cross_check_spec; [exact HK|cbn in HD |- *; lia| |lia|by rewrite vec_get_nat|cbn; by rewrite Hql].
    destruct Hok as [_ _ HH HG]. cbn in HK |- *.
    pose proof (Z.div_mod (sc_num_query_heads s) (sc_num_kv_heads s)). nia. }
  - left. split.
    { split; [|done]. intros Hs. rewrite Hs in Hsc. exact Hsc. }
    cbn [mbind option_bind defined and_then returns].
    rewrite write_row_spec by (try done; lia). done.
  - right. split; [|by eexists]. by intros [_ Hn].
Qed.
End Exported.

(** ** Properties *)

Section Properties.
Context {B : Type} `{SwapBackendLaws B}.
Implicit Types m : KVCacheManager B.

(** C12. Filling a sequence that has the frames for its copies succeeds, and afterwards
    every vector of its context holds the pattern of its salt, whichever of its blocks
    were shared: later positions, every other sequence and every prefix store what
    they stored before. *)
Theorem fill_sequence_stores (shape : BlockShape) sid n salt context m :
  frame_layers shape = num_layers shape → bytes_per_element shape = 4 →
  fillable shape sid n m → context <= n * tokens_per_block shape →
  finishes (fill_sequence shape (mkKVBlockLayout shape) sid salt context m) (λ m',
    mgr_wf m' ∧ prefixes m' = prefixes m ∧
    (∀ sid', sid' ≠ sid → contents m' !! sid' = contents m !! sid') ∧
    ∀ layer stream token head,
      0 <= layer < num_layers shape → 0 <= token → 0 <= head < num_kv_heads shape →
      cached_vector (T := spec_float) m' sid layer stream token head =
        if token <? context
        then Some (pattern_vector salt (head_dim shape) layer stream token head)
        else cached_vector (T := spec_float) m sid layer stream token head).
Proof.
  intros Hdense Hbytes Hf Hctx.
  eapply finishes_mono; [by eapply fill_sequence_run|]. intros m' Hfill.
  pose proof Hfill as [Hf' Hp _ Hc]. split_and!; [apply Hf'|done| |].
  - intros sid' Hne. rewrite Hc. by rewrite lookup_alter_ne.
  - intros. by apply (filled_vector shape sid n).
Qed.

(** C11. The fixture's output for a sequence is the attention over the pattern itself:
    the reference kernel, reading through the page table the blocks the exporter has
    filled, gives bit for bit what the exporter's check recomputes without a cache. The
    export throws only when a scattered scenario did not scatter or when a result is
    not a number. *)
Theorem exported_output_exact (exp : spec_float → spec_float) (s : Scenario) sid n i context m :
  scenario_ok s → fillable (scenario_shape s) sid n m →
  context_lens s !! i = Some context → 0 < context < W32 →
  context <= n * sc_tokens_per_block s → Z.of_nat i < W32 →
  let shape := scenario_shape s in
  let salt := u32 (Z.of_nat i) in
  finishes (fill_sequence shape (mkKVBlockLayout shape) sid salt context m) (λ m',
    ∃ t, (st ← sequences_ m' !! sid; tables st !! 0%nat) = Some t ∧
    ∀ arrays width, 0 <= width →
      Z.of_nat i * width + Z.of_nat (length (entries_ t)) <= Z.of_nat (length (block_table arrays)) →
      let query := sequence_query s salt (sc_head_dim s) in
      let out := pattern_output exp s salt shape context query in
      let good := (scatter s = true → is_scattered t = true) ∧
                  Forall (λ x, is_number x = true) out in
      let result := export_sequence exp s shape width m' arrays (i, sid) in
      (good ∧ result = returns (mkArrays (queries arrays ++ query) (outputs arrays ++ out)
         (splice (Z.to_nat (Z.of_nat i * width)) (physical_id <$> entries_ t) (block_table arrays))
         (lens arrays ++ [context]))) ∨
      (¬ good ∧ ∃ what, result = throw what)).
Proof.
  intros Hok Hf Hci Hctx Hcov Hi shape salt.
  eapply finishes_mono; [by apply (fill_sequence_run shape sid n)|]. intros m' Hfill.
  apply (export_filled exp s sid n Hok m' i context); try done; [apply Hfill|].
  intros stream token head Ht Hh.
  rewrite (filled_vector shape sid n salt eq_refl eq_refl m m' context) by
    (try done; try lia; apply Hok).
  by rewrite (proj2 (Z.ltb_lt _ _)) by lia.
Qed.
End Properties.

(** ** The files of a fixture, and the range of the pattern *)

(** ** Files *)

Lemma padded_header_length header :
  (kPrefixBytes + Z.of_nat (length (padded_header header))) mod 64 = 0.
Proof.
  unfold padded_header, kPrefixBytes. set (n := Z.of_nat (length header)).
  assert (10 + n + 1 <= (10 + n + 1 + 63) / 64 * 64) as Hle.
  { pose proof (Z.div_mod (10 + n + 1 + 63) 64). pose proof (Z.mod_pos_bound (10 + n + 1 + 63) 64). lia. }
  rewrite !length_app, length_replicate. cbn [length].
  replace (10 + _) with ((10 + n + 1 + 63) / 64 * 64) by lia. apply Z.mod_mul. lia.
Qed.

Lemma slice_middle {A} (pre mid post : list A) :
  slice (length pre) (length mid) (pre ++ mid ++ post) = mid.
Proof. unfold slice. by rewrite drop_app_length, take_app_length. Qed.

(** ** Properties *)

(** A file whose header fits its two length bytes reads back: the length stored
    behind the magic number is the header's, the data starts on a 64-byte boundary
    and is the array, byte for byte; a file is written exactly when the vector holds
    all the elements its shape promises. *)
Theorem write_npy_reads_back descr shape data element_bytes :
  let header := padded_header (bytes_of_string (npy_header descr shape)) in
  let n := npy_count shape ⊗ element_bytes in
  Z.of_nat (length header) < 65536 →
  match write_npy descr shape data element_bytes with
  | Some file =>
    let len := word_of_bytes (slice 8 2 file) in
    take 8 file = magic ∧ len = Z.of_nat (length header) ∧ (10 + len) mod 64 = 0 ∧
    slice 10 (Z.to_nat len) file = header ∧
    drop (Z.to_nat (10 + len)) file = take (Z.to_nat n) data ∧ n <= Z.of_nat (length data)
  | None => Z.of_nat (length data) < n
  end.
Proof.
  intros header n Hlen. unfold write_npy. fold header n.
  destruct (Z.leb_spec n (Z.of_nat (length data))) as [Hle|Hgt]; [|done].
  set (tail := take (Z.to_nat n) data). set (field := bytes_of_word 2 (header_len header)).
  assert (length field = 2%nat) as Hf by apply bytes_of_word_length.
  assert (length magic = 8%nat) as Hm by done.
  assert (slice 8 2 (magic ++ field ++ header ++ tail) = field) as ->
    by (rewrite <-Hm, <-Hf; apply slice_middle).
  assert (word_of_bytes field = Z.of_nat (length header)) as Hw.
  { unfold field. rewrite word_of_bytes_of_word. unfold header_len.
    change (256 ^ Z.of_nat 2) with 65536. by rewrite Z.mod_mod, Z.mod_small by lia. }
  rewrite Hw. split_and!; [done|done|apply padded_header_length| | |done].
  - rewrite Nat2Z.id, (assoc_L (++) magic). replace 10%nat with (length (magic ++ field))
      by (by rewrite length_app, Hm, Hf). apply slice_middle.
  - rewrite (assoc_L (++) magic), (assoc_L (++) _ header). apply drop_app_length'.
    rewrite !length_app, Hm, Hf. lia.
Qed.

Lemma write_npy_reads_back_witness :
  match write_npy "<i4" [2; 1] (bytes_of_word 4 7 ++ bytes_of_word 4 (-1)) 4 with
  | Some file => drop 128 file = bytes_of_word 4 7 ++ bytes_of_word 4 (-1)
  | None => False
  end.
Proof.
  assert (Z.of_nat (length (padded_header (bytes_of_string (npy_header "<i4" [2; 1])))) = 118)
    as Hl by (vm_compute; reflexivity).
  pose proof (write_npy_reads_back "<i4" [2; 1] (bytes_of_word 4 7 ++ bytes_of_word 4 (-1)) 4) as Hr.
  cbv zeta in Hr. rewrite Hl in Hr. specialize (Hr ltac:(lia)).
  destruct (write_npy _ _ _ _) as [file|]; [|vm_compute in Hr; discriminate].
  destruct Hr as (_ & Hlen & _ & _ & Hd & _). rewrite Hlen in Hd. exact Hd.
Defined.

(** Every value of the pattern is a number in [-1, 1) that its four bytes give
    back, so what the cache stores of it is what the check recomputes. *)
Theorem mix_range parts :
  float_of_bytes (bytes_of_float (mix parts)) = mix parts ∧
  SFleb (SFopp (SFone 24 128)) (mix parts) = true ∧ SFltb (mix parts) (SFone 24 128) = true.
Proof.
  split; [apply mix_stable|]. pose proof (mix_spec parts) as Hm. unfold mix_good in Hm.
  apply andb_true_iff in Hm as [Hm Hlt]. apply andb_true_iff in Hm as [_ Hle]. done.
Qed.

(** ** The scenarios *)

(** ** A forked sequence *)

(** Both blocks of sequence 2 are shared with sequence 1; two frames are free. *)
Definition float_forked := after float_one (ForkSequence 1 (demo_md 2)).

Lemma float_forked_wf : mgr_wf float_forked.
Proof.
  unfold float_forked. run_demo float_one_wf. intros st Hs. vm_compute in Hs.
  injection Hs as <-. by apply room_bound; vm_compute.
Qed.

Definition demo_scenario : Scenario :=
  mkScenario "forked" "a child over its parent" 2 1 1 1 2 0 (SFone 24 128) [3; 3] false.

Lemma demo_fillable : fillable (scenario_shape demo_scenario) 2 2 float_forked.
Proof.
  split; [apply float_forked_wf|split; by vm_compute|by vm_compute|].
  assert (∃ st t, sequences_ float_forked !! 2 = Some st ∧ tables st !! 0%nat = Some t ∧
    bool_decide (2 <= Z.of_nat (length (entries_ t))) = true ∧
    forallb resident (entries_ t) = true ∧
    bool_decide (owed (allocator_ float_forked) (entries_ t) <= nfree (allocator_ float_forked)) = true)
    as (st & t & Hs & Ht & Hn & Hr & Ho).
  { eexists _, _. split_and!; vm_compute; reflexivity. }
  exists st, t. split_and!; [done..|by apply bool_decide_eq_true in Hn| |by apply bool_decide_eq_true in Ho].
  apply Forall_forall. intros e He. by apply (proj1 (forallb_forall _ _) Hr), list_elem_of_In.
Qed.

Lemma demo_scenario_ok : scenario_ok demo_scenario.
Proof. split; vm_compute; intuition discriminate. Qed.

Lemma fill_sequence_stores_witness :
  finishes (fill_sequence (scenario_shape demo_scenario)
      (mkKVBlockLayout (scenario_shape demo_scenario)) 2 1 3 float_forked) (λ m',
    contents m' !! 1 = contents float_forked !! 1 ∧
    cached_vector (T := spec_float) m' 2 0 Value 2 0 = Some (pattern_vector 1 1 0 Value 2 0)).
Proof.
  eapply finishes_mono; [apply (fill_sequence_stores (scenario_shape demo_scenario) 2 2 1 3 float_forked
    eq_refl eq_refl demo_fillable); by vm_compute|].
  intros m' (_ & _ & Hoth & Hv). split; [by apply Hoth|].
  rewrite Hv; [done|by vm_compute..].
Defined.

(** The constant stands for [std::exp]: the scenario's scores are all different, so the
    values are not those of the library, which the property leaves to the parameter. *)
Definition demo_exp (x : spec_float) : spec_float := SFone 24 128.
Definition demo_query : list spec_float := sequence_query demo_scenario 1 1.
Definition demo_output : list spec_float :=
  pattern_output demo_exp demo_scenario 1 (scenario_shape demo_scenario) 3 demo_query.

Lemma demo_output_numbers : Forall (λ x, is_number x = true) demo_output.
Proof.
  apply Forall_forall. intros x Hx. apply list_elem_of_In in Hx.
  assert (forallb is_number demo_output = true) as Hall by by vm_compute.
  by apply (proj1 (forallb_forall _ _) Hall).
Qed.

(** The child's table after the fill has its two blocks. *)
Lemma demo_filled_length :
  match fill_sequence (scenario_shape demo_scenario) (mkKVBlockLayout (scenario_shape demo_scenario))
          2 (u32 (Z.of_nat 1)) 3 float_forked with
  | Some (inr m') =>
    (λ t, length (entries_ t)) <$> (st ← sequences_ m' !! 2; tables st !! 0%nat) = Some 2%nat
  | _ => False
  end.
Proof. vm_compute. reflexivity. Qed.

Lemma exported_output_exact_witness :
  finishes (fill_sequence (scenario_shape demo_scenario)
      (mkKVBlockLayout (scenario_shape demo_scenario)) 2 (u32 (Z.of_nat 1)) 3 float_forked) (λ m',
    finishes (export_sequence demo_exp demo_scenario (scenario_shape demo_scenario) 2 m'
      (mkArrays [] [] (replicate 4 (-1)) []) (1%nat, 2)) (λ arrays, outputs arrays = demo_output)).
Proof.
  pose proof demo_filled_length as Hlen.
  assert (context_lens demo_scenario !! 1%nat = Some 3) as Hc by reflexivity.
  assert (0 < 3 < W32) as H3 by (split; vm_compute; reflexivity).
  assert (3 <= 2 * sc_tokens_per_block demo_scenario) as Hcov by (vm_compute; discriminate).
  assert (Z.of_nat 1 < W32) as H1 by (vm_compute; reflexivity).
  pose proof (exported_output_exact demo_exp demo_scenario 2 2 1 3 float_forked demo_scenario_ok
    demo_fillable Hc H3 Hcov H1) as Hx.
  apply finishes_inv in Hx as (m' & Hrun & t & Ht & Hx). rewrite Hrun in Hlen |- *.
  apply finishes_returns. rewrite Ht in Hlen. injection Hlen as Hlen.
  destruct (Hx (mkArrays [] [] (replicate 4 (-1)) []) 2) as [[_ ->]|[Hbad _]].
  - done.
  - rewrite Hlen. vm_compute. discriminate.
  - apply finishes_returns. reflexivity.
  - destruct Hbad. split; [done|apply demo_output_numbers].
Defined.

(** ** The scenarios *)

(** The library's allocation, and any name and size of the files of a run. *)
Definition demo_alloc (alignment size : Z) : option (Z * list byte) :=
  Some (256, replicate (Z.to_nat size) Byte.x00).
Definition file_sizes (r : option (string + list npy_file)) : option (list (string * Z)) :=
  match r with
  | Some (inr files) => Some ((λ '(name, bytes), (name, Z.of_nat (length bytes))) <$> files)
  | _ => None
  end.

(** The small scenarios run to the end, and their checks pass. *)
Example scenarios_exported :
  forallb (λ s, match file_sizes (export_scenario (B := HostSwapBackend) demo_exp demo_alloc s) with
                | Some files => (length files =? 16)%nat | None => false end)
    (take 3 scenarios) = true.
Proof. vm_compute. reflexivity. Qed.
