(* ===== verification/ReplayMain.v ===== *)
(** The command line of the trace replay ([tools/trace_replay/main.cpp]): its options,
    the replays it runs and the report it writes. What the program reads and writes are
    arguments and results: the files of the traces, whether the report's file opens and
    stands at its start, the lines printed. The progress messages are left out. *)
From coqutil Require Import Datatypes.RecordSetters.
From stdpp Require Import pretty.
From S2P Require Import Prelude.
From S2P Require Import Throws.
From S2P Require Import TraceReplay.
From S2P Require Import PagedReplay.
From S2P Require Import ContiguousReplay.
Import TriangleBracketNotations.
#[local] Open Scope record_set.

(** ** [std::strtoul] in base ten *)

(** [std::isspace] in the "C" locale. *)
Definition is_space (c : Ascii.ascii) : bool :=
  let n := Ascii.nat_of_ascii c in (n =? 32)%nat || ((9 <=? n)%nat && (n <=? 13)%nat).

Definition digit_of (c : Ascii.ascii) : option Z :=
  let n := Z.of_nat (Ascii.nat_of_ascii c) in
  if (48 <=? n) && (n <=? 57) then Some (n - 48) else None.

Fixpoint skip_spaces (text : string) : string :=
  match text with
  | String c rest => if is_space c then skip_spaces rest else text
  | EmptyString => ""
  end.

(** The digits at the front: their number, their value, and the rest. *)
Fixpoint digits (value : Z) (count : nat) (text : string) : nat * Z * string :=
  match text with
  | String c rest =>
    match digit_of c with
    | Some d => digits (value * 10 + d) (S count) rest
    | None => (count, value, text)
    end
  | EmptyString => (count, value, ""%string)
  end.

(** The value and the text behind it, or nothing when no number was read. The value
    saturates at [ULONG_MAX]; a minus sign negates it as an [unsigned long]. *)
Definition strtoul (text : string) : option (Z * string) :=
  let text := skip_spaces text in
  let '(negative, text) :=
    match text with
    | String c rest =>
      if (Ascii.nat_of_ascii c =? 45)%nat then (true, rest)
      else if (Ascii.nat_of_ascii c =? 43)%nat then (false, rest) else (false, text)
    | EmptyString => (false, text)
    end in
  match digits 0 0 text with
  | (O, _, _) => None
  | (_, value, rest) =>
    Some (if W64 <=? value then W64 - 1 else if negative : bool then u64 (- value) else value, rest)
  end.

Definition parse_u32 (text : string) : option Z :=
  match strtoul text with
  | None => None
  | Some (value, rest) => if String.eqb rest "" then Some (u32 value) else None
  end.

(** ** Options *)

Record Options := mkOptions {
  config : ReplayConfig;
  traces : list string;
  csv_path : string;
  paged_only : bool
}.

(** The defaults of [ReplayConfig], with the budget [main] sets. *)
Definition default_config : ReplayConfig :=
  mkReplayConfig 16 0 16 65536 0 0 false 8 false 8192 2000000.
Definition default_options : Options := mkOptions default_config [] "" false.

Inductive Command :=
| Help
| Usage
| Rejected (message : string)
| Replay (options : Options).

(** The options that take a number. *)
Definition number_option (arg : string) : option (Z → ReplayConfig → ReplayConfig) :=
  if String.eqb arg "--pool-blocks" then Some (λ v c, c <| cfg_max_blocks := v |>)
  else if String.eqb arg "--tokens-per-block" then Some (λ v c, c <| cfg_tokens_per_block := v |>)
  else if String.eqb arg "--max-active" then Some (λ v c, c <| cfg_max_active_requests := v |>)
  else if String.eqb arg "--max-batch-tokens" then Some (λ v c, c <| cfg_max_batch_tokens := v |>)
  else if String.eqb arg "--watermark"
  then Some (λ v c, c <| cfg_preemption_watermark_blocks := v |>)
  else if String.eqb arg "--swap-slots" then Some (λ v c, c <| swap_slots := v |>)
  else if String.eqb arg "--baseline-max-context" then Some (λ v c, c <| baseline_max_context := v |>)
  else if String.eqb arg "--skip-limit" then Some (λ v c, c <| cfg_admission_skip_limit := v |>)
  else None.

(** [arg.rfind("--", 0) == 0]. *)
Definition is_option (arg : string) : bool := String.prefix "--" arg.

(** The loop over the arguments. *)
Fixpoint parse_args (o : Options) (args : list string) : Command :=
  match args with
  | [] => match traces o with [] => Usage | _ => Replay o end
  | arg :: rest =>
    if String.eqb arg "--help" || String.eqb arg "-h" then Help
    else if String.eqb arg "--paged-only" then parse_args (o <| paged_only := true |>) rest
    else if String.eqb arg "--size-aware"
    then parse_args (o <| config ::= λ c, c <| cfg_size_aware_admission := true |> |>) rest
    else if String.eqb arg "--prefix-cache"
    then parse_args (o <| config ::= λ c, c <| prefix_caching := true |> |>) rest
    else if negb (is_option arg) then parse_args (o <| traces ::= λ ts, ts ++ [arg] |>) rest
    else
      match rest with
      | [] => Rejected ("missing value for " +:+ arg)
      | value :: rest' =>
        match number_option arg with
        | Some set =>
          match parse_u32 value with
          | Some v => parse_args (o <| config ::= set v |>) rest'
          | None => Rejected ("invalid value for " +:+ arg)
          end
        | None =>
          if String.eqb arg "--csv" then parse_args (o <| csv_path := value |>) rest'
          else Rejected ("unknown option " +:+ arg)
        end
      end
  end.

(** ** The replays *)

Section Main.
Context {J : Type} `{Json J}.
Context (aligned_alloc : Z → Z → option (Z * list byte)).
(** The lines of a trace's file, or nothing when it does not open. *)
Context (files : string → option (list string)).

(** The configuration of one trace. *)
Definition run_config (trace : Trace) (c : ReplayConfig) : ReplayConfig :=
  if cfg_max_blocks c =? 0 then c <| cfg_max_blocks := suggested_pool_blocks trace c |> else c.

(** The rows of one trace; an error ends the program. *)
Definition replay_one (o : Options) (path : string) : option (string + list string) :=
  match load_trace path (files path) with
  | inl error => throw error
  | inr trace =>
    let c := run_config trace (config o) in
    paged ⇐ defined (run_paged aligned_alloc trace c);
    let row := to_csv_row trace c paged in
    if paged_only o then returns [row]
    else
      contiguous ⇐ defined (run_contiguous trace c);
      returns [row; to_csv_row trace c contiguous]
  end.

Definition replay_all (o : Options) : option (string + list string) :=
  foldT (λ rows path, new ⇐ replay_one o path; returns (rows ++ new)) [] (traces o).

(** The exit status, the lines on the standard output and those appended to the
    report's file. *)
Record Result := mkResult { status : Z; printed : list string; appended : list string }.

(** [report] says whether the file opens and, when it does, whether its position is 0. *)
Definition main (report : option bool) (args : list string) : option Result :=
  match parse_args default_options args with
  | Help => Some (mkResult 0 [] [])
  | Usage | Rejected _ => Some (mkResult 2 [] [])
  | Replay o =>
    outcome ← replay_all o;
    match outcome with
    | inl _ => Some (mkResult 1 [] [])
    | inr rows =>
      if String.eqb (csv_path o) "" then Some (mkResult 0 (csv_header :: rows) [])
      else
        match report with
        | None => Some (mkResult 1 [] [])
        | Some at_start => Some (mkResult 0 [] ((if at_start : bool then [csv_header] else []) ++ rows))
        end
    end
  end.
End Main.
