(* ===== verification/ReplayMainProps.v ===== *)
(** The command line of the trace replay: numbers and options read back, the
    configuration keeps its types, and a run is defined from the arguments to the rows. *)
From coqutil Require Import Datatypes.RecordSetters.
From stdpp Require Import pretty.
From S2P Require Import Prelude.
From S2P Require Import Throws.
From S2P Require Import TraceReplay.
From S2P Require Import PagedReplay.
From S2P Require Import ContiguousReplay.
From S2P Require Import ReplayMain.
Import TriangleBracketNotations.
#[local] Open Scope record_set.

(** ** Numbers *)

Lemma digit_of_char d : (d < 10)%N → digit_of (pretty_N_char d) = Some (Z.of_N d).
Proof.
  intros Hd. assert (d = 0 ∨ d = 1 ∨ d = 2 ∨ d = 3 ∨ d = 4 ∨ d = 5 ∨ d = 6 ∨ d = 7 ∨ d = 8 ∨ d = 9)%N
    as Hc by lia. by repeat destruct Hc as [->|Hc]; [..|subst].
Qed.

(** The digits a number is printed with, read in front of anything. *)
Lemma digits_pretty x value count text :
  ∃ k, (0 < x → 0 < k)%N ∧
    digits value count (pretty_N_go x text) =
      digits (value * 10 ^ Z.of_N k + Z.of_N x) (count + N.to_nat k) text.
Proof.
  revert text. induction (N.lt_wf_0 x) as [x _ IH]; intros text.
  destruct (decide (x = 0)%N) as [->|Hx].
  { exists 0%N. split; [done|]. rewrite pretty_N_go_0. f_equal; lia. }
  rewrite pretty_N_go_step by lia.
  destruct (IH (x / 10)%N ltac:(apply N.div_lt; lia)
    (String (pretty_N_char (x mod 10)) text)) as (k & _ & ->).
  exists (N.succ k). split; [lia|]. cbn [digits].
  rewrite digit_of_char by (apply N.mod_lt; lia).
  f_equal; [|lia]. rewrite N2Z.inj_succ, Z.pow_succ_r by lia.
  rewrite (N.div_mod x 10) at 3 by lia. rewrite N2Z.inj_add, N2Z.inj_mul. lia.
Qed.

(** A number as it is printed. *)
Lemma pretty_digits n :
  0 <= n → ∃ k, digits 0 0 (pretty n) = (S k, n, ""%string).
Proof.
  intros Hn. assert (pretty n = pretty (Z.to_N n)) as ->.
  { destruct n as [|p|p]; [done| |lia]. done. }
  unfold pretty, pretty_N. destruct (decide (Z.to_N n = 0%N)) as [Hz|Hz].
  { exists 0%nat. assert (n = 0) as -> by lia. done. }
  destruct (digits_pretty (Z.to_N n) 0 0 "") as (k & Hk & ->).
  exists (pred (N.to_nat k)). cbn [digits]. f_equal. f_equal; lia.
Qed.

(** The first character of a printed number is a digit. *)
Lemma pretty_head n :
  0 <= n → ∃ c rest, pretty n = String c rest ∧ is_Some (digit_of c).
Proof.
  intros Hn. destruct (pretty_digits n Hn) as [k Hk].
  destruct (pretty n) as [|c rest]; [done|]. exists c, rest. split; [done|].
  cbn [digits] in Hk. by destruct (digit_of c).
Qed.

Lemma digit_plain c :
  is_Some (digit_of c) → is_space c = false ∧ (Ascii.nat_of_ascii c =? 45)%nat = false ∧
    (Ascii.nat_of_ascii c =? 43)%nat = false ∧ (Ascii.nat_of_ascii c =? 45)%nat = false.
Proof.
  unfold digit_of, is_space. set (n := Ascii.nat_of_ascii c). case_match eqn:Hc; [|by intros []].
  intros _. apply andb_true_iff in Hc as [H1%Z.leb_le H2%Z.leb_le].
  split_and!; [|apply Nat.eqb_neq; lia..]. apply orb_false_iff. split; [apply Nat.eqb_neq; lia|].
  apply andb_false_iff. right. apply Nat.leb_gt. lia.
Qed.

(** What [parse_u32] makes of a printed number: its low 32 bits. *)
Lemma parse_u32_pretty n : 0 <= n < W64 → parse_u32 (pretty n) = Some (u32 n).
Proof.
  intros Hn. unfold parse_u32, strtoul. destruct (pretty_digits n) as [k Hk]; [lia|].
  destruct (pretty_head n) as (c & rest & Hp & Hd); [lia|]. rewrite Hp in *.
  destruct (digit_plain c Hd) as (Hs & Hm & Hpl & _).
  cbn [skip_spaces]. rewrite Hs, Hm, Hpl, Hk. rewrite (proj2 (Z.leb_gt _ _)) by lia. done.
Qed.

Lemma parse_u32_range text v : parse_u32 text = Some v → is_u32 v.
Proof.
  unfold parse_u32. destruct (strtoul text) as [[value rest]|]; [|done].
  destruct (String.eqb rest ""); [|done]. intros [= <-]. apply u32_range.
Qed.

(** ** Options *)

(** The fields of a configuration are within their machine types. *)
Record config_typed (c : ReplayConfig) : Prop := {
  ct_tpb : is_u32 (cfg_tokens_per_block c);
  ct_blocks : is_u32 (cfg_max_blocks c);
  ct_active : is_u32 (cfg_max_active_requests c);
  ct_batch : is_u32 (cfg_max_batch_tokens c);
  ct_watermark : is_u32 (cfg_preemption_watermark_blocks c);
  ct_slots : is_u32 (swap_slots c);
  ct_skip : is_u32 (cfg_admission_skip_limit c);
  ct_context : is_u32 (baseline_max_context c);
  ct_steps : is_u64 (max_steps c)
}.

Lemma number_option_typed arg set v c :
  number_option arg = Some set → is_u32 v → config_typed c → config_typed (set v c).
Proof.
  unfold number_option. intros Hset Hv Hc.
  repeat (case_match; [injection Hset as <-; destruct Hc; by split|]). done.
Qed.

Lemma number_option_is_option arg set : number_option arg = Some set → is_option arg = true.
Proof.
  unfold number_option. intros Hset.
  repeat match type of Hset with
  | (if String.eqb ?a ?b then _ else _) = _ =>
    destruct (String.eqb_spec a b) as [->|]; [done|]
  end. done.
Qed.

(** A command line as the options it sets, in order. *)
Inductive Argument :=
| Number (name : string) (value : Z)
| PagedOnly
| SizeAware
| PrefixCache
| Csv (path : string)
| TraceFile (path : string).

Definition spelled (arg : Argument) : list string :=
  match arg with
  | Number name value => [name; pretty value]
  | PagedOnly => ["--paged-only"]
  | SizeAware => ["--size-aware"]
  | PrefixCache => ["--prefix-cache"]
  | Csv path => ["--csv"; path]
  | TraceFile path => [path]
  end%string.

Definition effect (o : Options) (arg : Argument) : Options :=
  match arg with
  | Number name value =>
    match number_option name with Some set => o <| config ::= set (u32 value) |> | None => o end
  | PagedOnly => o <| paged_only := true |>
  | SizeAware => o <| config ::= λ c, c <| cfg_size_aware_admission := true |> |>
  | PrefixCache => o <| config ::= λ c, c <| prefix_caching := true |> |>
  | Csv path => o <| csv_path := path |>
  | TraceFile path => o <| traces ::= λ ts, ts ++ [path] |>
  end.

Definition argument_ok (arg : Argument) : Prop :=
  match arg with
  | Number name value => is_Some (number_option name) ∧ 0 <= value < W64
  | TraceFile path => is_option path = false ∧ path ≠ "-h"%string
  | _ => True
  end.

(** An option that takes a number is none of the switches. *)
Lemma number_option_other arg set :
  number_option arg = Some set →
  is_option arg = true ∧ String.eqb arg "--help" = false ∧ String.eqb arg "-h" = false ∧
  String.eqb arg "--paged-only" = false ∧ String.eqb arg "--size-aware" = false ∧
  String.eqb arg "--prefix-cache" = false.
Proof.
  unfold number_option. intros Hset.
  repeat match type of Hset with
  | (if String.eqb ?a ?b then _ else _) = _ =>
    destruct (String.eqb_spec a b) as [->|]; [done|]
  end. done.
Qed.

Lemma plain_argument path :
  is_option path = false → path ≠ "-h"%string →
  String.eqb path "--help" = false ∧ String.eqb path "-h" = false ∧
  String.eqb path "--paged-only" = false ∧ String.eqb path "--size-aware" = false ∧
  String.eqb path "--prefix-cache" = false.
Proof.
  intros Hp Hh. split_and!; apply String.eqb_neq; try done; intros ->; done.
Qed.

Lemma parse_argument o arg rest :
  argument_ok arg → parse_args o (spelled arg ++ rest) = parse_args (effect o arg) rest.
Proof.
  destruct arg as [name value| | | |path|path]; simpl spelled; simpl app.
  - intros [[set Hset] Hv]. destruct (number_option_other name set Hset) as (Ho & H1 & H2 & H3 & H4 & H5).
    cbn [parse_args]. rewrite H1, H2, H3, H4, H5, Ho, Hset, parse_u32_pretty by done. cbn [orb negb].
    unfold effect. by rewrite Hset.
  - done.
  - done.
  - done.
  - done.
  - intros [Hp Hh]. destruct (plain_argument path Hp Hh) as (H1 & H2 & H3 & H4 & H5).
    cbn [parse_args]. by rewrite H1, H2, H3, H4, H5, Hp.
Qed.

(** ** Properties *)

(** C29. A command line reads back: the options written out in any order, with the
    trace files among them, parse to exactly the options they set, later ones over
    earlier ones; a number that does not fit 32 bits is not refused but reduced, so
    4294967296 blocks are none. *)
Theorem parse_args_spelled o args :
  Forall argument_ok args →
  parse_args o (args ≫= spelled) =
    match traces (foldl effect o args) with
    | [] => Usage
    | _ => Replay (foldl effect o args)
    end.
Proof.
  intros Hargs. revert o. induction Hargs as [|arg args Harg _ IH]; intros o; [done|].
  rewrite bind_cons, parse_argument by done. by rewrite IH.
Qed.

Lemma parse_args_spelled_witness :
  parse_args default_options ["--pool-blocks"; "4294967296"; "a.jsonl"; "--csv"; "out.csv"]%string =
    Replay (mkOptions default_config ["a.jsonl"] "out.csv" false).
Proof.
  refine (parse_args_spelled default_options
    [Number "--pool-blocks" 4294967296; TraceFile "a.jsonl"; Csv "out.csv"] _).
  repeat (apply Forall_cons; split); [|by split|done|by apply Forall_nil].
  split; [by eexists|by vm_compute].
Defined.

(** C28. Whatever the arguments, a configuration the program replays with has every field
    within its machine type, and there is a trace to replay. *)
Theorem parse_args_typed args o :
  parse_args default_options args = Replay o → config_typed (config o) ∧ traces o ≠ [].
Proof.
  assert (config_typed (config default_options)) as H0 by (split; by vm_compute).
  revert H0. generalize default_options as o0.
  induction args as [args IH] using (induction_ltof1 _ (@length string)). intros o0 H0.
  assert (∀ rest o1, (length rest < length args)%nat → config_typed (config o1) →
    parse_args o1 rest = Replay o → config_typed (config o) ∧ traces o ≠ []) as Hrest.
  { intros rest o1 Hlt Ho1 Hp. by apply (IH rest Hlt o1). }
  clear IH. destruct args as [|arg rest]; cbn [parse_args].
  { destruct (traces o0) eqn:Ht; [done|]. intros [= <-]. by rewrite Ht. }
  do 5 (case_match; [first [done|apply Hrest; [simpl; lia|by destruct H0]]|]).
  destruct rest as [|value rest]; [done|].
  destruct (number_option arg) as [set|] eqn:Hset.
  - destruct (parse_u32 value) as [v|] eqn:Hv; [|done]. apply Hrest; [simpl; lia|].
    simpl. eapply number_option_typed; [done|by eapply parse_u32_range|done].
  - case_match; [apply Hrest; [simpl; lia|done]|done].
Qed.

Lemma parse_args_typed_witness :
  cfg_max_blocks (config default_options) = 0 ∧
  ∃ o, parse_args default_options ["--watermark"; "-1"; "a.jsonl"]%string = Replay o ∧
    config_typed (config o).
Proof.
  split; [done|]. eexists. split; [reflexivity|].
  exact (proj1 (parse_args_typed ["--watermark"; "-1"; "a.jsonl"]%string _ eq_refl)).
Defined.
