(* ===== verification/ReplayMainRuns.v ===== *)
(** The whole program: from the arguments and the trace files to the report. *)
From stdpp Require Import pretty.
From S2P Require Import Prelude.
From S2P Require Import Throws.
From S2P Require Import MemoryAllocator.
From S2P Require Import AllocatorProps.
From S2P Require Import TraceReplay.
From S2P Require Import PagedReplay.
From S2P Require Import PagedInvariant.
From S2P Require Import PagedProps.
From S2P Require Import ContiguousReplay.
From S2P Require Import ContiguousProps.
From S2P Require Import TraceProps.
From S2P Require Import ReplayMain.
From S2P Require Import ReplayMainProps.

Section Main.
Context {J : Type} `{Json J}.
Context (aligned_alloc : Z → Z → option (Z * list byte)).
Context (files : string → option (list string)).

(** A trace file the program can replay: it loads, its sizes fit their words under the
    configuration of the run, and the pool can be allocated. *)
Record replayable (o : Options) (path : string) (trace : Trace) : Prop := {
  rp_loads : load_trace path (files path) = inr trace;
  rp_paged : PagedInvariant.replay_ok trace (run_config trace (config o));
  rp_contiguous : ContiguousProps.replay_ok trace (run_config trace (config o));
  rp_pool : let c := allocator_config trace (run_config trace (config o)) in
    ∃ p slab, aligned_alloc (effective_alignment c) (pool_bytes_for c) = Some (p, slab) ∧
      Z.of_nat (length slab) = pool_bytes_for c
}.

(** The rows of a trace: its paged replay and, unless it is left out, the baseline. *)
Definition reported (o : Options) (path : string) (rows : list string) : Prop :=
  ∃ trace paged,
    let c := run_config trace (config o) in
    load_trace path (files path) = inr trace ∧
    run_paged aligned_alloc trace c = Some paged ∧
    (completed paged = true → leak_free paged = true) ∧
    if paged_only o then rows = [to_csv_row trace c paged]
    else ∃ contiguous, run_contiguous trace c = Some contiguous ∧
      (completed contiguous = true → leak_free contiguous = true) ∧
      rows = [to_csv_row trace c paged; to_csv_row trace c contiguous].

Lemma replay_one_runs o path trace :
  replayable o path trace → finishes (replay_one aligned_alloc files o path) (reported o path).
Proof.
  intros [Hload Hpaged Hcont (p & slab & Hslab & Hlen)]. unfold replay_one. rewrite Hload.
  set (c := run_config trace (config o)) in *.
  destruct (runs_inv _ _ (run_paged_ends trace c aligned_alloc p slab Hpaged Hslab Hlen))
    as (paged & Hrun & _ & _ & _ & Hleak).
  destruct (runs_inv _ _ (contiguous_run_ends trace c Hcont)) as (contiguous & Hruc & _ & _ & Hdone).
  rewrite Hrun. apply finishes_defined. cbn [runs].
  assert (completed contiguous = true → leak_free contiguous = true) as Hleak' by tauto.
  destruct (paged_only o) eqn:Hp; [|rewrite Hruc; apply finishes_defined; cbn [runs]];
    apply finishes_returns; exists trace, paged; (split_and!; [done..|]); rewrite Hp; [done|].
  by exists contiguous.
Qed.

Lemma replay_all_runs o :
  (∀ path, path ∈ traces o → ∃ trace, replayable o path trace) →
  finishes (replay_all aligned_alloc files o) (λ rows,
    ∃ reports, rows = concat reports ∧ Forall2 (reported o) (traces o) reports).
Proof.
  intros Hall. unfold replay_all.
  apply (finishes_foldT _ (λ don rows,
    ∃ reports, rows = concat reports ∧ Forall2 (reported o) don reports)).
  { by exists []. }
  intros don path rest rows Hl (reports & -> & Hrep).
  destruct (Hall path) as [trace Htrace].
  { rewrite Hl. apply elem_of_app. right. by left. }
  finish_step (replay_one_runs o path trace Htrace). intros new Hnew.
  apply finishes_returns. exists (reports ++ [new]). split.
  - by rewrite concat_app, concat_cons, app_nil_r.
  - by apply Forall2_app; [|constructor].
Qed.

(** The first trace that does not load ends the program. *)
Lemma replay_all_stops o don path rest error :
  traces o = don ++ path :: rest →
  (∀ path, path ∈ don → ∃ trace, replayable o path trace) →
  load_trace path (files path) = inl error →
  replay_all aligned_alloc files o = Some (inl error).
Proof.
  intros Hl Hall Hload. unfold replay_all. rewrite Hl. clear Hl. generalize ([] : list string) as rows.
  induction don as [|first don IH]; intros rows; simpl.
  - unfold replay_one. by rewrite Hload.
  - destruct (Hall first) as [trace Htrace]; [by left|].
    destruct (finishes_inv _ _ (replay_one_runs o first trace Htrace)) as (new & -> & _).
    apply IH. intros p Hp. apply Hall. by right.
Qed.

(** C27. The program as a whole. When every trace it is given loads and fits its words, it
    is defined from the arguments to the report: it exits with 0 and writes, per trace
    and in the order given, the row of the paged replay and, unless it is left out, the
    row of the baseline, under a header when the report starts with them; a completed
    row is a leak-free one. It exits with 1 only when the report cannot be written, or
    when a trace does not load, and then writes nothing. *)
Theorem main_replays args o report :
  parse_args default_options args = Replay o →
  ∀ don rest, traces o = don ++ rest →
  (∀ path, path ∈ don → ∃ trace, replayable o path trace) →
  match rest with
  | [] =>
    runs (main aligned_alloc files report args) (λ r, ∃ reports,
      Forall2 (reported o) (traces o) reports ∧
      r = if String.eqb (csv_path o) "" then mkResult 0 (csv_header :: concat reports) []
          else match report with
               | None => mkResult 1 [] []
               | Some true => mkResult 0 [] (csv_header :: concat reports)
               | Some false => mkResult 0 [] (concat reports)
               end)
  | path :: _ => ∀ error, load_trace path (files path) = inl error →
    main aligned_alloc files report args = Some (mkResult 1 [] [])
  end.
Proof.
  intros Hargs don rest Hl Hall. unfold main. rewrite Hargs. destruct rest as [|path rest].
  - rewrite app_nil_r in Hl. rewrite <-Hl in Hall.
    destruct (finishes_inv _ _ (replay_all_runs o Hall)) as (rows & -> & reports & -> & Hrep).
    cbn [mbind option_bind]. destruct (String.eqb (csv_path o) ""); [by exists reports|].
    by destruct report as [[]|]; exists reports.
  - intros error Hload. by rewrite (replay_all_stops o don path rest error).
Qed.
End Main.

(** ** Witness *)

Definition sample_files (path : string) : option (list string) :=
  if String.eqb path "good" then Some ["header"; "request"]%string else None.

Lemma sample_replayable :
  ∃ o trace, parse_args default_options ["--pool-blocks"; "4"; "good"; "bad"]%string = Replay o ∧
    traces o = ["good"; "bad"]%string ∧
    replayable (J := sample_json) zero_pool sample_files o "good" trace.
Proof.
  eexists _, _. split; [reflexivity|]. split; [reflexivity|]. split.
  - vm_compute. reflexivity.
  - split; [apply NoDup_singleton| | | |(vm_compute; intuition discriminate)..].
    + apply Forall_singleton. split; vm_compute; intuition discriminate.
    + vm_compute. intuition discriminate.
    + split; [split|..]; vm_compute; intuition discriminate.
  - split; [vm_compute; intuition discriminate..|].
    intros request Hin. vm_compute in Hin. apply list_elem_of_singleton in Hin as ->.
    vm_compute. intuition discriminate.
  - eexists _, _. split; [reflexivity|]. rewrite length_replicate, Z2Nat.id; [reflexivity|].
    vm_compute. discriminate.
Qed.

(** The first file is replayed, the second does not open: status 1, nothing written. *)
Lemma main_replays_witness :
  main (J := sample_json) zero_pool sample_files None ["--pool-blocks"; "4"; "good"; "bad"]%string =
    Some (mkResult 1 [] []).
Proof.
  destruct sample_replayable as (o & trace & Hargs & Hl & Hok).
  refine (main_replays zero_pool sample_files _ o None Hargs ["good"%string] ["bad"%string] Hl _
    "cannot open bad" eq_refl).
  intros path [->|[]%not_elem_of_nil]%elem_of_cons. by exists trace.
Defined.
