(* ===== verification/Bindings.v ===== *)
(** The Python bindings ([python/bindings.cpp]): adopting storage Python owns, the block
    table of a sequence and the oracle call. What pybind11 converts and the lifetimes it
    ties are outside the model; a buffer is the fields pybind11 fills in, strides included,
    and the memory of its exporter from its pointer on, which a buffer that is not
    contiguous need not fill. The methods bound by name are the operations of the
    other components. The theorems say what Python gets: a pool in its own storage, and
    the oracle's attention. *)
From stdpp Require Import pretty.
From Stdlib Require Import Floats.SpecFloat.
From S2P Require Import Prelude.
From S2P Require Import Throws.
From S2P Require Import Block.
From S2P Require Import CacheLayout.
From S2P Require Import SwapBackend.
From S2P Require Import BlockTable.
From S2P Require Import MemoryAllocator.
From S2P Require Import KVCacheManager.
From S2P Require Import PagedAttention.
From S2P Require Import AllocatorSpec.
From S2P Require Import AllocatorProps.
From S2P Require Import CacheAccounting.
From S2P Require Import CacheInvariant.
From S2P Require Import CacheLemmas.
From S2P Require Import CacheProps.
From S2P Require Import CacheViews.
From S2P Require Import AttentionProps.
From S2P Require Import AttentionDemo.

(** [py::buffer_info], as [request(true)] fills it in: the number of elements, the bytes of
    one, for each dimension the bytes from one element to the next, and the address of
    the first element. [memory] is what the exporter has from that address on: nothing
    behind it belongs to the buffer. *)
Record buffer_info := mkBufferInfo {
  ndim : Z;
  bi_size : Z;
  itemsize : Z;
  bi_strides : list Z;
  bi_ptr : option Z;
  memory : list byte
}.

Section Bindings.
Context {B : Type} `{SwapBackend B}.
(** The library's [std::exp]. *)
Context (exp : spec_float → spec_float).
Implicit Types m : KVCacheManager B.

#[local] Instance oracle_precision : FloatOps spec_float := binary32 exp.

Definition short_storage (bytes required : Z) : string :=
  "pool storage holds " +:+ pretty bytes +:+ " bytes but this config needs " +:+ pretty required +:+
  "; size it with pool_bytes_for(config)".

(** The pointer, with the part of the pool that is there. The strides are not looked at: the
    pool takes the bytes that follow the pointer, and has fewer than it needs when the
    exporter's memory ends before. *)
Definition adoptable_pointer (info : buffer_info) (config : AllocatorConfig)
    : option (string + option (Z * list byte)) :=
  if negb ((ndim info =? 1) || (ndim info =? 0)) then throw "pool storage must be a flat buffer"
  else
    let bytes := bi_size info ⊗ itemsize info in
    let required := pool_bytes_for config in
    if bytes <? required then throw (short_storage bytes required)
    else returns (p ← bi_ptr info; Some (p, take (Z.to_nat required) (memory info))).

(** The constructor over a buffer. *)
Definition MemoryAllocator_buffer (config : AllocatorConfig) (storage : buffer_info)
    : option (string + MemoryAllocator B) :=
  pool ⇐ adoptable_pointer storage config;
  returns (MemoryAllocator_adopt config pool).

(** The constructor over an address; [behind] is the memory there. *)
Definition MemoryAllocator_address (config : AllocatorConfig) (address nbytes : Z)
    (behind : list byte) : option (string + MemoryAllocator B) :=
  let required := pool_bytes_for config in
  if nbytes <? required then throw (short_storage nbytes required)
  else if address =? 0 then throw "pool storage address is null"
  else returns (MemoryAllocator_adopt config (Some (address, take (Z.to_nat required) behind))).

Definition no_view (sequence : Z) : string := "no cache view for sequence " +:+ pretty sequence.

Definition block_table_of m (sequence : Z) : option (string + list Z) :=
  view ⇐ defined (cache_view m sequence TextKV);
  match view with
  | None => throw (no_view sequence)
  | Some v => table ⇐ defined (view_block_table v); returns (physical_id <$> entries_ table)
  end.

Definition refused : string :=
  "paged_attention_decode refused the call: a block is unmapped or swapped out".

(** [fresh] is the array the output starts as, which nothing has initialised. The
    product of the sizes is a signed 64-bit one, undefined when it overflows. *)
Definition decode m (sequence : Z) (query : list spec_float)
    (layer num_query_heads context_len : Z) (scale : spec_float) (fresh : list spec_float)
    : option (string + list spec_float) :=
  view ⇐ defined (cache_view m sequence TextKV);
  match view with
  | None => throw (no_view sequence)
  | Some v =>
    let head_dim := head_dim (shape (view_layout v)) in
    let expected := num_query_heads * head_dim in
    if 9223372036854775808 <=? expected then None
    else if negb (Z.of_nat (length query) =? expected)
    then throw ("query holds " +:+ pretty (Z.of_nat (length query)) +:+ " elements, expected " +:+
                pretty expected)
    else
      let params := mkParams layer num_query_heads context_len scale in
      '(ok, out) ⇐ defined (paged_attention_decode v (Some query) params (Some fresh));
      if ok : bool then defined out else throw refused
  end.

(** The two constructors of metadata Python reaches. *)
Definition create_sequence_py m (sequence request : Z) : bool * KVCacheManager B :=
  create_sequence m (mkSequenceMetadata sequence request [] (mkPositionalEncodingMetadata [])).
Definition fork_sequence_py m (parent child request : Z) : bool * KVCacheManager B :=
  fork_sequence m parent (mkSequenceMetadata child request [] (mkPositionalEncodingMetadata [])).
End Bindings.

(** ** What Python gets *)

Section Props.
Context {B : Type} `{SwapBackendLaws B}.
Implicit Types m : KVCacheManager B.

(** A pool over given memory, without a backend yet. *)
Lemma adopted_fresh config p slab :
  config_ok config → Z.of_nat (length slab) = pool_bytes_for config →
  let a := MemoryAllocator_adopt (B := B) config (Some (p, slab)) in
  fresh_pool a ∧ owns_pool a = false ∧ slab_ a = slab ∧ pool_base_ a = Some p ∧
  nfree a = max_blocks config.
Proof.
  intros Hok Hlen a.
  assert (Z.of_nat (length slab) = max_blocks config * block_stride_for config) as Hlen'.
  { rewrite Hlen. unfold pool_bytes_for. pose proof (config_pool _ Hok).
    destruct (block_stride_spec config (config_align _ Hok) (config_round _ Hok)) as (Hs & _).
    pose proof (config_blocks _ Hok). rewrite u64_small by words. lia. }
  destruct (bind_frames_wf (B := B) config false p slab Hok Hlen') as (Hwf & Hr & Hn).
  split_and!; [|done..]. split; [split; [exact Hwf|done]|apply Hok|exact Hr|done].
Qed.

(** What the buffer protocol promises of a flat buffer: one element without dimensions,
    otherwise [bi_size] elements a stride apart; the elements at and after the pointer
    lie in the exporter's memory. *)
Record flat_buffer (storage : buffer_info) (stride : Z) : Prop := {
  fb_dims : ndim storage = 0 ∧ bi_strides storage = [] ∧ bi_size storage = 1 ∧ stride = itemsize storage ∨
            ndim storage = 1 ∧ bi_strides storage = [stride];
  fb_inside i : 0 <= i < bi_size storage → 0 <= i * stride →
    i * stride + itemsize storage <= Z.of_nat (length (memory storage))
}.

(** The bytes of a contiguous buffer are all there. *)
Lemma contiguous_bytes storage :
  flat_buffer storage (itemsize storage) → 0 <= bi_size storage → 0 <= itemsize storage →
  bi_size storage * itemsize storage <= Z.of_nat (length (memory storage)).
Proof.
  intros [_ Hin] Hs Hi. destruct (decide (bi_size storage = 0)) as [->|]; [lia|].
  pose proof (Hin (bi_size storage - 1) ltac:(lia) ltac:(nia)). lia.
Qed.

(** C35. Adopting a buffer. Python's storage is refused exactly when it is not flat or its
    elements have fewer bytes than the pool; the strides do not matter. Otherwise the
    allocator does not own its memory, and its slab is what the exporter has of the
    bytes after the pointer. A contiguous buffer has them all: the allocator is then a
    fresh, well-formed pool inside the buffer, byte for byte as Python left it. A
    strided one need not: the slab of a pool that was adopted all the same ends where
    the exporter's memory does. *)
Theorem adopt_buffer_exact config storage p stride :
  config_ok config → bi_ptr storage = Some p →
  0 <= bi_size storage → 0 <= itemsize storage → bi_size storage * itemsize storage < W64 →
  let flat := ndim storage = 0 ∨ ndim storage = 1 in
  let required := pool_bytes_for config in
  (flat → flat_buffer storage stride) →
  match MemoryAllocator_buffer (B := B) config storage with
  | Some (inr a) =>
    flat ∧ required <= bi_size storage * itemsize storage ∧
    owns_pool a = false ∧ pool_base_ a = Some p ∧
    slab_ a = take (Z.to_nat required) (memory storage) ∧
    Z.of_nat (length (slab_ a)) = Z.min required (Z.of_nat (length (memory storage))) ∧
    (required <= Z.of_nat (length (memory storage)) → fresh_pool a ∧ nfree a = max_blocks config) ∧
    (stride = itemsize storage → required <= Z.of_nat (length (memory storage)))
  | Some (inl what) => ¬ flat ∨ bi_size storage * itemsize storage < required
  | None => False
  end.
Proof.
  intros Hok Hp Hs Hi Hw flat required Hbuf. unfold MemoryAllocator_buffer, adoptable_pointer.
  assert (bi_size storage ⊗ itemsize storage = bi_size storage * itemsize storage) as ->
    by (apply u64_small; words).
  assert (0 <= required) as Hreq
    by (unfold required, pool_bytes_for; by pose proof (u64_range (block_stride_for config * max_blocks config)) as [? _]).
  destruct (decide flat) as [Hf|Hf].
  2:{ destruct (Z.eqb_spec (ndim storage) 1), (Z.eqb_spec (ndim storage) 0); simpl;
        first [by left|destruct Hf; unfold flat; lia]. }
  assert ((ndim storage =? 1) || (ndim storage =? 0) = true) as ->
    by (apply orb_true_iff; rewrite !Z.eqb_eq; destruct Hf; auto).
  cbn [negb]. fold required.
  destruct (Z.ltb_spec (bi_size storage * itemsize storage) required) as [Hlt|Hle];
    [by right|]. rewrite Hp. cbn [mbind option_bind and_then returns].
  split_and!; try done.
  - change (slab_ _) with (take (Z.to_nat required) (memory storage)). rewrite length_take. lia.
  - intros Hroom. destruct (adopted_fresh config p (take (Z.to_nat required) (memory storage)) Hok)
      as (Hfresh & _ & _ & _ & Hn); [rewrite length_take; fold required; lia|done].
  - intros ->. pose proof (contiguous_bytes storage (Hbuf Hf) Hs Hi). lia.
Qed.

(** A reversed view of an array as long as the pool: every element lies in the array, the
    first one at its end. *)
Definition reversed_buffer (p required : Z) (array : list byte) : buffer_info :=
  mkBufferInfo 1 required 1 [-1] (Some (p + required - 1)) (drop (Z.to_nat (required - 1)) array).

(** It is adopted, although a strided buffer is to be refused: the slab has one byte, and
    a write anywhere else in the pool leaves the array. *)
Lemma reversed_buffer_overruns config p array :
  config_ok config → 1 < pool_bytes_for config → Z.of_nat (length array) = pool_bytes_for config →
  let storage := reversed_buffer p (pool_bytes_for config) array in
  flat_buffer storage (-1) ∧
  ∃ a, MemoryAllocator_buffer (B := B) config storage = Some (inr a) ∧ length (slab_ a) = 1%nat ∧
    ∀ offset b, 1 <= offset → write_mem a (Some (p + pool_bytes_for config - 1 + offset)) [b] = None.
Proof.
  intros Hok Hreq Hlen. set (required := pool_bytes_for config) in *. intros storage.
  assert (length (drop (Z.to_nat (required - 1)) array) = 1%nat) as Hone by (rewrite length_drop; lia).
  assert (required < W64) as Hmax
    by (unfold required, pool_bytes_for; by pose proof (u64_range (block_stride_for config * max_blocks config)) as [_ ?]).
  split.
  { split; [by right|]. intros i Hi Hst. simpl in *. assert (i = 0) as -> by lia. rewrite Hone. lia. }
  unfold MemoryAllocator_buffer, adoptable_pointer. simpl. rewrite u64_small by words.
  fold required. rewrite Z.mul_1_r, (proj2 (Z.ltb_ge _ _)) by lia. cbn.
  assert (take (Z.to_nat required) (drop (Z.to_nat (required - 1)) array) =
    drop (Z.to_nat (required - 1)) array) as -> by (apply take_ge; lia).
  eexists. split; [done|]. split; [exact Hone|]. intros offset b Hoff.
  unfold write_mem. cbn. rewrite Hone.
  replace (p + required - 1 + offset - (p + required - 1)) with offset by lia.
  rewrite (proj2 (Z.leb_gt (offset + _) _)) by lia. by rewrite andb_false_r.
Qed.

Section Oracle.
Context (exp : spec_float → spec_float).
#[local] Instance oracle : FloatOps spec_float := binary32 exp.

(** C34. The oracle: for a sequence that exists and a query of the right size the call
    returns the attention of the vectors the sequence stores, whatever the output array
    held, exactly when the kernel accepts the parameters and every vector of the
    context is mapped and resident; every other call throws. *)
Theorem decode_oracle_exact m sid query layer nq ctx scale fresh :
  mgr_wf m → view_pool (allocator_ m) → is_u32 layer → is_u32 nq → is_u32 ctx →
  let hd := head_dim (pool_shape (allocator_ m)) in
  let params := mkParams layer nq ctx scale in
  nq * hd < 9223372036854775808 → Z.of_nat (length fresh) = nq * hd →
  match cache_view m sid TextKV with
  | Some (Some v) =>
    let served := Z.of_nat (length query) = nq * hd ∧
      accepts v (Some query) (Some fresh) params = true ∧ resolves (T := spec_float) v params in
    (served ∧ decode exp m sid query layer nq ctx scale fresh =
       returns (attention m sid params query)) ∨
    (¬ served ∧ ∃ what, decode exp m sid query layer nq ctx scale fresh = throw what)
  | Some None => decode exp m sid query layer nq ctx scale fresh = throw (no_view sid)
  | None => False
  end.
Proof.
  intros Hwf Hvp Hl Hq Hc hd params Hfit Hfresh.
  destruct (cache_view m sid TextKV) as [[v|]|] eqn:Hv.
  - destruct (view_parts m sid TextKV v Hwf Hvp Hv) as (Hlay & Hal & _).
    intros served. unfold decode. rewrite Hv. cbn [mbind option_bind defined and_then returns].
    rewrite Hlay. cbn [shape]. fold hd. rewrite (proj2 (Z.leb_gt _ _)) by done.
    destruct (Z.eqb_spec (Z.of_nat (length query)) (nq * hd)) as [Hlen|Hlen]; cbn [negb].
    2:{ right. split; [|by eexists]. by intros (? & _). }
    fold params. change (oracle_precision exp) with oracle.
    destruct (accepts v (Some query) (Some fresh) params) eqn:Hacc.
    + pose proof (decode_run m sid TextKV v Hwf Hvp Hv params query fresh) as Hrun.
      fold hd in Hrun. change (num_query_heads params) with nq in Hrun.
      destruct Hrun as [[Hres ->]|[Hres ->]]; [done|done|words|words| |].
      * left. split; [done|]. cbn [mbind option_bind defined and_then returns].
        rewrite drop_ge by words. by rewrite app_nil_r.
      * right. split; [by intros (_ & _ & ?)|by eexists].
    + right. split; [by intros (_ & Hn & _)|]. unfold paged_attention_decode.
      rewrite Hacc, Hal. by eexists.
  - unfold decode. rewrite Hv. done.
  - rewrite cache_view_run in Hv by done. done.
Qed.
End Oracle.
End Props.

(** ** Witnesses *)

(** A buffer longer than the pool of four frames. *)
Definition demo_storage : buffer_info := mkBufferInfo 1 80 1 [1] (Some 256) (replicate 80 Byte.x2a).

Lemma demo_storage_flat : flat_buffer demo_storage 1.
Proof. split; [by right|]. intros i Hi _. simpl in *. lia. Qed.

Lemma adopt_buffer_exact_witness :
  ∃ a, MemoryAllocator_buffer (B := HostSwapBackend) float_config demo_storage = Some (inr a) ∧
    fresh_pool a ∧ owns_pool a = false ∧ nfree a = 4.
Proof.
  assert (bi_ptr demo_storage = Some 256) as Hp by reflexivity.
  pose proof (adopt_buffer_exact (B := HostSwapBackend) float_config demo_storage 256 1 float_config_ok Hp)
    as Ha.
  specialize (Ha ltac:(vm_compute; discriminate) ltac:(vm_compute; discriminate)
    ltac:(vm_compute; reflexivity)). cbv zeta in Ha. specialize (Ha (λ _, demo_storage_flat)).
  destruct (MemoryAllocator_buffer float_config demo_storage) as [[what|a]|].
  - destruct Ha as [Hflat|Hshort]; [destruct Hflat; by right|by vm_compute in Hshort].
  - exists a. destruct Ha as (_ & _ & Ho & _ & _ & _ & Hroom & Hcont).
    destruct (Hroom (Hcont eq_refl)) as [Hf Hn]. by split_and!.
  - destruct Ha.
Defined.

Lemma decode_oracle_exact_witness (o := replicate 2 S754_nan) (q := replicate 2 float_one_value) :
  decode (λ _, float_one_value) float_one 1 q 0 2 3 float_one_value o =
    returns (attention (H1 := binary32 (λ _, float_one_value)) float_one 1
      (mkParams 0 2 3 float_one_value) q).
Proof.
  destruct float_view as (v & Hv & Hacc & Hps).
  pose proof (decode_oracle_exact (λ _, float_one_value) float_one 1 q 0 2 3 float_one_value o
    float_one_wf float_view_pool) as Hd.
  cbv zeta in Hd. rewrite Hps, Hv in Hd.
  destruct Hd as [[_ Hrun]|[Hno _]].
  1-5: by vm_compute.
  - exact Hrun.
  - destruct Hno. split; [reflexivity|]. split; [exact Hacc|].
    exact (float_resolves _ v (or_introl eq_refl) Hv).
Defined.
