(* ===== verification/Stats.v ===== *)
(** The statistics of the benchmarks ([bench/Stats.h], [bench/Env.h]): timing a body,
    median, percentile and deviation in doubles, the fields of a CSV line, and the
    check on the processor's clock. The clock is an argument: the sequence of its
    readings, in nanoseconds. Reading the machine's state is left out. *)
From stdpp Require Import sorting.
From Stdlib Require Import Floats.SpecFloat.
From S2P Require Import Prelude.
From S2P Require Import Throws.
From S2P Require Import TraceReplay.
From S2P Require Import PagedReplay.

(** ** Doubles *)

Definition dbl_add := SFadd 53 1024.
Definition dbl_sub := SFsub 53 1024.
Definition dbl_mul := SFmul 53 1024.
Definition dbl_zero : spec_float := S754_zero false.
Definition dbl_half : spec_float := S754_finite false 4503599627370496 (-53).
(** The doubles nearest to 0.1 and to 0.95. *)
Definition dbl_tenth : spec_float := S754_finite false 7205759403792794 (-56).
Definition ninety_five : spec_float := S754_finite false 8556839292003942 (-53).

(** The order of [std::sort]. Samples are never NaN. *)
Definition dbl_le (x y : spec_float) : Prop := SFleb x y = true.
#[export] Instance dbl_le_dec x y : Decision (dbl_le x y).
Proof. unfold dbl_le. apply _. Defined.

(** ** Summaries *)

Record SampleStats := mkSampleStats {
  samples_n : Z;
  median_ns : spec_float;
  p95_ns : spec_float;
  mad_ns : spec_float
}.

Definition percentile (values : list spec_float) (fraction : spec_float) : option spec_float :=
  if decide (values = []) then Some dbl_zero
  else
    let values := merge_sort dbl_le values in
    let n := Z.of_nat (length values) in
    let index := dbl_mul fraction (double_of (n - 1)) in
    lo ← size_of_double index;
    let hi := Z.min (lo ⊕ 1) (n - 1) in
    let weight := dbl_sub index (double_of lo) in
    x ← vec_get values lo;
    y ← vec_get values hi;
    Some (dbl_add (dbl_mul x (dbl_sub (double_of 1) weight)) (dbl_mul y weight)).

Definition summarize (samples : list spec_float) : option SampleStats :=
  let n := Z.of_nat (length samples) in
  if decide (samples = []) then Some (mkSampleStats n dbl_zero dbl_zero dbl_zero)
  else
    median ← percentile samples dbl_half;
    p95 ← percentile samples ninety_five;
    let deviations := (λ sample, SFabs (dbl_sub sample median)) <$> samples in
    mad ← percentile deviations dbl_half;
    Some (mkSampleStats n median p95 mad).

(** ** Timing *)

Section Clock.
(** The readings of [Clock::now], in nanoseconds, first to last. *)
Context (clock : nat → Z).

(** [Nanoseconds] between the reading of number [k] and the next. *)
Definition elapsed (k : nat) : spec_float := double_of (clock (S k) - clock k).

Section Body.
Context {A : Type} (body : A → option (string + A)).

(** [s] is what the body works on, [k] the number of readings taken before. *)
Definition timed_call (t : nat * list spec_float * A) (i : Z)
    : option (string + nat * list spec_float * A) :=
  let '(k, samples, s) := t in
  s' ⇐ body s;
  returns (S (S k), samples ++ [elapsed k], s').

Definition measure_body (warmup repeats : Z) (k : nat) (s : A)
    : option (string + nat * SampleStats * A) :=
  s ⇐ foldT (λ s (_ : Z), body s) s (seqZ 0 warmup);
  '(k, samples, s) ⇐ foldT timed_call (k, [], s) (seqZ 0 repeats);
  stats ⇐ defined (summarize samples);
  returns (k, stats, s).
End Body.
End Clock.

(** ** Summaries are defined *)

Lemma vec_get_in {A} (l : list A) i : 0 <= i < Z.of_nat (length l) → is_Some (vec_get l i).
Proof.
  intros Hi. unfold vec_get. rewrite (proj2 (Z.leb_le 0 i)) by lia. apply lookup_lt_is_Some. lia.
Qed.

(** The place of a fraction among [n] samples is one of them. *)
Definition placed (n : Z) (fraction : spec_float) : Prop :=
  match size_of_double (dbl_mul fraction (double_of (n - 1))) with
  | Some lo => 0 <= lo < n
  | None => False
  end.

(** The number of samples is one a summary can be made of. *)
Definition summarizable (n : Z) : Prop := n < W64 ∧ placed n dbl_half ∧ placed n ninety_five.

Lemma percentile_placed values fraction :
  Z.of_nat (length values) < W64 → placed (Z.of_nat (length values)) fraction →
  is_Some (percentile values fraction).
Proof.
  intros Hmax Hp. unfold percentile. case_decide; [by eexists|].
  assert (length (merge_sort dbl_le values) = length values) as Hs.
  { apply Permutation_length, merge_sort_Permutation. }
  rewrite Hs. unfold placed in Hp. destruct (size_of_double _) as [lo|]; [|done]. cbn [mbind option_bind].
  destruct (vec_get_in (merge_sort dbl_le values) lo) as [x ->]; [lia|]. cbn [mbind option_bind].
  destruct (vec_get_in (merge_sort dbl_le values) ((lo ⊕ 1) `min` (Z.of_nat (length values) - 1))) as [y ->];
    [|by eexists].
  pose proof (u64_range (lo + 1)) as [? _]. lia.
Qed.

Lemma summarize_runs samples :
  summarizable (Z.of_nat (length samples)) →
  ∃ stats, summarize samples = Some stats ∧ samples_n stats = Z.of_nat (length samples).
Proof.
  intros (Hmax & Hhalf & Hhigh). unfold summarize. case_decide; [by eexists|].
  destruct (percentile_placed samples dbl_half Hmax Hhalf) as [median ->].
  destruct (percentile_placed samples ninety_five Hmax Hhigh) as [p95 ->]. cbn [mbind option_bind].
  destruct (percentile_placed ((λ x, SFabs (dbl_sub x median)) <$> samples) dbl_half) as [mad ->];
    [by rewrite length_fmap..|]. by eexists.
Qed.

Lemma summarizable_eleven : summarizable 11.
Proof. split; [done|split; by vm_compute]. Qed.

Lemma summarizable_five : summarizable 5.
Proof. split; [done|split; by vm_compute]. Qed.

Lemma summarize_eleven samples :
  length samples = 11%nat → ∃ stats, summarize samples = Some stats ∧ samples_n stats = 11.
Proof.
  intros Hl. destruct (summarize_runs samples) as (stats & ? & Hn); rewrite Hl in *;
    [apply summarizable_eleven|by exists stats].
Qed.

(** A body that keeps an invariant is measured. *)
Lemma measure_body_runs {A} clock (body : A → option (string + A)) (I : A → Prop) warmup repeats k s :
  0 <= repeats → summarizable repeats → (∀ s, I s → finishes (body s) I) → I s →
  finishes (measure_body clock body warmup repeats k s)
    (λ '(_, stats, s'), samples_n stats = repeats ∧ I s').
Proof.
  intros Hr0 Hr Hbody HI. unfold measure_body.
  finish_step (finishes_foldT (λ s (_ : Z), body s) (λ _, I) (seqZ 0 warmup) s HI); [by auto|].
  intros s1 HI1. apply finishes_then. eapply finishes_mono.
  - apply (finishes_foldT (timed_call clock body)
      (λ don '(_, samples, s), length samples = length don ∧ I s)); [by split|].
    intros don x rest [[k' samples] s'] _ [Hl HI']. unfold timed_call. finish_step (Hbody s' HI').
    intros s'' HI''. apply finishes_returns. split; [|done]. rewrite !length_app, Hl. done.
  - intros [[k' samples] s'] [Hl HI']. apply finishes_defined. rewrite length_seqZ in Hl.
    destruct (summarize_runs samples) as (stats & -> & Hn); [by rewrite Hl, Z2Nat.id|].
    apply finishes_returns. split; [|done]. by rewrite Hn, Hl, Z2Nat.id.
Qed.

(** ** Fields *)

Definition quote : Ascii.ascii := Ascii.ascii_of_nat 34.
Definition newline : Ascii.ascii := Ascii.ascii_of_nat 10.
Definition comma : Ascii.ascii := Ascii.ascii_of_nat 44.

(** [find_first_of] on a comma, a quotation mark and a line feed. *)
Fixpoint has_special (value : string) : bool :=
  match value with
  | EmptyString => false
  | String c rest =>
    Ascii.eqb c comma || Ascii.eqb c quote || Ascii.eqb c newline || has_special rest
  end.

(** The loop over the characters, and the closing mark. *)
Fixpoint escaped (value : string) : string :=
  match value with
  | EmptyString => String quote EmptyString
  | String c rest =>
    if Ascii.eqb c quote then String quote (String quote (escaped rest)) else String c (escaped rest)
  end.

Definition csv_escape (value : string) : string :=
  if has_special value then String quote (escaped value) else value.

(** ** The clock check *)

Record EnvSnapshot := mkEnvSnapshot {
  governor : string;
  freq_khz : Z;
  thermal_mC : Z;
  model_name : string
}.

Definition freq_stable (before after : EnvSnapshot) (max_rel : spec_float) : bool :=
  if (freq_khz before =? 0) || (freq_khz after =? 0) then true
  else if freq_khz before <=? freq_khz after then true
  else
    let drop := SFdiv 53 1024 (double_of (u64 (freq_khz before - freq_khz after)))
                  (double_of (freq_khz before)) in
    SFleb drop max_rel.

(** ** Reading a field back *)

(** What a reader of the report does: a field that opens with a quotation mark ends with
    the next single one, any other at a comma or a line feed. *)
Fixpoint read_quoted (text : string) : string * string :=
  match text with
  | EmptyString => (""%string, ""%string)
  | String c rest =>
    if Ascii.eqb c quote then
      match rest with
      | String c' rest' =>
        if Ascii.eqb c' quote then let '(v, r) := read_quoted rest' in (String quote v, r) else (""%string, rest)
      | EmptyString => (""%string, rest)
      end
    else let '(v, r) := read_quoted rest in (String c v, r)
  end.

Fixpoint read_plain (text : string) : string * string :=
  match text with
  | EmptyString => (""%string, ""%string)
  | String c rest =>
    if Ascii.eqb c comma || Ascii.eqb c newline then (""%string, text)
    else let '(v, r) := read_plain rest in (String c v, r)
  end.

Definition read_field (text : string) : string * string :=
  match text with
  | String c rest => if Ascii.eqb c quote then read_quoted rest else read_plain text
  | EmptyString => (""%string, ""%string)
  end.

Lemma append_cons x s t : String x s +:+ t = String x (s +:+ t).
Proof. reflexivity. Qed.

Lemma read_quoted_escaped value c rest :
  Ascii.eqb c quote = false → read_quoted (escaped value +:+ String c rest) = (value, String c rest).
Proof.
  intros Hc. induction value as [|x value IH]; cbn [escaped].
  - rewrite append_cons. change (EmptyString +:+ String c rest) with (String c rest).
    cbn [read_quoted]. by rewrite Ascii.eqb_refl, Hc.
  - destruct (Ascii.eqb_spec x quote) as [->|Hx]; rewrite !append_cons; cbn [read_quoted].
    + by rewrite !Ascii.eqb_refl, IH.
    + by rewrite (proj2 (Ascii.eqb_neq x quote)), IH.
Qed.

Lemma read_plain_value value c rest :
  has_special value = false → Ascii.eqb c comma || Ascii.eqb c newline = true →
  read_plain (value +:+ String c rest) = (value, String c rest).
Proof.
  intros Hv Hc. induction value as [|x value IH].
  - change (EmptyString +:+ String c rest) with (String c rest). cbn [read_plain]. by rewrite Hc.
  - cbn [has_special] in Hv. rewrite !orb_false_iff in Hv. destruct Hv as (((H1 & _) & H2) & Hv).
    rewrite append_cons. cbn [read_plain]. by rewrite H1, H2, IH.
Qed.

(** An escaped field is read back as it was, whatever follows the comma or the line end. *)
Theorem csv_escape_reads_back value c rest :
  c = comma ∨ c = newline →
  read_field (csv_escape value +:+ String c rest) = (value, String c rest).
Proof.
  intros Hc. assert (Ascii.eqb c comma || Ascii.eqb c newline = true ∧ Ascii.eqb c quote = false) as [Hend Hq]
    by (by destruct Hc as [->| ->]).
  unfold csv_escape. destruct (has_special value) eqn:Hv.
  - rewrite append_cons. cbn [read_field]. rewrite Ascii.eqb_refl. by apply read_quoted_escaped.
  - pose proof (read_plain_value value c rest Hv Hend) as Hr. destruct value as [|x value].
    + change (EmptyString +:+ String c rest) with (String c rest) in *. cbn [read_field]. by rewrite Hq.
    + cbn [has_special] in Hv. rewrite !orb_false_iff in Hv. destruct Hv as (((_ & Hx) & _) & _).
      rewrite append_cons in *. cbn [read_field]. by rewrite Hx.
Qed.
