(* ===== verification/Roofline.v ===== *)
(** The roofline benchmark ([bench/roofline_main.cpp]) as it is built without AVX-512:
    the streams it times, the cache it fills and the kernels it runs on it, the rows it
    reports, and its command line. OpenMP is a parameter: the number of threads and the
    order in which their iterations take effect. The printed table, the formatting of
    the numbers in a row and the pinning to processors are left out. *)
From stdpp Require Import pretty.
From Stdlib Require Import Floats.SpecFloat.
From S2P Require Import Prelude.
From S2P Require Import Throws.
From S2P Require Import TraceReplay.
From S2P Require Import Block.
From S2P Require Import CacheLayout.
From S2P Require Import SwapBackend.
From S2P Require Import MemoryAllocator.
From S2P Require Import KVCacheManager.
From S2P Require Import PagedAttention.
From S2P Require Import Npy.
From S2P Require Import GoldenExport.
From S2P Require Import Stats.

Definition kWarmup : Z := 3.
Definition kRepeats : Z := 11.

(** ** Rows *)

(** The double nearest to 1e-9. *)
Definition dbl_nano : spec_float := S754_finite false 4835703278458517 (-82).
Definition dbl_giga : spec_float := double_of 1000000000.
Definition dbl_div := SFdiv 53 1024.

Record RoofRow := mkRoofRow {
  roof_kind : string;
  roof_name : string;
  roof_bytes : spec_float;
  roof_flops : spec_float;
  roof_stats : SampleStats;
  roof_gbs : spec_float;
  roof_gflops : spec_float;
  roof_ai : spec_float;
  roof_notes : string
}.

Definition csv_row (kind name : string) (bytes flops : spec_float) (stats : SampleStats)
    (notes : string) : RoofRow :=
  let sec := dbl_mul (median_ns stats) dbl_nano in
  let gbs := if SFltb dbl_zero sec then dbl_div (dbl_div bytes sec) dbl_giga else dbl_zero in
  let gflops := if SFltb dbl_zero sec then dbl_div (dbl_div flops sec) dbl_giga else dbl_zero in
  let ai := if SFltb dbl_zero bytes then dbl_div flops bytes else dbl_zero in
  mkRoofRow kind name bytes flops stats gbs gflops ai notes.

(** Every benchmark takes the number of clock readings so far and adds its rows. *)
Definition RoofReport : Type := nat * list RoofRow.
Definition add_row (k : nat) (r : RoofReport) (row : RoofRow) : RoofReport := (k, snd r ++ [row]).

(** ** The triad *)

Section Triad.
Context {F : Type} `{FloatOps F}.

(** One iteration, on the arrays from their first element. *)
Definition triad_step (b c : list F) (s : F) (a : list F) (i : Z) : option (list F) :=
  x ← vec_get b i;
  y ← vec_get c i;
  vec_set a i (f_add x (f_mul s y)).

(** [triad] on pointers [begin] elements into the arrays. *)
Definition triad (a b c : list F) (begin : Z) (s : F) (n : Z) : option (list F) :=
  foldM (λ a i, triad_step b c s a (begin + i)) a (seqZ 0 n).
End Triad.

(** The elements a thread of the parallel region works on: the first, and how many. *)
Definition thread_share (n threads tid : Z) : Z * Z :=
  let begin := n ⊗ tid / threads in
  let end_ := n ⊗ (tid + 1) / threads in
  (begin, u64 (end_ - begin)).

Definition thread_steps (n threads tid : Z) : list Z :=
  let '(begin, len) := thread_share n threads tid in (λ i, begin + i) <$> seqZ 0 len.

Definition parallel_steps (n threads : Z) : list (list Z) :=
  thread_steps n threads <$> seqZ 0 threads.

(** The parallel region, when the iterations of its threads take effect in this order. *)
Definition parallel_triad {F} `{FloatOps F} (a b c : list F) (s : F) (order : list Z)
    : option (list F) :=
  foldM (triad_step b c s) a order.

(** An order in which threads may run: each one's steps in their order. *)
Inductive interleaves {A} : list (list A) → list A → Prop :=
| interleaves_done threads : Forall (λ l, l = []) threads → interleaves threads []
| interleaves_step threads k x l rest :
    threads !! k = Some (x :: l) → interleaves (<[k := l]> threads) rest →
    interleaves threads (x :: rest).

(** [std::memcpy] between two arrays. *)
Definition memcpy (dst src : list byte) (n : Z) : option (list byte) :=
  if (0 <=? n) && (n <=? Z.of_nat (length dst)) && (n <=? Z.of_nat (length src))
  then Some (take (Z.to_nat n) src ++ drop (Z.to_nat n) dst) else None.

(** ** Elements of two bytes *)

(** [static_cast<std::uint16_t>] of an unsigned integer. *)
Definition u16 (z : Z) : Z := z mod 65536.

(** The value of a float whose integer part an [std::uint16_t] holds. *)
Definition truncated (x : spec_float) : option Z :=
  match x with
  | S754_zero _ => Some 0
  | S754_finite negative m e =>
    let n := Z.shiftl (Z.pos m) e in
    if negative : bool then (if n =? 0 then Some 0 else None)
    else if n <? 65536 then Some n else None
  | _ => None
  end.

(** [T = std::uint16_t], which the kernels treat as a number. C++ does not define the
    conversion of a float out of range; what it gives is the argument. *)
Definition Element_u16 (narrow : spec_float → Z) : Element Z spec_float :=
  mkElement Z spec_float 2 word_of_bytes float_of_u32
    (λ x, match truncated x with Some n => n | None => narrow x end).

Definition make_2b_shape : BlockShape := mkBlockShape 16 28 8 128 2 0.

(** [16 * 1024 * 1024] elements and [64 * 1024 * 1024] bytes. *)
Definition kStream : Z := 16777216.
Definition kCopy : Z := 67108864.
Definition kMax : Z := 33554432.

(** [1.1F]. *)
Definition triad_scalar : spec_float := S754_finite false 9227469 (-23).
Definition floats_of (n value : Z) : list spec_float := replicate (Z.to_nat n) (float_of_u32 value).

(** The working sets of the sweep, and how often each is walked per sample. *)
Definition sweep_sizes : list Z := [1024; 8192; 65536; 262144; 1048576; 4194304; 8388608; 33554432].
Definition sweep_reps (n : Z) : Z := if n <? 262144 then 64 else if n <? 4194304 then 8 else 1.

(** [3.0 * static_cast<double>(n) * sizeof(float)] and the flops of one triad. *)
Definition triad_bytes (n : Z) : spec_float :=
  dbl_mul (dbl_mul (double_of 3) (double_of n)) (double_of 4).
Definition triad_flops (n : Z) : spec_float := dbl_mul (double_of 2) (double_of n).

Section Roofline.
Context {B : Type} `{SwapBackend B}.
Context (aligned_alloc : Z → Z → option (Z * list byte)) (clock : nat → Z).
Context (exp : spec_float → spec_float) (narrow : spec_float → Z).
(** Built with OpenMP: the threads, and the order of their iterations in each call. *)
Context (omp : option (Z * (nat → list Z))).
#[local] Instance float_arithmetic : FloatOps spec_float := binary32 exp.
#[local] Instance u16_elements : Element Z spec_float := Element_u16 narrow.
Implicit Types m : KVCacheManager B.
Implicit Types v : CacheView B.

(** ** Streams *)

(** The body of the OpenMP measurement; the state counts its calls. *)
Definition parallel_body (schedule : nat → list Z) (t : nat * list spec_float)
    : option (string + nat * list spec_float) :=
  a ⇐ defined (parallel_triad (snd t) (floats_of kStream 2) (floats_of kStream 3) triad_scalar
                 (schedule (fst t)));
  returns (S (fst t), a).

Definition bench_stream (r : RoofReport) : option (string + RoofReport) :=
  let b := floats_of kStream 2 in
  let c := floats_of kStream 3 in
  '(k, single, a) ⇐ measure_body clock (λ a, defined (triad a b c 0 triad_scalar kStream))
    kWarmup kRepeats (fst r) (floats_of kStream 1);
  let r := add_row k r (csv_row "stream" "STREAM triad 1 thread" (triad_bytes kStream)
    (triad_flops kStream) single "AVX-512 a=b+s*c") in
  r ⇐ match omp with
      | None => returns r
      | Some (_, schedule) =>
        '(k, multi, _) ⇐ measure_body clock (parallel_body schedule) kWarmup kRepeats (fst r) (O, a);
        returns (add_row k r (csv_row "stream" "STREAM triad OpenMP" (triad_bytes kStream)
          (triad_flops kStream) multi "all cores"))
      end;
  let src := replicate (Z.to_nat kCopy) Byte.x01 in
  '(k, copy, _) ⇐ measure_body clock (λ dst, defined (memcpy dst src kCopy))
    kWarmup kRepeats (fst r) (replicate (Z.to_nat kCopy) Byte.x00);
  returns (add_row k r (csv_row "stream" "memcpy 64 MiB" (dbl_mul (double_of 2) (double_of kCopy))
    dbl_zero copy "read+write bytes")).

(** One working set of the sweep; the arrays are shared by all. *)
Definition sweep_one (s : list spec_float * RoofReport) (n : Z)
    : option (string + list spec_float * RoofReport) :=
  let '(a, r) := s in
  let reps := sweep_reps n in
  '(k, stats, a) ⇐ measure_body clock
    (λ a, defined (foldM (λ a (_ : Z), triad a (floats_of kMax 2) (floats_of kMax 3) 0 triad_scalar n)
                     a (seqZ 0 reps)))
    kWarmup kRepeats (fst r) a;
  let per x := dbl_div x (double_of reps) in
  let stats := mkSampleStats (samples_n stats) (per (median_ns stats)) (per (p95_ns stats))
                 (per (mad_ns stats)) in
  let name := "triad " +:+ pretty (n * 4 / 1024) +:+ " KiB" in
  returns (a, add_row k r (csv_row "cache_sweep" name (triad_bytes n) (triad_flops n) stats "")).

Definition bench_cache_sweep (r : RoofReport) : option (string + RoofReport) :=
  '(_, r) ⇐ foldT sweep_one (floats_of kMax 1, r) sweep_sizes;
  returns r.

(** [{}] as the statistics of the two rows of a build without the instructions. *)
Definition no_stats : SampleStats := mkSampleStats 0 dbl_zero dbl_zero dbl_zero.

Definition bench_fma_fp32 (r : RoofReport) : RoofReport :=
  add_row (fst r) r (csv_row "fma" "AVX-512 FMA fp32" dbl_zero dbl_zero no_stats
    "not compiled with AVX-512").
Definition bench_fma_bf16 (r : RoofReport) : RoofReport :=
  add_row (fst r) r (csv_row "fma" "AVX-512 VDPBF16PS" dbl_zero dbl_zero no_stats
    "not compiled with AVX512-BF16").

(** ** Filling a sequence *)

(** The elements of a vector: [base[*offset + d]] for each [d]. *)
Definition write_vector (a : MemoryAllocator B) (base offset token head head_dim : Z) : option (MemoryAllocator B) :=
  foldM (λ a d, write_mem a (Some (base + (offset + d) * 2)) (bytes_of_word 2 (u16 (token ⊞ head ⊞ d))))
    a (seqZ 0 head_dim).

(** The bodies of the loops leave [fill_sequence] with [false]. *)
Definition fill_head (layout : KVBlockLayout) (base offset_layer : Z) (stream : KVStream) (token : Z)
    (a : MemoryAllocator B) (head : Z) : option (bool * MemoryAllocator B) :=
  if tokens_per_block (shape layout) =? 0 then None
  else
    match element_offset layout offset_layer stream (token mod tokens_per_block (shape layout)) head with
    | None => Some (false, a)
    | Some offset =>
      a ← write_vector a base offset token head (head_dim (shape layout));
      Some (true, a)
    end.

Definition fill_layer (layout : KVBlockLayout) (base token : Z) (a : MemoryAllocator B) (layer : Z)
    : option (bool * MemoryAllocator B) :=
  let offset_layer := if per_layer_frames (shape layout) then 0 else layer in
  loop (λ a stream,
    loop (fill_head layout base offset_layer stream token) a (seqZ 0 (num_kv_heads (shape layout))))
    a [Key; Value].

(** One [ensure_layer] of a token. *)
Definition fill_frame (layout : KVBlockLayout) (layers_to_write sequence_id token : Z) m
    (ensure_layer : Z) : option (bool * KVCacheManager B) :=
  '(physical, m) ← ensure_token_writable m sequence_id token TextKV ensure_layer;
  match physical with
  | None => Some (false, m)
  | Some id =>
    match block (allocator_ m) id with
    | None => Some (false, m)
    | Some frame =>
      base ← storage_ frame;
      let per_layer := per_layer_frames (shape layout) in
      let write_from := if per_layer then ensure_layer else 0 in
      let write_to := if per_layer then ensure_layer ⊞ 1 else layers_to_write in
      '(ok, a) ← loop (fill_layer layout base token) (allocator_ m)
                   (seqZ write_from (write_to - write_from));
      Some (ok, with_state m a (sequences_ m))
    end
  end.

Definition layers_to_write (shape : BlockShape) (fill_layers : Z) : Z :=
  if (fill_layers =? 0) || (num_layers shape <? fill_layers) then num_layers shape else fill_layers.

Definition fill_token (layout : KVBlockLayout) (layers sequence_id : Z) m (token : Z)
    : option (bool * KVCacheManager B) :=
  loop (fill_frame layout layers sequence_id token) m
    (seqZ 0 (if per_layer_frames (shape layout) then layers else 1)).

(** [SequenceMetadata{sequence_id, sequence_id, {}, {}}]. *)
Definition fill_metadata (sequence_id : Z) : SequenceMetadata :=
  mkSequenceMetadata sequence_id sequence_id [] (mkPositionalEncodingMetadata []).

Definition fill_sequence (layout : KVBlockLayout) (sequence_id context_len fill_layers : Z) m
    : option (bool * KVCacheManager B) :=
  let '(created, m) := create_sequence m (fill_metadata sequence_id) in
  if negb created then Some (false, m)
  else
    '(reserved, m) ← reserve_tokens m sequence_id context_len;
    if negb reserved then Some (false, m)
    else
      loop (fill_token layout (layers_to_write (shape layout) fill_layers) sequence_id)
        m (seqZ 0 context_len).

(** ** Attention *)

Definition q_heads : Z := 16.
Definition kContext : Z := 1280.
Definition needed_blocks : Z := kContext / tokens_per_block make_2b_shape + 4.

Definition roof_config (shape : BlockShape) (max_blocks : Z) : AllocatorConfig :=
  mkAllocatorConfig shape (mkHostMemoryOptions kDefaultBlockAlignmentBytes false) max_blocks.

(** A pool and a cache of their own, filled, and the view of the sequence: [None] where
    the benchmark gives up. *)
Definition filled_view (shape : BlockShape) (max_blocks fill_layers : Z)
    : option (option (CacheView B)) :=
  let m := KVCacheManager_new (MemoryAllocator_new aligned_alloc (roof_config shape max_blocks)) in
  '(filled, m) ← fill_sequence (mkKVBlockLayout shape) 1 kContext fill_layers m;
  if negb filled then Some None else cache_view m 1 TextKV.

Definition attention_params (head_dim context : Z) : PagedAttentionParams spec_float :=
  mkParams 0 q_heads context (SFdiv 24 128 (float_of_u32 1) (SFsqrt 24 128 (float_of_u32 head_dim))).

(** A kernel on the view, the query and the output of the benchmark. *)
Definition Kernel : Type :=
  CacheView B → option (list Z) → PagedAttentionParams spec_float → option (list Z) →
  option (bool * option (list Z)).

Definition query_of (shape : BlockShape) : list Z := replicate (Z.to_nat (q_heads * head_dim shape)) 1.

(** A call of a body under measurement: where it fails the program exits. *)
Definition call_kernel (kernel : Kernel) v (query : list Z) (p : PagedAttentionParams spec_float)
    (error : string) (out : list Z) : option (string + list Z) :=
  '(ok, out) ⇐ defined (kernel v (Some query) p (Some out));
  if ok : bool then defined out else throw error.

(** The kernel of one row, with the bytes and the flops of the row. *)
Definition time_kernel (kernel : Kernel) v (query : list Z) (p : PagedAttentionParams spec_float)
    (name : string) (bytes flops : spec_float) (notes error : string) (s : list Z * RoofReport)
    : option (string + list Z * RoofReport) :=
  let '(out, r) := s in
  '(k, stats, out) ⇐ measure_body clock (call_kernel kernel v query p error) kWarmup kRepeats (fst r) out;
  returns (out, add_row k r (csv_row "attention_decode" name bytes flops stats notes)).

(** [static_cast<double>(heads) * 2.0 * tokens * head_dim * bytes_per_element] and
    [static_cast<double>(heads) * 4.0 * head_dim * tokens]. *)
Definition attention_bytes (shape : BlockShape) (heads : Z) (tokens : spec_float) : spec_float :=
  dbl_mul (dbl_mul (dbl_mul (dbl_mul (double_of heads) (double_of 2)) tokens)
    (double_of (head_dim shape))) (double_of (bytes_per_element shape)).
Definition attention_flops (shape : BlockShape) (tokens : spec_float) : spec_float :=
  dbl_mul (dbl_mul (dbl_mul (double_of q_heads) (double_of 4)) (double_of (head_dim shape))) tokens.

Definition time_context v (s : list Z * RoofReport) (context : Z)
    : option (string + list Z * RoofReport) :=
  let shape := make_2b_shape in
  let unfused := attention_bytes shape q_heads (double_of context) in
  let fused := attention_bytes shape (num_kv_heads shape) (double_of context) in
  let flops := attention_flops shape (double_of context) in
  let timed (kernel : Kernel) label bytes notes :=
    let name := (label ++ " ctx " ++ pretty context)%string in
    time_kernel kernel v (query_of shape) (attention_params (head_dim shape) context) name bytes flops
      notes (name ++ " failed")%string in
  s ⇐ timed paged_attention_decode "decode"%string unfused "reference, unfused"%string s;
  s ⇐ timed paged_attention_decode_blocked "blocked"%string unfused "block-at-a-time"%string s;
  s ⇐ timed paged_attention_decode_fused "fused"%string fused "GQA fusion, two-pass"%string s;
  timed paged_attention_decode_fast "fast"%string fused "fusion + online softmax + AVX-512"%string s.

(** Prefill as one decode per prompt position. *)
Definition kPrefill : Z := 256.
Definition prefill_body v (out : list Z) : option (string + list Z) :=
  foldT (λ out p,
    call_kernel paged_attention_decode v (query_of make_2b_shape)
      (attention_params (head_dim make_2b_shape) (p ⊞ 1)) "prefill decode failed" out)
    out (seqZ 0 kPrefill).

Definition prefill_tokens : spec_float :=
  dbl_div (dbl_mul (double_of kPrefill) (double_of (kPrefill + 1))) (double_of 2).

Definition bench_prefill v (s : list Z * RoofReport) : option (string + list Z * RoofReport) :=
  let shape := make_2b_shape in
  let '(out, r) := s in
  '(k, stats, out) ⇐ measure_body clock (prefill_body v) 1 5 (fst r) out;
  returns (out, add_row k r (csv_row "attention_prefill" "prefill S=256 as decode"
    (attention_bytes shape q_heads prefill_tokens) (attention_flops shape prefill_tokens) stats
    "S independent decode calls; GEMM AI is higher")).

(** The fast kernel on a cache of its own; false where the benchmark gives up. *)
Definition bench_layout (shape : BlockShape) (max_blocks fill_layers : Z) (name notes error : string)
    (s : list Z * RoofReport) : option (string + bool * (list Z * RoofReport)) :=
  view ⇐ defined (filled_view shape max_blocks fill_layers);
  match view with
  | None => returns (false, s)
  | Some v =>
    s ⇐ time_kernel paged_attention_decode_fast v (query_of make_2b_shape)
      (attention_params (head_dim make_2b_shape) kContext) name
      (attention_bytes make_2b_shape (num_kv_heads make_2b_shape) (double_of kContext))
      (attention_flops make_2b_shape (double_of kContext)) notes error s;
    returns (true, s)
  end.

Definition packed_shape : BlockShape := mkBlockShape 16 1 8 128 2 0.
Definition layer_major_shape : BlockShape := mkBlockShape 16 28 8 128 2 1.
Definition layer_major_blocks : Z := needed_blocks ⊠ num_layers make_2b_shape.

Definition bench_attention (r : RoofReport) : option (string + RoofReport) :=
  view ⇐ defined (filled_view make_2b_shape needed_blocks 0);
  match view with
  | None => returns r
  | Some v =>
    if negb (view_valid v) then returns r
    else
      let out := replicate (Z.to_nat (q_heads * head_dim make_2b_shape)) 0 in
      s ⇐ foldT (time_context v) (out, r) [128; 512; 1280];
      s ⇐ bench_prefill v s;
      '(go, s) ⇐ bench_layout packed_shape needed_blocks 0 "fast ctx 1280 packed"
        "1-layer frames; paging tax vs fast ctx 1280" "packed fast decode failed" s;
      if negb go then returns (snd s)
      else
        '(go, s) ⇐ bench_layout layer_major_shape layer_major_blocks 0 "fast ctx 1280 layer-major"
          "28 layers, 1 layer/frame, layer-major reserve" "layer-major fast decode failed" s;
        if negb go then returns (snd s)
        else
          '(_, s) ⇐ bench_layout layer_major_shape layer_major_blocks 1
            "fast ctx 1280 layer-major L0-only" "28-layer pool, only layer 0 filled"
            "layer-major L0-only fast decode failed" s;
          returns (snd s)
  end.

(** ** The program *)

(** The path of the report, and whether only attention is measured; [None] is the usage
    message. *)
Fixpoint roof_args (csv_path : string) (attention_only : bool) (args : list string)
    : option (string * bool) :=
  match args with
  | [] => Some (csv_path, attention_only)
  | arg :: rest =>
    match rest with
    | value :: rest' =>
      if String.eqb arg "--csv" then roof_args value attention_only rest'
      else if String.eqb arg "--attention" then roof_args csv_path true rest else None
    | [] => if String.eqb arg "--attention" then roof_args csv_path true rest else None
    end
  end.

(** The last line of the report: the clock before and after, and the machine. *)
Record EnvRow := mkEnvRow { env_before : Z; env_mid : Z; env_machine : string }.

(** The exit status, the rows and the last line. [before] and [mid] are the machine's
    state, [opens] whether the report's file opens. Where a kernel fails the program
    exits with status 1, and the error is the message. *)
Definition roofline_main (before mid : EnvSnapshot) (opens : string → bool) (args : list string)
    : option (string + Z * list RoofRow * option EnvRow) :=
  match roof_args "results/week10-roofs.csv" false args with
  | None => returns (2, [], None)
  | Some (csv_path, attention_only) =>
    if negb (opens csv_path) then returns (1, [], None)
    else
      r ⇐ (if attention_only : bool then returns (O, [])
           else bench_cache_sweep (bench_fma_bf16 (bench_fma_fp32 (O, []))));
      r ⇐ bench_attention r;
      if negb (freq_stable before mid dbl_tenth) then returns (1, snd r, None)
      else
        r ⇐ bench_stream r;
        returns (0, snd r, Some (mkEnvRow (freq_khz before) (freq_khz mid)
                                  (governor before +:+ " " +:+ model_name before)))
  end.
End Roofline.
