(* ===== verification/Benchmarks.v ===== *)
(** The allocator benchmark ([bench/benchmark_main.cpp]): what it does to the pool, the
    cache and the scheduler while it times them, the rows it reports, and its command
    line. The printed table, the formatting of the numbers in a row and the pinning to
    a processor are left out. *)
From Stdlib Require Import Floats.SpecFloat.
From S2P Require Import Prelude.
From S2P Require Import Throws.
From S2P Require Import Block.
From S2P Require Import SwapBackend.
From S2P Require Import MemoryAllocator.
From S2P Require Import KVCacheManager.
From S2P Require Import Scheduler.
From S2P Require Import TraceReplay.
From S2P Require Import ReplayMain.
From S2P Require Import Stats.

Definition kWarmup : Z := 3.
Definition kRepeats : Z := 11.
Definition kTokensPerBlock : Z := 16.
Definition kMaxBlocks : Z := 128.

(** [ShapeConfig] is its number of layers. *)
Definition make_shape (num_layers : Z) : BlockShape := mkBlockShape kTokensPerBlock num_layers 8 128 2 0.
Definition make_allocator_config (num_layers : Z) : AllocatorConfig :=
  mkAllocatorConfig (make_shape num_layers) (mkHostMemoryOptions kDefaultBlockAlignmentBytes false)
    kMaxBlocks.

(** ** Rows *)

(** The last field of the row, a rate, is computed from the first number. *)
Record Row := mkRow {
  row_name : string;
  row_block_kib : Z;
  row_ops : Z;
  row_n : Z;
  ns_per_op : spec_float;
  p95_per_op : spec_float;
  mad_per_op : spec_float
}.

Definition report_row (name : string) (ops_per_sample : Z) (stats : SampleStats) (block_kib : Z) : Row :=
  let per x := SFdiv 53 1024 x (double_of ops_per_sample) in
  mkRow name block_kib ops_per_sample (samples_n stats) (per (median_ns stats)) (per (p95_ns stats))
    (per (mad_ns stats)).

Section Benchmarks.
Context {B : Type} `{SwapBackend B}.
Context (aligned_alloc : Z → Z → option (Z * list byte)) (clock : nat → Z).
Implicit Types a : MemoryAllocator B.
Implicit Types m : KVCacheManager B.
Implicit Types s : Scheduler B.

Definition bench_allocator (num_layers : Z) : MemoryAllocator B :=
  MemoryAllocator_new aligned_alloc (make_allocator_config num_layers).

(** [SequenceMetadata{sequence, request, {}, {}}]. *)
Definition plain_metadata (sequence request : Z) : SequenceMetadata :=
  mkSequenceMetadata sequence request [] (mkPositionalEncodingMetadata []).

(** Every benchmark takes the number of clock readings so far and adds its rows. *)
Definition Report : Type := nat * list Row.

(** *** Allocate and release *)

Definition kAllocateOps : Z := 50000.

(** The pointer is dereferenced without a test. *)
Definition allocate_release a (i : Z) : option (MemoryAllocator B) :=
  '(id, a) ← allocate a;
  id ← id;
  Some (release a id).

Definition bench_allocate_release (num_layers block_kib : Z) (r : Report) : option (string + Report) :=
  '(k, stats, _) ⇐ measure_body clock
    (λ a, defined (foldM allocate_release a (seqZ 0 kAllocateOps))) kWarmup kRepeats (fst r)
    (bench_allocator num_layers);
  returns (k, snd r ++ [report_row "allocate + release" kAllocateOps stats block_kib]).

(** *** Fork *)

Definition kForkOps : Z := 2000.
Definition kForkPrompt : Z := 8 * kTokensPerBlock.

(** A sequence of [tokens] tokens. The results of the calls are not looked at. *)
Definition with_sequence m (tokens : Z) : option (KVCacheManager B) :=
  let '(_, m) := create_sequence m (plain_metadata 1 1) in
  '(_, m) ← reserve_tokens m 1 tokens;
  Some m.

Definition fork_it m : KVCacheManager B := snd (fork_sequence m 1 (plain_metadata 2 1)).

Definition release_both m : KVCacheManager B := release_sequence (release_sequence m 2) 1.

Definition fork_cycle m (i : Z) : option (KVCacheManager B) :=
  m ← with_sequence m kForkPrompt;
  Some (release_both (fork_it m)).

(** One of the samples of the fork alone. *)
Definition fork_sample (t : nat * list spec_float * KVCacheManager B) (i : Z)
    : option (nat * list spec_float * KVCacheManager B) :=
  let '(k, samples, m) := t in
  m ← with_sequence m kForkPrompt;
  Some (S (S k), samples ++ [elapsed clock k], release_both (fork_it m)).

Definition bench_fork (num_layers block_kib : Z) (r : Report) : option (string + Report) :=
  '(k, stats, m) ⇐ measure_body clock (λ m, defined (foldM fork_cycle m (seqZ 0 kForkOps)))
    kWarmup kRepeats (fst r) (KVCacheManager_new (bench_allocator num_layers));
  let with_setup := report_row "fork sequence (8 blocks, with setup)" kForkOps stats block_kib in
  m ⇐ defined (foldM fork_cycle m (seqZ 0 kWarmup));
  '(k, samples, _) ⇐ defined (foldM fork_sample (k, [], m) (seqZ 0 kRepeats));
  alone ⇐ defined (summarize samples);
  returns (k, snd r ++ [with_setup; report_row "fork sequence (8 blocks)" 1 alone block_kib]).

(** *** Copy on write *)

(** One iteration; the first result is false when the benchmark gives up. *)
Definition copy_sample (t : nat * list spec_float * KVCacheManager B) (i : Z)
    : option (bool * (nat * list spec_float * KVCacheManager B)) :=
  let '(k, samples, m) := t in
  m ← with_sequence m kTokensPerBlock;
  '(copy, m) ← ensure_token_writable (fork_it m) 2 0 TextKV 0;
  match copy with
  | None => Some (false, (S (S k), samples, m))
  | Some _ =>
    Some (true, (S (S k), if kWarmup <=? i then samples ++ [elapsed clock k] else samples,
                 release_both m))
  end.

Definition bench_copy_on_write (num_layers block_kib : Z) (r : Report) : option (string + Report) :=
  '(go, (k, samples, _)) ⇐ defined (loop copy_sample
    (fst r, [], KVCacheManager_new (bench_allocator num_layers)) (seqZ 0 (kWarmup + kRepeats)));
  if negb go then returns (k, snd r)
  else
    stats ⇐ defined (summarize samples);
    returns (k, snd r ++ [report_row "copy-on-write (1 block)" 1 stats block_kib]).

(** *** Scheduler throughput *)

Definition kCycles : Z := 2000.
Definition kBatchSize : Z := 8.
Definition kBatchPrompt : Z := 4 * kTokensPerBlock.

Definition throughput_config : SchedulerConfig :=
  mkSchedulerConfig kBatchSize (kBatchSize * kBatchPrompt) 0 false 8.

(** The request of number [i] of a batch; what is not set has its default. *)
Definition batch_request (i : Z) : Request :=
  mkRequest (i + 1) (i + 1) kBatchPrompt (mkSamplingConfig 1 1) [] (mkPositionalEncodingMetadata []) ""
    Pending 0 0 0.

Definition throughput_cycle s (cycle : Z) : option (string + Scheduler B) :=
  let batch := seqZ 0 kBatchSize in
  let s := foldl (λ s i, enqueue s (batch_request i)) s batch in
  '(plan, s) ⇐ defined (schedule_next s);
  if negb (Z.of_nat (length (prefill_requests plan)) =? kBatchSize)
  then throw "scheduler benchmark failed to admit the full batch"
  else
    let s := foldl (λ s i, complete_step s (i + 1) 1) s batch in
    returns (foldl (λ s i, cancel s (i + 1)) s batch).

Definition bench_scheduler_throughput (num_layers block_kib : Z) (r : Report)
    : option (string + Report) :=
  '(k, stats, _) ⇐ measure_body clock (λ s, foldT throughput_cycle s (seqZ 0 kCycles))
    kWarmup kRepeats (fst r)
    (Scheduler_new throughput_config (KVCacheManager_new (bench_allocator num_layers)));
  returns (k, snd r ++ [report_row "scheduler admit + retire request" (kCycles * kBatchSize) stats
                          block_kib]).

(** ** The program *)

Definition run_shape (r : Report) (num_layers : Z) : option (string + Report) :=
  let block_kib := byte_size (make_shape num_layers) / 1024 in
  r ⇐ bench_allocate_release num_layers block_kib r;
  r ⇐ bench_fork num_layers block_kib r;
  r ⇐ bench_copy_on_write num_layers block_kib r;
  bench_scheduler_throughput num_layers block_kib r.

(** [std::stoul], which throws where [strtoul] reports an error. *)
Definition stoul (text : string) : option Z :=
  let text := skip_spaces text in
  let '(negative, text) :=
    match text with
    | String c rest =>
      if (Ascii.nat_of_ascii c =? 45)%nat then (true, rest)
      else if (Ascii.nat_of_ascii c =? 43)%nat then (false, rest) else (false, text)
    | EmptyString => (false, text)
    end in
  match digits 0 0 text with
  | (O, _, _) => None
  | (_, value, _) =>
    if W64 <=? value then None else Some (if negative : bool then u64 (- value) else value)
  end.

(** The options: whether the layers were set, the layers, the path of the report.
    [None] is the usage message, an error the exception of [stoul]. *)
Fixpoint bench_args (set : bool) (layers : list Z) (csv_path : string) (args : list string)
    : string + option (list Z * string) :=
  match args with
  | [] => inr (Some (layers, csv_path))
  | arg :: rest =>
    match rest with
    | value :: rest' =>
      if String.eqb arg "--layers"
      then
        match stoul value with
        | None => inl "stoul"%string
        | Some v => bench_args true ((if set then layers else []) ++ [u32 v]) csv_path rest'
        end
      else if String.eqb arg "--csv" then bench_args set layers value rest'
      else inr None
    | [] => inr None
    end
  end.

(** The exit status and the rows of the report. [before] and [after] are the machine's
    state, [opens] whether the report's file opens. *)
Definition bench_main (before after : EnvSnapshot) (opens : string → bool) (args : list string)
    : option (string + Z * list Row) :=
  match bench_args false [8; 28] "results/week10-allocator.csv" args with
  | inl error => throw error
  | inr None => returns (2, [])
  | inr (Some (layers, csv_path)) =>
    if negb (opens csv_path) then returns (1, [])
    else
      '(_, rows) ⇐ foldT run_shape (O, []) layers;
      returns (if freq_stable before after dbl_tenth then 0 else 1, rows)
  end.
End Benchmarks.
