(* ===== verification/BenchCycles.v ===== *)
(** The bodies of the benchmarks as clients of the pool, the cache and the scheduler: an
    iteration begins and ends with everything free, and the call it measures succeeds; a
    cycle of the scheduler admits its whole batch in one call, and cancels it. *)
From S2P Require Import Prelude.
From S2P Require Import Throws.
From S2P Require Import Block.
From S2P Require Import SwapBackend.
From S2P Require Import BlockTable.
From S2P Require Import MemoryAllocator.
From S2P Require Import AllocatorSpec.
From S2P Require Import AllocatorProps.
From S2P Require Import KVCacheManager.
From S2P Require Import CacheAccounting.
From S2P Require Import AllocatorMoves.
From S2P Require Import CacheInvariant.
From S2P Require Import CacheLemmas.
From S2P Require Import CacheLifecycle.
From S2P Require Import CacheGrowth.
From S2P Require Import CacheWrite.
From S2P Require Import CacheSwap.
From S2P Require Import CacheRecords.
From S2P Require Import CacheRelease.
From S2P Require Import CachePrefix.
From S2P Require Import CacheViews.
From S2P Require Import Scheduler.
From S2P Require Import SchedulerPlan.
From S2P Require Import SchedulerInvariant.
From S2P Require Import SchedulerAdmission.
From S2P Require Import SchedulerPreemption.
From S2P Require Import SchedulerLoops.
From S2P Require Import SchedulerSteps.
From S2P Require Import SchedulerFit.
From S2P Require Import SchedulerKeys.
From S2P Require Import TraceReplay.
From S2P Require Import CacheClient.
From S2P Require Import Benchmarks.

Section Cycles.
Context {B : Type} `{SwapBackendLaws B}.
Context (num_layers : Z).
Implicit Types a : MemoryAllocator B.
Implicit Types m : KVCacheManager B.
Implicit Types s : Scheduler B.

(** ** Allocate and release *)

(** A pool of the benchmark, every frame free. *)
Record idle_pool a : Prop := {
  ip_inv : alloc_inv a;
  ip_config : config_ a = make_allocator_config num_layers;
  ip_refs id : refs a id = 0
}.

Lemma idle_free a : alloc_wf a → (∀ id, refs a id = 0) → nfree a = max_blocks (config_ a).
Proof.
  intros Hwf Hr. rewrite (nfree_count a Hwf), filter_all by done.
  pose proof (wf_max _ Hwf). rewrite length_seqZ. words.
Qed.

Lemma allocate_release_idle a i : idle_pool a → runs (allocate_release a i) idle_pool.
Proof.
  intros [Hi Hc Hr]. unfold allocate_release.
  run_step (allocate_moves a Hi). intros [[id|] a1] (_ & _ & Hcase).
  2:{ destruct Hcase as [_ Hz]. rewrite (idle_free a (proj1 Hi) Hr), Hc in Hz. by vm_compute in Hz. }
  destruct Hcase as (_ & _ & Hm & _). cbn [mbind option_bind runs].
  assert (∀ j, refs a1 j = zcount j [id]) as Hr1.
  { intros j. rewrite (moves_refs _ _ _ _ _ _ Hm), Hr. autorewrite with holds. lia. }
  destruct (release_moves a1 id) as (Hm' & _).
  { apply Hm. }
  { rewrite Hr1, zcount_single, decide_True by done. lia. }
  split; [apply Hm'| |].
  - rewrite (same_pool_config _ _ (moves_pool _ _ _ _ _ _ Hm')).
    by rewrite (same_pool_config _ _ (moves_pool _ _ _ _ _ _ Hm)).
  - intros j. rewrite (moves_refs _ _ _ _ _ _ Hm'), Hr1. autorewrite with holds. lia.
Qed.

(** ** An empty cache *)

Record idle_cache m : Prop := {
  ic_wf : mgr_wf m;
  ic_config : config_ (allocator_ m) = make_allocator_config num_layers;
  ic_backend : swap_backend_ (allocator_ m) = None;
  ic_empty : sequences_ m = ∅
}.

Lemma pool_tpb m :
  mgr_wf m → config_ (allocator_ m) = make_allocator_config num_layers → tpb_of m = kTokensPerBlock.
Proof.
  intros Hwf Hc. unfold tpb_of.
  destruct (pool_shape_config (allocator_ m)) as [_ ->]; [apply Hwf|by rewrite Hc|by rewrite Hc].
Qed.

Lemma idle_cache_free m : idle_cache m →
  nfree (allocator_ m) = kMaxBlocks ∧ tpb_of m = kTokensPerBlock ∧ count_of m = 1 ∧
  prefix_index_ m = ∅ ∧ stored m = 0 ∧ pinned m = 0 ∧ sequence_count m = 0.
Proof.
  intros [Hwf Hc _ He]. destruct (no_sequences m Hwf He) as (_ & _ & Hp & _ & Hn).
  destruct (pool_shape_config (allocator_ m)) as [Hsh Ht]; [apply Hwf|by rewrite Hc|].
  rewrite Hn. unfold tpb_of, count_of, table_count. rewrite Hsh, Ht, Hc.
  split_and!; [done|done| |done|..].
  - unfold per_layer_frames, frame_layers. simpl.
    destruct (Z.eqb_spec num_layers 1) as [->|]; [done|]. done.
  - unfold stored, contents. by rewrite He, fmap_empty, map_zsum_empty.
  - by rewrite pinned_ids, Hp, map_zsum_empty.
  - unfold sequence_count, contents. by rewrite He, fmap_empty, map_zsum_empty.
Qed.

Lemma few_blocks tokens :
  0 < tokens <= kForkPrompt → 0 <= blocks_needed tokens kTokensPerBlock <= 8.
Proof.
  unfold blocks_needed, kForkPrompt, kTokensPerBlock. intros Ht.
  pose proof (Z.div_mod (tokens + 16 - 1) 16). pose proof (Z.mod_pos_bound (tokens + 16 - 1) 16). lia.
Qed.

(** A request whose sequence is the one the cache benchmarks create. *)
Definition lone_request (tokens : Z) : Request :=
  mkRequest 1 1 tokens (mkSamplingConfig 1 1) [] (mkPositionalEncodingMetadata []) "" Pending 0 0 0.

Lemma with_sequence_run m tokens :
  idle_cache m → 0 < tokens <= kForkPrompt →
  ∃ st m', with_sequence m tokens = Some m' ∧ stage m (lone_request tokens) st m' ∧
    Z.of_nat (seq_blocks st) = blocks_needed tokens kTokensPerBlock ∧
    nfree (allocator_ m') = kMaxBlocks - blocks_needed tokens kTokensPerBlock.
Proof.
  intros Hm Ht. destruct (idle_cache_free m Hm) as (Hn & Htpb & Hcnt & Hpi & Hs & Hpin & Hc).
  pose proof Hm as [Hwf _ _ He].
  destruct (create_stage m (lone_request tokens) Hwf) as (st & m1 & Hcr & Hst & Hz & _ & Ha).
  { by rewrite He, lookup_empty. }
  destruct (stage_tpb _ _ _ _ Hst) as [Et Ec].
  pose proof (few_blocks tokens Ht) as Hbn. unfold kForkPrompt, kTokensPerBlock in Ht.
  assert (reserve_ok m1 1 tokens) as Hok.
  { split; rewrite ?Et, ?Ec, ?Htpb, ?Hcnt; unfold kTokensPerBlock; [lia|words| |].
    - fold kTokensPerBlock. words.
    - intros x Hx. pose proof (stage_lookup _ _ _ _ Hst) as Hl. simpl in Hl.
      assert (x = st) as -> by congruence. rewrite Hz. fold kTokensPerBlock. words. }
  assert (admission_room m (lone_request tokens)) as Hroom.
  { split; unfold admission_blocks; rewrite ?Hs, ?Hpin, ?Hc, ?Htpb, ?Hcnt; simpl; try words.
    unfold kTokensPerBlock. words. }
  pose proof (reserve_spec m1 1 tokens (stage_wf _ _ _ _ Hst) Hok) as Hrun.
  pose proof (reserve_stage m (lone_request tokens) st m1 tokens Hwf Hroom Hst (proj1 Ht)) as Hrs.
  rewrite Hz in Hrs. specialize (Hrs eq_refl). simpl in Hrs.
  unfold with_sequence. change (plain_metadata 1 1) with (metadata_from (lone_request tokens)).
  rewrite Hcr. destruct (reserve_tokens m1 1 tokens) as [[[] m2]|]; cbn [runs mbind option_bind] in *; [| |done].
  - destruct Hrs as (st' & Hst' & Hb). rewrite Htpb in Hb. exists st', m2. split_and!; [done..|].
    destruct Hrun as (_ & _ & x & x' & _ & _ & _ & _ & Hn' & _).
    rewrite Hn', Et, Ec, Ha, Hn, Htpb, Hcnt. lia.
  - exfalso. destruct Hrun as (_ & _ & _ & [Hx|[Hx|Hx]]).
    + unfold contains in Hx. pose proof (stage_lookup _ _ _ _ Hst) as Hl. simpl in Hl. by rewrite Hl in Hx.
    + by rewrite Et, Htpb in Hx.
    + rewrite Et, Ec, Ha, Hn, Htpb, Hcnt in Hx. unfold kMaxBlocks in Hx. lia.
Qed.

(** ** Forking and releasing *)

(** Releasing takes nothing from a swap store that is not there. *)
Lemma release_entry_backend a e :
  swap_backend_ a = None → swap_backend_ (release_entry a e) = None.
Proof.
  intros Ha. unfold release_entry, discard_swapped. destruct (swap_slot e); [by rewrite Ha|].
  by rewrite (proj2 (release_untouched a (physical_id e))).
Qed.

Lemma release_tables_backend ts a :
  swap_backend_ a = None → swap_backend_ (release_tables a ts) = None.
Proof.
  unfold release_tables. revert a. induction ts as [|t ts IH]; intros a Ha; [done|]. simpl. apply IH.
  revert a Ha. induction (entries_ t) as [|e es IHe]; intros a Ha; [done|]. simpl.
  by apply IHe, release_entry_backend.
Qed.

Lemma release_all_untouched l a : untouched a (foldl release a l).
Proof.
  revert a. induction l as [|id l IH]; intros a; [done|]. simpl.
  eapply untouched_trans; [apply release_untouched|apply IH].
Qed.

Lemma drop_user_untouched m st :
  untouched (allocator_ m) (allocator_ (fst (drop_prefix_user m st))).
Proof.
  unfold drop_prefix_user. repeat case_match; try apply untouched_refl; apply release_all_untouched.
Qed.

Lemma release_sequence_backend m sid :
  swap_backend_ (allocator_ m) = None → swap_backend_ (allocator_ (release_sequence m sid)) = None.
Proof.
  intros Hb. unfold release_sequence. destruct (sequences_ m !! sid) as [st|]; [|done].
  pose proof (proj2 (drop_user_untouched m st)) as Hu.
  destruct (drop_prefix_user m st) as [m1 st1]. simpl in *.
  apply release_tables_backend. by rewrite Hu.
Qed.

(** A cache of the benchmark whose sequences are among two. *)
Record pair_cache m : Prop := {
  pc_wf : mgr_wf m;
  pc_config : config_ (allocator_ m) = make_allocator_config num_layers;
  pc_backend : swap_backend_ (allocator_ m) = None;
  pc_only sid : is_Some (sequences_ m !! sid) → sid = 1 ∨ sid = 2
}.

Lemma release_both_idle m : pair_cache m → idle_cache (release_both m).
Proof.
  intros [Hwf Hc Hb Ho]. unfold release_both.
  destruct (release_sequence_spec m 2 Hwf) as (Hwf1 & Hs1 & Hp1 & _).
  destruct (release_sequence_spec (release_sequence m 2) 1 Hwf1) as (Hwf2 & Hs2 & Hp2 & _).
  split; [done| | |].
  - by rewrite (same_pool_config _ _ Hp2), (same_pool_config _ _ Hp1).
  - by apply release_sequence_backend, release_sequence_backend.
  - rewrite Hs2, Hs1. apply map_empty. intros sid.
    destruct (decide (sid = 1)) as [->|]; [by rewrite lookup_delete_eq|].
    rewrite lookup_delete_ne by done.
    destruct (decide (sid = 2)) as [->|]; [by rewrite lookup_delete_eq|].
    rewrite lookup_delete_ne by done. destruct (sequences_ m !! sid) as [st|] eqn:Hl; [|done].
    destruct (Ho sid); [by rewrite Hl|done..].
Qed.

(** The measured fork succeeds; the child has the parent's blocks, resident. *)
Lemma fork_it_pair m tokens st m' :
  idle_cache m → 0 < tokens <= kForkPrompt → stage m (lone_request tokens) st m' →
  Z.of_nat (seq_blocks st) = blocks_needed tokens kTokensPerBlock →
  fst (fork_sequence m' 1 (plain_metadata 2 1)) = true ∧ pair_cache (fork_it m') ∧
  nfree (allocator_ (fork_it m')) = nfree (allocator_ m') ∧
  ∃ child, sequences_ (fork_it m') !! 2 = Some child ∧ all_resident (tables child) = true ∧
    tables child = (λ t, fork_table t 2) <$> tables st.
Proof.
  intros Hm Ht Hst Hblk. destruct (idle_cache_free m Hm) as (_ & Htpb & Hcnt & Hpi & Hs0 & Hpin & _).
  pose proof Hm as [Hwf Hc Hb He]. pose proof (stage_lookup _ _ _ _ Hst) as Hl.
  pose proof Hst as [Hwf' _ Hs _ Hres _ Hu _ _ _]. simpl in Hl, Hs. rewrite He in Hs.
  assert (sequences_ m' !! 2 = None) as H2 by by rewrite Hs.
  assert (admission_blocks m (lone_request tokens) <= 8) as Hab.
  { unfold admission_blocks. rewrite Htpb, Hcnt. pose proof (few_blocks tokens Ht). simpl. lia. }
  rewrite <-Htpb in Hblk.
  destruct (stage_stored m (lone_request tokens) st m' Hwf Hst Hblk) as (Est & Epin & _).
  assert (sized 8 m') as Hsz.
  { eapply stage_sized; [exact Hwf|exact Hst|done| |done]. split.
    - intros sid bs. unfold contents. by rewrite He, fmap_empty, lookup_empty.
    - intros key r (recs & Hk & _)%records_of_Some. by rewrite Hpi in Hk. }
  destruct (fork_success m' 1 st (plain_metadata 2 1) Hwf' Hl H2 Hres) as (Hok & Hwf2 & _ & Hn & _).
  { intros x Hx. assert (x = st) as -> by congruence. apply (sequence_room 8 m' 1); try done.
    rewrite Est, Epin, Hs0, Hpin. unfold W32; lia. }
  destruct (fork_structure m' 1 st (plain_metadata 2 1) Hl H2 Hres)
    as (Hu2 & _ & child & Hch & _ & Hcr & Hct).
  pose proof (untouched_trans _ _ _ Hu Hu2) as [Hp Hbk]. unfold fork_it.
  split_and!; [done| |done|].
  - split; [done|by rewrite (same_pool_config _ _ Hp)|by rewrite Hbk|].
    intros sid. rewrite Hch, Hs. simpl. intros [x [[<- _]|[_ Hx]]%lookup_insert_Some]; [by right|].
    apply lookup_insert_Some in Hx as [[<- _]|[_ Hx]]; [by left|done].
  - exists child. rewrite Hch. by rewrite lookup_insert_eq.
Qed.

(** In an idle cache the setup takes its eight blocks, and the fork that is measured gets
    its child. *)
Lemma fork_succeeds m :
  idle_cache m →
  runs (with_sequence m kForkPrompt) (λ m', nfree (allocator_ m') = kMaxBlocks - 8 ∧
    fst (fork_sequence m' 1 (plain_metadata 2 1)) = true).
Proof.
  intros Hm. destruct (with_sequence_run m kForkPrompt Hm) as (st & m' & -> & Hst & Hb & Hn); [done|].
  cbn [runs]. split; [exact Hn|]. by destruct (fork_it_pair m kForkPrompt st m') as (? & _).
Qed.

Lemma fork_cycle_idle m i : idle_cache m → runs (fork_cycle m i) idle_cache.
Proof.
  intros Hm. unfold fork_cycle.
  destruct (with_sequence_run m kForkPrompt Hm) as (st & m' & -> & Hst & Hb & _); [done|].
  cbn [mbind option_bind runs]. apply release_both_idle.
  by destruct (fork_it_pair m kForkPrompt st m') as (_ & ? & _).
Qed.

(** ** Copy on write *)

(** The first write of the child gets a frame: the copy never fails. *)
Lemma copy_cycle_idle m :
  idle_cache m →
  runs (m' ← with_sequence m kTokensPerBlock; ensure_token_writable (fork_it m') 2 0 TextKV 0)
    (λ '(copy, m'), is_Some copy ∧ idle_cache (release_both m')).
Proof.
  intros Hm.
  destruct (with_sequence_run m kTokensPerBlock Hm) as (st & m' & -> & Hst & Hb & Hn); [done|].
  cbn [mbind option_bind].
  destruct (fork_it_pair m kTokensPerBlock st m' Hm) as (_ & Hp & Hnf & child & Hch & Hcr & Hct); [done..|].
  pose proof Hp as [Hwf Hc Hbk Ho]. set (f := fork_it m') in *.
  pose proof (ensure_spec f 2 0 TextKV 0 Hwf (Z.le_refl _) (Z.le_refl _)) as Hsp.
  pose proof (ensure_carries f 2 0 TextKV 0 Hwf (Z.le_refl _) (Z.le_refl _)) as Hca.
  destruct (ensure_token_writable f 2 0 TextKV 0) as [[copy f']|]; cbn [runs] in *; [|done].
  destruct Hca as (Hcar & Hcont & _). pose proof (carries_pool _ _ Hcar) as [Hpool Hback]. split.
  - destruct copy as [id|]; [by eexists|]. exfalso. destruct Hsp as (_ & _ & _ & _ & Hno).
    destruct (tables st) as [|t0 ts] eqn:Hts; [by unfold seq_blocks in Hb; rewrite Hts in Hb|].
    destruct (entries_ t0) as [|e0 es] eqn:Hes; [by unfold seq_blocks in Hb; rewrite Hts, Hes in Hb|].
    destruct (Hno (fork_entry 2 e0)) as [_ Hz].
    + by rewrite (pool_tpb f Hwf Hc).
    + exists child, (fork_table t0 2). rewrite Hct. split_and!; [done|done|]. simpl. by rewrite Hes.
    + unfold resident. rewrite (proj1 (all_resident_spec _) Hcr); [done|]. rewrite Hct. apply list_elem_of_bind.
      exists (fork_table t0 2). split; [simpl; rewrite Hes; by left|by left].
    + rewrite Hnf, Hn in Hz. by vm_compute in Hz.
  - apply release_both_idle. split; [apply Hcar|by rewrite (same_pool_config _ _ Hpool)|by rewrite Hback|].
    intros sid [x Hx]. apply Ho. assert (is_Some (contents f' !! sid)) as [y Hy].
    { unfold contents. rewrite lookup_fmap, Hx. by eexists. }
    rewrite Hcont in Hy. unfold contents in Hy. rewrite lookup_fmap in Hy.
    destruct (sequences_ f !! sid); [by eexists|done].
Qed.
End Cycles.

(** ** The scheduler's cycle *)

Section Throughput.
Context {B : Type} `{SwapBackendLaws B}.
Context (num_layers : Z).
Implicit Types a : MemoryAllocator B.
Implicit Types m : KVCacheManager B.
Implicit Types s : Scheduler B.

Abbreviation batch := (seqZ 0 kBatchSize).
Definition queued (i : Z) : Request :=
  set_progress Pending kBatchPrompt 0 0 (batch_request i).

(** The cache without its sequences is the benchmark's empty one. *)
Record bench_pool m : Prop := {
  bp_config : config_ (allocator_ m) = make_allocator_config num_layers;
  bp_backend : swap_backend_ (allocator_ m) = None
}.

Record idle_scheduler s : Prop := {
  is_wf : sched_wf s;
  is_config : sched_config s = throughput_config;
  is_pending : pending_ s = [];
  is_active : active_ s = [];
  is_preempted : preempted_ s = [];
  is_pool : bench_pool (cache_manager_ s)
}.

Lemma idle_scheduler_cache s : idle_scheduler s → idle_cache num_layers (cache_manager_ s).
Proof.
  intros [Hwf _ _ Ha Hp [Hc Hb]]. split; [apply Hwf|done|done|].
  apply map_empty. intros sid. destruct (sequences_ (cache_manager_ s) !! sid) as [st|] eqn:Hs; [|done].
  pose proof (s_owned _ Hwf sid st Hs) as Ho. rewrite Ha, Hp in Ho. by apply not_elem_of_nil in Ho.
Qed.

(** ** Enqueueing *)

Lemma batch_ids : batch = [0; 1; 2; 3; 4; 5; 6; 7].
Proof. reflexivity. Qed.

Lemma enqueue_batch l s :
  foldl (λ s i, enqueue s (batch_request i)) s l = with_pending s (pending_ s ++ (queued <$> l)).
Proof.
  revert s. induction l as [|i l IH]; intros s; simpl; [by rewrite app_nil_r; destruct s|].
  rewrite IH. unfold enqueue. simpl. by rewrite <-(assoc_L (++)).
Qed.

Lemma enqueue_batch_wf l s :
  sched_wf s → NoDup l → active_ s = [] → preempted_ s = [] →
  (∀ i, i ∈ l → i + 1 ∉ ids (pending_ s)) →
  sched_wf (foldl (λ s i, enqueue s (batch_request i)) s l).
Proof.
  revert s. induction l as [|i l IH]; intros s Hwf Hnd Ha Hp Hni; [done|]. simpl.
  apply NoDup_cons in Hnd as [Hi Hnd]. apply IH; try done.
  - apply enqueue_wf; [done|by split; vm_compute|]. rewrite Ha, Hp, !app_nil_r. by apply Hni; left.
  - intros j Hj. unfold enqueue. simpl. rewrite fmap_app, elem_of_app. simpl.
    rewrite list_elem_of_singleton. intros [Hin|Heq].
    + apply (Hni j); [by right|done].
    + assert (j = i) as -> by lia. done.
Qed.

(** The batch waits, and fits. *)
Lemma batch_waiting s :
  idle_scheduler s →
  let s1 := foldl (λ s i, enqueue s (batch_request i)) s batch in
  s1 = with_pending s (queued <$> batch) ∧ sched_wf s1 ∧ sched_room 32 0 s1 ∧
  batch_fits s1 BatchPlan_empty.
Proof.
  intros Hs s1. pose proof Hs as [Hwf Hcfg Hpe Ha Hpr [Hc Hb]].
  pose proof (idle_scheduler_cache s Hs) as Hm.
  destruct (idle_cache_free num_layers _ Hm) as (Hn & Htpb & Hcnt & Hpi & Hst & Hpin & Hsq).
  assert (s1 = with_pending s (queued <$> batch)) as Hs1.
  { unfold s1. by rewrite enqueue_batch, Hpe. }
  assert (lifetime_held_ s = 0) as Hheld by by rewrite (q_held _ (s_queues _ Hwf)), Ha.
  assert (∀ i, admission_blocks (cache_manager_ s) (queued i) = 4) as Hab.
  { intros i. unfold admission_blocks. by rewrite Htpb, Hcnt. }
  assert (zsum (admission_blocks (cache_manager_ s)) (queued <$> batch) = 32) as Hsum.
  { rewrite batch_ids, !fmap_cons. cbn [zsum]. by rewrite !Hab. }
  assert (∀ i, lifetime_blocks_for (cache_manager_ s) (queued i) = 5) as Hlife.
  { intros i. unfold lifetime_blocks_for. simpl.
    unfold blocks_for_tokens. rewrite block_valid; [|apply Hwf|unfold valid; by rewrite Hc].
    cbn [shape_ frame_for]. rewrite Hc.
    assert (per_layer_frames (make_shape num_layers) = false) as Hpl.
    { unfold per_layer_frames, frame_layers. simpl. by destruct (Z.eqb_spec num_layers 1) as [->|]. }
    cbn [make_allocator_config block_shape]. rewrite Hpl. by vm_compute. }
  split_and!; [done| | |].
  - apply enqueue_batch_wf; [done|apply NoDup_seqZ|done|done|]. rewrite Hpe. by intros i _ ?%not_elem_of_nil.
  - rewrite Hs1. split; cbn [with_pending cache_manager_ pending_ lifetime_held_].
    + done.
    + rewrite Hst, Hpin, Hsum. done.
    + by rewrite Hsq.
    + by rewrite Hpin.
    + rewrite Htpb. apply Forall_fmap, Forall_forall. intros i _. by vm_compute.
    + by left.
    + unfold sched_allocator. cbn [cache_manager_ with_pending]. rewrite Hheld, Hc. by vm_compute.
  - rewrite Hs1. split; cbn [with_pending cache_manager_ pending_ lifetime_held_ sched_config active_].
    + by rewrite Hcfg.
    + by rewrite Htpb.
    + by apply Forall_fmap, Forall_forall.
    + by apply (bool_decide_unpack _).
    + rewrite (ic_empty _ _ Hm). apply Forall_fmap, Forall_forall. intros i _. simpl. apply lookup_empty.
    + by rewrite Ha, Hcfg.
    + by rewrite Hcfg.
    + rewrite Hsum. change (sched_allocator _) with (allocator_ (cache_manager_ s)). by rewrite Hn.
    + change (sched_allocator _) with (allocator_ (cache_manager_ s)). 
      rewrite Hheld, Hc, batch_ids, !fmap_cons. cbn [zsum]. rewrite !Hlife. by vm_compute.
Qed.

(** ** Finishing the batch *)

(** Progress changes neither the ids of the active requests nor the rest of the state. *)
Lemma complete_batch l s :
  sched_wf s →
  let s' := foldl (λ s i, complete_step s (i + 1) 1) s l in
  sched_wf s' ∧ ids (active_ s') = ids (active_ s) ∧ sched_config s' = sched_config s ∧
  pending_ s' = pending_ s ∧ preempted_ s' = preempted_ s ∧ cache_manager_ s' = cache_manager_ s.
Proof.
  revert s. induction l as [|i l IH]; intros s Hwf; [done|]. simpl.
  pose proof (complete_step_wf s (i + 1) 1 Hwf ltac:(lia)) as Hwf1.
  destruct (IH _ Hwf1) as (Hwf' & Ha & Hc & Hp & Hpr & Hm).
  split_and!; [done|rewrite Ha|rewrite Hc|rewrite Hp|rewrite Hpr|rewrite Hm];
    unfold complete_step; destruct (find_request _ _) as [[k r]|]; simpl; try done.
  by apply alter_fmap_same, step_request_id.
Qed.

Lemma release_request_pool m rid : mgr_wf m → bench_pool m → bench_pool (release_request m rid).
Proof.
  intros Hwf [Hc Hb]. destruct (release_request_spec m rid Hwf) as (_ & Hp & _). split.
  - by rewrite (same_pool_config _ _ Hp).
  - unfold release_request. clear Hp Hwf Hc. generalize (sequences_for m rid). intros l.
    revert m Hb. induction l as [|sid l IH]; intros m Hb; [done|]. simpl.
    by apply IH, release_sequence_backend.
Qed.

(** One cancellation takes its request out of the queue, and nothing else in. *)
Lemma cancel_one s id :
  sched_wf s → pending_ s = [] → preempted_ s = [] →
  let s' := cancel s id in
  sched_wf s' ∧ pending_ s' = [] ∧ preempted_ s' = [] ∧ sched_config s' = sched_config s ∧
  (∀ x, x ∈ ids (active_ s') → x ∈ ids (active_ s) ∧ x ≠ id).
Proof.
  intros Hwf Hp Hpr s'. assert (id ∉ ids (preempted_ s)) as Hid by (rewrite Hpr; apply not_elem_of_nil).
  pose proof (cancel_step s id Hwf Hid) as Hwf'. pose proof (cancel_gone s id Hwf) as Hgone.
  fold s' in Hwf', Hgone. rewrite !elem_of_app in Hgone.
  assert (pending_ s' = [] ∧ preempted_ s' = [] ∧ sched_config s' = sched_config s ∧
    ∀ x, x ∈ ids (active_ s') → x ∈ ids (active_ s)) as (? & ? & ? & Hsub).
  { unfold s', cancel. rewrite Hp, Hpr. simpl.
    destruct (find_request (active_ s) id) as [[i r]|]; simpl; [|done].
    split_and!; [done..|]. intros x (y & -> & Hy)%list_elem_of_fmap.
    apply list_elem_of_fmap_2. rewrite delete_take_drop in Hy.
    apply elem_of_app in Hy as [?%subseteq_take|?%subseteq_drop]; done. }
  split_and!; [done..|]. intros x Hx. split; [by apply Hsub|]. intros ->. tauto.
Qed.

(** Cancelling the whole batch leaves the scheduler idle. *)
Lemma cancel_batch s :
  sched_wf s → sched_config s = throughput_config → pending_ s = [] → preempted_ s = [] →
  bench_pool (cache_manager_ s) → ids (active_ s) = (λ i, i + 1) <$> batch →
  idle_scheduler (foldl (λ s i, cancel s (i + 1)) s batch).
Proof.
  intros Hwf Hc Hp Hpr Hpool Ha.
  assert (∀ x, x ∈ ids (active_ s) → x ∈ (λ i, i + 1) <$> batch) as Hin by by rewrite Ha.
  clear Ha. revert s Hwf Hc Hp Hpr Hpool Hin. generalize batch. intros l.
  induction l as [|i l IH]; intros s Hwf Hc Hp Hpr Hpool Hin; cbn [foldl].
  - split; try done. destruct (active_ s) as [|r q]; [done|].
    destruct (not_elem_of_nil (request_id r)). apply Hin. by left.
  - destruct (cancel_one s (i + 1) Hwf Hp Hpr) as (Hwf' & Hp' & Hpr' & Hc' & Hsub).
    apply IH; try done; [congruence| |].
    + rewrite (cancel_cache s (i + 1) Hwf). by apply release_request_pool; [apply Hwf|].
    + intros x [Hx Hne]%Hsub. apply Hin in Hx. rewrite fmap_cons in Hx.
      by apply elem_of_cons in Hx as [?|?].
Qed.

(** A cycle of the benchmark. The batch is admitted whole, so it never gives up. *)
Lemma throughput_cycle_idle s cycle :
  idle_scheduler s → finishes (throughput_cycle s cycle) idle_scheduler.
Proof.
  intros Hs. destruct (batch_waiting s Hs) as (Hs1 & Hwf1 & Hroom1 & Hfits1).
  unfold throughput_cycle. set (s1 := foldl _ _ _) in *.
  destruct (schedule_batch 32 0 s1 Hwf1 Hroom1 Hfits1)
    as (plan & s2 & more & -> & [Hcfg Ha Hpr _ Hu] & Hp & Hwf2 & _ & Hpl & _ & Hmore).
  apply finishes_defined. cbn [runs]. pose proof Hs as [_ Hc0 Hp0 Ha0 Hpr0 [Hpc Hpb]].
  assert (active_ s1 = []) as Ha1 by by rewrite Hs1.
  assert (pending_ s1 = queued <$> batch) as Hp1 by by rewrite Hs1.
  rewrite Ha1 in Hmore, Ha. destruct more as [|x more].
  2:{ apply Forall_inv in Hmore. by apply not_elem_of_nil in Hmore. }
  rewrite Hpl, app_nil_r, Hp1. cbn [negb].
  change (negb _) with false. cbn beta iota.
  destruct (complete_batch batch s2 Hwf2) as (Hwf3 & Ha3 & Hc3 & Hp3 & Hpr3 & Hm3).
  apply finishes_returns, cancel_batch; [done| | | | |].
  - by rewrite Hc3, Hcfg, Hs1.
  - by rewrite Hp3.
  - by rewrite Hpr3, Hpr, Hs1.
  - rewrite Hm3. destruct Hu as [Hpool Hback]. split.
    + change (allocator_ (cache_manager_ s2)) with (sched_allocator s2).
      rewrite (same_pool_config _ _ Hpool). by rewrite Hs1.
    + change (allocator_ (cache_manager_ s2)) with (sched_allocator s2). rewrite Hback. by rewrite Hs1.
  - by rewrite Ha3, Ha, Hp1.
Qed.
End Throughput.
