(* ===== verification/BenchProps.v ===== *)
(** The allocator benchmark runs to its end: no body reaches undefined behaviour, no
    benchmark gives up, and the report has every row. *)
From stdpp Require Import sorting.
From Stdlib Require Import Floats.SpecFloat.
From S2P Require Import Prelude.
From S2P Require Import Throws.
From S2P Require Import Block.
From S2P Require Import SwapBackend.
From S2P Require Import MemoryAllocator.
From S2P Require Import AllocatorSpec.
From S2P Require Import AllocatorProps.
From S2P Require Import KVCacheManager.
From S2P Require Import CacheInvariant.
From S2P Require Import CacheProps.
From S2P Require Import Scheduler.
From S2P Require Import SchedulerPlan.
From S2P Require Import SchedulerInvariant.
From S2P Require Import SchedulerProps.
From S2P Require Import TraceReplay.
From S2P Require Import PagedReplay.
From S2P Require Import Stats.
From S2P Require Import Benchmarks.
From S2P Require Import BenchCycles.

(** ** Calls *)

(** A benchmark whose body keeps an invariant is measured. *)
Lemma measure_calls {A} clock (body : A → option (string + A)) (I : A → Prop) k s :
  (∀ s, I s → finishes (body s) I) → I s →
  finishes (measure_body clock body kWarmup kRepeats k s)
    (λ '(_, stats, s'), samples_n stats = kRepeats ∧ I s').
Proof. apply measure_body_runs; [done|apply summarizable_eleven]. Qed.

(** ** The pools *)

Section Pools.
Context {B : Type} `{SwapBackendLaws B}.
Context (aligned_alloc : Z → Z → option (Z * list byte)) (clock : nat → Z).

(** The allocation of a shape's pool succeeds. *)
Definition pool_allocated (num_layers : Z) : Prop :=
  let c := make_allocator_config num_layers in
  ∃ p slab, aligned_alloc (effective_alignment c) (pool_bytes_for c) = Some (p, slab) ∧
    Z.of_nat (length slab) = pool_bytes_for c.

Lemma shape_bytes num_layers : 0 < num_layers < W32 →
  byte_size (make_shape num_layers) = 65536 * num_layers.
Proof.
  intros Hl. rewrite byte_size_mod. unfold frame_layers. cbn.
  unfold kTokensPerBlock. rewrite u64_small by words. lia.
Qed.

Lemma config_layers num_layers : 0 < num_layers < W32 → config_ok (make_allocator_config num_layers).
Proof.
  intros Hl. pose proof (shape_bytes num_layers Hl) as Hb.
  assert (byte_size (block_shape (make_allocator_config num_layers))
    + effective_alignment (make_allocator_config num_layers) < W64) as Hround.
  { change (block_shape _) with (make_shape num_layers). rewrite Hb. change (effective_alignment _) with 256. words. }
  split; try done.
  - split; cbn; unfold kTokensPerBlock; words.
  - destruct (block_stride_spec (make_allocator_config num_layers)) as (_ & _ & _ & Hs); [done|done|].
    change (block_shape _) with (make_shape num_layers) in Hs. rewrite Hb in Hs.
    change (effective_alignment _) with 256 in Hs. change (max_blocks _) with 128. words.
Qed.

Section Shape.
Context (num_layers : Z) (Hlayers : 0 < num_layers < W32) (Hpool : pool_allocated num_layers).
Abbreviation allocator := (bench_allocator (B := B) aligned_alloc num_layers).

Lemma allocator_idle : idle_pool num_layers allocator ∧ swap_backend_ allocator = None.
Proof.
  destruct Hpool as (p & slab & Hp & Hlen).
  destruct (new_pool (B := B) _ aligned_alloc p slab (config_layers num_layers Hlayers) Hp Hlen)
    as (Hwf & Hr & _ & _ & Hc & Hb & _).
  split; [|done]. split; [split; [done|]|done|done].
  intros slot bytes. unfold swapped, bench_allocator. by rewrite Hb.
Qed.

Lemma cache_idle : idle_cache num_layers (KVCacheManager_new allocator).
Proof.
  destruct allocator_idle as [[Hi Hc Hr] Hb]. split; [|done..]. apply new_manager_wf. split; try done.
  - rewrite Hc. apply (config_shape _ (config_layers _ Hlayers)).
  - unfold swapped. by rewrite Hb.
Qed.

Lemma scheduler_idle :
  idle_scheduler num_layers (Scheduler_new throughput_config (KVCacheManager_new allocator)).
Proof.
  destruct cache_idle as [Hwf Hc Hb He]. split; try done.
  apply new_scheduler_wf; [by split_and!; split; vm_compute|done|done].
Qed.

(** A benchmark adds rows of these names and operation counts, each of eleven samples of
    blocks of the shape's size. *)
Definition reports (names : list (string * Z)) (block_kib : Z) (r r' : Report) : Prop :=
  ∃ new, snd r' = snd r ++ new ∧ (λ row, (row_name row, row_ops row)) <$> new = names ∧
    Forall (λ row, row_n row = kRepeats ∧ row_block_kib row = block_kib) new.

Lemma reports_trans n1 n2 kib r1 r2 r3 :
  reports n1 kib r1 r2 → reports n2 kib r2 r3 → reports (n1 ++ n2) kib r1 r3.
Proof.
  intros (new1 & E1 & N1 & F1) (new2 & E2 & N2 & F2). exists (new1 ++ new2).
  rewrite E2, E1, fmap_app, N1, N2, (assoc_L (++)). split_and!; [done..|]. by apply Forall_app.
Qed.

Lemma allocate_release_reports kib r :
  finishes (bench_allocate_release (B := B) aligned_alloc clock num_layers kib r)
    (reports [("allocate + release"%string, kAllocateOps)] kib r).
Proof.
  unfold bench_allocate_release. apply finishes_then. eapply finishes_mono.
  - eapply (measure_calls clock _ (idle_pool num_layers)); [|apply allocator_idle].
    intros a Ha. apply finishes_calls; [apply allocate_release_idle|done].
  - intros [[k stats] a] [Hn _]. apply finishes_returns. eexists. split; [done|].
    split; [done|]. constructor; [|done]. done.
Qed.

(** *** Every iteration gives back what it took *)

(** All frames free, and no sequence left. *)
Definition pool_back (m : KVCacheManager B) : Prop :=
  nfree (allocator_ m) = kMaxBlocks ∧ sequences_ m = ∅.

Lemma idle_back m : idle_cache num_layers m → pool_back m.
Proof. intros Hm. split; [apply (idle_cache_free _ _ Hm)|apply Hm]. Qed.

(** What holds after any number of iterations of each body: the pool is back, the next
    fork succeeds, no copy found the pool empty, and no request is left. *)
Definition cycles_give_back : Prop := ∀ n,
  runs (foldM allocate_release allocator (seqZ 0 n)) (λ a, nfree a = kMaxBlocks) ∧
  runs (foldM fork_cycle (KVCacheManager_new allocator) (seqZ 0 n)) (λ m,
    pool_back m ∧
    runs (with_sequence m kForkPrompt) (λ m', nfree (allocator_ m') = kMaxBlocks - 8 ∧
      fst (fork_sequence m' 1 (plain_metadata 2 1)) = true)) ∧
  (∀ k, runs (loop (copy_sample clock) (k, [], KVCacheManager_new allocator) (seqZ 0 n))
    (λ '(go, (_, _, m)), go = true ∧ pool_back m)) ∧
  finishes (foldT throughput_cycle (Scheduler_new throughput_config (KVCacheManager_new allocator))
      (seqZ 0 n))
    (λ s, pool_back (cache_manager_ s) ∧ pending_ s = [] ∧ active_ s = [] ∧ preempted_ s = [] ∧
      lifetime_held_ s = 0).

(** The samples of the copy: its loop never leaves early, and every iteration ends idle. *)
Lemma copy_samples k n :
  runs (loop (copy_sample clock) (k, [], KVCacheManager_new allocator) (seqZ 0 n))
    (λ '(go, (_, samples, m)), go = true ∧
      length samples = length (filter (λ i, kWarmup <= i) (seqZ 0 n)) ∧ idle_cache num_layers m).
Proof.
  eapply runs_mono; [apply (runs_loop (copy_sample clock)
    (λ don '(_, samples, m), length samples = length (filter (λ i, kWarmup <= i) don) ∧
       idle_cache num_layers m)); [split; [done|apply cache_idle]|]|].
  - intros don x rest [[k' samples] m] _ [Hl Hm]. unfold copy_sample.
    pose proof (copy_cycle_idle num_layers m Hm) as Hc.
    destruct (with_sequence m kTokensPerBlock) as [m1|]; cbn [mbind option_bind runs] in *; [|done].
    destruct (ensure_token_writable (fork_it m1) 2 0 TextKV 0) as [[copy m2]|]; cbn [mbind option_bind runs] in *; [|done].
    destruct Hc as [[id ->] Hm2]. cbn [runs]. split_and!; [done| |done].
    rewrite filter_app, length_app, filter_cons, filter_nil.
    destruct (Z.leb_spec kWarmup x); case_decide; try lia; [by rewrite length_app, Hl|by rewrite Nat.add_0_r].
  - intros [go [[k' samples] m]] (-> & Hl & Hm). done.
Qed.

Lemma shape_gives_back : cycles_give_back.
Proof.
  intros n. split_and!.
  - eapply runs_mono; [apply (runs_foldM allocate_release (λ _, idle_pool num_layers));
      [apply allocator_idle|intros; by apply allocate_release_idle]|].
    intros a [Hi Hc Hr]. rewrite (idle_free a (proj1 Hi) Hr). by rewrite Hc.
  - eapply runs_mono; [apply (runs_foldM fork_cycle (λ _, idle_cache num_layers));
      [apply cache_idle|intros; by apply fork_cycle_idle]|].
    intros m Hm. split; [by apply idle_back|by apply (fork_succeeds num_layers)].
  - intros k. eapply runs_mono; [apply copy_samples|]. intros [go [[k' samples] m]] (-> & _ & Hm).
    split; [done|by apply idle_back].
  - eapply finishes_mono; [apply (finishes_foldT throughput_cycle (λ _, idle_scheduler num_layers));
      [apply scheduler_idle|intros; by apply throughput_cycle_idle]|].
    intros s Hs. pose proof Hs as [Hwf _ Hp Ha Hpr _].
    split_and!; [by apply idle_back, idle_scheduler_cache|done..|].
    rewrite (q_held _ (s_queues _ Hwf)), Ha. done.
Qed.

Lemma fork_reports kib r :
  finishes (bench_fork (B := B) aligned_alloc clock num_layers kib r)
    (reports [("fork sequence (8 blocks, with setup)"%string, kForkOps);
              ("fork sequence (8 blocks)"%string, 1)] kib r).
Proof.
  unfold bench_fork. apply finishes_then. eapply finishes_mono.
  { eapply (measure_calls clock _ (idle_cache num_layers)); [|apply cache_idle].
    intros m Hm. apply finishes_calls; [apply fork_cycle_idle|done]. }
  intros [[k stats] m] [Hn Hm].
  finish_step (finishes_calls fork_cycle (idle_cache num_layers)); [apply fork_cycle_idle|done|].
  clear m Hm. intros m Hm. apply finishes_defined.
  eapply runs_mono; [apply (runs_foldM (fork_sample clock)
    (λ don '(_, samples, m), length samples = length don ∧ idle_cache num_layers m)); [by split|]|].
  - intros don x rest [[k' samples] m'] _ [Hl Hm']. unfold fork_sample.
    pose proof (fork_cycle_idle num_layers m' x Hm') as Hc. unfold fork_cycle in Hc.
    destruct (with_sequence m' kForkPrompt) as [m''|]; cbn [mbind option_bind runs] in *; [|done].
    by rewrite !length_app, Hl.
  - intros [[k' samples] m'] [Hl Hm']. destruct (summarize_eleven samples Hl) as (alone & -> & Ha).
    apply finishes_returns. eexists. split; [done|]. split; [done|]. by repeat constructor.
Qed.

Lemma copy_reports kib r :
  finishes (bench_copy_on_write (B := B) aligned_alloc clock num_layers kib r)
    (reports [("copy-on-write (1 block)"%string, 1)] kib r).
Proof.
  unfold bench_copy_on_write. apply finishes_defined.
  eapply runs_mono; [apply (copy_samples (fst r) (kWarmup + kRepeats))|].
  intros [go [[k samples] m]] (-> & Hl & _). cbn [negb].
  destruct (summarize_eleven samples Hl) as (stats & -> & Hn).
  apply finishes_returns. eexists. split; [done|]. split; [done|]. by repeat constructor.
Qed.

Lemma throughput_reports kib r :
  finishes (bench_scheduler_throughput (B := B) aligned_alloc clock num_layers kib r)
    (reports [("scheduler admit + retire request"%string, kCycles * kBatchSize)] kib r).
Proof.
  unfold bench_scheduler_throughput. apply finishes_then. eapply finishes_mono.
  - eapply (measure_calls clock _ (idle_scheduler num_layers)); [|apply scheduler_idle].
    intros s Hs. eapply finishes_mono;
      [apply (finishes_foldT throughput_cycle (λ _, idle_scheduler num_layers)); [done|]|done].
    intros don x rest s' _. apply throughput_cycle_idle.
  - intros [[k stats] a] [Hn _]. apply finishes_returns. eexists. split; [done|].
    split; [done|]. by repeat constructor.
Qed.

(** The rows of one shape, in order. *)
Definition shape_rows : list (string * Z) :=
  [("allocate + release"%string, 50000); ("fork sequence (8 blocks, with setup)"%string, 2000);
   ("fork sequence (8 blocks)"%string, 1); ("copy-on-write (1 block)"%string, 1);
   ("scheduler admit + retire request"%string, 16000)].

Lemma run_shape_reports r :
  finishes (run_shape (B := B) aligned_alloc clock r num_layers)
    (reports shape_rows (64 * num_layers) r).
Proof.
  unfold run_shape. rewrite (shape_bytes num_layers Hlayers).
  replace (65536 * num_layers / 1024) with (64 * num_layers).
  2:{ replace (65536 * num_layers) with (64 * num_layers * 1024) by lia. by rewrite Z.div_mul. }
  set (kib := 64 * num_layers).
  finish_step (allocate_release_reports kib r). intros r1 H1.
  finish_step (fork_reports kib r1). intros r2 H2.
  finish_step (copy_reports kib r2). intros r3 H3.
  eapply finishes_mono; [apply throughput_reports|]. intros r4 H4.
  change shape_rows with ([("allocate + release"%string, kAllocateOps)] ++
    [("fork sequence (8 blocks, with setup)"%string, kForkOps); ("fork sequence (8 blocks)"%string, 1)] ++
    [("copy-on-write (1 block)"%string, 1)] ++
    [("scheduler admit + retire request"%string, kCycles * kBatchSize)]).
  eapply reports_trans; [exact H1|]. eapply reports_trans; [exact H2|]. by eapply reports_trans.
Qed.
End Shape.

(** ** The program *)

(** The default options of [main]. *)
Abbreviation parsed args := (bench_args false [8; 28] "results/week10-allocator.csv" args).

Lemma bench_args_typed args : ∀ set layers path layers' path',
  Forall is_u32 layers → bench_args set layers path args = inr (Some (layers', path')) →
  Forall is_u32 layers'.
Proof.
  enough (∀ n args set layers path layers' path', (length args ≤ n)%nat → Forall is_u32 layers →
    bench_args set layers path args = inr (Some (layers', path')) → Forall is_u32 layers') by eauto.
  clear args. induction n as [|n IH]; intros [|arg [|value rest]] set layers path layers' path' Hn Hl;
    simpl in *; intros Heq; simplify_eq; try done; try lia.
  destruct (String.eqb arg "--layers").
  - destruct (stoul value) as [v|]; [|done]. eapply IH; [|..|exact Heq]; [lia|].
    apply Forall_app. split; [by destruct set|]. constructor; [apply u32_range|done].
  - destruct (String.eqb arg "--csv"); [|done]. eapply IH; [|..|exact Heq]; [lia|done].
Qed.

(** The rows of a shape in the report. *)
Definition shape_part (num_layers : Z) (part : list Row) : Prop :=
  (λ row, (row_name row, row_ops row)) <$> part = shape_rows ∧
  Forall (λ row, row_n row = kRepeats ∧ row_block_kib row = 64 * num_layers) part.

Lemma run_shapes layers r :
  Forall (λ l, 0 < l < W32 ∧ pool_allocated l) layers →
  finishes (foldT (run_shape (B := B) aligned_alloc clock) r layers) (λ r', ∃ parts,
    snd r' = snd r ++ concat parts ∧ Forall2 shape_part layers parts).
Proof.
  intros Hall. revert r. induction Hall as [|l layers [Hl Hp] _ IH]; intros r.
  { apply finishes_returns. exists []. by rewrite app_nil_r. }
  cbn [foldT]. finish_step (run_shape_reports l Hl Hp r). intros r1 (part & E1 & Hn & Hf).
  eapply finishes_mono; [apply IH|]. intros r2 (parts & E2 & Hparts).
  exists (part :: parts). rewrite E2, E1, concat_cons, (assoc_L (++)). split; [done|]. by constructor.
Qed.

(** C30. The allocator benchmark measures what it names. Whatever the shapes it is run on, it is
    defined from the arguments to the report: the pool always has the frame that is
    dereferenced, and every one of the 28000 cycles of the scheduler admits the full batch
    of eight. The report has the five rows of each shape in order, each of eleven samples;
    the exit status is the verdict on the processor's clock. And the work repeats: after
    any number of iterations of a body every frame of the pool is free, no sequence and
    no request is left, the next fork succeeds over its eight blocks, and no copy on
    write was ever refused its frame. *)
Theorem bench_main_reports before after opens args layers csv_path :
  parsed args = inr (Some (layers, csv_path)) → opens csv_path = true →
  Forall (λ l, l ≠ 0 ∧ pool_allocated l) layers →
  finishes (bench_main (B := B) aligned_alloc clock before after opens args) (λ '(status, rows),
    status = (if freq_stable before after dbl_tenth then 0 else 1) ∧
    ∃ parts, rows = concat parts ∧ Forall2 shape_part layers parts) ∧
  Forall cycles_give_back layers.
Proof.
  intros Hargs Hopen Hl.
  assert (Forall is_u32 layers) as Hty by (by eapply bench_args_typed; [|exact Hargs]; repeat constructor).
  assert (Forall (λ l, 0 < l < W32 ∧ pool_allocated l) layers) as Hall.
  { apply Forall_forall. intros l Hin. destruct (proj1 (Forall_forall _ _) Hl l Hin) as [? ?].
    pose proof (proj1 (Forall_forall _ _) Hty l Hin). unfold is_u32 in *. split; [lia|done]. }
  split; [|eapply Forall_impl; [exact Hall|]; intros l [? ?]; by apply shape_gives_back].
  unfold bench_main. rewrite Hargs, Hopen. cbn [negb].
  apply finishes_then. eapply finishes_mono; [by apply run_shapes|].
  intros [k rows] (parts & E & Hp). apply finishes_returns. split; [done|]. by exists parts.
Qed.
End Pools.

(** ** Witness *)

Lemma bench_main_reports_witness :
  finishes (bench_main (B := HostSwapBackend) zero_pool (λ k, 10 * Z.of_nat k)
    (mkEnvSnapshot "" 2000000 0 "") (mkEnvSnapshot "" 1900000 0 "") (λ _, true) ["--layers"; "8"]%string)
    (λ '(status, rows), status = 0 ∧ length rows = 5%nat) ∧
  runs (foldM fork_cycle (KVCacheManager_new (bench_allocator (B := HostSwapBackend) zero_pool 8)) (seqZ 0 2000))
    (λ m, nfree (allocator_ m) = 128).
Proof.
  destruct (bench_main_reports (B := HostSwapBackend) zero_pool (λ k, 10 * Z.of_nat k)
    (mkEnvSnapshot "" 2000000 0 "") (mkEnvSnapshot "" 1900000 0 "") (λ _, true) ["--layers"; "8"]%string
    [8] "results/week10-allocator.csv") as [Hrep Hback]; [reflexivity|reflexivity| |].
  { constructor; [|constructor]. split; [by vm_compute|]. eexists _, _. split; [reflexivity|].
    rewrite length_replicate, Z2Nat.id; [reflexivity|]. vm_compute. discriminate. }
  split.
  - clear Hback. eapply finishes_mono; [exact Hrep|]. clear Hrep.
    intros [status rows] (-> & parts & -> & Hp). split; [by vm_compute|].
    inversion Hp as [|? part ? ? [Hn _] Hrest]; subst. inversion Hrest; subst.
    apply (f_equal length) in Hn. rewrite length_fmap in Hn. simpl. by rewrite app_nil_r.
  - apply Forall_inv in Hback. destruct (Hback 2000) as (_ & Hfork & _).
    eapply runs_mono; [exact Hfork|]. by intros m [[Hn _] _].
Defined.
