(* ===== verification/RooflineFill.v ===== *)
(** Filling a sequence of the roofline benchmark: a sequence alone in its pool has every
    frame to itself, so no write is refused or copies, and what it stores afterwards is
    the pattern, in frames of all layers and in frames of one. *)
From Stdlib Require Import Floats.SpecFloat.
From S2P Require Import Prelude.
From S2P Require Import Throws.
From S2P Require Import Block.
From S2P Require Import TraceReplay.
From S2P Require Import CacheLayout.
From S2P Require Import SwapBackend.
From S2P Require Import BlockTable.
From S2P Require Import MemoryAllocator.
From S2P Require Import AllocatorSpec.
From S2P Require Import AllocatorProps.
From S2P Require Import KVCacheManager.
From S2P Require Import CacheAccounting.
From S2P Require Import AllocatorMoves.
From S2P Require Import CacheInvariant.
From S2P Require Import CacheLemmas.
From S2P Require Import CacheLifecycle.
From S2P Require Import CacheGrowth.
From S2P Require Import CacheWrite.
From S2P Require Import CacheRelease.
From S2P Require Import CachePrefix.
From S2P Require Import CacheViews.
From S2P Require Import PagedAttention.
From S2P Require Import AttentionLoops.
From S2P Require Import AttentionCache.
From S2P Require Import Npy.
From S2P Require Import GoldenExport.
From S2P Require Import FloatBlocks.
From S2P Require Import GoldenFill.
From S2P Require Import GoldenProps.
From S2P Require Import Roofline.

(** ** The bytes of a vector *)

(** The vector written at a token and a head, and its bytes. *)
Definition u16_vector (token head n : Z) : list Z := (λ d, u16 (token ⊞ head ⊞ d)) <$> seqZ 0 n.
Definition u16_bytes (xs : list Z) : list byte := xs ≫= bytes_of_word 2.

Lemma u16_bytes_length xs : length (u16_bytes xs) = (2 * length xs)%nat.
Proof.
  unfold u16_bytes. induction xs as [|x xs IH]; [done|].
  rewrite bind_cons, length_app, bytes_of_word_length, IH. simpl. lia.
Qed.

Lemma u16_range z : u16 (u16 z) = u16 z.
Proof. unfold u16. apply Z.mod_mod. lia. Qed.

Lemma slice_app_l {A} (n : nat) (k l : list A) : length k = n → slice 0 n (k ++ l) = k.
Proof. intros <-. unfold slice. by rewrite drop_0, take_app_length. Qed.

Lemma slice_app_r {A} (off n w : nat) (k l : list A) :
  length k = w → slice (w + off) n (k ++ l) = slice off n l.
Proof. intros <-. unfold slice. rewrite skipn_app. f_equal. rewrite drop_ge by lia. simpl. f_equal. lia. Qed.

(** The elements read back. *)
Lemma u16_elements_read narrow (xs : list Z) :
  @elements Z spec_float (Element_u16 narrow) (length xs) (u16_bytes (u16 <$> xs)) = u16 <$> xs.
Proof.
  unfold elements. cbn [sizeof_T from_bytes Element_u16]. change (Z.to_nat 2) with 2%nat.
  induction xs as [|x xs IH]; [done|].
  assert (u16_bytes (u16 <$> x :: xs) = bytes_of_word 2 (u16 x) ++ u16_bytes (u16 <$> xs)) as -> by done.
  cbn [length]. rewrite <-cons_seq, <-fmap_S_seq, !fmap_cons. f_equal.
  - rewrite slice_app_l by done. rewrite word_of_bytes_of_word.
    change (256 ^ Z.of_nat 2) with 65536. apply u16_range.
  - etransitivity; [|exact IH]. rewrite <-list_fmap_compose. apply list_fmap_ext. intros _ i _.
    unfold compose. replace (S i * 2)%nat with (2 + i * 2)%nat by lia.
    by rewrite (slice_app_r (i * 2) 2 2).
Qed.

Lemma splice_append {A} off (k1 k2 l : list A) :
  (off + length k1 + length k2 ≤ length l)%nat →
  splice (off + length k1) k2 (splice off k1 l) = splice off (k1 ++ k2) l.
Proof.
  intros Hl. unfold splice. rewrite length_app.
  rewrite (assoc_L (++) (take off l)), take_app_length' by (rewrite length_app, length_take; lia).
  rewrite <-!(assoc_L (++)). do 2 f_equal. f_equal.
  rewrite (assoc_L (++) (take off l)), skipn_app.
  rewrite drop_ge by (rewrite length_app, length_take; lia). simpl.
  rewrite drop_drop, length_app, length_take. f_equal. lia.
Qed.

(** ** Vectors of a frame *)

(** Vectors of different coordinates do not overlap. *)
Lemma offsets_apart s layer stream t head layer' stream' t' head' :
  in_block s layer t head → in_block s layer' t' head' → 0 < head_dim s →
  (layer, stream, t, head) ≠ (layer', stream', t', head') →
  exact_offset s layer stream t head + head_dim s <= exact_offset s layer' stream' t' head' ∨
  exact_offset s layer' stream' t' head' + head_dim s <= exact_offset s layer stream t head.
Proof.
  intros Hin Hin' Hd Hne. set (o := exact_offset s layer stream t head).
  set (o' := exact_offset s layer' stream' t' head').
  destruct (decide (o + head_dim s <= o')) as [|H1]; [by left|].
  destruct (decide (o' + head_dim s <= o)) as [|H2]; [by right|]. exfalso. apply Hne.
  destruct (Z.le_ge_cases o o') as [Hle|Hle].
  - pose proof (exact_offset_decodes s layer stream t head (o' - o) Hin ltac:(lia)) as E.
    pose proof (exact_offset_decodes s layer' stream' t' head' 0 Hin' ltac:(lia)) as E'.
    fold o in E. fold o' in E'. replace (o + (o' - o)) with (o' + 0) in E by lia.
    rewrite E' in E. by injection E as -> -> -> -> _.
  - pose proof (exact_offset_decodes s layer stream t head 0 Hin ltac:(lia)) as E.
    pose proof (exact_offset_decodes s layer' stream' t' head' (o - o') Hin' ltac:(lia)) as E'.
    fold o in E. fold o' in E'. replace (o' + (o - o')) with (o + 0) in E' by lia.
    rewrite E in E'. by injection E' as -> -> -> -> _.
Qed.

Section Fill.
Context {B : Type} `{SwapBackendLaws B}.
Implicit Types a : MemoryAllocator B.
Implicit Types m : KVCacheManager B.

(** The writes of a vector are one write. *)
Lemma write_vector_frame a id base off token head (n : nat) :
  alloc_wf a → valid a id → pool_base_ a = Some base → 0 <= off →
  (off + Z.of_nat n) * 2 <= block_stride_bytes_ a →
  write_vector a (base + id * block_stride_bytes_ a) off token head (Z.of_nat n) =
    Some (set_frame a id (splice (Z.to_nat (off * 2))
      (u16_bytes (u16_vector token head (Z.of_nat n))) (frame a id))).
Proof.
  intros Hwf Hv Hb Ho. unfold write_vector, u16_vector. pose proof (length_frame a id Hwf Hv) as Hlf.
  induction n as [|n IH]; intros Hle.
  { change (Z.of_nat 0) with 0. rewrite seqZ_nil by lia. simpl. f_equal.
    unfold splice, u16_bytes. simpl. rewrite Nat.add_0_r, take_drop. by rewrite set_frame_same. }
  rewrite Nat2Z.inj_succ. unfold Z.succ. rewrite seqZ_app, foldM_app, IH by lia. clear IH.
  rewrite Z.add_0_l. change (seqZ (Z.of_nat n) 1) with [Z.of_nat n].
  rewrite fmap_app. cbn [mbind option_bind foldM fmap list_fmap].
  unfold u16_bytes. rewrite bind_app. fold (u16_bytes ((λ d, u16 (token ⊞ head ⊞ d)) <$> seqZ 0 (Z.of_nat n))).
  set (ks := u16_bytes _). set (x := u16 _).
  assert (length ks = (2 * n)%nat) as Hks.
  { unfold ks. by rewrite u16_bytes_length, length_fmap, length_seqZ, Nat2Z.id. }
  assert (length (bytes_of_word 2 x) = 2%nat) as Hx by apply bytes_of_word_length.
  set (blk := splice (Z.to_nat (off * 2)) ks (frame a id)).
  assert (length blk = length (frame a id)) as Hblk by (apply length_splice; lia).
  destruct (set_frame_wf a id blk Hwf Hv) as [Hwf' Hfr]; [lia|].
  replace (base + id * block_stride_bytes_ a + (off + Z.of_nat n) * 2) with
    (base + id * block_stride_bytes_ (set_frame a id blk) + (off + Z.of_nat n) * 2) by done.
  rewrite (write_in_frame (set_frame a id blk) id base); [|done|done|done|lia|].
  2:{ rewrite Hx. simpl. lia. }
  rewrite Hfr, decide_True by done. cbn [mbind option_bind]. f_equal.
  rewrite set_frame_twice; [|done|done|lia|].
  2:{ rewrite length_splice; lia. }
  f_equal. unfold blk. replace (Z.to_nat ((off + Z.of_nat n) * 2)) with (Z.to_nat (off * 2) + length ks)%nat by lia.
  rewrite splice_append by lia. by rewrite bind_singleton.
Qed.

(** ** A sequence alone in its pool *)

Context (s : BlockShape) (sid n : Z) (Hbytes : bytes_per_element s = 2).

(** All its blocks are resident, in frames nobody else refers to. *)
Record private m : Prop := {
  pv_wf : mgr_wf m;
  pv_pool : view_pool (allocator_ m);
  pv_shape : pool_shape (allocator_ m) = s;
  pv_seq : ∃ st, sequences_ m !! sid = Some st ∧ Z.of_nat (seq_blocks st) = n ∧
    ∀ e, e ∈ all_entries (tables st) →
      resident e = true ∧ refs (allocator_ m) (physical_id e) = 1
}.

(** The tables of the sequence. *)
Abbreviation table_limit := (if per_layer_frames s then num_layers s else 1).

Lemma private_shape m : private m → tpb_of m = tokens_per_block s ∧ 0 < tokens_per_block s ∧
  0 < frame_layers s ∧ 0 < num_kv_heads s ∧ 0 < head_dim s ∧ exact_elements s < W64 ∧
  shape_typed s ∧ exact_elements s * 2 <= block_stride_bytes_ (allocator_ m) ∧
  count_of m = table_limit.
Proof.
  intros [Hwf Hvp Hs _].
  destruct (pool_shape_config _ (proj1 (mgr_alloc _ Hwf)) (view_frames _ Hvp)) as [Hps Htp].
  pose proof (mgr_shape _ Hwf) as Hty.
  assert (count_of m = table_limit) as Hc by (unfold count_of, table_count; by rewrite Hs).
  rewrite <-Hps, Hs in *.
  pose proof (view_elements _ Hvp) as He. pose proof (view_range _ Hvp) as Hr.
  pose proof (view_fits _ Hvp) as Hf. rewrite <-Hps in He, Hr, Hf. rewrite Hbytes in Hr.
  destruct (exact_elements_pos s Hty) as (_ & H1 & H2 & H3 & H4); [lia|].
  split_and!; try done; try lia.
  rewrite byte_size_mod, Hbytes in Hf.
  replace (tokens_per_block s * frame_layers s * num_kv_heads s * head_dim s * 2 * 2)
    with (exact_elements s * 2) in Hf by (unfold exact_elements; ring).
  rewrite u64_small in Hf by words. done.
Qed.

Lemma private_entry m l i :
  private m → 0 <= l < table_limit → 0 <= i < n →
  ∃ e, entry_at m sid l i e ∧ resident e = true ∧ refs (allocator_ m) (physical_id e) = 1.
Proof.
  intros Hp Hl Hi. destruct (private_shape m Hp) as (_ & _ & _ & _ & _ & _ & _ & _ & Hc).
  pose proof Hp as [Hwf _ _ (st & Hst & Hn & Hall)].
  pose proof (mgr_seq _ Hwf _ _ Hst) as [_ Hlen Hd _].
  destruct (lookup_lt_is_Some_2 (tables st) (Z.to_nat l)) as [t Ht]; [lia|].
  pose proof (table_len _ _ _ _ (Forall_lookup_1 _ _ _ _ Hd Ht)) as Ht'.
  destruct (lookup_lt_is_Some_2 (entries_ t) (Z.to_nat i)) as [e He]; [lia|].
  exists e. split; [by exists st, t|]. apply Hall. apply list_elem_of_bind. exists t.
  split; by eapply list_elem_of_lookup_2.
Qed.

Lemma insert_all_entries ts k t i e e' :
  ts !! k = Some t → e ∈ all_entries (<[k := update_entry t i (λ _, e')]> ts) →
  e = e' ∨ e ∈ all_entries ts.
Proof.
  intros Hk He. apply list_elem_of_bind in He as (t' & Hin & (j & Hj)%list_elem_of_lookup_1).
  apply list_lookup_insert_Some in Hj as [(_ & <- & _)|(_ & Hj)].
  - apply list_elem_of_lookup in Hin as [x Hx]. simpl in Hx.
    destruct (decide (x = i)) as [->|Hne].
    + rewrite list_lookup_alter_eq in Hx. apply fmap_Some in Hx as (y & _ & ->). by left.
    + rewrite list_lookup_alter_ne in Hx by done. right. apply list_elem_of_bind. exists t.
      split; by eapply list_elem_of_lookup_2.
  - right. apply list_elem_of_bind. exists t'. split; [done|]. by eapply list_elem_of_lookup_2.
Qed.

(** Making a position writable finds its frame and changes nothing. *)
Lemma private_ensure m pos l :
  private m → 0 <= pos → pos / tokens_per_block s < n → 0 <= l < table_limit →
  runs (ensure_token_writable m sid pos TextKV l) (λ '(r, m'),
    ∃ e, r = Some (physical_id e) ∧ entry_at m' sid l (pos / tokens_per_block s) e ∧
      resident e = true ∧ refs (allocator_ m') (physical_id e) = 1 ∧
      private m' ∧ contents m' = contents m).
Proof.
  intros Hp Hpos Hlt Hl. destruct (private_shape m Hp) as (Htpb & Htpos & _).
  assert (0 <= pos / tokens_per_block s) as Hix by (apply Z.div_pos; lia).
  destruct (private_entry m l (pos / tokens_per_block s) Hp Hl) as (e & Hat & Hre & Hone); [lia|].
  pose proof Hp as [Hwf Hvp Hs (st & Hst & Hn & Hall)].
  destruct (ensure_reach m sid pos TextKV l Hwf Hpos) as [[_ Hno]|Hreach]; [lia| |].
  { exfalso. rewrite Htpb in Hno. rewrite (Hno e) in Hre; [done|lia|done]. }
  rewrite Htpb in Hreach. destruct Hreach as (st' & t & e0 & Hst' & Ht & He & _ & ->).
  assert (st' = st) as -> by congruence.
  assert (e0 = e) as -> by (destruct Hat as (x & y & Hx & Hy & Hz); congruence).
  pose proof (table_backed _ _ _ _ _ Hwf Hst Ht) as Hbt.
  pose proof (elem_backed _ _ _ _ Hbt He) as Hbe.
  pose proof (make_exclusive_spec (allocator_ m) e (mgr_alloc _ Hwf) Hre Hbe) as Hsp.
  destruct (make_exclusive (allocator_ m) e) as [[[[id e']|] a']|]; [| |done]; cbn [runs] in Hsp.
  2: lia.
  destruct Hsp as (-> & Hpre & _ & [(_ & -> & ->)|[? _]]); [|lia].
  destruct (rewrite_entry m sid st _ t _ e (allocator_ m) _ Hwf Hst Ht He Hpre eq_refl)
    as (Hwf' & Hc & _ & Ht' & He').
  cbn [mbind option_bind runs]. exists (entry_set_frame (physical_id e) true e).
  split_and!; [done| |done|done| |done].
  - eexists _, _. split; [apply lookup_insert_eq|]. done.
  - split; [done..|]. eexists. split; [apply lookup_insert_eq|]. split.
    + rewrite <-Hn. unfold seq_blocks. simpl. f_equal.
      pose proof (mgr_seq _ Hwf _ _ Hst) as [_ _ Hd _].
      destruct (Z.to_nat l) as [|k]; destruct (tables st) as [|t0 ts]; simpl; try done.
      injection Ht as ->. by rewrite length_alter.
    + simpl. intros e'' Hin. destruct (insert_all_entries _ _ _ _ _ _ Ht Hin) as [->|]; [done|by apply Hall].
Qed.
(** ** What the sequence stores *)

Context (narrow : spec_float → Z).
#[local] Instance u16_read : Element Z spec_float := Element_u16 narrow.
Context (Hlayers : per_layer_frames s = true ∨ frame_layers s = num_layers s).

(** A layer, a stream, a token and a head. *)
Definition position : Type := Z * KVStream * Z * Z.

Definition in_sequence (p : position) : Prop :=
  let '(layer, _, token, head) := p in
  0 <= layer < num_layers s ∧ 0 <= token ∧ token / tokens_per_block s < n ∧
  0 <= head < num_kv_heads s.

Definition stored_at m (p : position) : option (list Z) :=
  let '(layer, stream, token, head) := p in
  cached_vector (T := Z) (F := spec_float) m sid layer stream token head.

(** What the benchmark writes there. *)
Definition wanted_at (p : position) : list Z :=
  let '(_, _, token, head) := p in u16_vector token head (head_dim s).

(** The positions [don] were written and no other. *)
Definition written m (don : list position) m' : Prop :=
  ∀ p, in_sequence p →
    stored_at m' p = if decide (p ∈ don) then Some (wanted_at p) else stored_at m p.

Lemma written_refl m : written m [] m.
Proof. intros p _. rewrite decide_False; [done|apply not_elem_of_nil]. Qed.

Lemma written_trans m0 d1 m1 d2 m2 :
  written m0 d1 m1 → written m1 d2 m2 → written m0 (d1 ++ d2) m2.
Proof.
  intros H1 H2 p Hp. rewrite (H2 p Hp), (H1 p Hp).
  destruct (decide (p ∈ d2)), (decide (p ∈ d1)), (decide (p ∈ d1 ++ d2)) as [Hin|Hin];
    rewrite elem_of_app in Hin; try done; tauto.
Qed.

(** The block of the sequence at an index of a table. *)
Definition block_at m (l i : Z) : option (list byte) :=
  bs ← contents m !! sid; b ← bs !! Z.to_nat l; ob ← b !! Z.to_nat i; ob.

Definition table_of (layer : Z) : Z := if per_layer_frames s then layer else 0.
Definition layer_in_frame (layer : Z) : Z := if per_layer_frames s then 0 else layer.
Definition offset_of (p : position) : Z :=
  let '(layer, stream, token, head) := p in
  exact_offset s (layer_in_frame layer) stream (token mod tokens_per_block s) head.

Lemma in_sequence_block m layer stream token head :
  private m → in_sequence (layer, stream, token, head) →
  in_block s (layer_in_frame layer) (token mod tokens_per_block s) head ∧
  0 <= table_of layer < table_limit ∧ 0 <= token / tokens_per_block s < n.
Proof.
  intros Hp (Hl & Ht & Hn & Hh). destruct (private_shape m Hp) as (_ & Htpb & Hfl & _).
  pose proof (Z.mod_pos_bound token _ Htpb). unfold in_block, layer_in_frame, table_of.
  assert (0 <= token / tokens_per_block s) by (apply Z.div_pos; lia).
  destruct Hlayers as [Hpl|Hall]; destruct (per_layer_frames s); try done; split_and!; lia.
Qed.

Lemma stored_block m layer stream token head :
  private m → in_sequence (layer, stream, token, head) →
  stored_at m (layer, stream, token, head) =
    (b ← block_at m (table_of layer) (token / tokens_per_block s);
     Some (elements (T := Z) (F := spec_float) (Z.to_nat (head_dim s))
       (slice (Z.to_nat (offset_of (layer, stream, token, head) * 2))
          (Z.to_nat (head_dim s * 2)) b))).
Proof.
  intros Hp Hin. destruct (private_shape m Hp) as (Htpb & _ & _ & _ & HD & Hx & Hty & _).
  destruct (in_sequence_block m layer stream token head Hp Hin) as (Hb & _).
  unfold stored_at, cached_vector, block_at, table_of, layer_table, frame_layer.
  rewrite (pv_shape _ Hp), Htpb. fold (table_of layer). fold (layer_in_frame layer).
  destruct (contents m !! sid) as [bs|]; cbn [mbind option_bind]; [|done].
  destruct (bs !! Z.to_nat (table_of layer)) as [b|]; cbn [mbind option_bind]; [|done].
  destruct (b !! _) as [[bytes|]|]; cbn [mbind option_bind]; [|done..].
  by rewrite element_offset_exact.
Qed.

Lemma entry_block m l i e :
  entry_at m sid l i e → resident e = true → block_at m l i = Some (frame (allocator_ m) (physical_id e)).
Proof.
  intros (st & t & Hst & Ht & He) Hre. pose proof (contents_entry m sid st _ _ t e Hst Ht He) as Hc.
  unfold entry_bytes in Hc. destruct (resident_entry e Hre) as (_ & _ & Hsw). rewrite Hsw in Hc.
  unfold block_at. destruct (contents m !! sid) as [bs|]; [|done]. cbn [mbind option_bind] in *.
  destruct (bs !! _) as [b|]; [|done]. cbn [mbind option_bind] in *. by rewrite Hc.
Qed.

(** Writing a block the sequence has to itself. *)
Lemma private_block m l i e blk :
  private m → entry_at m sid l i e → resident e = true → refs (allocator_ m) (physical_id e) = 1 →
  0 <= l → 0 <= i → Z.of_nat (length blk) = block_stride_bytes_ (allocator_ m) →
  let m' := write_block m (physical_id e) blk in
  private m' ∧ ∀ l' i', 0 <= l' → 0 <= i' →
    block_at m' l' i' = if decide ((l', i') = (l, i)) then Some blk else block_at m l' i'.
Proof.
  intros Hp Hat Hre Hone Hl Hi Hlen m'.
  destruct (write_block_spec m sid l i e blk (pv_wf _ Hp) Hat Hre Hone Hlen) as (Hwf' & _ & Hc).
  fold m' in Hwf', Hc. pose proof Hp as [Hwf Hvp Hs Hseq]. split.
  - assert (same_pool (allocator_ m) (allocator_ m')) as Hpool by done.
    split; [done|by eapply view_pool_same| |exact Hseq].
    rewrite (pool_shape_same (allocator_ m)); [done|apply Hwf|apply Hwf'|done|apply Hvp].
  - intros l' i' Hl' Hi'. pose proof (entry_block m l i e Hat Hre) as Hb.
    unfold block_at in *. rewrite Hc, lookup_alter_eq.
    destruct (contents m !! sid) as [bs|]; [|done]. cbn [fmap option_fmap option_map mbind option_bind] in *.
    destruct (decide ((l', i') = (l, i))) as [[= -> ->]|Hne].
    + rewrite list_lookup_alter_eq. destruct (bs !! Z.to_nat l) as [b|]; [|done].
      cbn [fmap option_fmap option_map mbind option_bind] in *. rewrite list_lookup_alter_eq.
      by destruct (b !! Z.to_nat i) as [ob|].
    + destruct (decide (l' = l)) as [->|Hnl].
      * rewrite list_lookup_alter_eq. destruct (bs !! Z.to_nat l) as [b|]; [|done].
        cbn [fmap option_fmap option_map mbind option_bind] in *.
        rewrite list_lookup_alter_ne; [done|]. intros Heq. apply Hne. f_equal. lia.
      * rewrite list_lookup_alter_ne; [done|]. lia.
Qed.

(** Writing one vector. *)
Lemma private_write m layer stream token head e :
  private m → in_sequence (layer, stream, token, head) →
  entry_at m sid (table_of layer) (token / tokens_per_block s) e → resident e = true →
  refs (allocator_ m) (physical_id e) = 1 →
  let p := (layer, stream, token, head) in
  let m' := write_block m (physical_id e)
    (splice (Z.to_nat (offset_of p * 2)) (u16_bytes (wanted_at p)) (frame (allocator_ m) (physical_id e))) in
  private m' ∧ written m [p] m'.
Proof.
  intros Hp Hin Hat Hre Hone p m'.
  destruct (private_shape m Hp) as (_ & _ & _ & _ & HD & Hx & _ & Hfit & _).
  destruct (in_sequence_block m layer stream token head Hp Hin) as (Hb & Hl & Hi).
  assert (valid (allocator_ m) (physical_id e)) as Hv.
  { apply refs_pos_valid; [apply Hp|lia]. }
  pose proof (length_frame (allocator_ m) (physical_id e) (proj1 (mgr_alloc _ (pv_wf _ Hp))) Hv) as Hlf.
  destruct (exact_offset_bound s _ stream _ _ (head_dim s - 1) Hb) as [Ho1 Ho2]; [lia|].
  change (exact_offset _ _ _ _ _) with (offset_of p) in Ho1, Ho2.
  assert (length (u16_bytes (wanted_at p)) = Z.to_nat (head_dim s * 2)) as Hbl.
  { rewrite u16_bytes_length. unfold wanted_at, p, u16_vector. rewrite length_fmap, length_seqZ. lia. }
  set (blk := splice _ _ _) in *.
  assert (length blk = length (frame (allocator_ m) (physical_id e))) as Hblk by (apply length_splice; lia).
  destruct (private_block m (table_of layer) (token / tokens_per_block s) e blk) as [Hp' Hat']; try done; [lia..|].
  fold m' in Hp', Hat'. split; [done|]. intros [[[layer' stream'] token'] head'] Hin'.
  destruct (in_sequence_block m layer' stream' token' head' Hp Hin') as (Hb' & Hl' & Hi').
  destruct (exact_offset_bound s _ stream' _ _ (head_dim s - 1) Hb') as [Ho1' Ho2']; [lia|].
  rewrite (stored_block m') by done. rewrite Hat' by lia.
  set (q := (layer', stream', token', head')) in *.
  change (exact_offset _ _ _ _ _) with (offset_of q) in Ho1', Ho2'.
  destruct (decide ((table_of layer', token' / tokens_per_block s) = _)) as [[= E1 E2]|Hne].
  - cbn [mbind option_bind]. destruct (decide (_ ∈ _)) as [Hq|Hq].
    + apply list_elem_of_singleton in Hq. injection Hq as -> -> -> ->. fold p. f_equal.
      unfold blk. rewrite <-Hbl, slice_splice_same by lia.
      unfold q, p, wanted_at, u16_vector.
      replace (Z.to_nat (head_dim s)) with (length ((λ d, token ⊞ head ⊞ d) <$> seqZ 0 (head_dim s)))
        by (by rewrite length_fmap, length_seqZ).
      rewrite (list_fmap_compose (λ d, token ⊞ head ⊞ d) u16). apply u16_elements_read.
    + rewrite list_elem_of_singleton in Hq.
      change (stored_at m q) with (stored_at m (layer', stream', token', head')). rewrite stored_block by done.
      rewrite E1, E2, (entry_block m _ _ e Hat Hre). cbn [mbind option_bind]. do 2 f_equal.
      unfold blk. apply slice_splice_other; [lia|]. rewrite Hbl.
      destruct (offsets_apart s (layer_in_frame layer') stream' (token' mod tokens_per_block s) head'
        (layer_in_frame layer) stream (token mod tokens_per_block s) head) as [Hd|Hd]; try done.
      * intros [= F1 -> F2 ->]. apply Hq. unfold q, p.
        destruct (private_shape m Hp) as (_ & Htpb & _).
        pose proof (Z.div_mod token (tokens_per_block s)). pose proof (Z.div_mod token' (tokens_per_block s)).
        assert (token' = token) as -> by nia.
        assert (layer' = layer) as ->; [|done]. unfold table_of, layer_in_frame in *.
        by destruct (per_layer_frames s).
      * left. assert (offset_of q + head_dim s <= offset_of p) by exact Hd. fold q. lia.
      * right. assert (offset_of p + head_dim s <= offset_of q) by exact Hd. fold q. lia.
  - rewrite decide_False; [exact (eq_sym (stored_block m layer' stream' token' head' Hp Hin'))|]. rewrite list_elem_of_singleton.
    intros [= -> -> -> ->]. by apply Hne.
Qed.
(** ** The loops *)

(** A loop whose body keeps an invariant and writes positions of its own. *)
Lemma loop_written {S X} (cache : S → KVCacheManager B) (I : S → Prop)
    (f : S → X → option (bool * S)) (g : X → list position) l s0 :
  (∀ x s1, x ∈ l → I s1 → runs (f s1 x) (λ '(go, s2),
     go = true ∧ I s2 ∧ written (cache s1) (g x) (cache s2))) →
  I s0 →
  runs (loop f s0 l) (λ '(go, s1), go = true ∧ I s1 ∧ written (cache s0) (l ≫= g) (cache s1)).
Proof.
  intros Hf Hstart. apply (runs_loop f (λ don s1, I s1 ∧ written (cache s0) (don ≫= g) (cache s1))).
  { split; [done|apply written_refl]. }
  intros don x rest s1 -> [Hs1 Hw]. eapply runs_mono; [apply (Hf x s1); [|done]|].
  - apply elem_of_app. right. by left.
  - intros [go s2] (-> & Hs2 & Hw2). split_and!; [done..|].
    rewrite bind_app, bind_singleton. by eapply written_trans.
Qed.

(** The pool while a frame is being written, and the cache it belongs to. *)
Definition holding m a : KVCacheManager B := with_state m a (sequences_ m).

Record writing m (e : BlockTableEntry) (base : Z) a : Prop := {
  wr_private : private (holding m a);
  wr_refs : refs a (physical_id e) = 1;
  wr_base : pool_base_ a = Some base;
  wr_stride : block_stride_bytes_ a = block_stride_bytes_ (allocator_ m)
}.

Section Frame.
Context (m : KVCacheManager B) (e : BlockTableEntry) (base token : Z).
Context (Hre : resident e = true).
Abbreviation address := (base + physical_id e * block_stride_bytes_ (allocator_ m)).
Abbreviation layout := (mkKVBlockLayout s).

Lemma fill_head_spec a layer stream head :
  writing m e base a → in_sequence (layer, stream, token, head) →
  entry_at m sid (table_of layer) (token / tokens_per_block s) e →
  runs (fill_head layout address (layer_in_frame layer) stream token a head) (λ '(go, a'),
    go = true ∧ writing m e base a' ∧
    written (holding m a) [(layer, stream, token, head)] (holding m a')).
Proof.
  intros [Hp Hone Hb Hst] Hin Hat.
  destruct (private_shape _ Hp) as (_ & Htpb & _ & _ & HD & Hx & Hty & Hfit & _).
  destruct (in_sequence_block _ layer stream token head Hp Hin) as (Hblk & _).
  pose proof (proj1 (mgr_alloc _ (pv_wf _ Hp))) as Hwf. cbn [holding with_state allocator_] in Hwf, Hfit.
  assert (valid a (physical_id e)) as Hv by (apply refs_pos_valid; [done|lia]).
  destruct (exact_offset_bound s _ stream _ _ (head_dim s - 1) Hblk) as [Ho1 Ho2]; [lia|].
  unfold fill_head. cbn [shape]. rewrite (proj2 (Z.eqb_neq _ _)) by lia.
  rewrite element_offset_exact by done. cbn [shape]. rewrite <-Hst.
  rewrite <-(Z2Nat.id (head_dim s)) at 1 by lia.
  rewrite write_vector_frame by (done || lia). cbn [mbind option_bind runs].
  rewrite Z2Nat.id by lia. set (blk := splice _ _ _).
  destruct (private_write _ layer stream token head e Hp Hin Hat Hre Hone) as [Hp' Hw].
  change (write_block (holding m a) (physical_id e) _) with (holding m (set_frame a (physical_id e) blk)) in Hp', Hw.
  split_and!; [done| |exact Hw]. by split.
Qed.

Definition layer_positions (layer : Z) : list position :=
  [Key; Value] ≫= λ stream, seqZ 0 (num_kv_heads s) ≫= λ head, [(layer, stream, token, head)].

Lemma fill_layer_spec a layer :
  writing m e base a → 0 <= layer < num_layers s → 0 <= token → token / tokens_per_block s < n →
  entry_at m sid (table_of layer) (token / tokens_per_block s) e →
  runs (fill_layer layout address token a layer) (λ '(go, a'),
    go = true ∧ writing m e base a' ∧
    written (holding m a) (layer_positions layer) (holding m a')).
Proof.
  intros Hw Hl Ht Htn Hat. unfold fill_layer. cbn [shape]. fold (layer_in_frame layer).
  apply (loop_written (holding m) (writing m e base)); [|done]. intros stream a1 _ Ha1.
  apply (loop_written (holding m) (writing m e base)); [|done]. intros head a2 Hh%elem_of_seqZ Ha2.
  apply fill_head_spec; [done..| |done]. split_and!; done || lia.
Qed.
End Frame.

(** The layers written into the frame of one [ensure_layer]. *)
Definition frame_layers_of (layers ensure_layer : Z) : list Z :=
  if per_layer_frames s then [ensure_layer] else seqZ 0 layers.

Lemma fill_frame_spec m layers token l :
  private m → 0 <= layers <= num_layers s → 0 <= token → token / tokens_per_block s < n →
  0 <= l < (if per_layer_frames s then layers else 1) →
  runs (fill_frame (mkKVBlockLayout s) layers sid token m l) (λ '(go, m'),
    go = true ∧ private m' ∧ written m (frame_layers_of layers l ≫= layer_positions token) m').
Proof.
  intros Hp HL Ht Htn Hl. unfold fill_frame.
  assert (0 <= l < table_limit) as Hl' by (destruct (per_layer_frames s); lia).
  eapply runs_bind, runs_mono; [by apply private_ensure|].
  intros [r m1] (e & -> & Hat & Hre & Hone & Hp1 & Hc1).
  pose proof (proj1 (mgr_alloc _ (pv_wf _ Hp1))) as Hwf.
  assert (valid (allocator_ m1) (physical_id e)) as Hv by (apply refs_pos_valid; [done|lia]).
  rewrite block_valid by done.
  destruct (frame_address (allocator_ m1) (physical_id e) Hwf Hv) as (base & Hbase & ->).
  cbn [mbind option_bind shape].
  assert (holding m1 (allocator_ m1) = m1) as Hself by (by destruct m1).
  assert (seqZ (if per_layer_frames s then l else 0)
    ((if per_layer_frames s then l ⊞ 1 else layers) - (if per_layer_frames s then l else 0)) =
    frame_layers_of layers l) as ->.
  { unfold frame_layers_of. destruct (private_shape m Hp) as (_ & _ & _ & _ & _ & _ & [_ Hn _ _ _ _] & _).
    destruct (per_layer_frames s); [|by rewrite Z.sub_0_r].
    rewrite u32_small by words. rewrite seqZ_cons by lia. rewrite seqZ_nil by lia. done. }
  apply runs_bind. eapply runs_mono.
  - apply (loop_written (holding m1) (writing m1 e base) _ (layer_positions token)).
    2:{ split; [by rewrite Hself|done..]. }
    intros layer a Hin Ha. assert (0 <= layer < num_layers s ∧ table_of layer = l) as [Hr Htab].
    { unfold frame_layers_of, table_of in *. destruct (per_layer_frames s).
      - apply list_elem_of_singleton in Hin as ->. lia.
      - apply elem_of_seqZ in Hin. lia. }
    apply fill_layer_spec; try done. by rewrite Htab.
  - intros [go a] (-> & Ha & Hw). cbn [runs]. split_and!; [done|apply Ha|].
    rewrite Hself in Hw. intros p Hin. etransitivity; [by apply Hw|]. case_decide; [done|].
    destruct p as [[[layer stream] tk] head]. rewrite !stored_block by done.
    unfold block_at. by rewrite Hc1.
Qed.

Definition token_positions (layers token : Z) : list position :=
  seqZ 0 (if per_layer_frames s then layers else 1) ≫= λ l,
    frame_layers_of layers l ≫= layer_positions token.
Definition sequence_positions (layers context : Z) : list position :=
  seqZ 0 context ≫= token_positions layers.

Lemma fill_tokens_spec m layers context :
  private m → 0 <= layers <= num_layers s → context <= n * tokens_per_block s →
  runs (loop (fill_token (mkKVBlockLayout s) layers sid) m (seqZ 0 context)) (λ '(go, m'),
    go = true ∧ private m' ∧ written m (sequence_positions layers context) m').
Proof.
  intros Hp HL Hctx. destruct (private_shape m Hp) as (_ & Htpb & _).
  apply (loop_written id private); [|done]. intros token m1 Ht%elem_of_seqZ Hm1.
  unfold fill_token. cbn [shape]. apply (loop_written id private); [|done].
  intros l m2 Hl%elem_of_seqZ Hm2. apply fill_frame_spec; [done|done|lia| |lia].
  apply Z.div_lt_upper_bound; lia.
Qed.

Lemma elem_sequence_positions layers context layer stream token head :
  (layer, stream, token, head) ∈ sequence_positions layers context ↔
  0 <= layer < layers ∧ 0 <= token < context ∧ 0 <= head < num_kv_heads s.
Proof.
  unfold sequence_positions, token_positions, layer_positions, frame_layers_of.
  repeat setoid_rewrite list_elem_of_bind. setoid_rewrite elem_of_seqZ.
  setoid_rewrite list_elem_of_singleton. split.
  - intros (tk & (l & (ly & (st & (h & [= -> -> -> ->] & Hh) & _) & Hly) & Hl) & Ht).
    destruct (per_layer_frames s); [apply list_elem_of_singleton in Hly as ->|apply elem_of_seqZ in Hly]; lia.
  - intros (Hl & Ht & Hh). exists token. split; [|lia].
    exists (if per_layer_frames s then layer else 0).
    split; [|destruct (per_layer_frames s); lia]. exists layer. split.
    + exists stream. split; [|destruct stream; [by left|right; by left]]. exists head. split; [done|lia].
    + destruct (per_layer_frames s); [by apply list_elem_of_singleton|]. apply elem_of_seqZ. lia.
Qed.
End Fill.
