(* ===== verification/RooflineStreams.v ===== *)
(** The streams of the roofline benchmark: a triad is defined and sums its arrays
    element by element, and the threads of the parallel region share its elements out
    without overlap, so that every order in which they run gives the result of one
    thread. *)
From Stdlib Require Import Floats.SpecFloat.
From S2P Require Import Prelude.
From S2P Require Import PagedAttention.
From S2P Require Import GoldenExport.
From S2P Require Import Roofline.

(** ** Interleavings *)

Lemma interleaves_perm {A} (threads : list (list A)) order :
  interleaves threads order → order ≡ₚ concat threads.
Proof.
  induction 1 as [threads Hall|threads k x l rest Hk _ IH].
  - induction Hall as [|t ts -> _ IH]; [done|]. exact IH.
  - rewrite IH. rewrite <-(take_drop_middle _ _ _ Hk) at 2.
    rewrite insert_take_drop by (by eapply lookup_lt_Some).
    rewrite !concat_app, !concat_cons. simpl. by rewrite <-Permutation_middle.
Qed.

(** ** The shares of the threads *)

Lemma share_bound n threads k : 0 <= n → 0 < threads → 0 <= k <= threads → 0 <= n * k / threads <= n.
Proof.
  intros Hn Ht Hk. split; [apply Z.div_pos; nia|]. apply Z.div_le_upper_bound; nia.
Qed.

(** The shares, one after the other, are the whole range. *)
Lemma parallel_steps_all n threads :
  0 <= n → 0 < threads → n * threads < W64 → concat (parallel_steps n threads) = seqZ 0 n.
Proof.
  intros Hn Ht Hmax. unfold parallel_steps.
  assert (∀ k : nat, Z.of_nat k <= threads →
    concat (thread_steps n threads <$> seqZ 0 (Z.of_nat k)) = seqZ 0 (n * Z.of_nat k / threads)) as Hgen.
  { induction k as [|k IH]; intros Hk; [by rewrite Z.mul_0_r, Z.div_0_l by lia|].
    rewrite Nat2Z.inj_succ. unfold Z.succ. rewrite seqZ_app, fmap_app, concat_app, IH by lia.
    rewrite Z.add_0_l. change (seqZ (Z.of_nat k) 1) with [Z.of_nat k]. cbn [fmap list_fmap concat].
    rewrite app_nil_r. unfold thread_steps, thread_share.
    rewrite (u64_small (n * Z.of_nat k)), (u64_small (n * (Z.of_nat k + 1))) by (unfold is_u64; nia).
    pose proof (share_bound n threads (Z.of_nat k) Hn Ht ltac:(lia)) as Hb.
    pose proof (share_bound n threads (Z.of_nat k + 1) Hn Ht ltac:(lia)) as Hb'.
    assert (n * Z.of_nat k / threads <= n * (Z.of_nat k + 1) / threads) as Hmono
      by (apply Z.div_le_mono; nia).
    set (lo := n * Z.of_nat k / threads) in *. set (hi := n * (Z.of_nat k + 1) / threads) in *.
    rewrite u64_small by (unfold is_u64; nia). rewrite fmap_add_seqZ, Z.add_0_r.
    replace hi with (lo + (hi - lo)) at 2 by lia. rewrite (seqZ_app 0 lo) by lia. by rewrite Z.add_0_l. }
  specialize (Hgen (Z.to_nat threads)). rewrite Z2Nat.id in Hgen by lia.
  rewrite Hgen by lia. by rewrite Z.div_mul by lia.
Qed.

(** ** The arrays *)

Section Triad.
Context {F : Type} `{FloatOps F}.
Implicit Types a b c : list F.

(** What iterations in any order leave: the sum where one ran, the rest as it was. *)
Definition triad_of (order : list Z) a b c (s : F) (i : nat) : option F :=
  if decide (Z.of_nat i ∈ order) then x ← b !! i; y ← c !! i; Some (f_add x (f_mul s y)) else a !! i.

Lemma triad_order a b c s order :
  Forall (λ i, 0 <= i < Z.of_nat (length a)) order →
  (length a <= length b)%nat → (length a <= length c)%nat →
  ∃ a', foldM (triad_step b c s) a order = Some a' ∧ length a' = length a ∧
    ∀ i, (i < length a)%nat → a' !! i = triad_of order a b c s i.
Proof.
  intros Hall Hb Hc. induction order as [|k order IH] using rev_ind.
  { exists a. split_and!; [done..|]. intros i _. unfold triad_of. by rewrite decide_False by apply not_elem_of_nil. }
  apply Forall_app in Hall as [Hall Hk%Forall_inv]. destruct (IH Hall) as (a1 & Hrun & Hlen & Hat). clear IH.
  destruct (lookup_lt_is_Some_2 b (Z.to_nat k)) as [x Hx]; [lia|].
  destruct (lookup_lt_is_Some_2 c (Z.to_nat k)) as [y Hy]; [lia|].
  exists (<[Z.to_nat k := f_add x (f_mul s y)]> a1). split_and!.
  - rewrite foldM_app, Hrun. cbn [mbind option_bind foldM]. unfold triad_step, vec_get, vec_set.
    rewrite !(proj2 (Z.leb_le 0 k)) by lia. rewrite Hx, Hy. cbn [mbind option_bind].
    by rewrite (proj2 (Z.ltb_lt _ _)) by lia.
  - by rewrite length_insert.
  - intros i Hi. unfold triad_of. destruct (decide (Z.to_nat k = i)) as [<-|Hne].
    + rewrite list_lookup_insert_eq by lia. rewrite decide_True, Hx, Hy; [done|].
      apply elem_of_app. right. apply list_elem_of_singleton. lia.
    + rewrite list_lookup_insert_ne, Hat by done. unfold triad_of.
      destruct (decide (_ ∈ order)) as [Hin|Hin].
      * rewrite decide_True; [done|]. apply elem_of_app. by left.
      * rewrite decide_False; [done|]. rewrite elem_of_app, list_elem_of_singleton. intros [|]; [done|lia].
Qed.

(** The loop of one thread. *)
Lemma triad_runs a b c begin s n :
  0 <= begin → begin + n <= Z.of_nat (length a) →
  (length a <= length b)%nat → (length a <= length c)%nat →
  ∃ a', triad a b c begin s n = Some a' ∧ length a' = length a ∧
    ∀ i, (i < length a)%nat → a' !! i = triad_of (seqZ begin n) a b c s i.
Proof.
  intros Hb Hn Hlb Hlc.
  assert (triad a b c begin s n = foldM (triad_step b c s) a (seqZ begin n)) as ->.
  { unfold triad. replace (seqZ begin n) with (Z.add begin <$> seqZ 0 n) by (by rewrite fmap_add_seqZ, Z.add_0_r).
    generalize (seqZ 0 n). clear. intros l. revert a. induction l as [|i l IH]; intros a; [done|].
    rewrite fmap_cons. cbn [foldM]. destruct (triad_step b c s a (begin + i)); [|done]. apply IH. }
  apply triad_order; [|done..]. apply Forall_forall. intros i Hi%elem_of_seqZ. lia.
Qed.

(** The order in which threads ran: every element once. *)
Lemma parallel_order n threads order :
  0 <= n → 0 < threads → n * threads < W64 → interleaves (parallel_steps n threads) order →
  order ≡ₚ seqZ 0 n.
Proof. intros Hn Ht Hmax Hord%interleaves_perm. by rewrite parallel_steps_all in Hord. Qed.

(** C33. The parallel triad is the sequential one. Whatever the number of threads and
    however their iterations interleave, every element is written exactly once, by one
    thread, and the arrays end up as one thread leaves them: the shares cover the range
    without overlap, rounding included. *)
Theorem parallel_triad_exact a b c s n threads order :
  0 <= n <= Z.of_nat (length a) → (length a <= length b)%nat → (length a <= length c)%nat →
  0 < threads → n * threads < W64 → interleaves (parallel_steps n threads) order →
  order ≡ₚ seqZ 0 n ∧ is_Some (triad a b c 0 s n) ∧
  parallel_triad a b c s order = triad a b c 0 s n.
Proof.
  intros Hn Hb Hc Ht Hmax Hord. apply parallel_order in Hord; [|lia..]. split; [done|].
  destruct (triad_runs a b c 0 s n) as (a1 & -> & Hl1 & Hat1); [lia..|].
  destruct (triad_order a b c s order) as (a2 & Hrun & Hl2 & Hat2); [|done..|].
  { rewrite Hord. apply Forall_forall. intros i Hi%elem_of_seqZ. lia. }
  split; [done|]. unfold parallel_triad. rewrite Hrun. f_equal.
  apply list_eq_same_length with (length a); [done..|]. intros i x y Hi Hx Hy.
  rewrite Hat2 in Hx by lia. rewrite Hat1 in Hy by lia. unfold triad_of in *.
  destruct (decide (Z.of_nat i ∈ order)) as [Hin|Hin]; rewrite Hord in Hin.
  - rewrite decide_True in Hy by done. congruence.
  - rewrite decide_False in Hy by done. congruence.
Qed.
End Triad.

(** Three threads over four elements. *)
Lemma parallel_triad_exact_witness :
  let f := float_of_u32 in
  [2; 0; 3; 1] ≡ₚ seqZ 0 4 ∧
  is_Some (triad (H := binary32 id) [f 1; f 1; f 1; f 1] [f 2; f 3; f 4; f 5] [f 1; f 2; f 3; f 4] 0 (f 2) 4) ∧
  parallel_triad (H := binary32 id) [f 1; f 1; f 1; f 1] [f 2; f 3; f 4; f 5] [f 1; f 2; f 3; f 4] (f 2) [2; 0; 3; 1] =
  triad (H := binary32 id) [f 1; f 1; f 1; f 1] [f 2; f 3; f 4; f 5] [f 1; f 2; f 3; f 4] 0 (f 2) 4.
Proof.
  apply (parallel_triad_exact (H := binary32 id) _ _ _ _ 4 3); try done.
  change (parallel_steps 4 3) with [[0]; [1]; [2; 3]].
  apply (interleaves_step _ 2 2 [3]); [done|]. apply (interleaves_step _ 0 0 []); [done|].
  apply (interleaves_step _ 2 3 []); [done|]. apply (interleaves_step _ 1 1 []); [done|].
  constructor. by repeat constructor.
Defined.
