(* ===== verification/RooflineProps.v ===== *)
(** The roofline benchmark runs to its end: every cache it fills is filled, every kernel
    it times succeeds, and the report has every row with the traffic it names. *)
From stdpp Require Import pretty.
From Stdlib Require Import Floats.SpecFloat.
From S2P Require Import Prelude.
From S2P Require Import Throws.
From S2P Require Import Block.
From S2P Require Import TraceReplay.
From S2P Require Import CacheLayout.
From S2P Require Import SwapBackend.
From S2P Require Import BlockTable.
From S2P Require Import MemoryAllocator.
From S2P Require Import AllocatorSpec.
From S2P Require Import AllocatorProps.
From S2P Require Import KVCacheManager.
From S2P Require Import CacheAccounting.
From S2P Require Import CacheInvariant.
From S2P Require Import CacheLemmas.
From S2P Require Import CacheLifecycle.
From S2P Require Import CacheGrowth.
From S2P Require Import CacheWrite.
From S2P Require Import CacheSwap.
From S2P Require Import CacheRelease.
From S2P Require Import CachePrefix.
From S2P Require Import CacheProps.
From S2P Require Import CacheViews.
From S2P Require Import Scheduler.
From S2P Require Import SchedulerInvariant.
From S2P Require Import SchedulerAdmission.
From S2P Require Import PagedAttention.
From S2P Require Import AttentionLoops.
From S2P Require Import AttentionCache.
From S2P Require Import AttentionGroups.
From S2P Require Import AttentionProps.
From S2P Require Import AttentionEquiv.
From S2P Require Import Stats.
From S2P Require Import PagedReplay.
From S2P Require Import Roofline.
From S2P Require Import RooflineFill.
From S2P Require Import RooflineStreams.

Section Start.
Context {B : Type} `{SwapBackendLaws B}.
Implicit Types m : KVCacheManager B.

(** ** A sequence alone in its pool *)

(** As many taken frames as entries: every entry has a frame of its own. *)
Lemma lone_sequence_refs m sid st e :
  mgr_wf m → sequences_ m = {[sid := st]} → prefix_index_ m = ∅ →
  all_resident (tables st) = true →
  nfree (allocator_ m) =
    max_blocks (config_ (allocator_ m)) - Z.of_nat (length (all_entries (tables st))) →
  e ∈ all_entries (tables st) → refs (allocator_ m) (physical_id e) = 1.
Proof.
  intros Hwf Hs Hp Hres Hn He. set (es := all_entries (tables st)) in *. set (a := allocator_ m) in *.
  assert (∀ id, refs a id = zcount id (physical_id <$> es)) as Hrefs.
  { intros id. unfold a. rewrite (proj1 (mgr_accounted _ Hwf)), Hs, Hp. unfold seq_refs, pin_refs.
    rewrite map_zsum_empty, <-insert_empty, map_zsum_insert, map_zsum_empty by done.
    rewrite !Z.add_0_r. f_equal. fold es.
    assert (∀ e, e ∈ es → swap_slot e = None) as Hall by by apply all_resident_spec.
    clear Hn He. induction es as [|x es IH]; [done|]. rewrite frames_of_cons, fmap_cons.
    rewrite <-IH by (intros; apply Hall; by right). unfold entry_frames. by rewrite Hall by by left. }
  rewrite (nfree_count a) in Hn by apply Hwf.
  set (all := seqZ 0 (max_blocks (config_ a))) in *.
  pose proof (Permutation_length (filter_app_complement (λ id, refs a id = 0) all)) as Hsplit.
  rewrite length_app in Hsplit. unfold all in Hsplit at 3. rewrite length_seqZ in Hsplit.
  set (used := filter (λ id, refs a id ≠ 0%Z) all) in *.
  assert (used ⊆+ physical_id <$> es) as Hsub.
  { apply NoDup_submseteq; [apply NoDup_filter, NoDup_seqZ|].
    intros id [Hid _]%list_elem_of_filter. rewrite Hrefs in Hid.
    apply zcount_pos. pose proof (zcount_nonneg id (physical_id <$> es)). lia. }
  assert (NoDup (physical_id <$> es)) as Hnd.
  { apply (submseteq_length_Permutation used) in Hsub; [|rewrite length_fmap; lia].
    rewrite <-Hsub. apply NoDup_filter, NoDup_seqZ. }
  rewrite Hrefs. assert (physical_id e ∈ physical_id <$> es) as Hin by by apply list_elem_of_fmap_2.
  apply zcount_pos in Hin. pose proof (zcount_nodup (physical_id e) _ Hnd). lia.
Qed.

(** A request whose sequence is the one the benchmark creates. *)
Definition fill_request (sid context : Z) : Request :=
  mkRequest sid sid context (mkSamplingConfig 1 1) [] (mkPositionalEncodingMetadata []) "" Pending 0 0 0.

Context (s : BlockShape) (sid context : Z) (Hcontext : 0 < context) (Hsum : context + tokens_per_block s < W32).
Abbreviation blocks := (blocks_needed context (tokens_per_block s)).
Abbreviation all_blocks := (blocks * (if per_layer_frames s then num_layers s else 1)).

(** A cache without sequences, over a pool of the shape. *)
Record vacant m : Prop := {
  va_wf : mgr_wf m;
  va_pool : view_pool (allocator_ m);
  va_shape : pool_shape (allocator_ m) = s;
  va_empty : sequences_ m = ∅
}.

(** The sizes of such a cache. *)
Lemma vacant_sizes m :
  vacant m →
  tpb_of m = tokens_per_block s ∧ 0 < tokens_per_block s ∧
  count_of m = (if per_layer_frames s then num_layers s else 1) ∧ 0 < count_of m ∧
  prefix_index_ m = ∅ ∧ nfree (allocator_ m) = max_blocks (config_ (allocator_ m)) ∧
  stored m = 0 ∧ pinned m = 0 ∧ sequence_count m = 0.
Proof.
  intros [Hwf Hvp Hs He]. destruct (no_sequences m Hwf He) as (_ & _ & Hpi & _ & Hn).
  destruct (pool_shape_config _ (proj1 (mgr_alloc _ Hwf)) (view_frames _ Hvp)) as [Hps Htp].
  split_and!; try done.
  - unfold tpb_of. congruence.
  - rewrite <-Hs, Hps. destruct (exact_elements_pos (block_shape (config_ (allocator_ m))))
      as (_ & _ & ? & _); [apply Hwf|pose proof (view_elements _ Hvp); lia|done].
  - unfold count_of, table_count. by rewrite Hs.
  - pose proof (table_count_pos m Hwf). lia.
  - unfold stored, contents. by rewrite He, fmap_empty, map_zsum_empty.
  - by rewrite pinned_ids, Hpi, map_zsum_empty.
  - unfold sequence_count, contents. by rewrite He, fmap_empty, map_zsum_empty.
Qed.

(** Once it has its blocks, the sequence owns all that was taken. *)
Lemma staged_private m st m' :
  vacant m → stage m (fill_request sid context) st m' → Z.of_nat (seq_blocks st) = blocks →
  nfree (allocator_ m') = max_blocks (config_ (allocator_ m)) - blocks * count_of m →
  private s sid blocks m'.
Proof.
  intros Hv Hst Hb Hn. pose proof Hv as [Hwf Hvp Hs He].
  destruct (vacant_sizes m Hv) as (_ & _ & _ & _ & Hpi & _).
  pose proof (stage_wf _ _ _ _ Hst) as Hwf'. pose proof (stage_untouched _ _ _ _ Hst) as [Hpool _].
  pose proof (stage_lookup _ _ _ _ Hst) as Hl. simpl in Hl.
  assert (prefix_index_ m' = ∅) as Hpi'.
  { destruct (stage_joined _ _ _ _ Hst) as [[_ ->]|(r & _ & _ & Hr & _)]; [done|].
    by rewrite Hpi, lookup_empty in Hr. }
  pose proof (stage_seqs _ _ _ _ Hst) as Hseq. simpl in Hseq. rewrite He, insert_empty in Hseq.
  pose proof (stage_resident _ _ _ _ Hst) as Hres.
  pose proof (mgr_seq _ Hwf' _ _ Hl) as [_ Hlen Hd _].
  pose proof (all_entries_length _ _ _ _ Hd) as Hae.
  assert (count_of m' = count_of m) as Hc by apply (stage_tpb _ _ _ _ Hst).
  split; [done|by eapply view_pool_same| |exists st; split_and!; [done..|]].
  - rewrite (pool_shape_same (allocator_ m)); [done|apply Hwf|apply Hwf'|done|apply Hvp].
  - intros e Hin. split.
    + unfold resident. by rewrite (proj1 (all_resident_spec _) Hres).
    + eapply (lone_sequence_refs m' sid st); try done.
      rewrite Hn, Hae, (same_pool_config _ _ Hpool), Nat2Z.inj_mul, Hb, Hlen, Hc. lia.
Qed.

(** The sequence gets its blocks when the pool has them. *)
Lemma vacant_start m :
  vacant m → all_blocks < W32 →
  ∃ m1, create_sequence m (fill_metadata sid) = (true, m1) ∧
    runs (reserve_tokens m1 sid context) (λ '(ok, m2),
      if ok then private s sid blocks m2 ∧ all_blocks <= max_blocks (config_ (allocator_ m))
      else max_blocks (config_ (allocator_ m)) < all_blocks).
Proof.
  intros Hv Hmax. pose proof Hv as [Hwf _ _ He].
  destruct (vacant_sizes m Hv) as (Htpb & Htpos & Hcnt & Hcp & _ & Hn & Hst0 & Hpin0 & Hsc0).
  rewrite Hcnt in Hcp. destruct (blocks_needed_spec context (tokens_per_block s)) as [Hb0 _]; [lia..|].
  destruct (create_stage m (fill_request sid context) Hwf) as (st & m1 & Hcr & Hst & Hz & _ & Ha).
  { by rewrite He, lookup_empty. }
  exists m1. split; [exact Hcr|]. destruct (stage_tpb _ _ _ _ Hst) as [Et Ec].
  pose proof (stage_lookup _ _ _ _ Hst) as Hl. simpl in Hl.
  assert (reserve_ok m1 sid context) as Hok.
  { split; rewrite ?Et, ?Ec, ?Htpb, ?Hcnt; [lia|lia|done|].
    intros x Hx. assert (x = st) as -> by congruence. rewrite Hz. nia. }
  assert (admission_room m (fill_request sid context)) as Hroom.
  { split; unfold admission_blocks; rewrite ?Hst0, ?Hpin0, ?Hsc0, ?Htpb, ?Hcnt; simpl; words. }
  pose proof (reserve_spec m1 sid context (stage_wf _ _ _ _ Hst) Hok) as Hrun.
  pose proof (reserve_stage m (fill_request sid context) st m1 context Hwf Hroom Hst Hcontext) as Hrs.
  rewrite Hz in Hrs. specialize (Hrs eq_refl). simpl in Hrs.
  destruct (reserve_tokens m1 sid context) as [[[] m2]|]; cbn [runs] in *; [| |done].
  - destruct Hrs as (st' & Hst' & Hb). rewrite Htpb in Hb.
    destruct Hrun as (_ & _ & x & x' & _ & _ & _ & Hfit & Hn' & _).
    rewrite Et, Ec, Ha, Hn, Htpb in Hfit, Hn'. split; [|by rewrite <-Hcnt].
    by apply (staged_private m st' m2).
  - destruct Hrun as (_ & _ & _ & [Hx|[Hx|Hx]]).
    + unfold contains in Hx. by rewrite Hl in Hx.
    + rewrite Et, Htpb in Hx. lia.
    + by rewrite Et, Ec, Ha, Hn, Htpb, Hcnt in Hx.
Qed.

(** ** Filling it *)

Context (narrow : spec_float → Z) (Hbytes : bytes_per_element s = 2).
Context (Hlayers : per_layer_frames s = true ∨ frame_layers s = num_layers s).

Lemma u16_u32 z : u16 (u32 z) = u16 z.
Proof. unfold u16, u32. apply Z.mod_mod_divide. by exists 65536. Qed.

(** The vector of the pattern, in the numbers the source names. *)
Lemma u16_vector_exact token head hd :
  u16_vector token head hd = (λ d, (token + head + d) mod 65536) <$> seqZ 0 hd.
Proof. unfold u16_vector. apply list_fmap_ext. intros _ d _. by rewrite u32_add_l, u16_u32. Qed.

Lemma layers_to_write_range fill_layers :
  0 <= fill_layers → 0 < num_layers s → 0 < layers_to_write s fill_layers <= num_layers s.
Proof.
  intros Hf Hn. unfold layers_to_write.
  destruct (Z.eqb_spec fill_layers 0); [simpl; lia|].
  destruct (Z.ltb_spec (num_layers s) fill_layers); simpl; lia.
Qed.

(** What the cache holds once it was filled. *)
Definition filled (layers : Z) m : Prop :=
  private s sid blocks m ∧
  ∀ layer stream token head, 0 <= layer < layers → 0 <= token < context →
    0 <= head < num_kv_heads s →
    stored_at sid narrow m (layer, stream, token, head) =
      Some ((λ d, (token + head + d) mod 65536) <$> seqZ 0 (head_dim s)).

Lemma fill_vacant_run m fill_layers :
  vacant m → all_blocks < W32 → 0 <= fill_layers →
  runs (fill_sequence (mkKVBlockLayout s) sid context fill_layers m) (λ '(ok, m'),
    if ok then all_blocks <= max_blocks (config_ (allocator_ m)) ∧
      filled (layers_to_write s fill_layers) m'
    else max_blocks (config_ (allocator_ m)) < all_blocks).
Proof.
  intros Hm Hmax Hf. destruct (vacant_start m Hm Hmax) as (m1 & Hcr & Hrun).
  unfold fill_sequence. rewrite Hcr. cbn [negb].
  apply runs_bind. eapply runs_mono; [exact Hrun|]. intros [[] m2]; cbn [negb]; [|done].
  intros [Hp Hfit]. cbn [shape].
  destruct (private_shape s sid blocks Hbytes m2 Hp) as (_ & Htpb & Hfl & _ & _ & _ & Hty & _).
  assert (0 < num_layers s) as Hnl.
  { destruct Hlayers as [Hpl|Hall]; [|lia]. unfold per_layer_frames in Hpl.
    apply andb_true_iff in Hpl as [_ Hpl%Z.ltb_lt]. lia. }
  destruct (layers_to_write_range fill_layers Hf Hnl) as [HL0 HL].
  destruct (blocks_needed_spec context (tokens_per_block s)) as [_ [Hb _]]; [lia..|].
  eapply runs_mono; [apply (fill_tokens_spec s sid blocks Hbytes narrow Hlayers m2)|]; [done|lia|lia|].
  intros [go m3] (-> & Hp3 & Hw). split; [done|]. split; [done|].
  intros layer stream token head Hl Ht Hh.
  rewrite Hw, decide_True; [f_equal; apply u16_vector_exact| |].
  - apply elem_sequence_positions; [done..|]. lia.
  - split_and!; try lia. apply Z.div_lt_upper_bound; lia.
Qed.
(** C32. The benchmark fills its cache or leaves it empty-handed. On a pool without sequences,
    filling a sequence of [context] tokens succeeds exactly when the pool has the blocks
    (one set, or one for every layer of a pool of single-layer frames). It is always
    defined: the frames it dereferences exist and no write leaves the pool. After it
    every vector of the layers to write holds the pattern, the sum of token, head and
    dimension modulo 2^16, in both streams and up to the last token. *)
Theorem fill_sequence_exact m fill_layers :
  vacant m → all_blocks < W32 → 0 <= fill_layers →
  runs (fill_sequence (mkKVBlockLayout s) sid context fill_layers m) (λ '(ok, m'),
    if ok then all_blocks <= max_blocks (config_ (allocator_ m)) ∧
      ∀ layer stream token head, 0 <= layer < layers_to_write s fill_layers → 0 <= token < context →
        0 <= head < num_kv_heads s →
        cached_vector (H2 := Element_u16 narrow) m' sid layer stream token head =
          Some ((λ d, (token + head + d) mod 65536) <$> seqZ 0 (head_dim s))
    else max_blocks (config_ (allocator_ m)) < all_blocks).
Proof.
  intros Hm Hmax Hf. eapply runs_mono; [by apply fill_vacant_run|].
  intros [[] m'] Hrun; [|done]. destruct Hrun as (Hfit & _ & Hat). split; [done|exact Hat].
Qed.
End Start.

(** ** The kernels on a filled cache *)

Section Kernels.
Context {B : Type} `{SwapBackendLaws B}.
Context (exp : spec_float → spec_float) (narrow : spec_float → Z).
#[local] Instance float_arithmetic : FloatOps spec_float := binary32 exp.
#[local] Instance u16_elements : Element Z spec_float := Element_u16 narrow.
Implicit Types m : KVCacheManager B.
Context (s : BlockShape) (sid n : Z) (Hbytes : bytes_per_element s = 2).
Context (Hlayers : per_layer_frames s = true ∨ frame_layers s = num_layers s).
Context (m : KVCacheManager B) (Hp : private s sid n m).

Lemma private_view :
  ∃ v, cache_view m sid TextKV = Some (Some v) ∧ view_layout v = mkKVBlockLayout s ∧
    view_valid v = true.
Proof.
  pose proof Hp as [Hwf Hvp Hs (st & Hst & _)].
  destruct (first_table m sid st Hwf Hst) as (t & ts & Hts & _).
  assert (cache_view m sid TextKV = Some (Some (view_of m sid TextKV st t))) as Hv.
  { by rewrite cache_view_run, Hst, Hts. }
  destruct (view_parts m sid TextKV _ Hwf Hvp Hv) as (Hl & _ & Hval).
  eexists. split_and!; [exact Hv|by rewrite Hl, Hs|done].
Qed.

Context (v : CacheView B) (Hv : cache_view m sid TextKV = Some (Some v)).
Context (context : Z) (Hcontext : 0 < context <= n * tokens_per_block s).
Context (Htyped : context + tokens_per_block s <= W32).
Context (heads : Z) (Hheads : 0 < heads < W32) (Hgroups : heads mod num_kv_heads s = 0).
Context (scale : spec_float).
Abbreviation params := (mkParams 0 heads context scale).
Abbreviation size := (Z.to_nat heads * Z.to_nat (head_dim s))%nat.

Lemma private_layers : 0 < num_layers s.
Proof.
  destruct (private_shape s sid n Hbytes m Hp) as (_ & _ & Hfl & _).
  destruct Hlayers as [Hpl|Hall]; [|lia]. unfold per_layer_frames in Hpl.
  apply andb_true_iff in Hpl as [_ Hpl%Z.ltb_lt]. lia.
Qed.

Lemma private_accepts (q o : list Z) : accepts v (Some q) (Some o) params = true.
Proof.
  pose proof Hp as [Hwf Hvp Hs _]. destruct (view_parts m sid TextKV v Hwf Hvp Hv) as (Hl & _ & Hval).
  unfold accepts. rewrite Hval, Hl, Hs. cbn [shape sizeof_T u16_elements Element_u16 pa_layer num_query_heads context_len].
  rewrite Hbytes, Hgroups. pose proof private_layers.
  rewrite (proj2 (Z.eqb_neq context 0)), (proj2 (Z.eqb_neq heads 0)) by lia.
  by rewrite (proj2 (Z.leb_gt _ _)) by lia.
Qed.

Lemma private_resolves : resolves (T := Z) v params.
Proof.
  pose proof Hp as [Hwf Hvp Hs _]. destruct (view_parts m sid TextKV v Hwf Hvp Hv) as (Hl & _).
  destruct (private_shape s sid n Hbytes m Hp) as (Htpb & Htpos & Hfl & _).
  pose proof private_layers as Hnl.
  assert (∀ stream kv_head token, 0 <= kv_head < num_kv_heads s → 0 <= token < context →
    is_Some (slot 2 v stream 0 token kv_head)) as Hslot.
  { intros stream kv_head token Hk Ht.
    destruct (in_sequence_block s sid n Hbytes Hlayers m 0 stream token kv_head Hp) as (Hin & Htab & Hi).
    { split_and!; try lia. apply Z.div_lt_upper_bound; lia. }
    destruct (private_entry s sid n Hbytes m (table_of s 0) (token / tokens_per_block s) Hp Htab Hi)
      as (e & Hat & Hre & _).
    rewrite <-Hbytes, <-Hs. apply (view_slot_resident m sid TextKV v stream 0 token kv_head); try done; [lia..|].
    unfold frame_layer, layer_table. rewrite Hs, Htpb. split; [exact Hin|]. by exists e. }
  intros kv_head token Hk Ht. rewrite Hl, Hs in Hk. split; by apply Hslot.
Qed.

Definition timed_kernels : list (Kernel (B := B)) :=
  [paged_attention_decode; paged_attention_decode_blocked; paged_attention_decode_fused;
   paged_attention_decode_fast].

(** Every kernel the benchmark times succeeds on a cache it filled. *)
Lemma kernel_succeeds kernel (q o : list Z) :
  kernel ∈ timed_kernels → (size <= length q)%nat → (size <= length o)%nat →
  ∃ o', kernel v (Some q) params (Some o) = Some (true, Some o') ∧ length o' = length o.
Proof.
  intros Hk Hq Ho. pose proof Hp as [Hwf Hvp Hs _].
  destruct (private_shape s sid n Hbytes m Hp) as (_ & Htpos & _).
  assert (params_typed params) as Hty by (split_and!; simpl; words).
  pose proof (private_accepts q o) as Hacc. pose proof private_resolves as Hr.
  assert (context_len params + tokens_per_block (pool_shape (allocator_ m)) <= W32) as Hfits
    by (by rewrite Hs).
  rewrite <-Hs in Hq, Ho.
  assert (∃ o', paged_attention_decode v (Some q) params (Some o) = Some (true, Some o') ∧
    length o' = length o) as Href.
  { destruct (decode_run m sid TextKV v Hwf Hvp Hv params q o Hty Hacc Hq Ho) as [[_ ->]|[? _]]; [|done].
    eexists. split; [done|]. rewrite length_app, length_drop. unfold attention.
    rewrite (concat_length (Z.to_nat (head_dim (pool_shape (allocator_ m))))), length_fmap, length_seq.
    { simpl in *. lia. }
    apply Forall_fmap, Forall_seq. intros h Hh.
    apply (attention_head_length m sid TextKV v Hwf Hvp Hv params q o Hty Hacc); [done|simpl in *; lia]. }
  unfold timed_kernels in Hk. rewrite !elem_of_cons in Hk. destruct Hk as [->|[->|[->|[->|Hk]]]].
  - done.
  - by rewrite (blocked_decode m sid TextKV v Hwf Hvp Hv params q o Hty Hacc Hfits).
  - by apply (opt_succeeds m sid TextKV v Hwf Hvp Hv params q o Hty Hacc Hfits Hq Ho false).
  - by apply (opt_succeeds m sid TextKV v Hwf Hvp Hv params q o Hty Hacc Hfits Hq Ho true).
  - by apply not_elem_of_nil in Hk.
Qed.
End Kernels.

(** ** Reports *)

(** What a row says besides its times: the traffic is that of the numbers, exactly. *)
Definition described (row : RoofRow) : string * string * spec_float * spec_float * Z :=
  (roof_kind row, roof_name row, roof_bytes row, roof_flops row, samples_n (roof_stats row)).
Definition traffic (kind name : string) (bytes flops samples : Z)
    : string * string * spec_float * spec_float * Z :=
  (kind, name, double_of bytes, double_of flops, samples).

(** A benchmark adds rows of this description. *)
Definition adds (rows : list (string * string * spec_float * spec_float * Z)) (r r' : RoofReport) : Prop :=
  ∃ new, snd r' = snd r ++ new ∧ described <$> new = rows.

Lemma adds_nil r : adds [] r r.
Proof. exists []. by rewrite app_nil_r. Qed.

Lemma adds_trans l1 l2 r1 r2 r3 : adds l1 r1 r2 → adds l2 r2 r3 → adds (l1 ++ l2) r1 r3.
Proof.
  intros (n1 & E1 & D1) (n2 & E2 & D2). exists (n1 ++ n2).
  by rewrite E2, E1, fmap_app, D1, D2, (assoc_L (++)).
Qed.

Lemma adds_row k r row : adds [described row] r (add_row k r row).
Proof. by exists [row]. Qed.

(** A loop of benchmarks over a list, whose body keeps what they share. *)
Lemma adds_loop {A X} (f : A * RoofReport → X → option (string + A * RoofReport)) (I : A → Prop)
    (rows : X → list (string * string * spec_float * spec_float * Z)) l s :
  (∀ x s, x ∈ l → I (fst s) → finishes (f s x) (λ s', I (fst s') ∧ adds (rows x) (snd s) (snd s'))) →
  I (fst s) →
  finishes (foldT f s l) (λ s', I (fst s') ∧ adds (l ≫= rows) (snd s) (snd s')).
Proof.
  intros Hf HI. apply (finishes_foldT f (λ don s', I (fst s') ∧ adds (don ≫= rows) (snd s) (snd s'))).
  { split; [done|apply adds_nil]. }
  intros don x rest s1 -> [H1 Hr]. eapply finishes_mono; [apply (Hf x s1); [|done]|].
  - apply elem_of_app. right. by left.
  - intros s2 [H2 Hr2]. split; [done|]. rewrite bind_app, bind_singleton. by eapply adds_trans.
Qed.

(** A measurement of a body that keeps an invariant, with three warm-ups and eleven
    repeats. *)
Lemma roof_measure {A} clock (body : A → option (string + A)) (I : A → Prop) k s :
  (∀ s, I s → finishes (body s) I) → I s →
  finishes (measure_body clock body kWarmup kRepeats k s)
    (λ '(_, stats, s'), samples_n stats = 11 ∧ I s').
Proof. apply measure_body_runs; [done|apply summarizable_eleven]. Qed.

Section Attention.
Context {B : Type} `{SwapBackendLaws B}.
Context (aligned_alloc : Z → Z → option (Z * list byte)) (clock : nat → Z).
Context (exp : spec_float → spec_float) (narrow : spec_float → Z).
Implicit Types v : CacheView B.

(** *** The caches *)

(** A new cache over a new pool. *)
Lemma new_vacant c p slab :
  config_ok c → aligned_alloc (effective_alignment c) (pool_bytes_for c) = Some (p, slab) →
  Z.of_nat (length slab) = pool_bytes_for c → 0 < max_blocks c →
  0 < exact_elements (block_shape c) → bytes_per_element (block_shape c) = 2 →
  exact_elements (block_shape c) * 2 < W64 →
  let m := KVCacheManager_new (MemoryAllocator_new (B := B) aligned_alloc c) in
  vacant (block_shape c) m ∧ config_ (allocator_ m) = c.
Proof.
  intros Hok Hal Hlen Hmax Hex Hbytes Hrange m.
  destruct (new_pool (B := B) _ aligned_alloc p slab Hok Hal Hlen) as (Hwf & Hr & _ & Hs & Hc & Hb & _).
  destruct (block_stride_spec c (config_align _ Hok) (config_round _ Hok)) as (_ & _ & Hstride & _).
  rewrite <-Hs in Hstride. split; [|exact Hc].
  assert (view_pool (allocator_ m)) as Hvp.
  { split; change (allocator_ m) with (MemoryAllocator_new (B := B) aligned_alloc c);
      by rewrite ?Hc, ?Hbytes. }
  split; [|done| |done].
  - apply new_manager_wf. split; [split; [done|]| |exact Hr|].
    + intros slot bytes. unfold swapped. by rewrite Hb.
    + rewrite Hc. apply (config_shape _ Hok).
    + unfold swapped. by rewrite Hb.
  - destruct (pool_shape_config _ Hwf (view_frames _ Hvp)) as [Hps _].
    etrans; [exact Hps|]. by rewrite Hc.
Qed.

(** The three pools of the benchmark. *)
Inductive roof_pool : BlockShape → Z → Prop :=
| roof_dense : roof_pool make_2b_shape needed_blocks
| roof_packed : roof_pool packed_shape needed_blocks
| roof_layers : roof_pool layer_major_shape layer_major_blocks.

(** The allocation of a pool succeeds. *)
Definition roof_allocated (shape : BlockShape) (count : Z) : Prop :=
  let c := roof_config shape count in
  ∃ p slab, aligned_alloc (effective_alignment c) (pool_bytes_for c) = Some (p, slab) ∧
    Z.of_nat (length slab) = pool_bytes_for c.

(** What the shapes have in common. *)
Lemma roof_pool_facts shape count :
  roof_pool shape count →
  config_ok (roof_config shape count) ∧ 0 < count ∧
  0 < exact_elements shape ∧ exact_elements shape * 2 < W64 ∧
  tokens_per_block shape = 16 ∧ num_kv_heads shape = 8 ∧ head_dim shape = 128 ∧
  bytes_per_element shape = 2 ∧
  (per_layer_frames shape = true ∨ frame_layers shape = num_layers shape) ∧
  blocks_needed kContext 16 * (if per_layer_frames shape then num_layers shape else 1) <= count.
Proof.
  assert (∀ c, shape_typed (block_shape c) → 0 < effective_alignment c → is_u32 (max_blocks c) →
    byte_size (block_shape c) + effective_alignment c < W64 →
    max_blocks c * block_stride_for c < W64 → config_ok c) as Hok by (intros; by split).
  intros []; split_and!; try (by vm_compute); try (by left); try (by right);
    apply Hok; try (by vm_compute); by repeat split.
Qed.

(** A filled cache and its view. *)
Lemma filled_view_runs shape count fill_layers :
  roof_pool shape count → roof_allocated shape count → 0 <= fill_layers →
  ∃ v m, filled_view (B := B) aligned_alloc shape count fill_layers = Some (Some v) ∧
    private shape 1 (blocks_needed kContext 16) m ∧ cache_view m 1 TextKV = Some (Some v) ∧
    view_valid v = true.
Proof.
  intros Hpool (p & slab & Hal & Hlen) Hf.
  destruct (roof_pool_facts shape count Hpool)
    as (Hok & Hmax0 & Hex & Hrange & Htpb & _ & _ & Hbytes & Hlayers & Hfit).
  destruct (new_vacant _ p slab Hok Hal Hlen Hmax0 Hex Hbytes Hrange) as [Hm Hc].
  pose proof (fill_vacant_run shape 1 kContext ltac:(done) ltac:(by rewrite Htpb; vm_compute) narrow Hbytes Hlayers
    _ fill_layers Hm) as Hrun.
  rewrite Htpb in Hrun.
  assert (blocks_needed kContext 16 * (if per_layer_frames shape then num_layers shape else 1) < W32) as Hmax
    by (clear -Hpool; destruct Hpool; by vm_compute).
  specialize (Hrun Hmax Hf).
  unfold filled_view.
  destruct (fill_sequence _ _ _ _ _) as [[[] m]|]; cbn [runs mbind option_bind negb] in *; [| |done].
  - destruct Hrun as (_ & Hp & _).
    destruct (private_view shape 1 _ m Hp) as (v & Hv & _ & Hval).
    exists v, m. rewrite Htpb in Hp. done.
  - rewrite Hc in Hrun. simpl in Hrun. lia.
Qed.

(** *** The kernels *)

(** A view of a cache the benchmark filled. *)
Definition ready v : Prop :=
  ∃ shape count m, roof_pool shape count ∧ private shape 1 (blocks_needed kContext 16) m ∧
    cache_view m 1 TextKV = Some (Some v).

(** The output of the benchmark has room for the heads. *)
Definition sized (out : list Z) : Prop := Z.of_nat (length out) = 2048.

Abbreviation query := (query_of make_2b_shape).
Abbreviation params context := (attention_params (head_dim make_2b_shape) context).

Lemma call_kernel_runs kernel v context error out :
  ready v → kernel ∈ timed_kernels exp narrow → 0 < context <= kContext → sized out →
  finishes (call_kernel kernel v query (params context) error out) sized.
Proof.
  intros (shape & count & m & Hpool & Hp & Hv) Hk Hc Hout.
  destruct (roof_pool_facts shape count Hpool)
    as (_ & _ & _ & _ & Htpb & Hkv & Hhd & Hbytes & Hlayers & _).
  assert (blocks_needed kContext 16 * 16 = kContext) as Hn by by vm_compute.
  assert (kContext = 1280 ∧ q_heads = 16) as [Ek Eq] by done.
  destruct (kernel_succeeds exp narrow shape 1 (blocks_needed kContext 16) Hbytes Hlayers m Hp v Hv context)
    with (heads := q_heads) (scale := pa_scale (params context)) (kernel := kernel) (q := query) (o := out)
    as (o' & Hrun & Hl).
  all: rewrite ?Htpb, ?Hn, ?Hkv, ?Hhd, ?Eq; try done; try (unfold W32; lia).
  - unfold sized in Hout. lia.
  - unfold call_kernel, attention_params. unfold attention_params in Hrun. cbn [pa_scale] in Hrun.
    rewrite Hrun. unfold sized in *. cbn. by rewrite Hl.
Qed.

(** *** The rows *)

(** A benchmark that keeps the output and adds rows of this description. *)
Definition adds_to (rows : list (string * string * spec_float * spec_float * Z)) (s s' : list Z * RoofReport) : Prop :=
  sized (fst s') ∧ adds rows (snd s) (snd s').

Lemma time_kernel_runs kernel v context name bytes flops notes error s :
  ready v → kernel ∈ timed_kernels exp narrow → 0 < context <= kContext → sized (fst s) →
  finishes (time_kernel clock kernel v query (params context) name bytes flops notes error s)
    (adds_to [("attention_decode"%string, name, bytes, flops, 11)] s).
Proof.
  destruct s as [out r]. intros Hv Hk Hc Hout. unfold time_kernel.
  finish_step (roof_measure clock (call_kernel kernel v query (params context) error) sized (fst r) out).
  { intros out' Hout'. by apply call_kernel_runs. }
  { done. }
  intros [[k stats] out'] [Hn Hout']. apply finishes_returns. split; [done|]. simpl.
  pose proof (adds_row k r (csv_row "attention_decode" name bytes flops stats notes)) as Hr.
  unfold described in Hr. simpl in Hr. by rewrite Hn in Hr.
Qed.

(** The rows of one context: the kernels that fuse the heads of a group read its keys and
    values once. *)
Definition context_rows (context : Z) : list (string * string * spec_float * spec_float * Z) :=
  let row label bytes := traffic "attention_decode" (label +:+ " ctx " +:+ pretty context)
    (bytes * context) (8192 * context) 11 in
  [row "decode" 8192; row "blocked" 8192; row "fused" 4096; row "fast" 4096].

Lemma time_context_runs v context s :
  ready v → context ∈ [128; 512; 1280] → sized (fst s) →
  finishes (time_context clock exp narrow v s context) (adds_to (context_rows context) s).
Proof.
  intros Hv Hin Hout. assert (0 < context <= kContext) as Hc.
  { assert (kContext = 1280) as -> by done. rewrite !elem_of_cons in Hin.
    destruct Hin as [->|[->|[->|[]%not_elem_of_nil]]]; lia. }
  assert (attention_bytes make_2b_shape q_heads (double_of context) = double_of (8192 * context) ∧
    attention_bytes make_2b_shape (num_kv_heads make_2b_shape) (double_of context) = double_of (4096 * context) ∧
    attention_flops make_2b_shape (double_of context) = double_of (8192 * context)) as (E1 & E2 & E3).
  { rewrite !elem_of_cons in Hin.
    destruct Hin as [->|[->|[->|[]%not_elem_of_nil]]]; split_and!; by vm_compute. }
  unfold time_context. rewrite E1, E2, E3.
  finish_step time_kernel_runs; [done|by left|done|done|]. intros s1 [H1 R1].
  finish_step time_kernel_runs; [done|right; by left|done|done|]. intros s2 [H2 R2].
  finish_step time_kernel_runs; [done|right; right; by left|done|done|]. intros s3 [H3 R3].
  eapply finishes_mono; [apply time_kernel_runs; [done|right; right; right; by left|done|done]|].
  intros s4 [H4 R4]. split; [done|].
  exact (adds_trans _ _ _ _ _ R1 (adds_trans _ _ _ _ _ R2 (adds_trans _ _ _ _ _ R3 R4))).
Qed.

Definition prefill_row : string * string * spec_float * spec_float * Z :=
  traffic "attention_prefill" "prefill S=256 as decode" (8192 * 32896) (8192 * 32896) 5.

Lemma prefill_runs v s :
  ready v → sized (fst s) →
  finishes (bench_prefill clock exp narrow v s) (adds_to [prefill_row] s).
Proof.
  destruct s as [out r]. intros Hv Hout. unfold bench_prefill.
  finish_step (measure_body_runs clock (prefill_body exp narrow v) sized 1 5 (fst r) out ltac:(done) summarizable_five).
  { intros out' Hout'. unfold prefill_body.
    apply (finishes_foldT _ (λ _, sized)); [done|]. intros don p rest o Hl Ho.
    apply seqZ_middle in Hl. assert (kPrefill = 256 ∧ kContext = 1280) as [Ep Ec] by done.
    rewrite u32_small by (unfold is_u32, W32; lia).
    apply call_kernel_runs; [done|by left|lia|done]. }
  { done. }
  intros [[k stats] out'] [Hn Hout']. apply finishes_returns. split; [done|]. simpl.
  pose proof (adds_row k r (csv_row "attention_prefill" "prefill S=256 as decode"
    (attention_bytes make_2b_shape q_heads prefill_tokens)
    (attention_flops make_2b_shape prefill_tokens) stats
    "S independent decode calls; GEMM AI is higher")) as Hr.
  unfold described in Hr. simpl in Hr. rewrite Hn in Hr.
  assert (attention_bytes make_2b_shape q_heads prefill_tokens = double_of (8192 * 32896)) as E1 by by vm_compute.
  assert (attention_flops make_2b_shape prefill_tokens = double_of (8192 * 32896)) as E2 by by vm_compute.
  rewrite E1, E2 in Hr. exact Hr.
Qed.

(** The row of a layout. *)
Definition layout_row (name : string) : string * string * spec_float * spec_float * Z :=
  traffic "attention_decode" name (4096 * 1280) (8192 * 1280) 11.

Lemma layout_runs shape count fill_layers name notes error s :
  roof_pool shape count → roof_allocated shape count → 0 <= fill_layers → sized (fst s) →
  finishes (bench_layout (B := B) aligned_alloc clock exp narrow shape count fill_layers name notes error s)
    (λ '(go, s'), go = true ∧ adds_to [layout_row name] s s').
Proof.
  intros Hpool Hal Hf Hout. unfold bench_layout.
  destruct (filled_view_runs shape count fill_layers Hpool Hal Hf) as (v & m & -> & Hp & Hv & _).
  apply finishes_defined. cbn [runs].
  assert (ready v) as Hready by by exists shape, count, m.
  finish_step time_kernel_runs; [done|do 3 right; by left|by vm_compute|done|].
  intros s' Hs'. apply finishes_returns. split; [done|].
  assert (attention_bytes make_2b_shape (num_kv_heads make_2b_shape) (double_of kContext) =
    double_of (4096 * 1280)) as E1 by by vm_compute.
  assert (attention_flops make_2b_shape (double_of kContext) = double_of (8192 * 1280)) as E2 by by vm_compute.
  rewrite E1, E2 in Hs'. exact Hs'.
Qed.

(** The rows of the attention benchmark. *)
Definition attention_rows : list (string * string * spec_float * spec_float * Z) :=
  ([128; 512; 1280] ≫= context_rows) ++ [prefill_row] ++
  [layout_row "fast ctx 1280 packed"] ++ [layout_row "fast ctx 1280 layer-major"] ++
  [layout_row "fast ctx 1280 layer-major L0-only"].

(** The allocation of each pool succeeds. *)
Definition all_allocated : Prop := ∀ shape count, roof_pool shape count → roof_allocated shape count.

Lemma attention_runs r :
  all_allocated →
  finishes (bench_attention (B := B) aligned_alloc clock exp narrow r) (adds attention_rows r).
Proof.
  intros Hal. unfold bench_attention.
  destruct (filled_view_runs make_2b_shape needed_blocks 0 roof_dense (Hal _ _ roof_dense) ltac:(done))
    as (v & m & -> & Hp & Hv & Hval).
  apply finishes_defined. cbn [runs]. rewrite Hval. cbn [negb].
  assert (ready v) as Hready by (exists make_2b_shape, needed_blocks, m; split; [apply roof_dense|done]).
  assert (sized (replicate (Z.to_nat (q_heads * head_dim make_2b_shape)) 0)) as Hout
    by (unfold sized; rewrite length_replicate; by vm_compute).
  finish_step (adds_loop (time_context clock exp narrow v) sized context_rows); [|exact Hout|].
  { intros c s Hin Hs. by apply time_context_runs. }
  intros s1 [H1 R1]. finish_step prefill_runs; [done..|]. intros s2 [H2 R2].
  finish_step layout_runs; [apply roof_packed|by apply Hal, roof_packed|done|done|].
  intros [go s3] [-> [H3 R3]]. cbn [negb].
  finish_step layout_runs; [apply roof_layers|by apply Hal, roof_layers|done|done|].
  intros [go s4] [-> [H4 R4]]. cbn [negb].
  finish_step layout_runs; [apply roof_layers|by apply Hal, roof_layers|done|done|].
  intros [go s5] [-> [H5 R5]]. apply finishes_returns.
  eapply adds_trans; [exact R1|]. eapply adds_trans; [exact R2|]. eapply adds_trans; [exact R3|].
  eapply adds_trans; [exact R4|]. exact R5.
Qed.
End Attention.

(** ** The streams *)

#[local] Opaque Z.to_nat.

Section Streams.
Context (clock : nat → Z) (exp : spec_float → spec_float) (omp : option (Z * (nat → list Z))).
#[local] Hint Extern 0 (FloatOps spec_float) => exact (Roofline.float_arithmetic exp) : typeclass_instances.

Lemma floats_of_length n value : 0 <= n → Z.of_nat (length (floats_of n value)) = n.
Proof. intros Hn. unfold floats_of. rewrite length_replicate. lia. Qed.

(** A triad on arrays of the same length. *)
Lemma triad_floats size n a :
  0 <= n <= size → Z.of_nat (length a) = size →
  runs (triad a (floats_of size 2) (floats_of size 3) 0 triad_scalar n) (λ a, Z.of_nat (length a) = size).
Proof.
  intros Hn Ha. pose proof (floats_of_length size 2) as H2. pose proof (floats_of_length size 3) as H3.
  destruct (triad_runs a (floats_of size 2) (floats_of size 3) 0 triad_scalar n) as (a' & -> & Hl & _); [lia..|].
  cbn [runs]. lia.
Qed.

(** The threads share the elements out, in every call. *)
Definition threads_run : Prop :=
  ∀ threads schedule, omp = Some (threads, schedule) →
    0 < threads ∧ kStream * threads < W64 ∧ ∀ k, interleaves (parallel_steps kStream threads) (schedule k).

Definition stream_rows : list (string * string * spec_float * spec_float * Z) :=
  [traffic "stream" "STREAM triad 1 thread" (12 * kStream) (2 * kStream) 11] ++
  (if omp is Some _ then [traffic "stream" "STREAM triad OpenMP" (12 * kStream) (2 * kStream) 11] else []) ++
  [traffic "stream" "memcpy 64 MiB" (2 * kCopy) 0 11].

Lemma parallel_body_runs threads schedule t :
  threads_run → omp = Some (threads, schedule) → Z.of_nat (length (snd t)) = kStream →
  finishes (parallel_body exp schedule t) (λ t, Z.of_nat (length (snd t)) = kStream).
Proof.
  intros Hrun Homp Ha. destruct (Hrun _ _ Homp) as (Ht & Hmax & Hord).
  assert (0 <= kStream) as Hk by done.
  pose proof (floats_of_length kStream 2 Hk) as H2. pose proof (floats_of_length kStream 3 Hk) as H3.
  pose proof (parallel_order kStream threads _ Hk Ht Hmax (Hord (fst t))) as Hp.
  unfold parallel_body, parallel_triad.
  destruct (triad_order (snd t) (floats_of kStream 2) (floats_of kStream 3) triad_scalar (schedule (fst t)))
    as (a & -> & Hl & _); [|lia..|].
  - rewrite Hp. apply Forall_forall. intros i Hi%elem_of_seqZ. lia.
  - apply finishes_defined. cbn [runs]. apply finishes_returns. simpl. lia.
Qed.

(** A row after a measurement. *)
Lemma adds_measured k r kind name bytes flops stats notes b f n :
  samples_n stats = n → bytes = double_of b → flops = double_of f →
  adds [traffic kind name b f n] r (add_row k r (csv_row kind name bytes flops stats notes)).
Proof. intros <- -> ->. apply adds_row. Qed.

Lemma stream_runs r :
  threads_run → finishes (bench_stream clock exp omp r) (adds stream_rows r).
Proof.
  intros Hrun. assert (0 <= kStream ∧ 0 <= kCopy) as [Hk Hc] by done. unfold bench_stream.
  finish_step (roof_measure clock
    (λ a, defined (triad a (floats_of kStream 2) (floats_of kStream 3) 0 triad_scalar kStream))
    (λ a, Z.of_nat (length a) = kStream) (fst r)).
  { intros a Ha. apply runs_bind. eapply runs_mono; [apply (triad_floats kStream); lia|done]. }
  { by apply floats_of_length. }
  intros [[k single] a] [Hn Ha].
  set (r1 := add_row k r _).
  assert (adds [traffic "stream" "STREAM triad 1 thread" (12 * kStream) (2 * kStream) 11] r r1) as R1
    by (by apply adds_measured; [|vm_compute|vm_compute]).
  apply finishes_then.
  apply finishes_mono with (λ r2, adds (if omp is Some _ then
    [traffic "stream" "STREAM triad OpenMP" (12 * kStream) (2 * kStream) 11] else []) r1 r2).
  { destruct omp as [[threads schedule]|] eqn:Homp; [|apply finishes_returns, adds_nil].
    finish_step (roof_measure clock (parallel_body exp schedule)
      (λ t, Z.of_nat (length (snd t)) = kStream) (fst r1) (O, a)); [|done|].
    { intros t Ht. by eapply parallel_body_runs. }
    intros [[k2 multi] t] [Hn2 _]. apply finishes_returns.
    by apply adds_measured; [|vm_compute|vm_compute]. }
  intros r2 R2.
  finish_step (roof_measure clock
    (λ dst, defined (memcpy dst (replicate (Z.to_nat kCopy) Byte.x01) kCopy))
    (λ dst, Z.of_nat (length dst) = kCopy) (fst r2)).
  { intros dst Hd. unfold memcpy. rewrite length_replicate, Z2Nat.id, Hd by done. rewrite !Z.leb_refl. cbn [andb].
    rewrite (proj2 (Z.leb_le 0 kCopy)) by done. cbn [andb]. unfold finishes, defined. cbn.
    rewrite length_app, length_take, length_drop, length_replicate. lia. }
  { rewrite length_replicate. lia. }
  intros [[k3 copy] dst] [Hn3 _]. apply finishes_returns.
  eapply adds_trans; [exact R1|]. eapply adds_trans; [exact R2|].
  by apply adds_measured; [|vm_compute|vm_compute].
Qed.

(** ** The working sets *)

Definition sweep_row (n : Z) : string * string * spec_float * spec_float * Z :=
  traffic "cache_sweep" ("triad " +:+ pretty (n * 4 / 1024) +:+ " KiB") (12 * n) (2 * n) 11.

Lemma sweep_traffic n :
  n ∈ sweep_sizes →
  0 <= n <= kMax ∧ triad_bytes n = double_of (12 * n) ∧ triad_flops n = double_of (2 * n).
Proof.
  intros Hin. unfold sweep_sizes in Hin. rewrite !elem_of_cons in Hin.
  repeat (destruct Hin as [->|Hin]; [split_and!; by vm_compute|]). by apply not_elem_of_nil in Hin.
Qed.

Lemma sweep_one_runs n s :
  n ∈ sweep_sizes → Z.of_nat (length (fst s)) = kMax →
  finishes (sweep_one clock exp s n) (λ s', Z.of_nat (length (fst s')) = kMax ∧
    adds [sweep_row n] (snd s) (snd s')).
Proof.
  destruct s as [a r]. intros Hin Ha. destruct (sweep_traffic n Hin) as (Hn & E1 & E2). unfold sweep_one.
  finish_step (roof_measure clock
    (λ a, defined (foldM (λ a (_ : Z), triad a (floats_of kMax 2) (floats_of kMax 3) 0 triad_scalar n)
                     a (seqZ 0 (sweep_reps n))))
    (λ a, Z.of_nat (length a) = kMax) (fst r) a).
  { intros a' Ha'. apply finishes_calls; [|done]. intros a2 _ Ha2. by apply triad_floats. }
  { done. }
  intros [[k stats] a'] [Hs Ha']. apply finishes_returns. split; [done|]. by apply adds_measured.
Qed.

Lemma sweep_runs r : finishes (bench_cache_sweep clock exp r) (adds (sweep_sizes ≫= λ n, [sweep_row n]) r).
Proof.
  unfold bench_cache_sweep.
  finish_step (adds_loop (sweep_one clock exp) (λ a, Z.of_nat (length a) = kMax) (λ n, [sweep_row n])).
  { intros n s Hin Hs. by apply sweep_one_runs. }
  { by apply floats_of_length. }
  intros [a r'] [_ Hr]. by apply finishes_returns.
Qed.

(** ** The rows of a build without AVX-512 *)

Definition fma_rows : list (string * string * spec_float * spec_float * Z) :=
  [traffic "fma" "AVX-512 FMA fp32" 0 0 0; traffic "fma" "AVX-512 VDPBF16PS" 0 0 0].

Lemma fma_runs r : adds fma_rows r (bench_fma_bf16 (bench_fma_fp32 r)).
Proof.
  change fma_rows with ([traffic "fma" "AVX-512 FMA fp32" 0 0 0] ++ [traffic "fma" "AVX-512 VDPBF16PS" 0 0 0]).
  eapply adds_trans; by apply adds_measured.
Qed.
End Streams.

(** ** The program *)

Section Main.
Context {B : Type} `{SwapBackendLaws B}.
Context (aligned_alloc : Z → Z → option (Z * list byte)) (clock : nat → Z).
Context (exp : spec_float → spec_float) (narrow : spec_float → Z) (omp : option (Z * (nat → list Z))).

(** C31. The roofline benchmark measures what it names. Whatever the clock, the exponential and the
    order of the threads, it is defined from the arguments to the report: every stream
    stays inside its arrays, every cache gets the blocks and the vectors it is filled
    with, and every kernel accepts the view and succeeds in each warm-up and repeat. The
    report has every row in order, with exactly the bytes, the flops and the number of
    samples of its description: the kernels that fuse the heads of a group are charged
    half the traffic of those that do not. The exit status is the verdict on the
    processor's clock, and the streams are reported only when it was stable. *)
Theorem roofline_main_reports before mid opens args csv_path attention_only :
  roof_args "results/week10-roofs.csv" false args = Some (csv_path, attention_only) →
  opens csv_path = true → all_allocated aligned_alloc → threads_run omp →
  finishes (roofline_main (B := B) aligned_alloc clock exp narrow omp before mid opens args)
    (λ '(status, rows, env),
      let stable := freq_stable before mid dbl_tenth in
      status = (if stable then 0 else 1) ∧
      described <$> rows =
        (if attention_only then [] else fma_rows ++ (sweep_sizes ≫= λ n, [sweep_row n])) ++ attention_rows ++
        (if stable then stream_rows omp else []) ∧
      env = if stable then Some (mkEnvRow (freq_khz before) (freq_khz mid)
                                  (governor before +:+ " " +:+ model_name before)) else None).
Proof.
  intros Hargs Hopen Hal Hrun. unfold roofline_main. rewrite Hargs, Hopen. cbn [negb].
  apply finishes_then. apply finishes_mono with
    (adds (if attention_only then [] else fma_rows ++ (sweep_sizes ≫= λ n, [sweep_row n])) (O, [])).
  { destruct attention_only; [apply finishes_returns, adds_nil|].
    eapply finishes_mono; [apply sweep_runs|]. intros r Hr. eapply adds_trans; [apply fma_runs|exact Hr]. }
  intros r1 R1. finish_step (attention_runs (B := B) aligned_alloc clock exp narrow r1 Hal). intros r2 R2.
  pose proof (adds_trans _ _ _ _ _ R1 R2) as R12.
  destruct (freq_stable before mid dbl_tenth); cbn [negb].
  - finish_step (stream_runs clock exp omp r2 Hrun). intros r3 R3. apply finishes_returns. split_and!; try done.
    destruct (adds_trans _ _ _ _ _ R12 R3) as (new & -> & Hd). cbn [snd app]. by rewrite Hd, (assoc_L (++)).
  - apply finishes_returns. split_and!; try done. destruct R12 as (new & -> & Hd). cbn [snd app].
    by rewrite Hd, app_nil_r.
Qed.
End Main.

(** ** Witnesses *)

(** Threads that run one after the other. *)
Lemma interleaves_sequential {A} (threads : list (list A)) : interleaves threads (concat threads).
Proof.
  enough (∀ don rest, Forall (λ l, l = []) don → interleaves (don ++ rest) (concat rest)) as Hgen
    by by apply (Hgen []).
  intros don rest. revert don. induction rest as [|l rest IH]; intros don Hdon.
  { rewrite app_nil_r. by constructor. }
  induction l as [|x l IHl]; [rewrite cons_middle, (assoc_L (++)); apply IH, Forall_app; by repeat constructor|].
  apply (interleaves_step _ (length don) x l); [by rewrite lookup_app_r, Nat.sub_diag|].
  by rewrite insert_app_r_alt, Nat.sub_diag.
Qed.

(** Four threads, and a measurement of the attention kernels alone. *)
Definition four_threads : option (Z * (nat → list Z)) :=
  Some (4, λ _, concat (parallel_steps kStream 4)).

Lemma roofline_main_reports_witness :
  finishes (roofline_main (B := HostSwapBackend) zero_pool (λ k, 10 * Z.of_nat k) id (λ _, 0) four_threads
    (mkEnvSnapshot "" 2000000 0 "") (mkEnvSnapshot "" 1900000 0 "") (λ _, true) ["--attention"]%string)
    (λ '(status, rows, env), status = 0 ∧ length rows = 19%nat ∧ env = Some (mkEnvRow 2000000 1900000 " ")).
Proof.
  eapply finishes_mono.
  - apply (roofline_main_reports zero_pool (λ k, 10 * Z.of_nat k) id (λ _, 0) four_threads _ _ _ _
      "results/week10-roofs.csv" true).
    + reflexivity.
    + reflexivity.
    + intros shape count Hpool. destruct Hpool; eexists _, _; (split; [reflexivity|]);
        rewrite length_replicate, Z2Nat.id; by vm_compute.
    + intros threads schedule Homp. injection Homp as <- <-. split; [done|split; [by vm_compute|]].
      intros _. apply interleaves_sequential.
  - intros [[status rows] env] (-> & Hrows & ->). split; [by vm_compute|split; [|by vm_compute]].
    apply (f_equal length) in Hrows. rewrite length_fmap in Hrows. rewrite Hrows. by vm_compute.
Defined.

(** Three tokens in a pool of two blocks, of which the first layer is written. *)
Definition small_shape : BlockShape := mkBlockShape 2 2 2 2 2 0.
Definition small_cache : KVCacheManager HostSwapBackend :=
  KVCacheManager_new (MemoryAllocator_new zero_pool (roof_config small_shape 2)).

Lemma fill_sequence_exact_witness :
  runs (fill_sequence (mkKVBlockLayout small_shape) 7 3 1 small_cache) (λ '(ok, m'),
    ok = true ∧ cached_vector (H2 := Element_u16 (λ _, 0)) m' 7 0 Value 2 1 = Some [3; 4]).
Proof.
  assert (config_ok (roof_config small_shape 2)) as Hok by (split; try (by vm_compute); by repeat split).
  destruct (new_vacant (B := HostSwapBackend) zero_pool (roof_config small_shape 2) 4096
    (replicate (Z.to_nat (pool_bytes_for (roof_config small_shape 2))) Byte.x00)) as [Hm Hc];
    [exact Hok|reflexivity|rewrite length_replicate, Z2Nat.id; by vm_compute|by vm_compute..|].
  eapply runs_mono.
  - apply (fill_sequence_exact small_shape 7 3 ltac:(done) ltac:(by vm_compute) (λ _, 0) ltac:(done)
      ltac:(by right) small_cache 1 Hm); by vm_compute.
  - intros [[] m'] Hrun.
    + destruct Hrun as [_ Hat]. split; [done|]. by rewrite Hat by by vm_compute.
    + change small_cache with (KVCacheManager_new (MemoryAllocator_new (B := HostSwapBackend) zero_pool
        (roof_config small_shape 2))) in Hrun. by rewrite Hc in Hrun.
Defined.
